(* ===== verification/_CoqProject ===== *)
-Q . S2P
Prelude.v
GoLib.v
Hash.v
Types.v
Samples.v
Url.v
Naming.v
KubeTypes.v
Kube.v
KubeSamples.v
Plan.v
Config.v
Pod.v
Secrets.v
StatefulSet.v
ObjectStorage.v
Migration.v
Deletion.v
Redis.v
Postgres.v
Digest.v
Channel.v
Webhook.v
Autoscaling.v
Workloads.v
Backends.v
Tenancy.v
Monitoring.v
Detector.v
Status.v
Reconcile.v
Access.v
Safety.v
Cleanup.v
Ownership.v
Confinement.v
Names.v
Hardening.v
Progress.v
Errors.v
Waits.v
Manager.v
Steady.v
Witnesses.v
PassWitnesses.v
