(* ===== verification/Prelude.v ===== *)
(** * Verification of the cloudnative-misskey operator

    The repository is a Kubernetes operator written in Go.  One controller reconciles
    [Misskey] objects (src/internal/controller/misskey_controller.go): it reads the spec,
    derives a connection plan, creates or updates the objects of every subsystem and writes a
    status.  A second, small controller stages image roll-outs ([MisskeyChannel]).  Admission
    webhooks (src/internal/webhook) default and validate the objects before they get there.
    This library models these three programs as they are written and proves what their
    authors rely on.

    ** How the code is modelled

    Pure Go functions are Rocq functions under their Go names.  Everything that talks to the
    outside (API server, clock, random source, registry, digest cache, events) is a [prog] of
    [Kube]: a tree of requests with one branch per answer.  [runs p h a] says that [p] can
    return [a] with the history [h] of requests and answers.  A theorem about [runs] holds for
    every answer the outside may give, errors and stale or foreign objects included; nothing is
    assumed about the API server.  An error is a value ([result error A]); [try], [do] and
    [let!] are the early returns of Go.  [wp], [emits], [keeps] and [onlyAfter] are the proof
    rules: postconditions, footprints, history invariants and "only after" orderings.
    Integers are [Z], with [wrap32]/[wrap64] where the source computes with a fixed width;
    strings are bytes; maps are [gmap]; a map that Go iterates in random order is modelled
    where the result does not depend on the order, or sorted as the source sorts it.

    ** Files

    - [Prelude], [GoLib], [Hash], [Url]: shared lemmas; the parts of Go's standard library
      the source calls ([strings], [strconv], [json.Marshal] of strings, UTF-8, SHA-256, FNV-1a,
      [net/url]).
    - [Types], [KubeTypes]: the custom resources (api/v1beta1) and the Kubernetes objects.
    - [Kube]: requests, programs, proof rules; [apply], [applySSA], [deleteIfExists], [event],
      [retry.RetryOnConflict].  Client libraries are the class [KubeLib] of operations,
      [OwnerLaws] and, for the finalizers, [FinalizerLaws]
      the laws used of them.
    - [Naming] (common.go, runtime.go), [Plan] (plan.go), [Config] (config.go), [Pod]
      (misskey_pod.go), [Secrets] (generated Secrets, ConfigMaps, Secret versions).
    - [StatefulSet], [ObjectStorage], [Migration], [Deletion], [Redis] (redis.go, redisha.go),
      [Postgres] (postgres.go, backupverify.go), [Autoscaling], [Workloads], [Backends]
      (meilisearch.go, proxy.go, ingress.go), [Tenancy], [Monitoring], [Detector]
      (sensitive_detector.go): one handler each, the whole handler.
    - [Digest] (imagedigest.go), [Channel] (channel.go, misskeychannel_controller.go),
      [Webhook].
    - [Status] and [Reconcile] (misskey_controller.go) compose the handlers; [Access] holds
      the RBAC markers and the footprint of every handler; [Safety] what a whole pass
      guarantees, and [Cleanup] when it takes the remains of a detector apart.  [Ownership] is the table of the names of an instance, [Names] says which
      instance names keep them within the limits of the API server; [Confinement] and
      [Hardening] walk over all handlers twice more: where requests go, whose objects they
      touch and what justifies them, and what runs in the pods they write.  [Progress] walks
      over the runs whose answers are good ones ([settled], [converged]) and shows what such a
      pass achieves; [AdoptLaws] says when [SetControllerReference] accepts an object.
    - [Errors] walks over all runs: a pass stops at the first write that is refused, and a
      success means that every write was carried out;
      [Waits] adds up how long a pass can wait and how often it tries again.
    - [Manager]: flags and wiring of cmd/main.go, and the watches ([SetupWithManager]), with
      the walk that shows what a pass writes is controlled by the instance and watched.
    - [Steady]: every mutation of a pass is a fixed point, so that a pass over its own results
      ([echoes]) makes the same changes; [RefLaws] says that [SetControllerReference] touches owners only and is idempotent.
    - [Samples], [KubeSamples], [Witnesses], [PassWitnesses]: concrete instances, a sample API
      server, and runs on which the hypotheses of the properties hold.

    ** What is proved

    - Data is kept: retention before the finalizer, the list of retained objects covers all a
      pass creates, volumes only grow, redis instances that are wanted are not deleted,
      generated Secrets keep their values and only generated ones are deleted; a pass deletes
      nothing else that holds data.
    - Order of a roll-out: workloads only after database, backup, migration, settings Jobs and
      redis; migrations only after the backup, and a migration Job replaced only on stated
      evidence; suspension starts nothing but the proxy and the backends it keeps; clean-up of
      the detector only after its settings are stored and run everywhere.
    - The pass as a whole: Ready is only claimed when everything was seen ready, the RBAC
      markers suffice for every request but the events of a recorder that writes to
      [events.k8s.io], every successful pass comes back; no failed write is
      lost, and a pass over its own results writes the same again; a reconcile stays in
      the namespace of its instance, touches only objects named after it, and writes the
      instance back only as it was read; two instances of a namespace share no object but in
      the two clashes of names that [Ownership.sharing] lists.  An instance name of up to 26
      characters gives names the API server takes.
    - Configuration: quoting round trip, no injection into default.yml, no value in the SQL
      scripts and no column name that is not an identifier,
      plan invariants, poolers agree with the plan.
    - What runs: every pod is restricted, those that other operators start as far as their
      resource decides it, and no image gets around the allow list of the
      webhooks, neither through channels nor through digest pinning.
    - Isolation: network policies decide exactly the intended pods and addresses; ingress
      annotations; image allow lists; digests shared only between equal credentials.
    - Images: staged roll-outs start, move forward and complete; the digest cache is bounded and
      sound under every interleaving of callers, modelled as a step relation on [resolver].

    ** Bounds

    [waitGone] has the fuel [pollTicks] = 25, the number of 200 ms ticks in its 5 s limit; that
    it ends is a theorem of [StatefulSet], and [Waits] bounds the waiting of a whole pass.
    [retryOnConflict] has the fuel [retrySteps], the number of attempts of
    [retry.DefaultRetry].  All other recursion is structural.

    ** Not modelled

    The manager behind cmd/main.go (flag parsing, TLS, health checks, signals) is
    controller-runtime; what its watches enqueue is the class [WatchLib].  Scheme registration
    and generated deep copies hold no logic of their own.
    [registryHead] beyond the parsing of its argument, and the YAML parser behind the warnings
    about [extraConfig], are library code and appear as requests or class operations.
    Logging is left out.  The API server, the Kubernetes controllers behind the objects and
    the third-party operators are the environment. *)
From stdpp Require Export base tactics option list gmap strings.
From Stdlib Require Export ZArith Lia Ascii.
#[global] Open Scope string_scope.
#[global] Open Scope nat_scope.

(** ** Notations *)
Declare Scope go_scope.
Delimit Scope go_scope with go.

(** Go's [(T, error)] results. *)
Inductive result (E A : Type) : Type :=
  | Ok (a : A)
  | Err (e : E).
Arguments Ok {E A} a.
Arguments Err {E A} e.

Definition result_bind {E A B} (m : result E A) (f : A -> result E B) : result E B :=
  match m with
  | Ok a => f a
  | Err e => Err e
  end.

Notation "'let?' x ':=' m 'in' k" := (result_bind m (fun x => k))
  (at level 10, x name, m at level 100, k at level 200) : go_scope.
Open Scope go_scope.

(** ** Tactics shared by the components *)

(** Case analysis on the innermost [match]/[if] of the goal, with the equation kept. *)
Ltac case_goal :=
  match goal with
  | |- context [match ?x with _ => _ end] =>
      lazymatch x with
      | context [match _ with _ => _ end] => fail
      | _ => let E := fresh "E" in destruct x eqn:E
      end
  end.

(** The same in a hypothesis. *)
Ltac case_hyp H :=
  match type of H with
  | context [match ?x with _ => _ end] =>
      lazymatch x with
      | context [match _ with _ => _ end] => fail
      | _ => let E := fresh "E" in destruct x eqn:E
      end
  end.

(** Boolean hypotheses to propositions. *)
Ltac bool_prop :=
  repeat match goal with
  | H : (_ && _)%bool = true |- _ => apply andb_true_iff in H as [? ?]
  | H : (_ && _)%bool = false |- _ => apply andb_false_iff in H
  | H : (_ || _)%bool = true |- _ => apply orb_true_iff in H
  | H : (_ || _)%bool = false |- _ => apply orb_false_iff in H as [? ?]
  | H : negb _ = true |- _ => apply negb_true_iff in H
  | H : negb _ = false |- _ => apply negb_false_iff in H
  | H : String.eqb _ _ = true |- _ => apply String.eqb_eq in H
  | H : String.eqb _ _ = false |- _ => apply String.eqb_neq in H
  | H : Z.eqb _ _ = true |- _ => apply Z.eqb_eq in H
  | H : Z.eqb _ _ = false |- _ => apply Z.eqb_neq in H
  | H : Z.leb _ _ = true |- _ => apply Z.leb_le in H
  | H : Z.leb _ _ = false |- _ => apply Z.leb_gt in H
  | H : Z.ltb _ _ = true |- _ => apply Z.ltb_lt in H
  | H : Z.ltb _ _ = false |- _ => apply Z.ltb_ge in H
  | H : Z.geb _ _ = true |- _ => rewrite Z.geb_leb in H
  | H : Z.geb _ _ = false |- _ => rewrite Z.geb_leb in H
  | H : Z.gtb _ _ = true |- _ => rewrite Z.gtb_ltb in H
  | H : Z.gtb _ _ = false |- _ => rewrite Z.gtb_ltb in H
  end.

(** ** Generic lemmas on strings *)

#[global] Arguments String.append : simpl nomatch.

Lemma sapp_nil_r (s : string) : s +:+ "" = s.
Proof. induction s as [|c s IH]; simpl; [done|]. by rewrite IH. Qed.

Lemma sapp_assoc (a b c : string) : (a +:+ b) +:+ c = a +:+ (b +:+ c).
Proof. induction a as [|x a IH]; simpl; [done|]. by rewrite IH. Qed.

Lemma slen_app (a b : string) : String.length (a +:+ b) = String.length a + String.length b.
Proof. induction a as [|x a IH]; simpl; lia. Qed.

Lemma sapp_inj_l (a b c : string) : a +:+ b = a +:+ c → b = c.
Proof. induction a as [|x a IH]; simpl; [done|]. intros [= H]. auto. Qed.

Lemma sapp_inj_len (a b c d : string) :
  String.length a = String.length c → a +:+ b = c +:+ d → a = c ∧ b = d.
Proof.
  revert c. induction a as [|x a IH]; intros [|y c]; simpl; try done.
  intros [= Hl] [= -> H]. apply IH in H as [-> ->]; auto.
Qed.

Lemma sapp_inj_r (a b c : string) : a +:+ c = b +:+ c → a = b.
Proof.
  intros H. assert (String.length a = String.length b) as Hl.
  { apply (f_equal String.length) in H. rewrite !slen_app in H. lia. }
  by apply sapp_inj_len in H as [-> _].
Qed.

Lemma sapp_eq_nil (a b : string) : a +:+ b = "" → a = "" ∧ b = "".
Proof. destruct a; [done|discriminate]. Qed.

(** Two ways to cut a string: one front part continues the other. *)
Lemma sapp_split (a b s t : string) :
  a +:+ s = b +:+ t → ∃ u, (a = b +:+ u ∧ t = u +:+ s) ∨ (b = a +:+ u ∧ s = u +:+ t).
Proof.
  revert b. induction a as [|x a IH]; intros b; simpl; [by exists b; right|].
  destruct b as [|y b]; simpl.
  - intros <-. exists (String x a). by left.
  - intros [= <- H]. apply IH in H as (u & [[-> ->]|[-> ->]]); exists u; auto.
Qed.
Lemma sapp_inj_len_r (a b c d : string) :
  String.length b = String.length d → a +:+ b = c +:+ d → a = c ∧ b = d.
Proof.
  intros Hl H. apply sapp_inj_len; [|done]. apply (f_equal String.length) in H.
  rewrite !slen_app in H. lia.
Qed.

(** All characters of a string satisfy a boolean predicate. *)
Fixpoint str_forall (f : ascii → bool) (s : string) : bool :=
  match s with
  | EmptyString => true
  | String c s => f c && str_forall f s
  end.

Lemma str_forall_app f (a b : string) :
  str_forall f (a +:+ b) = str_forall f a && str_forall f b.
Proof. induction a as [|c a IH]; simpl; [done|]. by rewrite IH, andb_assoc. Qed.

Lemma str_forall_impl (f g : ascii → bool) (s : string) :
  (∀ c, f c = true → g c = true) → str_forall f s = true → str_forall g s = true.
Proof.
  intros Hfg. induction s as [|c s IH]; simpl; [done|].
  rewrite !andb_true_iff. intros [? ?]; auto.
Qed.

(** Cutting at the first occurrence of a byte that the left parts do not hold. *)
Lemma sapp_sep_inj (x : ascii) (a b c d : string) :
  str_forall (fun y => negb (Ascii.eqb y x)) a = true →
  str_forall (fun y => negb (Ascii.eqb y x)) c = true →
  a +:+ String x b = c +:+ String x d → a = c ∧ b = d.
Proof.
  revert c. induction a as [|y a IH]; intros [|z c]; simpl; rewrite ?andb_true_iff.
  - intros _ _ [= ->]. done.
  - intros _ [Hz _] [= -> _]. by rewrite Ascii.eqb_refl in Hz.
  - intros [Hy _] _ [= -> _]. by rewrite Ascii.eqb_refl in Hy.
  - intros [_ Ha] [_ Hc] [= -> H]. apply IH in H as [-> ->]; auto.
Qed.

(** Cutting at the last occurrence of a byte that the right parts do not hold. *)
Lemma sapp_last_inj (x : ascii) (a b c d : string) :
  str_forall (fun y => negb (Ascii.eqb y x)) b = true →
  str_forall (fun y => negb (Ascii.eqb y x)) d = true →
  a +:+ String x b = c +:+ String x d → a = c.
Proof.
  intros Hb Hd H. apply sapp_split in H as (u & [[-> H]|[-> H]]); destruct u as [|y u];
    try by rewrite sapp_nil_r.
  - injection H as <- ->. rewrite str_forall_app in Hd. cbn in Hd.
    by rewrite Ascii.eqb_refl, andb_false_r in Hd.
  - injection H as <- ->. rewrite str_forall_app in Hb. cbn in Hb.
    by rewrite Ascii.eqb_refl, andb_false_r in Hb.
Qed.

Create HintDb gostr.
Create Rewrite HintDb gostr.
#[export] Hint Rewrite sapp_nil_r sapp_assoc slen_app str_forall_app : gostr.
#[export] Hint Resolve sapp_inj_l sapp_inj_r : gostr.

(** ** Generic lemmas on lists and options *)

(** [from_option id]: dereference of a pointer with a default. *)
Definition deref {A} (d : A) (o : option A) : A := match o with Some a => a | None => d end.

Lemma Forall_concat_map {A B} (P : B → Prop) (f : A → list B) l :
  Forall (fun a => Forall P (f a)) l → Forall P (concat (map f l)).
Proof. induction 1; simpl; [constructor|]. by apply Forall_app. Qed.

Lemma existsb_false_In {A} (f : A → bool) l :
  existsb f l = false ↔ ∀ a, In a l → f a = false.
Proof.
  induction l as [|x l IH]; simpl; [split; naive_solver|].
  rewrite orb_false_iff, IH.
  split; [intros [? Hl] a [->|?]; auto | auto].
Qed.
