(* ===== verification/GoLib.v ===== *)
(** * The parts of Go's standard library the operator uses

    [strings], [strconv], [encoding/hex], [encoding/json] (string scalars), [time] and the
    machine integers.  A Go string is a byte sequence: [string], one [ascii] per byte. *)
From S2P Require Export Prelude.

(** ** Machine integers *)

(** Wrap-around of a two's complement [w]-bit integer. *)
Definition wrap_signed (w z : Z) : Z :=
  ((z + 2 ^ (w - 1)) mod 2 ^ w - 2 ^ (w - 1))%Z.
Definition wrap32 : Z → Z := wrap_signed 32.
Definition wrap64 : Z → Z := wrap_signed 64.
Definition int32_range (z : Z) : Prop := (- 2 ^ 31 <= z < 2 ^ 31)%Z.
Definition int64_range (z : Z) : Prop := (- 2 ^ 63 <= z < 2 ^ 63)%Z.

Lemma wrap32_id z : int32_range z → wrap32 z = z.
Proof. unfold int32_range, wrap32, wrap_signed. intros. rewrite Z.mod_small; lia. Qed.

Lemma wrap64_id z : int64_range z → wrap64 z = z.
Proof. unfold int64_range, wrap64, wrap_signed. intros. rewrite Z.mod_small; lia. Qed.

Lemma wrap64_range z : int64_range (wrap64 z).
Proof.
  unfold int64_range, wrap64, wrap_signed.
  pose proof (Z.mod_pos_bound (z + 2 ^ (64 - 1)) (2 ^ 64)). lia.
Qed.

(** ** Package strings *)

Definition hasPrefix (s p : string) : bool := String.prefix p s.

Fixpoint str_drop (n : nat) (s : string) : string :=
  match n, s with
  | O, _ => s
  | S n, EmptyString => EmptyString
  | S n, String _ s => str_drop n s
  end.

Fixpoint str_take (n : nat) (s : string) : string :=
  match n, s with
  | O, _ => EmptyString
  | S n, EmptyString => EmptyString
  | S n, String c s => String c (str_take n s)
  end.

Definition hasSuffix (s suf : string) : bool :=
  (String.length suf <=? String.length s)%nat
  && String.eqb (str_drop (String.length s - String.length suf) s) suf.

Definition trimPrefix (s p : string) : string :=
  if hasPrefix s p then str_drop (String.length p) s else s.

Fixpoint contains (s sub : string) : bool :=
  String.prefix sub s || match s with EmptyString => false | String _ s' => contains s' sub end.

(** [strings.IndexAny] for ASCII character sets; [None] is Go's -1. *)
Fixpoint indexAny (s chars : string) : option nat :=
  match s with
  | EmptyString => None
  | String c s' =>
      if existsb (Ascii.eqb c) (String.list_ascii_of_string chars) then Some 0
      else S <$> indexAny s' chars
  end.

(** [strings.LastIndex] for a one-byte separator; [None] is Go's -1. *)
Fixpoint lastIndex (s : string) (sep : ascii) : option nat :=
  match s with
  | EmptyString => None
  | String c s' =>
      match lastIndex s' sep with
      | Some n => Some (S n)
      | None => if Ascii.eqb c sep then Some 0 else None
      end
  end.

Fixpoint trim_left (f : ascii → bool) (s : string) : string :=
  match s with
  | EmptyString => EmptyString
  | String c s' => if f c then trim_left f s' else s
  end.

Fixpoint trim_right (f : ascii → bool) (s : string) : string :=
  match s with
  | EmptyString => EmptyString
  | String c s' =>
      let t := trim_right f s' in
      if String.eqb t "" && f c then EmptyString else String c t
  end.

Definition trim (f : ascii → bool) (s : string) : string := trim_right f (trim_left f s).

(** The white space of [unicode.IsSpace] in UTF-8: tab to carriage return, space, U+0085, U+00A0,
    U+1680, U+2000 to U+200A, U+2028, U+2029, U+202F, U+205F and U+3000. *)
Definition bytesString (l : list nat) : string :=
  String.string_of_list_ascii (map Ascii.ascii_of_nat l).
Definition spaces : list string := map bytesString (
  [[9]; [10]; [11]; [12]; [13]; [32]; [194; 133]; [194; 160]; [225; 154; 128]] ++
  map (fun n => [226; 128; n]) (seq 128 11 ++ [168; 169; 175]) ++
  [[226; 129; 159]; [227; 128; 128]]).
(** [strings.TrimSpace]; every step removes one space, so the length is enough fuel. *)
Fixpoint trimSpacesLeft (fuel : nat) (s : string) : string :=
  match fuel, List.find (hasPrefix s) spaces with
  | S n, Some sp => trimSpacesLeft n (str_drop (String.length sp) s)
  | _, _ => s
  end.
Fixpoint trimSpacesRight (fuel : nat) (s : string) : string :=
  match fuel, List.find (hasSuffix s) spaces with
  | S n, Some sp => trimSpacesRight n (str_take (String.length s - String.length sp) s)
  | _, _ => s
  end.
Definition trimSpace (s : string) : string :=
  let t := trimSpacesLeft (String.length s) s in trimSpacesRight (String.length t) t.

Definition ascii_lower (c : ascii) : ascii :=
  let n := Ascii.nat_of_ascii c in
  if (65 <=? n) && (n <=? 90) then Ascii.ascii_of_nat (n + 32) else c.
(** [strings.ToLower] on ASCII strings. *)
Fixpoint toLower (s : string) : string :=
  match s with
  | EmptyString => EmptyString
  | String c s => String (ascii_lower c) (toLower s)
  end.

Fixpoint join (l : list string) (sep : string) : string :=
  match l with
  | [] => ""
  | [x] => x
  | x :: l => x +:+ sep +:+ join l sep
  end.

(** [strings.Split] for a one-byte separator. *)
Fixpoint split (s : string) (sep : ascii) : list string :=
  match s with
  | EmptyString => [""]
  | String c s' =>
      if Ascii.eqb c sep then "" :: split s' sep
      else match split s' sep with
           | [] => [String c ""]
           | x :: l => String c x :: l
           end
  end.

(** [sort.Strings]: insertion into byte-wise lexicographic order. *)
Fixpoint sort_insert (x : string) (l : list string) : list string :=
  match l with
  | [] => [x]
  | y :: l' => if String.leb x y then x :: l else y :: sort_insert x l'
  end.
Definition sortStrings (l : list string) : list string := foldr sort_insert [] l.

(** ** Package strconv and fmt *)

(** Decimal digits of a natural number; [fuel] bounds their number. *)
Fixpoint digits (fuel : nat) (n : N) (acc : string) : string :=
  match fuel with
  | O => acc
  | S f =>
      let acc := String (Ascii.ascii_of_N (48 + n mod 10)) acc in
      if (n <? 10)%N then acc else digits f (n / 10) acc
  end.
(** [strconv.Itoa] and [%d] of a 64-bit integer (at most 19 digits). *)
Definition itoa (z : Z) : string :=
  if (z <? 0)%Z then "-" +:+ digits 20 (Z.to_N (- z)) "" else digits 20 (Z.to_N z) "".

Definition formatBool (b : bool) : string := if b then "true" else "false".

Definition hexdigit (n : N) : ascii :=
  if (n <? 10)%N then Ascii.ascii_of_N (48 + n) else Ascii.ascii_of_N (87 + n).
(** [encoding/hex.EncodeToString]. *)
Fixpoint hexEncode (l : list N) : string :=
  match l with
  | [] => ""
  | b :: l => String (hexdigit (b / 16)) (String (hexdigit (b mod 16)) (hexEncode l))
  end.

(** The double quote character. *)
Definition dquote : ascii := "034"%char.

(** [strconv.Quote] ([%q]) of a string of ASCII bytes; bytes from 128 on are printed as
    they are, which is what Go does for printable UTF-8. *)
Definition quote_char (c : ascii) : string :=
  let n := Ascii.N_of_ascii c in
  if Ascii.eqb c dquote then String "\" (String dquote "") else
  if Ascii.eqb c "\"%char then "\\" else
  if (n =? 7)%N then "\a" else if (n =? 8)%N then "\b" else
  if (n =? 9)%N then "\t" else if (n =? 10)%N then "\n" else
  if (n =? 11)%N then "\v" else if (n =? 12)%N then "\f" else
  if (n =? 13)%N then "\r" else
  if (n <? 32)%N || (n =? 127)%N
  then "\x" +:+ String (hexdigit (n / 16)) (String (hexdigit (n mod 16)) "")
  else String c "".
Fixpoint quote_body (s : string) : string :=
  match s with
  | EmptyString => ""
  | String c s => quote_char c +:+ quote_body s
  end.
Definition goQuote (s : string) : string :=
  String dquote (quote_body s +:+ String dquote "").

(** ** Facts about the string functions *)

Lemma prefix_app (p s : string) : String.prefix p (p +:+ s) = true.
Proof.
  induction p as [|c p IH]; simpl; [by destruct s|].
  destruct (ascii_dec c c); [done|congruence].
Qed.

Lemma prefix_spec (p s : string) : String.prefix p s = true ↔ ∃ t, s = p +:+ t.
Proof.
  split; [|intros [t ->]; apply prefix_app].
  revert s. induction p as [|c p IH]; intros s; simpl.
  - intros _. by exists s.
  - destruct s as [|d s]; simpl; [done|]. destruct (ascii_dec c d) as [->|]; [|done].
    intros [t ->]%IH. by exists t.
Qed.

Lemma contains_unfold (s sub : string) :
  contains s sub =
    String.prefix sub s || match s with EmptyString => false | String _ s' => contains s' sub end.
Proof. by destruct s. Qed.

Lemma contains_spec (s sub : string) :
  contains s sub = true ↔ ∃ a b, s = a +:+ sub +:+ b.
Proof.
  split.
  - induction s as [|c s IH]; rewrite contains_unfold, orb_true_iff, prefix_spec.
    + intros [[t ->]|]; [by exists "", t|done].
    + intros [[t ->]|(a & b & ->)%IH]; [by exists "", t|]. by exists (String c a), b.
  - intros (a & b & ->). induction a as [|c a IH]; rewrite contains_unfold.
    + change ("" +:+ sub +:+ b) with (sub +:+ b). by rewrite prefix_app.
    + simpl. rewrite IH. by rewrite orb_true_r.
Qed.

Lemma str_drop_app (a b : string) : str_drop (String.length a) (a +:+ b) = b.
Proof. induction a; simpl; auto. Qed.

Lemma str_take_drop n (s : string) : str_take n s +:+ str_drop n s = s.
Proof.
  revert s. induction n as [|n IH]; intros s; [done|].
  destruct s as [|c s]; simpl; [done|]. by rewrite IH.
Qed.

Lemma str_take_length n (s : string) :
  n <= String.length s → String.length (str_take n s) = n.
Proof.
  revert s. induction n as [|n IH]; intros [|c s]; simpl; try lia.
  intros. rewrite IH; lia.
Qed.

Lemma hasSuffix_spec (s suf : string) :
  hasSuffix s suf = true ↔ ∃ t, s = t +:+ suf.
Proof.
  unfold hasSuffix. rewrite andb_true_iff, Nat.leb_le, String.eqb_eq. split.
  - intros [? Hd]. exists (str_take (String.length s - String.length suf) s).
    rewrite <- Hd at 2. by rewrite str_take_drop.
  - intros [t ->]. rewrite slen_app. split; [lia|].
    replace (_ - _) with (String.length t) by lia. apply str_drop_app.
Qed.

Lemma trimPrefix_app (p s : string) : trimPrefix (p +:+ s) p = s.
Proof. unfold trimPrefix, hasPrefix. by rewrite prefix_app, str_drop_app. Qed.

(** Insertion sort only permutes, so it neither loses nor invents elements. *)
Lemma sort_insert_perm x l : sort_insert x l ≡ₚ x :: l.
Proof.
  induction l as [|y l IH]; simpl; [done|]. destruct (String.leb x y); [done|].
  rewrite IH. apply Permutation_swap.
Qed.

Lemma sortStrings_perm l : sortStrings l ≡ₚ l.
Proof. induction l as [|x l IH]; simpl; [done|]. by rewrite sort_insert_perm, IH. Qed.

(** The byte-wise order is total, so sorting is canonical: the result does not depend on the
    order in which a Go map was walked. *)
Lemma leb_trans a b c :
  String.leb a b = true → String.leb b c = true → String.leb a c = true.
Proof.
  unfold String.leb. revert b c. induction a as [|x a IH]; intros [|y b] [|z c]; simpl; try done.
  unfold Ascii.compare. intros H1 H2.
  destruct (N.compare_spec (N_of_ascii x) (N_of_ascii y)) as [E1|E1|E1]; [..|done];
  destruct (N.compare_spec (N_of_ascii y) (N_of_ascii z)) as [E2|E2|E2]; try done;
  destruct (N.compare_spec (N_of_ascii x) (N_of_ascii z)) as [E3|E3|E3]; try done; try lia.
  by apply (IH b).
Qed.

Lemma sort_insert_swap x y l :
  sort_insert x (sort_insert y l) = sort_insert y (sort_insert x l).
Proof.
  assert (∀ a b, String.leb a b = false → String.leb b a = true) as Htot.
  { intros a b H. destruct (String.leb_total a b); congruence. }
  assert (∀ x y l, String.leb x y = true →
    sort_insert x (sort_insert y l) = sort_insert y (sort_insert x l)) as Hle.
  { clear x y l. intros x y l Hxy. induction l as [|z l IH]; simpl.
    - rewrite Hxy. destruct (String.leb y x) eqn:E; [|done].
      by pose proof (String.leb_antisym x y Hxy E); subst.
    - destruct (String.leb y z) eqn:Eyz; simpl.
      + rewrite Hxy, (leb_trans x y z) by done. simpl.
        destruct (String.leb y x) eqn:E; [by pose proof (String.leb_antisym x y Hxy E); subst|].
        by rewrite Eyz.
      + destruct (String.leb x z) eqn:Exz; simpl.
        * destruct (String.leb y x) eqn:E;
            [pose proof (String.leb_antisym x y Hxy E); subst; congruence|].
          by rewrite Eyz.
        * by rewrite Eyz, IH. }
  destruct (String.leb x y) eqn:E; [by apply Hle|]. symmetry. by apply Hle, Htot.
Qed.

Lemma sortStrings_canonical l k : l ≡ₚ k → sortStrings l = sortStrings k.
Proof.
  induction 1 as [|x l k _ IH|x y l|l k j _ IH1 _ IH2]; simpl; [done|by rewrite IH|..].
  - apply sort_insert_swap.
  - congruence.
Qed.

(** [strings.Trim] only removes characters of the cut set at both ends. *)
Lemma trim_right_suffix f (s : string) :
  ∃ t, s = trim_right f s +:+ t ∧ str_forall f t = true.
Proof.
  induction s as [|c s (t & Ht & Hf)]; simpl; [by exists ""|].
  destruct (String.eqb (trim_right f s) "") eqn:E; simpl.
  - apply String.eqb_eq in E. rewrite E in Ht. simpl in Ht. subst.
    destruct (f c) eqn:Fc.
    + exists (String c t). simpl. by rewrite Fc, Hf.
    + rewrite E. by exists t.
  - exists t. simpl. by rewrite <- Ht.
Qed.

(** The fuel of [trimSpace] is enough: no space is left at either end. *)
Lemma spaces_nonempty : Forall (fun sp => 0 < String.length sp) spaces.
Proof. apply (bool_decide_unpack _). vm_compute. exact I. Qed.
Lemma trimSpacesLeft_done n s :
  String.length s <= n → List.find (hasPrefix (trimSpacesLeft n s)) spaces = None.
Proof.
  pose proof spaces_nonempty as Hne. rewrite Forall_forall in Hne.
  revert s. induction n as [|n IH]; intros s Hl; cbn [trimSpacesLeft];
    destruct (List.find (hasPrefix s) spaces) as [sp|] eqn:E; try done;
    apply List.find_some in E as [Hin%list_elem_of_In [t ->]%prefix_spec];
    specialize (Hne _ Hin); rewrite slen_app in Hl; [lia|].
  rewrite str_drop_app. apply IH. lia.
Qed.
Lemma trimSpacesRight_done n s :
  String.length s <= n → List.find (hasSuffix (trimSpacesRight n s)) spaces = None.
Proof.
  pose proof spaces_nonempty as Hne. rewrite Forall_forall in Hne.
  revert s. induction n as [|n IH]; intros s Hl; cbn [trimSpacesRight];
    destruct (List.find (hasSuffix s) spaces) as [sp|] eqn:E; try done;
    apply List.find_some in E as [Hin%list_elem_of_In [t ->]%hasSuffix_spec];
    specialize (Hne _ Hin); rewrite slen_app in Hl; [lia|].
  apply IH. rewrite str_take_length; rewrite slen_app; lia.
Qed.

Lemma str_forall_trim f g (s : string) :
  str_forall g s = true → str_forall g (trim f s) = true.
Proof.
  intros H. unfold trim.
  assert (str_forall g (trim_left f s) = true) as H2.
  { induction s as [|c s IH]; simpl in *; [done|]. bool_prop.
    destruct (f c); [by apply IH|]. simpl. by rewrite H, H0. }
  destruct (trim_right_suffix f (trim_left f s)) as (t & Ht & _).
  rewrite Ht, str_forall_app in H2. by bool_prop.
Qed.

(** ** [strconv.Itoa] is injective on 64-bit integers *)

(** The number a string of digits denotes, most significant first. *)
Fixpoint undigits (acc : N) (s : string) : N :=
  match s with
  | EmptyString => acc
  | String c s => undigits (acc * 10 + (Ascii.N_of_ascii c - 48)) s
  end.

Lemma digit_value n : (n < 10)%N → (Ascii.N_of_ascii (Ascii.ascii_of_N (48 + n)) - 48)%N = n.
Proof. intros. rewrite Ascii.N_ascii_embedding by lia. lia. Qed.

Lemma undigits_digits fuel n acc k :
  (n < 10 ^ N.of_nat fuel)%N → (0 < fuel)%nat →
  undigits k (digits fuel n acc) =
    undigits (k * 10 ^ N.of_nat (String.length (digits fuel n acc) - String.length acc) + n) acc
  ∧ String.length acc <= String.length (digits fuel n acc).
Proof.
  revert n acc k. induction fuel as [|f IH]; intros n acc k Hn Hf; [lia|].
  assert (n mod 10 < 10)%N as Hm by (apply N.mod_lt; lia).
  cbn [digits]. destruct (N.ltb_spec n 10).
  - cbn [undigits String.length]. rewrite digit_value by done.
    replace (S (String.length acc) - String.length acc)%nat with 1 by lia.
    rewrite N.mod_small by done. change (10 ^ N.of_nat 1)%N with 10%N. split; [done|lia].
  - destruct f as [|f].
    { change (10 ^ N.of_nat 1)%N with 10%N in Hn. lia. }
    assert (n / 10 < 10 ^ N.of_nat (S f))%N as Hd.
    { apply N.Div0.div_lt_upper_bound. rewrite <- N.pow_succ_r', <- Nat2N.inj_succ. done. }
    destruct (IH (n / 10)%N (String (ascii_of_N (48 + n mod 10)) acc) k Hd) as [-> Hle]; [lia|].
    cbn [undigits String.length] in *. rewrite digit_value by done. split; [|lia].
    f_equal. set (L := String.length (digits _ _ _)) in *.
    replace (L - String.length acc)%nat with (S (L - S (String.length acc))) by lia.
    rewrite Nat2N.inj_succ, N.pow_succ_r'. rewrite (N.div_mod n 10) at 3 by lia. lia.
Qed.

Lemma digits_inj n m :
  (n < 10 ^ 20)%N → (m < 10 ^ 20)%N → digits 20 n "" = digits 20 m "" → n = m.
Proof.
  intros Hn Hm H.
  destruct (undigits_digits 20 n "" 0 Hn) as [E1 _]; [lia|].
  destruct (undigits_digits 20 m "" 0 Hm) as [E2 _]; [lia|].
  rewrite H, E2 in E1. cbn [undigits] in E1. lia.
Qed.

(** All bytes of [strconv.Itoa] are digits, after an optional minus sign. *)
Definition is_digit (c : ascii) : bool :=
  let n := Ascii.N_of_ascii c in (48 <=? n)%N && (n <=? 57)%N.

Lemma digits_all fuel n acc :
  str_forall is_digit acc = true → str_forall is_digit (digits fuel n acc) = true.
Proof.
  revert n acc. induction fuel as [|f IH]; intros n acc H; [done|]. cbn [digits].
  assert (n mod 10 < 10)%N by (apply N.mod_lt; lia).
  assert (is_digit (ascii_of_N (48 + n mod 10)) = true) as Hd.
  { revert H0. generalize (n mod 10)%N as d. intros d Hd. unfold is_digit. cbv zeta.
    rewrite N_ascii_embedding by lia.
    apply andb_true_iff. split; apply N.leb_le; lia. }
  destruct (n <? 10)%N; [|apply IH]; cbn [str_forall]; by rewrite Hd, H.
Qed.

Lemma digits_longer fuel n acc :
  String.length acc <= String.length (digits fuel n acc).
Proof.
  revert n acc. induction fuel as [|f IH]; intros n acc; [done|]. cbn [digits].
  destruct (n <? 10)%N; [simpl; lia|]. etrans; [|apply IH]. simpl. lia.
Qed.

Lemma digits_S_longer fuel n acc :
  String.length acc < String.length (digits (S fuel) n acc).
Proof.
  cbn [digits]. destruct (n <? 10)%N; [simpl; lia|].
  eapply Nat.lt_le_trans; [|apply digits_longer]. simpl. lia.
Qed.

(** The digits of a number are a non-empty string of digits. *)
Lemma digits_head n : ∃ c s, digits 20 n "" = String c s ∧ is_digit c = true.
Proof.
  pose proof (digits_all 20 n "" eq_refl) as H.
  destruct (digits 20 n "") as [|c s] eqn:E; [|simpl in H; bool_prop; eauto].
  pose proof (digits_S_longer 19 n "") as Hl. rewrite E in Hl. simpl in Hl. lia.
Qed.

Lemma itoa_inj a b : int64_range a → int64_range b → itoa a = itoa b → a = b.
Proof.
  unfold int64_range, itoa. intros Ha Hb.
  destruct (Z.ltb_spec a 0), (Z.ltb_spec b 0); intros H'.
  - apply (sapp_inj_l "-"), digits_inj in H'; lia.
  - destruct (digits_head (Z.to_N b)) as (c & s & E & D).
    rewrite E in H'. revert H'. generalize (digits 20 (Z.to_N (- a)) ""). intros t [= <- _]. done.
  - destruct (digits_head (Z.to_N a)) as (c & s & E & D).
    rewrite E in H'. revert H'. generalize (digits 20 (Z.to_N (- b)) ""). intros t [= -> _]. done.
  - apply digits_inj in H'; lia.
Qed.

(** ** UTF-8 *)

(** The runes of a string as Go's [range] and [utf8.DecodeRune] see them: an ASCII byte, a
    valid multi-byte sequence, or one invalid byte (the rune U+FFFD, one byte consumed). *)
Inductive chunk :=
  | RAscii (c : ascii)
  | RMulti (bytes : string)
  | RBad (c : ascii).

Definition cont (lo hi : N) (c : ascii) : bool :=
  let n := Ascii.N_of_ascii c in (lo <=? n)%N && (n <=? hi)%N.
Definition two_ok (a b : ascii) : bool := cont 194 223 a && cont 128 191 b.
Definition three_ok (a b c : ascii) : bool :=
  ((cont 224 224 a && cont 160 191 b) || (cont 225 236 a && cont 128 191 b)
   || (cont 237 237 a && cont 128 159 b) || (cont 238 239 a && cont 128 191 b))
  && cont 128 191 c.
Definition four_ok (a b c d : ascii) : bool :=
  ((cont 240 240 a && cont 144 191 b) || (cont 241 243 a && cont 128 191 b)
   || (cont 244 244 a && cont 128 143 b))
  && cont 128 191 c && cont 128 191 d.

Fixpoint runes (s : string) : list chunk :=
  match s with
  | EmptyString => []
  | String a s1 =>
      if cont 0 127 a then RAscii a :: runes s1 else
      match s1 with
      | EmptyString => RBad a :: runes s1
      | String b s2 =>
          if two_ok a b then RMulti (String a (String b "")) :: runes s2 else
          match s2 with
          | EmptyString => RBad a :: runes s1
          | String c s3 =>
              if three_ok a b c
              then RMulti (String a (String b (String c ""))) :: runes s3 else
              match s3 with
              | EmptyString => RBad a :: runes s1
              | String d s4 =>
                  if four_ok a b c d
                  then RMulti (String a (String b (String c (String d "")))) :: runes s4
                  else RBad a :: runes s1
              end
          end
      end
  end.

(** [utf8.RuneStart]: not a continuation byte. *)
Definition runeStart (c : ascii) : bool := negb (cont 128 191 c).

Definition chunk_bytes (r : chunk) : string :=
  match r with RAscii c | RBad c => String c "" | RMulti b => b end.
Definition chunk_valid (r : chunk) : bool := match r with RBad _ => false | _ => true end.
Definition utf8_valid (s : string) : bool := forallb chunk_valid (runes s).

Fixpoint concat_str (l : list string) : string :=
  match l with [] => "" | x :: l => x +:+ concat_str l end.

(** Induction that follows [runes]. *)
Lemma runes_ind (P : string → list chunk → Prop) :
  P "" [] →
  (∀ c s l, cont 0 127 c = true → P s l → P (String c s) (RAscii c :: l)) →
  (∀ c s l, cont 0 127 c = false → P s l → P (String c s) (RBad c :: l)) →
  (∀ a b s l, two_ok a b = true → P s l →
     P (String a (String b s)) (RMulti (String a (String b "")) :: l)) →
  (∀ a b c s l, three_ok a b c = true → P s l →
     P (String a (String b (String c s))) (RMulti (String a (String b (String c ""))) :: l)) →
  (∀ a b c d s l, four_ok a b c d = true → P s l →
     P (String a (String b (String c (String d s))))
       (RMulti (String a (String b (String c (String d "")))) :: l)) →
  ∀ s, P s (runes s).
Proof.
  intros H0 H1 Hbad H2 H3 H4 s.
  assert (∀ n s, String.length s <= n → P s (runes s)) as H; [|eauto].
  clear s. induction n as [|n IH]; intros s Hl; (destruct s as [|a s]; simpl in *; [done|]); [lia|].
  destruct (cont 0 127 a) eqn:E1; [apply H1; [done|apply IH; simpl; lia]|].
  destruct s as [|b s]; [apply Hbad; [done|apply IH; simpl; lia]|].
  destruct (two_ok a b) eqn:E2; [apply H2; [done|apply IH; simpl in *; lia]|].
  destruct s as [|c s]; [apply Hbad; [done|apply IH; simpl in *; lia]|].
  destruct (three_ok a b c) eqn:E3; [apply H3; [done|apply IH; simpl in *; lia]|].
  destruct s as [|d s]; [apply Hbad; [done|apply IH; simpl in *; lia]|].
  destruct (four_ok a b c d) eqn:E4; [apply H4; [done|apply IH; simpl in *; lia]|].
  apply Hbad; [done|apply (IH (String b (String c (String d s)))); simpl in *; lia].
Qed.

Lemma runes_bytes s : concat_str (map chunk_bytes (runes s)) = s.
Proof. apply (runes_ind (fun s l => concat_str (map chunk_bytes l) = s)); simpl; congruence. Qed.

(** ** Runes one by one *)

Lemma cont_mono lo hi lo' hi' c :
  (lo' <= lo)%N → (hi <= hi')%N → cont lo hi c = true → cont lo' hi' c = true.
Proof. unfold cont. rewrite !andb_true_iff, !N.leb_le. lia. Qed.

Ltac high_bytes :=
  repeat match goal with
  | H : (_ && _)%bool = true |- _ => apply andb_true_iff in H as [? ?]
  | H : (_ || _)%bool = true |- _ => apply orb_true_iff in H as [?|?]
  end;
  (eapply cont_mono; [..|eassumption]; lia).
Lemma cont_disjoint lo hi lo' hi' c : (hi < lo')%N → cont lo' hi' c = true → cont lo hi c = false.
Proof.
  unfold cont. intros Hlt (H1 & _)%andb_true_iff. apply N.leb_le in H1.
  apply andb_false_iff. right. apply N.leb_gt. lia.
Qed.

(** The first byte decides the length of a rune, and the others are no rune starts. *)
Lemma runes_two a b s :
  two_ok a b = true →
  runes (String a (String b s)) = RMulti (String a (String b "")) :: runes s ∧ runeStart b = false.
Proof.
  intros H. pose proof H as [Ha Hb]%andb_true_iff. cbn [runes].
  rewrite (cont_disjoint 0 127 194 223 a), H by done. unfold runeStart. by rewrite Hb.
Qed.
Lemma lead_three a b c :
  three_ok a b c = true → cont 224 239 a = true ∧ cont 128 191 b = true ∧ cont 128 191 c = true.
Proof. unfold three_ok. intros H. split_and!; high_bytes. Qed.
Lemma lead_four a b c d :
  four_ok a b c d = true →
  cont 240 244 a = true ∧ cont 128 191 b = true ∧ cont 128 191 c = true ∧ cont 128 191 d = true.
Proof. unfold four_ok. intros H. split_and!; high_bytes. Qed.
Lemma runes_three a b c s :
  three_ok a b c = true →
  runes (String a (String b (String c s))) = RMulti (String a (String b (String c ""))) :: runes s
  ∧ runeStart b = false ∧ runeStart c = false.
Proof.
  intros H. destruct (lead_three _ _ _ H) as (Ha & Hb & Hc). cbn [runes]. unfold two_ok.
  rewrite (cont_disjoint 0 127 224 239 a), (cont_disjoint 194 223 224 239 a), H by done.
  unfold runeStart. by rewrite Hb, Hc.
Qed.
Lemma runes_four a b c d s :
  four_ok a b c d = true →
  runes (String a (String b (String c (String d s))))
    = RMulti (String a (String b (String c (String d "")))) :: runes s
  ∧ runeStart b = false ∧ runeStart c = false ∧ runeStart d = false.
Proof.
  intros H. destruct (lead_four _ _ _ _ H) as (Ha & Hb & Hc & Hd). cbn [runes].
  unfold two_ok, three_ok.
  rewrite (cont_disjoint 0 127 240 244 a), (cont_disjoint 194 223 240 244 a),
    (cont_disjoint 224 224 240 244 a), (cont_disjoint 225 236 240 244 a),
    (cont_disjoint 237 237 240 244 a), (cont_disjoint 238 239 240 244 a), H by done.
  unfold runeStart. by rewrite Hb, Hc, Hd.
Qed.

(** [n] is a boundary: the end of the string, or the start of a rune. *)
Definition boundary (n : nat) (s : string) : Prop :=
  n = 0 ∨ (∃ c, String.get n s = Some c ∧ runeStart c = true) ∨ String.length s <= n.

(** Cutting at a boundary keeps a valid string valid, whatever valid string follows. *)
Lemma utf8_valid_cut s t n :
  utf8_valid s = true → utf8_valid t = true → boundary n s → utf8_valid (str_take n s +:+ t) = true.
Proof.
  intros Hs Ht. unfold utf8_valid in Hs. revert n.
  apply (runes_ind (fun s l => forallb chunk_valid l = true → ∀ n, boundary n s →
    utf8_valid (str_take n s +:+ t) = true)); [..|exact Hs]; clear s Hs.
  - intros _ [|n] _; done.
  - intros c s l Hc IH Hv [|n] Hb; [done|]. cbn [str_take String.append].
    unfold utf8_valid. cbn [runes]. rewrite Hc. apply (IH Hv n).
    destruct Hb as [?|[Hb|Hb]]; [done|right; left; exact Hb|right; right; simpl in Hb; lia].
  - intros c s l _ _ Hv. discriminate Hv.
  - intros a b s l Hab IH Hv n Hb. destruct (runes_two a b s Hab) as [_ Sb].
    destruct n as [|[|n]]; [done| |].
    + destruct Hb as [?|[(c & [= <-] & Hc)|Hb]]; [done|congruence|simpl in Hb; lia].
    + cbn [str_take String.append]. unfold utf8_valid.
      rewrite (proj1 (runes_two a b _ Hab)). apply (IH Hv n).
      destruct Hb as [?|[Hb|Hb]]; [done|right; left; exact Hb|right; right; simpl in Hb; lia].
  - intros a b c s l Habc IH Hv n Hb. destruct (runes_three a b c s Habc) as (_ & Sb & Sc).
    destruct n as [|[|[|n]]]; [done| | |].
    1,2: destruct Hb as [?|[(x & [= <-] & Hx)|Hb]]; [done|congruence|simpl in Hb; lia].
    cbn [str_take String.append]. unfold utf8_valid.
    rewrite (proj1 (runes_three a b c _ Habc)). apply (IH Hv n).
    destruct Hb as [?|[Hb|Hb]]; [done|right; left; exact Hb|right; right; simpl in Hb; lia].
  - intros a b c d s l H4 IH Hv n Hb. destruct (runes_four a b c d s H4) as (_ & Sb & Sc & Sd).
    destruct n as [|[|[|[|n]]]]; [done| | | |].
    1,2,3: destruct Hb as [?|[(x & [= <-] & Hx)|Hb]]; [done|congruence|simpl in Hb; lia].
    cbn [str_take String.append]. unfold utf8_valid.
    rewrite (proj1 (runes_four a b c d _ H4)). apply (IH Hv n).
    destruct Hb as [?|[Hb|Hb]]; [done|right; left; exact Hb|right; right; simpl in Hb; lia].
Qed.
