(* ===== verification/Hash.v ===== *)
(** * Hash functions of the Go standard library

    [crypto/sha256] (FIPS 180-4) and [hash/fnv] (32-bit FNV-1a), written out so that the
    names and checksums the operator derives can be computed. *)
From S2P Require Export GoLib.
Local Open Scope N_scope.

(** The bytes of a Go string. *)
Definition bytes_of (s : string) : list N := Ascii.N_of_ascii <$> String.list_ascii_of_string s.

(** ** FNV-1a, 32 bits *)
Module Fnv.
Definition offset32 : N := 2166136261.
Definition prime32 : N := 16777619.
Definition step (h b : N) : N := (N.lxor h b * prime32) mod 2 ^ 32.
(** [fnv.New32a], one [Write], [Sum32]. *)
Definition sum32a (l : list N) : N := foldl step offset32 l.
End Fnv.

(** ** SHA-256 *)
Module Sha256.
Definition mask : N := 2 ^ 32 - 1.
Definition add32 (a b : N) : N := N.land (a + b) mask.
Definition rotr (n x : N) : N :=
  N.land (N.lor (N.shiftr x n) (N.shiftl x (32 - n))) mask.
Definition ch (x y z : N) : N := N.lxor (N.land x y) (N.land (N.lxor x mask) z).
Definition maj (x y z : N) : N :=
  N.lxor (N.land x y) (N.lxor (N.land x z) (N.land y z)).
Definition bsig0 (x : N) : N := N.lxor (rotr 2 x) (N.lxor (rotr 13 x) (rotr 22 x)).
Definition bsig1 (x : N) : N := N.lxor (rotr 6 x) (N.lxor (rotr 11 x) (rotr 25 x)).
Definition ssig0 (x : N) : N := N.lxor (rotr 7 x) (N.lxor (rotr 18 x) (N.shiftr x 3)).
Definition ssig1 (x : N) : N := N.lxor (rotr 17 x) (N.lxor (rotr 19 x) (N.shiftr x 10)).

Definition k256 : list N := [
 1116352408; 1899447441; 3049323471; 3921009573; 961987163; 1508970993; 2453635748; 2870763221;
 3624381080; 310598401; 607225278; 1426881987; 1925078388; 2162078206; 2614888103; 3248222580;
 3835390401; 4022224774; 264347078; 604807628; 770255983; 1249150122; 1555081692; 1996064986;
 2554220882; 2821834349; 2952996808; 3210313671; 3336571891; 3584528711; 113926993; 338241895;
 666307205; 773529912; 1294757372; 1396182291; 1695183700; 1986661051; 2177026350; 2456956037;
 2730485921; 2820302411; 3259730800; 3345764771; 3516065817; 3600352804; 4094571909; 275423344;
 430227734; 506948616; 659060556; 883997877; 958139571; 1322822218; 1537002063; 1747873779;
 1955562222; 2024104815; 2227730452; 2361852424; 2428436474; 2756734187; 3204031479; 3329325298].
Definition init : list N := [
  1779033703; 3144134277; 1013904242; 2773480762; 1359893119; 2600822924; 528734635; 1541459225].

(** Big-endian bytes to 32-bit words. *)
Fixpoint words (l : list N) : list N :=
  match l with
  | a :: b :: c :: d :: l => ((a * 256 + b) * 256 + c) * 256 + d :: words l
  | _ => []
  end.

(** The message schedule: [n] more words from the last sixteen, newest first. *)
Fixpoint schedule (n : nat) (w : list N) : list N :=
  match n with
  | O => w
  | S n =>
      let g i := nth i w 0 in
      schedule n (add32 (add32 (ssig1 (g 1%nat)) (g 6%nat))
                        (add32 (ssig0 (g 14%nat)) (g 15%nat)) :: w)
  end.

Definition round (st : list N) (kw : N * N) : list N :=
  match st with
  | [a; b; c; d; e; f; g; h] =>
      let t1 := add32 (add32 h (bsig1 e)) (add32 (ch e f g) (add32 (fst kw) (snd kw))) in
      let t2 := add32 (bsig0 a) (maj a b c) in
      [add32 t1 t2; a; b; c; add32 d t1; e; f; g]
  | _ => st
  end.

Definition compress (st block : list N) : list N :=
  let w := rev (schedule 48 (rev (words block))) in
  zip_with add32 st (foldl round st (combine k256 w)).

Definition be_bytes (n : nat) (x : N) : list N :=
  rev (map (fun i => N.land (N.shiftr x (8 * N.of_nat i)) 255) (seq 0 n)).

Definition pad (l : list N) : list N :=
  let len := length l in
  let zeros := Nat.modulo (55 + 64 - Nat.modulo len 64) 64 in
  l ++ [128] ++ replicate zeros 0 ++ be_bytes 8 (8 * N.of_nat len).

(** One block per step; [fuel] is at least the number of blocks. *)
Fixpoint blocks (fuel : nat) (st l : list N) : list N :=
  match fuel, l with
  | O, _ | _, [] => st
  | S f, _ => blocks f (compress st (take 64 l)) (drop 64 l)
  end.

(** [sha256.Sum256]. *)
Definition sum256 (l : list N) : list N :=
  let p := pad l in concat (map (be_bytes 4) (blocks (length p) init p)).
End Sha256.

(** [hex.EncodeToString(sha256.Sum256(s))]. *)
Definition sha256hex (l : list N) : string := hexEncode (Sha256.sum256 l).

(** Published test vectors. *)
Example fnv_empty : Fnv.sum32a [] = 2166136261.
Proof. reflexivity. Qed.
Example fnv_a : Fnv.sum32a (bytes_of "a") = 3826002220.
Proof. reflexivity. Qed.
Example fnv_foobar : Fnv.sum32a (bytes_of "foobar") = 3214735720.
Proof. reflexivity. Qed.
Example sha256_empty :
  sha256hex [] = "e3b0c44298fc1c149afbf4c8996fb92427ae41e4649b934ca495991b7852b855".
Proof. vm_compute. reflexivity. Qed.
Example sha256_abc :
  sha256hex (bytes_of "abc") = "ba7816bf8f01cfea414140de5dae2223b00361a396177a9cb410ff61f20015ad".
Proof. vm_compute. reflexivity. Qed.
Example sha256_two_blocks :
  sha256hex (bytes_of "abcdbcdecdefdefgefghfghighijhijkijkljklmklmnlmnomnopnopq") =
    "248d6a61d20638b8e5c026930c3e6039a33ce45964ff2167f6ecedd419db06c1".
Proof. vm_compute. reflexivity. Qed.

(** ** Shape of the digests *)

Lemma hexEncode_length l : String.length (hexEncode l) = (2 * length l)%nat.
Proof. induction l as [|b l IH]; simpl in *; lia. Qed.

Lemma round_length st kw : length st = 8%nat → length (Sha256.round st kw) = 8%nat.
Proof. intros H. do 9 (destruct st as [|? st]; try discriminate). done. Qed.

Lemma compress_length st b : length st = 8%nat → length (Sha256.compress st b) = 8%nat.
Proof.
  intros H. unfold Sha256.compress. rewrite length_zip_with.
  assert (∀ l s, length s = 8%nat → length (foldl Sha256.round s l) = 8%nat) as Hf.
  { induction l as [|x l IH]; intros s Hs; simpl; [done|]. apply IH, round_length, Hs. }
  rewrite Hf, H; done.
Qed.

Lemma sum256_length l : length (Sha256.sum256 l) = 32%nat.
Proof.
  unfold Sha256.sum256.
  assert (∀ f s b, length s = 8%nat → length (Sha256.blocks f s b) = 8%nat) as Hb.
  { induction f as [|f IH]; intros s b Hs; simpl; [done|].
    destruct b; [done|]. apply IH, compress_length, Hs. }
  specialize (Hb (length (Sha256.pad l)) Sha256.init (Sha256.pad l) eq_refl).
  revert Hb. generalize (Sha256.blocks (length (Sha256.pad l)) Sha256.init (Sha256.pad l)).
  intros st H. do 9 (destruct st as [|? st]; try discriminate). done.
Qed.

(** A hex SHA-256 has 64 characters, so taking its first ten never panics. *)
Lemma sha256hex_length l : String.length (sha256hex l) = 64%nat.
Proof. unfold sha256hex. by rewrite hexEncode_length, sum256_length. Qed.

(** The digits of [hex.EncodeToString]. *)
Definition hexChar (c : ascii) : bool :=
  let n := Ascii.N_of_ascii c in
  ((48 <=? n) && (n <=? 57) || (97 <=? n) && (n <=? 102))%bool.
Lemma hexdigit_hex n : n < 16 → hexChar (hexdigit n) = true.
Proof.
  intros Hn. destruct n as [|p]; [done|]. do 4 (destruct p as [p|p|]; try done); lia.
Qed.
Lemma hexEncode_hex l : Forall (fun b => b < 256) l → str_forall hexChar (hexEncode l) = true.
Proof.
  induction 1 as [|b l Hb _ IH]; [done|]. cbn [hexEncode str_forall].
  rewrite !hexdigit_hex, IH; [done|by apply N.mod_lt|by apply N.Div0.div_lt_upper_bound].
Qed.
Lemma be_bytes_small n x : Forall (fun b => b < 256) (Sha256.be_bytes n x).
Proof.
  unfold Sha256.be_bytes. apply Forall_rev, Forall_map, Forall_forall. intros i _. cbn.
  change 255 with (N.ones 8). rewrite N.land_ones. by apply N.mod_lt.
Qed.
Lemma sha256hex_hex l : str_forall hexChar (sha256hex l) = true.
Proof.
  apply hexEncode_hex, Forall_concat, Forall_map, Forall_forall. intros x _. apply be_bytes_small.
Qed.

Lemma fnv_range l : Fnv.sum32a l < 2 ^ 32.
Proof.
  unfold Fnv.sum32a. assert (∀ l h, h < 2 ^ 32 → foldl Fnv.step h l < 2 ^ 32) as H.
  { clear l. induction l as [|b l IH]; intros h Hh; cbn [foldl]; [done|].
    apply IH. apply N.mod_lt. done. }
  by apply H.
Qed.
