(* ===== verification/Types.v ===== *)
(** * API types: api/v1beta1

    The structs of [misskey_types.go] and [misskeychannel_types.go], one record per struct
    with the source's fields in order ([spec_URL] is [MisskeySpec.URL], and so on), and the
    parts of the Kubernetes data types they embed.  A Go pointer is an [option], a slice a
    [list], a map a [gmap], an [int32]/[int64] a [Z], a [time.Duration] a [Z] of
    nanoseconds and a [metav1.Time] a [Z] of nanoseconds since the Unix epoch. *)
From S2P Require Export GoLib.
Local Open Scope string_scope.

(** ** Kubernetes data types *)

(** [resource.Quantity]: its value (in nano units) and its canonical text. *)
Record Quantity := mkQuantity { qty_value : Z; qty_repr : string }.
Definition qty_zero : Quantity := mkQuantity 0 "0".
Definition qty_IsZero (q : Quantity) : bool := (qty_value q =? 0)%Z.
Definition qty_Cmp (a b : Quantity) : comparison := (qty_value a ?= qty_value b)%Z.
Definition qty_String (q : Quantity) : string := qty_repr q.

Definition ResourceList : Type := gmap string Quantity.
Record ResourceRequirements := mkResources {
  res_Limits : ResourceList;
  res_Requests : ResourceList;
  res_Claims : list string }.
Definition noResources : ResourceRequirements := mkResources ∅ ∅ [].

Record SecretKeySelector := mkSel { sel_Name : string; sel_Key : string }.
Record LocalObjectReference := mkRef { ref_Name : string }.
Record Toleration := mkToleration {
  tol_Key : string; tol_Operator : string; tol_Value : string; tol_Effect : string;
  tol_Seconds : option Z }.

(** The zero [time.Time] (0001-01-01 00:00:00 UTC) in nanoseconds since the epoch. *)
Definition zeroTime : Z := (-62135596800 * 10 ^ 9)%Z.
Definition time_IsZero (t : Z) : bool := (t =? zeroTime)%Z.
(** [time.Time.Sub] saturates at the limits of [time.Duration]. *)
Definition time_Sub (t u : Z) : Z := Z.max (- 2 ^ 63) (Z.min (2 ^ 63 - 1) (t - u)).
Definition Second : Z := (10 ^ 9)%Z.
Definition Minute : Z := (60 * Second)%Z.
Definition Hour : Z := (60 * Minute)%Z.

Record OwnerReference := mkOwner {
  own_APIVersion : string; own_Kind : string; own_Name : string; own_UID : string;
  own_Controller : bool }.
(** [metav1.ObjectMeta]; the creation time is that of the server. *)
Record ObjectMeta := mkMeta {
  om_Name : string;
  om_Namespace : string;
  om_UID : string;
  om_ResourceVersion : string;
  om_Generation : Z;
  om_CreationTimestamp : Z;
  om_DeletionTimestamp : option Z;
  om_Labels : gmap string string;
  om_Annotations : gmap string string;
  om_OwnerReferences : list OwnerReference;
  om_Finalizers : list string }.
(** The metadata of an object literal: a name and a namespace. *)
Definition newMeta (name ns : string) : ObjectMeta :=
  mkMeta name ns "" "" 0 zeroTime None ∅ ∅ [] [].

Inductive ConditionStatus := ConditionTrue | ConditionFalse | ConditionUnknown.
#[global] Instance ConditionStatus_eq_dec : EqDecision ConditionStatus.
Proof. solve_decision. Defined.
Record Condition := mkCondition {
  cond_Type : string; cond_Status : ConditionStatus; cond_ObservedGeneration : Z;
  cond_LastTransitionTime : Z; cond_Reason : string; cond_Message : string }.

(** ** misskey_types.go *)

Record PerformanceSpec := mkPerformance {
  perf_DeliverJobConcurrency : option Z;
  perf_InboxJobConcurrency : option Z;
  perf_DeliverJobPerSec : option Z;
  perf_InboxJobPerSec : option Z;
  perf_RelationshipJobPerSec : option Z;
  perf_DeliverJobMaxAttempts : option Z;
  perf_InboxJobMaxAttempts : option Z }.

Record OutboundProxySpec := mkOutboundProxy {
  op_HTTP : string;
  op_SMTP : string;
  op_BypassHosts : list string }.

Record FilesSpec := mkFiles {
  files_MaxFileSize : option Z;
  files_MediaProxy : string;
  files_ProxyRemoteFiles : option bool }.

Record MonitoringRules := mkMonitoringRules {
  rules_Enabled : option bool;
  rules_BackupMaxAge : Z }.

Record MonitoringSpec := mkMonitoring {
  mon_Enabled : option bool;
  mon_Labels : gmap string string;
  mon_Interval : string;
  mon_RedisExporterImage : string;
  mon_Rules : option MonitoringRules }.

Record MigrationSpec := mkMigration {
  mig_CreateIndexConcurrently : option bool;
  mig_PreBackup : option bool }.

Record NetworkIsolationSpec := mkNetworkIsolation {
  iso_Enabled : option bool;
  iso_AllowedNamespaces : list string }.

Record EgressIsolationSpec := mkEgressIsolation {
  egress_Enabled : option bool;
  egress_DNSNamespace : string;
  egress_AllowedNamespaces : list string }.

Record NetworkSpec := mkNetwork {
  net_Isolation : NetworkIsolationSpec;
  net_EgressIsolation : EgressIsolationSpec }.

Record LimitRangeSpec := mkLimitRange {
  lr_Default : ResourceList;
  lr_DefaultRequest : ResourceList;
  lr_Max : ResourceList }.

Record TenancySpec := mkTenancy {
  ten_Dedicated : bool;
  ten_Quota : ResourceList;
  ten_LimitRange : option LimitRangeSpec }.

Record RuntimeSpec := mkRuntime {
  rt_RunAsUser : option Z;
  rt_StartCommand : list string;
  rt_MigrateCommand : list string;
  rt_HealthPath : string;
  rt_ConfigPath : string;
  rt_BuiltPath : option string }.

Record SetupPasswordSpec := mkSetupPassword { setup_SecretRef : option SecretKeySelector }.

Record ExternalSensitiveDetector := mkExternalDetector {
  ed_URL : string;
  ed_APIKeySecret : SecretKeySelector }.

Record SensitiveDetectorSpec := mkDetector {
  det_Mode : string;
  det_Sensitivity : string;
  det_EnableForVideos : bool;
  det_SetSensitiveFlagAutomatically : bool;
  det_TimeoutMilliseconds : Z;
  det_MaxImagesPerRequest : Z;
  det_External : option ExternalSensitiveDetector;
  det_Image : string;
  det_Replicas : option Z;
  det_Resources : ResourceRequirements;
  det_NodeSelector : gmap string string;
  det_Tolerations : list Toleration;
  det_APIKeySecret : option SecretKeySelector;
  det_ConfigJobImage : string }.

Record ComponentSpec := mkComponent {
  comp_Replicas : option Z;
  comp_Resources : ResourceRequirements;
  comp_NodeSelector : gmap string string;
  comp_Tolerations : list Toleration }.

Record RPSTrigger := mkRPS {
  rps_ServerAddress : string;
  rps_TargetRPS : Z;
  rps_Query : string }.

Record QueueScaleTrigger := mkQueueTrigger {
  queue_Name : string;
  queue_ListLength : Z;
  queue_ListName : string }.

Record AutoscalingSpec := mkAutoscaling {
  as_MinReplicas : option Z;
  as_MaxReplicas : Z;
  as_TargetCPUUtilizationPercentage : option Z;
  as_TargetMemoryUtilizationPercentage : option Z }.

Record AppAutoscalingSpec := mkAppAutoscaling {
  aas_AutoscalingSpec : AutoscalingSpec;
  aas_RPS : option RPSTrigger }.

Record WorkerAutoscalingSpec := mkWorkerAutoscaling {
  was_AutoscalingSpec : AutoscalingSpec;
  was_Queues : list QueueScaleTrigger }.

Record AppSpec := mkApp {
  app_ComponentSpec : ComponentSpec;
  app_Autoscaling : option AppAutoscalingSpec }.

Record WorkerSpec := mkWorker {
  worker_ComponentSpec : ComponentSpec;
  worker_Autoscaling : option WorkerAutoscalingSpec }.

Record MaintenanceSpec := mkMaintenance {
  maint_Enabled : option bool;
  maint_HTML : string;
  maint_StatusCode : option Z;
  maint_ReloadSeconds : option Z }.

Record ProxySpec := mkProxy {
  proxy_Enabled : option bool;
  proxy_Replicas : option Z;
  proxy_Image : string;
  proxy_Maintenance : MaintenanceSpec;
  proxy_ClientIPHeader : string;
  proxy_Resources : ResourceRequirements }.

Record IngressIssuerRef := mkIssuerRef { issuer_Name : string; issuer_Kind : string }.

Record IngressSpec := mkIngress {
  ing_Enabled : option bool;
  ing_ClassName : string;
  ing_Host : string;
  ing_Annotations : gmap string string;
  ing_TLSSecretName : string;
  ing_IssuerRef : option IngressIssuerRef }.

Record RedisHA := mkRedisHA {
  ha_Replicas : Z;
  ha_Sentinels : Z;
  ha_Image : string;
  ha_SentinelImage : string }.

Record RedisHostPort := mkRedisHostPort { rhp_Host : string; rhp_Port : Z }.

Record ExternalRedis := mkExternalRedis {
  er_Host : string;
  er_Port : Z;
  er_DB : Z;
  er_PasswordSecret : option SecretKeySelector;
  er_Sentinels : list RedisHostPort;
  er_MasterName : string;
  er_TLS : option bool }.

Record RedisRole := mkRedisRole {
  role_External : option ExternalRedis;
  role_MaxMemory : string;
  role_MaxMemoryPolicy : string;
  role_Storage : Quantity;
  role_StorageClassName : option string;
  role_Resources : ResourceRequirements;
  role_HA : option RedisHA }.

Record RedisRoles := mkRedisRoles {
  roles_JobQueue : option RedisRole;
  roles_Pubsub : option RedisRole;
  roles_Timelines : option RedisRole;
  roles_Reactions : option RedisRole }.

Record RedisSpec := mkRedis {
  redis_External : option ExternalRedis;
  redis_Image : string;
  redis_MaxMemory : string;
  redis_MaxMemoryPolicy : string;
  redis_AppendOnly : option bool;
  redis_Storage : Quantity;
  redis_StorageClassName : option string;
  redis_Resources : ResourceRequirements;
  redis_HA : option RedisHA;
  redis_Roles : option RedisRoles }.

(** [SearchProvider]: a string type with three named values. *)
Definition SearchProvider : Type := string.
Definition SearchMeilisearch : SearchProvider := "meilisearch".
Definition SearchSQLLike : SearchProvider := "sqlLike".
Definition SearchSQLPgroonga : SearchProvider := "sqlPgroonga".

Record ExternalMeilisearch := mkExternalMeili {
  em_Host : string;
  em_Port : Z;
  em_SSL : bool;
  em_APIKeySecret : SecretKeySelector }.

Record MeilisearchSpec := mkMeili {
  meili_External : option ExternalMeilisearch;
  meili_Image : string;
  meili_Storage : Quantity;
  meili_StorageClassName : option string;
  meili_Index : string;
  meili_Scope : string;
  meili_MasterKeySecret : option SecretKeySelector;
  meili_Resources : ResourceRequirements }.

Record SearchSpec := mkSearch {
  search_Provider : SearchProvider;
  search_Meilisearch : MeilisearchSpec }.

Record S3Credentials := mkS3Credentials {
  s3_AccessKeyID : SecretKeySelector;
  s3_SecretAccessKey : SecretKeySelector }.

Record ExternalPostgres := mkExternalPostgres {
  ep_Host : string;
  ep_Port : Z;
  ep_Database : string;
  ep_User : string;
  ep_PasswordSecret : SecretKeySelector }.

Record BackupVerify := mkBackupVerify { bv_Interval : Z; bv_Timeout : Z }.

Record PostgresBackup := mkPostgresBackup {
  bk_DestinationPath : string;
  bk_EndpointURL : string;
  bk_S3Credentials : option S3Credentials;
  bk_RetentionPolicy : string;
  bk_Schedule : string;
  bk_ServerName : string;
  bk_Verify : option BackupVerify }.

Record RecoverySource := mkRecoverySource {
  rs_DestinationPath : string;
  rs_EndpointURL : string;
  rs_ServerName : string;
  rs_S3Credentials : option S3Credentials }.

Record PostgresRecovery := mkPostgresRecovery {
  rec_Source : RecoverySource;
  rec_TargetTime : string }.

Record ImportSource := mkImportSource {
  imp_Host : string;
  imp_Port : Z;
  imp_Database : string;
  imp_User : string;
  imp_PasswordSecret : SecretKeySelector;
  imp_SSLMode : string }.

Record PostgresImport := mkPostgresImport { import_Source : ImportSource }.

Record PostgresPooler := mkPostgresPooler {
  pool_Instances : Z;
  pool_PoolMode : string;
  pool_Parameters : gmap string string;
  pool_Resources : ResourceRequirements }.

Record PostgresSpec := mkPostgres {
  pg_External : option ExternalPostgres;
  pg_Instances : Z;
  pg_Image : string;
  pg_Database : string;
  pg_Owner : string;
  pg_Storage : Quantity;
  pg_StorageClassName : option string;
  pg_Parameters : gmap string string;
  pg_Resources : ResourceRequirements;
  pg_Backup : option PostgresBackup;
  pg_Recovery : option PostgresRecovery;
  pg_Import : option PostgresImport;
  pg_ReadOffload : option bool;
  pg_Pooler : option PostgresPooler }.

Record ObjectStorageColumns := mkObjectStorageColumns {
  col_UseObjectStorage : string;
  col_BaseURL : string;
  col_Bucket : string;
  col_Prefix : string;
  col_Endpoint : string;
  col_Region : string;
  col_Port : string;
  col_AccessKey : string;
  col_SecretKey : string;
  col_UseSSL : string;
  col_UseProxy : string;
  col_SetPublicRead : string;
  col_S3ForcePathStyle : string }.

Record ObjectStorageSpec := mkObjectStorage {
  os_Bucket : string;
  os_Endpoint : string;
  os_Region : string;
  os_Prefix : string;
  os_BaseURL : string;
  os_Port : option Z;
  os_UseSSL : option bool;
  os_UseProxy : option bool;
  os_SetPublicRead : option bool;
  os_S3ForcePathStyle : option bool;
  os_Credentials : S3Credentials;
  os_AutoConfigure : option bool;
  os_ColumnNames : option ObjectStorageColumns;
  os_ExtraColumns : gmap string string;
  os_Image : string }.

Record ImageFromSource := mkImageFrom { if_Channel : string }.

Record MisskeySpec := mkMisskeySpec {
  spec_URL : string;
  spec_Image : string;
  spec_ImageFrom : option ImageFromSource;
  spec_TrackImageDigest : bool;
  spec_IDGenerationMethod : string;
  spec_DeletionPolicy : string;
  spec_Suspend : bool;
  spec_Tenant : string;
  spec_ImagePullSecrets : list LocalObjectReference;
  spec_Runtime : RuntimeSpec;
  spec_App : AppSpec;
  spec_Worker : WorkerSpec;
  spec_Proxy : ProxySpec;
  spec_Ingress : IngressSpec;
  spec_Redis : RedisSpec;
  spec_Search : SearchSpec;
  spec_Postgres : PostgresSpec;
  spec_Migration : MigrationSpec;
  spec_SetupPassword : option SetupPasswordSpec;
  spec_ExtraConfig : string;
  spec_ObjectStorage : option ObjectStorageSpec;
  spec_SensitiveDetector : option SensitiveDetectorSpec;
  spec_Network : NetworkSpec;
  spec_Tenancy : TenancySpec;
  spec_Monitoring : MonitoringSpec;
  spec_Performance : PerformanceSpec;
  spec_OutboundProxy : OutboundProxySpec;
  spec_Files : FilesSpec }.

Record BackupStatus := mkBackupStatus {
  bs_LastSuccessfulBackup : Z;
  bs_FirstRecoverabilityPoint : Z }.

Record BackupVerificationStatus := mkBackupVerification {
  bvs_LastVerifiedTime : Z;
  bvs_Result : string;
  bvs_Message : string }.

Record MisskeyStatus := mkMisskeyStatus {
  st_Conditions : list Condition;
  st_Phase : string;
  st_ObservedGeneration : Z;
  st_DatabaseHost : string;
  st_RedisHost : string;
  st_SearchIndex : string;
  st_BackupVerification : option BackupVerificationStatus;
  st_Backup : option BackupStatus;
  st_Image : string }.

Record Misskey := mkMisskey {
  m_Meta : ObjectMeta;
  m_Spec : MisskeySpec;
  m_Status : MisskeyStatus }.

(** ** misskeychannel_types.go *)

Record ChannelRollout := mkChannelRollout {
  ro_BatchPercent : Z;
  ro_Interval : Z }.

Record MisskeyChannelSpec := mkChannelSpec {
  chs_Image : string;
  chs_Rollout : option ChannelRollout;
  chs_TrackImageDigest : bool }.

Record MisskeyChannelStatus := mkChannelStatus {
  cht_Image : string;
  cht_PreviousImage : string;
  cht_ImageChangedAt : Z;
  cht_Instances : Z;
  cht_UpdatedInstances : Z;
  cht_ObservedGeneration : Z }.

Record MisskeyChannel := mkChannel {
  ch_Meta : ObjectMeta;
  ch_Spec : MisskeyChannelSpec;
  ch_Status : MisskeyChannelStatus }.

(** ** Field access and update *)

Definition m_Name (m : Misskey) : string := om_Name (m_Meta m).
Definition m_Namespace (m : Misskey) : string := om_Namespace (m_Meta m).
Definition ch_Name (ch : MisskeyChannel) : string := om_Name (ch_Meta ch).

(** [m.Spec.Image = img] *)
Definition set_spec_Image (img : string) (m : Misskey) : Misskey :=
  let s := m_Spec m in
  mkMisskey (m_Meta m)
    (mkMisskeySpec (spec_URL s) img (spec_ImageFrom s) (spec_TrackImageDigest s)
       (spec_IDGenerationMethod s) (spec_DeletionPolicy s) (spec_Suspend s) (spec_Tenant s)
       (spec_ImagePullSecrets s) (spec_Runtime s) (spec_App s) (spec_Worker s) (spec_Proxy s)
       (spec_Ingress s) (spec_Redis s) (spec_Search s) (spec_Postgres s) (spec_Migration s)
       (spec_SetupPassword s) (spec_ExtraConfig s) (spec_ObjectStorage s)
       (spec_SensitiveDetector s) (spec_Network s) (spec_Tenancy s) (spec_Monitoring s)
       (spec_Performance s) (spec_OutboundProxy s) (spec_Files s))
    (m_Status m).

(** [m.Spec.Tenant = t] *)
Definition set_spec_Tenant (t : string) (m : Misskey) : Misskey :=
  let s := m_Spec m in
  mkMisskey (m_Meta m)
    (mkMisskeySpec (spec_URL s) (spec_Image s) (spec_ImageFrom s) (spec_TrackImageDigest s)
       (spec_IDGenerationMethod s) (spec_DeletionPolicy s) (spec_Suspend s) t
       (spec_ImagePullSecrets s) (spec_Runtime s) (spec_App s) (spec_Worker s) (spec_Proxy s)
       (spec_Ingress s) (spec_Redis s) (spec_Search s) (spec_Postgres s) (spec_Migration s)
       (spec_SetupPassword s) (spec_ExtraConfig s) (spec_ObjectStorage s)
       (spec_SensitiveDetector s) (spec_Network s) (spec_Tenancy s) (spec_Monitoring s)
       (spec_Performance s) (spec_OutboundProxy s) (spec_Files s))
    (m_Status m).

Definition set_m_Status (st : MisskeyStatus) (m : Misskey) : Misskey :=
  mkMisskey (m_Meta m) (m_Spec m) st.
Definition set_m_Meta (om : ObjectMeta) (m : Misskey) : Misskey :=
  mkMisskey om (m_Spec m) (m_Status m).
Definition set_Finalizers (l : list string) (o : ObjectMeta) : ObjectMeta :=
  mkMeta (om_Name o) (om_Namespace o) (om_UID o) (om_ResourceVersion o) (om_Generation o)
    (om_CreationTimestamp o) (om_DeletionTimestamp o) (om_Labels o) (om_Annotations o)
    (om_OwnerReferences o) l.
Definition set_OwnerReferences (l : list OwnerReference) (o : ObjectMeta) : ObjectMeta :=
  mkMeta (om_Name o) (om_Namespace o) (om_UID o) (om_ResourceVersion o) (om_Generation o)
    (om_CreationTimestamp o) (om_DeletionTimestamp o) (om_Labels o) (om_Annotations o)
    l (om_Finalizers o).
Definition set_Labels (l : gmap string string) (o : ObjectMeta) : ObjectMeta :=
  mkMeta (om_Name o) (om_Namespace o) (om_UID o) (om_ResourceVersion o) (om_Generation o)
    (om_CreationTimestamp o) (om_DeletionTimestamp o) l (om_Annotations o)
    (om_OwnerReferences o) (om_Finalizers o).
Definition set_Annotations (l : gmap string string) (o : ObjectMeta) : ObjectMeta :=
  mkMeta (om_Name o) (om_Namespace o) (om_UID o) (om_ResourceVersion o) (om_Generation o)
    (om_CreationTimestamp o) (om_DeletionTimestamp o) (om_Labels o) l
    (om_OwnerReferences o) (om_Finalizers o).
Definition set_st_BackupVerification (v : option BackupVerificationStatus)
    (s : MisskeyStatus) : MisskeyStatus :=
  mkMisskeyStatus (st_Conditions s) (st_Phase s) (st_ObservedGeneration s)
    (st_DatabaseHost s) (st_RedisHost s) (st_SearchIndex s) v (st_Backup s) (st_Image s).
