(* ===== verification/Samples.v ===== *)
(** * Sample objects

    Concrete instances the witnesses evaluate: a minimal [Misskey] with every optional part
    left out, the way the API server stores one that sets [spec.url] and [spec.image]. *)
From S2P Require Export Types.
Local Open Scope string_scope.
Local Open Scope Z_scope.
Local Open Scope list_scope.

Definition componentSample : ComponentSpec := mkComponent None noResources ∅ [].
Definition redisSample : RedisSpec :=
  mkRedis None "" "" "" None qty_zero None noResources None None.
Definition postgresSample : PostgresSpec :=
  mkPostgres None 1 "" "" "" qty_zero None ∅ noResources None None None None None.
Definition meiliSample : MeilisearchSpec := mkMeili None "" qty_zero None "" "" None noResources.
Definition proxySample : ProxySpec :=
  mkProxy None None "" (mkMaintenance None "" None None) "" noResources.
Definition ingressSample : IngressSpec := mkIngress None "" "" ∅ "" None.
Definition runtimeSample : RuntimeSpec := mkRuntime None [] [] "" "" None.
Definition networkSample : NetworkSpec :=
  mkNetwork (mkNetworkIsolation None []) (mkEgressIsolation None "" []).
Definition monitoringSample : MonitoringSpec := mkMonitoring None ∅ "" "" None.
Definition performanceSample : PerformanceSpec :=
  mkPerformance None None None None None None None.

Definition specSample : MisskeySpec := {|
  spec_URL := "https://social.example/";
  spec_Image := "misskey/misskey:2025.1.0";
  spec_ImageFrom := None;
  spec_TrackImageDigest := false;
  spec_IDGenerationMethod := "aidx";
  spec_DeletionPolicy := "Retain";
  spec_Suspend := false;
  spec_Tenant := "";
  spec_ImagePullSecrets := [];
  spec_Runtime := runtimeSample;
  spec_App := mkApp componentSample None;
  spec_Worker := mkWorker componentSample None;
  spec_Proxy := proxySample;
  spec_Ingress := ingressSample;
  spec_Redis := redisSample;
  spec_Search := mkSearch "meilisearch" meiliSample;
  spec_Postgres := postgresSample;
  spec_Migration := mkMigration None None;
  spec_SetupPassword := None;
  spec_ExtraConfig := "";
  spec_ObjectStorage := None;
  spec_SensitiveDetector := None;
  spec_Network := networkSample;
  spec_Tenancy := mkTenancy false ∅ None;
  spec_Monitoring := monitoringSample;
  spec_Performance := performanceSample;
  spec_OutboundProxy := mkOutboundProxy "" "" [];
  spec_Files := mkFiles None "" None |}.

Definition statusSample : MisskeyStatus := mkMisskeyStatus [] "" 0 "" "" "" None None "".

Definition metaSample : ObjectMeta :=
  mkMeta "social" "fedi" "uid-1" "17" 3 (1700000000 * Second) None ∅ ∅ [] [].

Definition misskeySample : Misskey := mkMisskey metaSample specSample statusSample.

(** [m] with another spec. *)
Definition withSpec (m : Misskey) (s : MisskeySpec) : Misskey := mkMisskey (m_Meta m) s (m_Status m).

Definition objectStorageSample : ObjectStorageSpec :=
  mkObjectStorage "media" "https://s3.example" "" "files" "" None None None None None
    (mkS3Credentials (mkSel "s3" "id") (mkSel "s3" "secret")) None None ∅ "".
