(* ===== verification/Url.v ===== *)
(** * net/url, as far as [hostFromURL] uses it

    [url.Parse] followed by [u.Host] and [u.Hostname()].  The result is the raw host part
    (user info, path, query and fragment only matter through the errors they cause). *)
From S2P Require Export GoLib.
Local Open Scope string_scope.
Local Open Scope nat_scope.

Section Characters.
Implicit Types c : ascii.
Definition between (a b : nat) c : bool :=
  let n := Ascii.nat_of_ascii c in (a <=? n) && (n <=? b).
Definition is_lower := between 97 122.
Definition is_upper := between 65 90.
Definition is_dec := between 48 57.
Definition is_alpha c := is_lower c || is_upper c.
Definition is_alnum c := is_alpha c || is_dec c.
Definition is_hex c := is_dec c || between 65 70 c || between 97 102 c.
Definition is_ctl c := (Ascii.nat_of_ascii c <? 32) || (Ascii.nat_of_ascii c =? 127).
Definition in_set (set : string) c := existsb (Ascii.eqb c) (String.list_ascii_of_string set).
Definition unhex c : nat :=
  let n := Ascii.nat_of_ascii c in
  if is_dec c then n - 48 else if between 97 102 c then n - 87 else n - 55.
(** Bytes that may stand for themselves in a host ([shouldEscape] in host mode is false). *)
Definition host_ok c :=
  is_alnum c || in_set (String dquote "!$&'()*+,;=:[]<>-_.~") c.
Definition userinfo_ok c := is_alnum c || in_set "-._:~!$&'()*+,;=%@" c.
End Characters.

(** [strings.Cut] at a byte. *)
Fixpoint cut (s : string) (sep : ascii) : string * string :=
  match s with
  | EmptyString => ("", "")
  | String c s' =>
      if Ascii.eqb c sep then ("", s') else let '(a, b) := cut s' sep in (String c a, b)
  end.

Fixpoint indexByte (s : string) (sep : ascii) : option nat :=
  match s with
  | EmptyString => None
  | String c s' => if Ascii.eqb c sep then Some 0 else S <$> indexByte s' sep
  end.

Inductive escMode := EncodeHost | EncodeZone | EncodeOther.

(** [unescape]: decode [%XX]; [None] is an error. *)
Fixpoint unescape (mode : escMode) (s : string) : option string :=
  match s with
  | EmptyString => Some ""
  | String c s' =>
      if Ascii.eqb c "%"%char then
        match s' with
        | String a (String b r) =>
            if is_hex a && is_hex b then
              let v := Ascii.ascii_of_nat (16 * unhex a + unhex b) in
              let is25 := Ascii.eqb a "2"%char && Ascii.eqb b "5"%char in
              let bad := match mode with
                         | EncodeHost => (unhex a <? 8) && negb is25
                         | EncodeZone =>
                             negb is25 && negb (Ascii.eqb v " "%char)
                             && negb (host_ok v)
                         | EncodeOther => false
                         end in
              if bad then None else String v <$> unescape mode r
            else None
        | _ => None
        end
      else
        let bad := match mode with
                   | EncodeOther => false
                   | _ => (Ascii.nat_of_ascii c <? 128) && negb (host_ok c)
                   end in
        if bad then None else String c <$> unescape mode s'
  end.

Definition validOptionalPort (p : string) : bool :=
  match p with
  | EmptyString => true
  | String c p' => Ascii.eqb c ":"%char && str_forall is_dec p'
  end.

(** [getScheme]: [None] is an error, otherwise scheme and rest. *)
Fixpoint getScheme_from (pre s raw : string) : option (string * string) :=
  match s with
  | EmptyString => Some ("", raw)
  | String c s' =>
      if is_alpha c then getScheme_from (pre +:+ String c "") s' raw
      else if is_dec c || in_set "+-." c then
        if String.eqb pre "" then Some ("", raw) else getScheme_from (pre +:+ String c "") s' raw
      else if Ascii.eqb c ":"%char then
        if String.eqb pre "" then None else Some (pre, s')
      else Some ("", raw)
  end.
Definition getScheme (raw : string) : option (string * string) := getScheme_from "" raw raw.

(** [strings.Index] of a literal. *)
Fixpoint indexStr (s sub : string) : option nat :=
  if String.prefix sub s then Some 0
  else match s with EmptyString => None | String _ s' => S <$> indexStr s' sub end.

(** The number of leading characters that satisfy [f]. *)
Fixpoint span_len (f : ascii → bool) (s : string) : nat :=
  match s with
  | EmptyString => 0
  | String c s' => if f c then S (span_len f s') else 0
  end.

(** The value of a short decimal string. *)
Fixpoint dec_value (acc : nat) (s : string) : nat :=
  match s with
  | EmptyString => acc
  | String c s' => dec_value (10 * acc + unhex c) s'
  end.

(** [netip.parseIPv4Fields]: four decimal fields up to 255 without leading zeros. *)
Definition validIPv4 (s : string) : bool :=
  let fs := split s "."%char in
  (length fs =? 4) &&
  forallb (fun f =>
    str_forall is_dec f && (1 <=? String.length f) && (String.length f <=? 3)
    && ((String.length f =? 1) || negb (hasPrefix f "0")) && (dec_value 0 f <=? 255)) fs.

(** [netip.parseIPv6] without the zone: [i] bytes are filled and [ell] tells whether an
    ellipsis was read; [fuel] bounds the number of fields (at most eight). *)
Fixpoint parseIPv6 (fuel i : nat) (ell : bool) (s : string) : bool :=
  let finish (i : nat) (ell : bool) := if i <? 16 then ell else negb ell in
  match fuel with
  | O => String.eqb s "" && finish i ell
  | S fuel =>
      if 16 <=? i then String.eqb s "" && finish i ell else
      let off := span_len is_hex s in
      if (off =? 0) || (4 <? off) then false else
      match str_drop off s with
      | EmptyString => finish (i + 2) ell
      | String c r =>
          if Ascii.eqb c "."%char then
            (ell || (i =? 12)) && (i + 4 <=? 16) && validIPv4 s && finish (i + 4) ell
          else if negb (Ascii.eqb c ":"%char) then false else
          match r with
          | EmptyString => false
          | String d r' =>
              if Ascii.eqb d ":"%char then
                if ell then false
                else if String.eqb r' "" then finish (i + 2) true
                else parseIPv6 fuel (i + 2) true r'
              else parseIPv6 fuel (i + 2) ell r
          end
      end
  end.

(** [netip.ParseAddr] accepts the string as an IPv6 address, possibly with a zone. *)
Definition validIPv6 (s : string) : bool :=
  let '(addr, zone) := cut s "%"%char in
  let hasZone := in_set s "%"%char in
  let first := str_drop (span_len (fun c => negb (in_set ".:%" c)) s) s in
  hasPrefix first ":"
  && negb (hasZone && String.eqb zone "")
  && (if hasPrefix addr "::" then
        String.eqb (str_drop 2 addr) "" || parseIPv6 8 0 true (str_drop 2 addr)
      else parseIPv6 8 0 false addr).

(** [parseHost] (Go 1.26: a bracketed host is an IPv6 literal, and only one colon may stand
    in the host of an http or https URL). *)
Definition parseHost (scheme host : string) : option string :=
  match lastIndex host "["%char with
  | Some (S _) => None
  | Some O =>
      match lastIndex host "]"%char with
      | None => None
      | Some close =>
          let colonPort := str_drop (S close) host in
          if negb (validOptionalPort colonPort) then None else
          let hostname := str_take (close - 1) (str_drop 1 host) in
          let un := match indexStr hostname "%25" with
                    | Some zone =>
                        match unescape EncodeHost (str_take zone hostname),
                              unescape EncodeZone (str_drop zone hostname) with
                        | Some a, Some b => Some (a +:+ b)
                        | _, _ => None
                        end
                    | None => unescape EncodeHost hostname
                    end in
          match un with
          | Some h => if validIPv6 h then Some ("[" +:+ h +:+ "]" +:+ colonPort) else None
          | None => None
          end
      end
  | None =>
      let strict := String.eqb scheme "http" || String.eqb scheme "https" in
      match (if strict then indexByte host ":"%char else lastIndex host ":"%char) with
      | Some i => if validOptionalPort (str_drop i host) then unescape EncodeHost host else None
      | None => unescape EncodeHost host
      end
  end.

(** [parseAuthority]: the host; the user info only has to be well formed. *)
Definition parseAuthority (scheme authority : string) : option string :=
  match lastIndex authority "@"%char with
  | None => parseHost scheme authority
  | Some i =>
      match parseHost scheme (str_drop (S i) authority) with
      | None => None
      | Some host =>
          let ui := str_take i authority in
          if negb (str_forall userinfo_ok ui) then None else
          let '(u, p) := cut ui ":"%char in
          match unescape EncodeOther u, unescape EncodeOther p with
          | Some _, Some _ => Some host
          | _, _ => None
          end
      end
  end.

Fixpoint countByte (s : string) (x : ascii) : nat :=
  match s with
  | EmptyString => 0
  | String c s' => (if Ascii.eqb c x then 1 else 0) + countByte s' x
  end.

(** [url.Parse]: the [Host] of the URL, or [None] on error. *)
Definition urlParseHost (rawURL : string) : option string :=
  let '(u, frag) := cut rawURL "#"%char in
  let parsed :=
    if negb (str_forall (fun c => negb (is_ctl c)) u) then None else
    if String.eqb u "*" then Some "" else
    match getScheme u with
    | None => None
    | Some (scheme, rest) =>
        let rest :=
          if hasSuffix rest "?" && (countByte rest "?"%char =? 1)
          then str_take (String.length rest - 1) rest
          else fst (cut rest "?"%char) in
        let hasScheme := negb (String.eqb scheme "") in
        if negb (hasPrefix rest "/") && hasScheme then Some "" (* opaque *) else
        if negb (hasPrefix rest "/") && contains (fst (cut rest "/"%char)) ":" then None else
        let '(host, path) :=
          if (hasScheme || negb (hasPrefix rest "///")) && hasPrefix rest "//" then
            let auth := str_drop 2 rest in
            match indexByte auth "/"%char with
            | Some i => (parseAuthority (toLower scheme) (str_take i auth), str_drop i auth)
            | None => (parseAuthority (toLower scheme) auth, "")
            end
          else (Some "", rest) in
        match host, unescape EncodeOther path with
        | Some h, Some _ => Some h
        | _, _ => None
        end
    end in
  match parsed, unescape EncodeOther frag with
  | Some h, Some _ => Some h
  | _, _ => None
  end.

(** [URL.Hostname]: the host without port and brackets. *)
Definition urlHostname (host : string) : string :=
  let h := match lastIndex host ":"%char with
           | Some i => if validOptionalPort (str_drop i host) then str_take i host else host
           | None => host
           end in
  if hasPrefix h "[" && hasSuffix h "]"
  then str_take (String.length h - 2) (str_drop 1 h) else h.

Example url_plain : urlParseHost "https://misskey.example.com/" = Some "misskey.example.com".
Proof. reflexivity. Qed.
Example url_port : urlHostname <$> urlParseHost "http://u:p@h.example:8080/a?b#c" = Some "h.example".
Proof. reflexivity. Qed.
Example url_v6 : urlHostname <$> urlParseHost "http://[::1]:80/" = Some "::1".
Proof. reflexivity. Qed.
Example url_v6_zone :
  urlHostname <$> urlParseHost "https://[fe80::1%25en0]/" = Some "fe80::1%en0".
Proof. reflexivity. Qed.
Example url_v6_mapped : urlParseHost "https://[::ffff:1.2.3.4]" = Some "[::ffff:1.2.3.4]".
Proof. reflexivity. Qed.
Example url_v6_bad : urlParseHost "https://[1:2:3:4:5:6:7::8]" = None.
Proof. reflexivity. Qed.
Example url_two_colons : urlParseHost "http://localhost:80:80/" = None.
Proof. reflexivity. Qed.
Example url_opaque : urlParseHost "example.com:80" = Some "".
Proof. reflexivity. Qed.
Example url_badport : urlParseHost "https://h:x/" = None.
Proof. reflexivity. Qed.
