(* ===== verification/Naming.v ===== *)
(** * Names, labels and defaults: common.go and runtime.go *)
From S2P Require Export Types Hash.
Local Open Scope string_scope.
Local Open Scope Z_scope.
Local Open Scope list_scope.

(** ** Well-known ports and identifiers *)
Definition misskeyPort : Z := 3000.
Definition proxyPort : Z := 8080.
Definition proxyMetricsPort : Z := 9180.
Definition redisPort : Z := 6379.
Definition sentinelPort : Z := 26379.
Definition meiliPort : Z := 7700.
Definition sensitiveDetectorPort : Z := 3009.
Definition postgresPort : Z := 5432.
Definition meiliMasterKeyID : string := "MEILI_MASTER_KEY".
Definition setupPasswordID : string := "SETUP_PASSWORD".
Definition sensitiveDetectorAPIKeyID : string := "SENSITIVE_DETECTOR_API_KEY".
Definition redisMasterGroup : string := "mymaster".
Definition genericNonRootUID : Z := 1000.
Definition configChecksumAnnotation : string := "cloudnative-misskey.dev/config-checksum".
Definition rotateAnnotation : string := "cloudnative-misskey.dev/rotate".

(** ** Defaults *)
Definition int32OrDefault (v def : Z) : Z := if v =? 0 then def else v.
Definition replicasOr (p : option Z) (def : Z) : option Z :=
  match p with None => Some def | Some _ => p end.
Definition boolOr (p : option bool) (def : bool) : bool :=
  match p with None => def | Some b => b end.
Definition stringOr (s def : string) : string := if String.eqb s "" then def else s.

(** [resource.MustParse] of the API machinery. *)
Class QuantityLib := { mustParse : string → Quantity }.

Definition quantityOr `{QuantityLib} (q : Quantity) (def : string) : Quantity :=
  if qty_IsZero q then mustParse def else q.

(** [len(r.Requests) > 0 || len(r.Limits) > 0] *)
Definition resourcesSet (r : ResourceRequirements) : bool :=
  (0 <? size (res_Requests r))%nat || (0 <? size (res_Limits r))%nat.

#[global] Instance Quantity_eq_dec : EqDecision Quantity.
Proof. solve_decision. Defined.

Definition resourcesOr `{QuantityLib} (r : ResourceRequirements) (reqCPU reqMem limMem : string)
    : ResourceRequirements :=
  if resourcesSet r then r
  else mkResources {["memory" := mustParse limMem]}
         (<["cpu" := mustParse reqCPU]> {["memory" := mustParse reqMem]}) [].

(** ** Checksums *)

(** What [checksumAnnotation] feeds to SHA-256: every part followed by a zero byte. *)
Definition checksumInput (parts : list string) : list N :=
  concat (map (fun p => bytes_of p ++ [0%N]) parts).
Definition checksumAnnotation (parts : list string) : gmap string string :=
  {[configChecksumAnnotation := sha256hex (checksumInput parts)]}.

(** ** Labels *)
Definition tenantOf (m : Misskey) : string := stringOr (spec_Tenant (m_Spec m)) (m_Namespace m).

Definition labelsFor (m : Misskey) (component : string) : gmap string string :=
  list_to_map [
    ("app.kubernetes.io/name", "misskey");
    ("app.kubernetes.io/instance", m_Name m);
    ("app.kubernetes.io/component", component);
    ("app.kubernetes.io/managed-by", "cloudnative-misskey");
    ("cloudnative-misskey.dev/tenant", tenantOf m)].

Definition selectorFor (m : Misskey) (component : string) : gmap string string :=
  list_to_map [
    ("app.kubernetes.io/instance", m_Name m);
    ("app.kubernetes.io/component", component)].

(** ** Child object names *)
Definition nameApp (m : Misskey) : string := m_Name m +:+ "-app".
Definition nameWorker (m : Misskey) : string := m_Name m +:+ "-worker".
Definition nameProxy (m : Misskey) : string := m_Name m +:+ "-proxy".
Definition nameMaintenance (m : Misskey) : string := m_Name m +:+ "-maintenance".
Definition nameRedis (m : Misskey) : string := m_Name m +:+ "-redis".
Definition nameRedisInstance (m : Misskey) (suffix : string) : string :=
  if String.eqb suffix "" then nameRedis m else nameRedis m +:+ "-" +:+ suffix.
Definition nameRedisHA (m : Misskey) (suffix : string) : string :=
  nameRedisInstance m suffix +:+ "-ha".
Definition nameRedisSentinelService (m : Misskey) (suffix : string) : string :=
  nameRedisHA m suffix +:+ "-sentinel".
Definition redisComponent (suffix : string) : string :=
  if String.eqb suffix "" then "redis" else "redis-" +:+ suffix.

Record redisRoleDesc := mkRoleDesc {
  rd_key : string;
  rd_nameSuffix : string;
  rd_configKey : string;
  rd_passEnv : string;
  rd_get : RedisRoles → option RedisRole }.
Definition redisRoleDescs : list redisRoleDesc := [
  mkRoleDesc "jobQueue" "jobqueue" "redisForJobQueue" "REDIS_PASSWORD_JOBQUEUE" roles_JobQueue;
  mkRoleDesc "pubsub" "pubsub" "redisForPubsub" "REDIS_PASSWORD_PUBSUB" roles_Pubsub;
  mkRoleDesc "timelines" "timelines" "redisForTimelines" "REDIS_PASSWORD_TIMELINES" roles_Timelines;
  mkRoleDesc "reactions" "reactions" "redisForReactions" "REDIS_PASSWORD_REACTIONS" roles_Reactions].

Definition nameMeili (m : Misskey) : string := m_Name m +:+ "-meilisearch".
Definition nameDB (m : Misskey) : string := m_Name m +:+ "-db".
Definition nameConfig (m : Misskey) : string := m_Name m +:+ "-config".
Definition nameMaintenanceHTML (m : Misskey) : string := m_Name m +:+ "-maintenance-html".
Definition nameSetup (m : Misskey) : string := m_Name m +:+ "-setup".
Definition nameSensitiveDetector (m : Misskey) : string := m_Name m +:+ "-sensitive-detector".

Definition imageHash (image : string) : string := str_take 10 (sha256hex (bytes_of image)).
Definition nameMigrate (m : Misskey) : string :=
  m_Name m +:+ "-migrate-" +:+ imageHash (spec_Image (m_Spec m)).
Definition nameDBVerify (m : Misskey) : string := nameDB m +:+ "-verify".
Definition nameDBService (m : Misskey) : string := nameDB m +:+ "-rw".
Definition nameDBReadService (m : Misskey) : string := nameDB m +:+ "-ro".
Definition nameDBPoolerRW (m : Misskey) : string := nameDB m +:+ "-pooler-rw".
Definition nameDBPoolerRO (m : Misskey) : string := nameDB m +:+ "-pooler-ro".
Definition nameMigrateConfig (m : Misskey) : string := m_Name m +:+ "-migrate-config".
Definition namePreBackup (m : Misskey) : string :=
  m_Name m +:+ "-premigrate-" +:+ imageHash (spec_Image (m_Spec m)).
Definition nameRedisAuthSecret (m : Misskey) : string := m_Name m +:+ "-redis-auth".
Definition nameDBAppSecret (m : Misskey) : string := nameDB m +:+ "-app".
(** [hash[:10]]; every caller passes a hex SHA-256 or checks the length first. *)
Definition nameObjectStorage (m : Misskey) (hash : string) : string :=
  m_Name m +:+ "-objstorage-" +:+ str_take 10 hash.
Definition nameObjectStorageSQL (m : Misskey) : string := m_Name m +:+ "-objstorage-sql".
Definition nameSensitiveDetectorConfigJob (m : Misskey) (hash : string) : string :=
  m_Name m +:+ "-sensitive-detector-config-" +:+ str_take 10 hash.
Definition nameSensitiveDetectorConfig (m : Misskey) : string :=
  m_Name m +:+ "-sensitive-detector-config".
Definition redisAuthSecretKeySelector (m : Misskey) : SecretKeySelector :=
  mkSel (nameRedisAuthSecret m) "password".

(** All redis suffixes, the default one first (redis.go). *)
Definition allRedisSuffixes : list string := "" :: map rd_nameSuffix redisRoleDescs.

(** ** Runtime contract of the Misskey image: runtime.go *)
Definition defaultMisskeyUID : Z := 991.
Definition defaultConfigPath : string := "/misskey/.config/default.yml".
Definition defaultBuiltPath : string := "/misskey/built".
Definition defaultHealthPath : string := "/api/server-info".

Definition migrationConcurrentIndexes (m : Misskey) : bool :=
  boolOr (mig_CreateIndexConcurrently (spec_Migration (m_Spec m))) false.
Definition runtimeUID (m : Misskey) : Z :=
  match rt_RunAsUser (spec_Runtime (m_Spec m)) with Some u => u | None => defaultMisskeyUID end.
Definition runtimeStartCommand (m : Misskey) : list string :=
  match rt_StartCommand (spec_Runtime (m_Spec m)) with
  | [] => ["pnpm"; "run"; "start"]
  | c => c
  end.
Definition runtimeMigrateCommand (m : Misskey) : list string :=
  match rt_MigrateCommand (spec_Runtime (m_Spec m)) with
  | [] => ["pnpm"; "run"; "migrate"]
  | c => c
  end.
Definition runtimeHealthPath (m : Misskey) : string :=
  stringOr (rt_HealthPath (spec_Runtime (m_Spec m))) defaultHealthPath.
Definition runtimeConfigPath (m : Misskey) : string :=
  stringOr (rt_ConfigPath (spec_Runtime (m_Spec m))) defaultConfigPath.
Definition runtimeBuiltPath (m : Misskey) : string :=
  match rt_BuiltPath (spec_Runtime (m_Spec m)) with Some p => p | None => defaultBuiltPath end.

(** ** Lemmas *)

Lemma stringOr_default d : stringOr "" d = d.
Proof. done. Qed.
Lemma stringOr_set s d : s ≠ "" → stringOr s d = s.
Proof. intros H. unfold stringOr. apply String.eqb_neq in H. by rewrite H. Qed.
Lemma stringOr_nonempty s d : d ≠ "" → stringOr s d ≠ "".
Proof. intros H. unfold stringOr. destruct (String.eqb s "") eqn:E; bool_prop; done. Qed.
Lemma int32OrDefault_nonzero v d : d ≠ 0 → int32OrDefault v d ≠ 0.
Proof. unfold int32OrDefault. destruct (Z.eqb_spec v 0); done. Qed.

(** A checksum input determines the parts when no part holds a zero byte. *)
Definition no_nul (s : string) : Prop := 0%N ∉ bytes_of s.

Lemma bytes_of_inj a b : bytes_of a = bytes_of b → a = b.
Proof.
  unfold bytes_of. revert b. induction a as [|x a IH]; intros [|y b]; simpl; try done.
  intros [= Hx H]. apply IH in H as ->. f_equal.
  rewrite <- (Ascii.ascii_N_embedding x), <- (Ascii.ascii_N_embedding y). by f_equal.
Qed.

Lemma nul_cut (a b x y : list N) :
  0%N ∉ a → 0%N ∉ b → a ++ 0%N :: x = b ++ 0%N :: y → a = b ∧ x = y.
Proof.
  revert b. induction a as [|c a IH]; intros [|d b]; simpl; rewrite ?not_elem_of_cons.
  - intros _ _ [= ->]. done.
  - intros _ [? _] [= <- _]. done.
  - intros [? _] _ [= -> _]. done.
  - intros [_ Ha] [_ Hb] [= -> H]. apply IH in H as [-> ->]; done.
Qed.

Lemma checksumInput_inj ps qs :
  Forall no_nul ps → Forall no_nul qs → checksumInput ps = checksumInput qs → ps = qs.
Proof.
  unfold checksumInput. intros Hp. revert qs.
  induction Hp as [|p ps Hp _ IH]; intros qs Hq; destruct Hq as [|q qs Hq Hqs]; simpl.
  - done.
  - intros H. by destruct (bytes_of q).
  - intros H. by destruct (bytes_of p).
  - rewrite <- !app_assoc. simpl. intros [Hb H]%nul_cut; [|done..].
    apply bytes_of_inj in Hb as ->. f_equal. auto.
Qed.
