(* ===== verification/KubeTypes.v ===== *)
(** * Kubernetes objects the operator reads and writes

    The fields of the Kubernetes API objects that the operator sets or inspects, one record
    per type, with the API's names.  Objects of custom resources the operator does not import
    the types of (CNPG, the redis operator, KEDA, Prometheus) are [Unstructured]: metadata, a
    kind and a JSON tree, as in the source. *)
From S2P Require Export Naming.
Local Open Scope string_scope.
Local Open Scope Z_scope.
Local Open Scope list_scope.

(** ** JSON trees *)

(** [map[string]any] and its values; an object is its list of fields, one per key. *)
#[warnings="-register-all"]
Inductive json :=
  | JNull
  | JBool (b : bool)
  | JInt (z : Z)
  | JStr (s : string)
  | JArr (l : list json)
  | JObj (fields : list (string * json)).

Fixpoint jfield (k : string) (l : list (string * json)) : option json :=
  match l with
  | [] => None
  | (k', v) :: l => if String.eqb k k' then Some v else jfield k l
  end.
(** The value at a path of keys ([unstructured.NestedFieldNoCopy]). *)
Fixpoint nested (j : json) (path : list string) : option json :=
  match path with
  | [] => Some j
  | k :: path =>
      match j with
      | JObj l => match jfield k l with Some v => nested v path | None => None end
      | _ => None
      end
  end.
(** [unstructured.NestedString] and [NestedInt64] as the source uses them: the zero value
    when the field is missing or of another type. *)
Definition nestedString (j : json) (path : list string) : string :=
  match nested j path with Some (JStr s) => s | _ => "" end.
Definition nestedInt64 (j : json) (path : list string) : Z :=
  match nested j path with Some (JInt z) => z | _ => 0 end.
(** [o[k] = v] on an object. *)
Fixpoint jset_fields (k : string) (v : json) (l : list (string * json)) : list (string * json) :=
  match l with
  | [] => [(k, v)]
  | (k', w) :: l => if String.eqb k k' then (k, v) :: l else (k', w) :: jset_fields k v l
  end.
Definition jset (k : string) (v : json) (j : json) : json :=
  match j with JObj l => JObj (jset_fields k v l) | _ => j end.
Definition jmap (m : gmap string string) : json :=
  JObj (map (fun '(k, v) => (k, JStr v)) (map_to_list m)).

(** ** Kinds *)
Record GVK := mkGVK { gvk_Group : string; gvk_Version : string; gvk_Kind : string }.
#[global] Instance GVK_eq_dec : EqDecision GVK.
Proof. solve_decision. Defined.

Record Unstructured := mkUnstructured {
  u_GVK : GVK;
  u_Meta : ObjectMeta;
  u_Object : json }.

(** ** Pods *)
Record EnvVar := mkEnv { env_Name : string; env_Value : string; env_Secret : option SecretKeySelector }.
Definition envValue (n v : string) : EnvVar := mkEnv n v None.

Record ContainerPort := mkContainerPort { cp_Name : string; cp_ContainerPort : Z }.
Record VolumeMount := mkMount {
  vm_Name : string; vm_MountPath : string; vm_SubPath : string; vm_ReadOnly : bool }.
Inductive VolumeSource :=
  | VSConfigMap (name : string)
  | VSEmptyDir.
Record Volume := mkVolume { vol_Name : string; vol_Source : VolumeSource }.

Inductive IntOrString := IOSInt (z : Z) | IOSString (s : string).
Inductive ProbeHandler :=
  | HTTPGet (path : string) (port : IntOrString)
  | Exec (command : list string).
Record Probe := mkProbe {
  pr_Handler : ProbeHandler;
  pr_InitialDelaySeconds : Z;
  pr_PeriodSeconds : Z;
  pr_TimeoutSeconds : Z;
  pr_FailureThreshold : Z }.

Record SecurityContext := mkSecurityContext {
  sc_AllowPrivilegeEscalation : option bool;
  sc_ReadOnlyRootFilesystem : option bool;
  sc_CapabilitiesDrop : list string }.
Record PodSecurityContext := mkPodSecurityContext {
  psc_RunAsNonRoot : option bool;
  psc_RunAsUser : option Z;
  psc_FSGroup : option Z;
  psc_SeccompProfile : string }.

Record Container := mkContainer {
  c_Name : string;
  c_Image : string;
  c_Command : list string;
  c_Env : list EnvVar;
  c_Ports : list ContainerPort;
  c_Resources : ResourceRequirements;
  c_VolumeMounts : list VolumeMount;
  c_StartupProbe : option Probe;
  c_ReadinessProbe : option Probe;
  c_LivenessProbe : option Probe;
  c_SecurityContext : option SecurityContext }.

(** Label selectors. *)
Inductive SelectorOp := OpIn | OpNotIn.
Record SelectorRequirement := mkReq { lsr_Key : string; lsr_Operator : SelectorOp; lsr_Values : list string }.
Record LabelSelector := mkSelector {
  ls_MatchLabels : gmap string string;
  ls_MatchExpressions : list SelectorRequirement }.
Definition matchLabels (m : gmap string string) : LabelSelector := mkSelector m [].

Record TopologySpreadConstraint := mkSpread {
  ts_MaxSkew : Z; ts_TopologyKey : string; ts_WhenUnsatisfiable : string;
  ts_LabelSelector : LabelSelector }.

Record PodSpec := mkPodSpec {
  ps_AutomountServiceAccountToken : option bool;
  ps_RestartPolicy : string;
  ps_ImagePullSecrets : list LocalObjectReference;
  ps_SecurityContext : option PodSecurityContext;
  ps_TopologySpread : list TopologySpreadConstraint;
  ps_NodeSelector : gmap string string;
  ps_Tolerations : list Toleration;
  ps_InitContainers : list Container;
  ps_Containers : list Container;
  ps_Volumes : list Volume }.
Definition emptyPodSpec : PodSpec := mkPodSpec None "" [] None [] ∅ [] [] [] [].

Record PodTemplate := mkTemplate {
  pt_Labels : gmap string string;
  pt_Annotations : gmap string string;
  pt_Spec : PodSpec }.

(** ** Workloads *)
Record DeploymentStrategy := mkStrategy {
  strat_Type : string; strat_MaxUnavailable : option IntOrString; strat_MaxSurge : option IntOrString }.
Record Deployment := mkDeployment {
  dep_Meta : ObjectMeta;
  dep_Replicas : option Z;
  dep_Strategy : DeploymentStrategy;
  dep_Selector : LabelSelector;
  dep_Template : PodTemplate;
  dep_ObservedGeneration : Z;
  dep_UpdatedReplicas : Z;
  dep_AvailableReplicas : Z }.

Record PersistentVolumeClaim := mkPVC {
  pvc_Meta : ObjectMeta;
  pvc_AccessModes : list string;
  pvc_StorageClassName : option string;
  pvc_Requests : ResourceList }.
Record StatefulSet := mkStatefulSet {
  sts_Meta : ObjectMeta;
  sts_ServiceName : string;
  sts_Replicas : option Z;
  sts_Selector : LabelSelector;
  sts_Template : PodTemplate;
  sts_VolumeClaimTemplates : list PersistentVolumeClaim;
  sts_ReadyReplicas : Z }.

Record Job := mkJob {
  job_Meta : ObjectMeta;
  job_BackoffLimit : option Z;
  job_Parallelism : option Z;
  job_Completions : option Z;
  job_Template : PodTemplate;
  job_Active : Z;
  job_Succeeded : Z;
  job_Failed : Z }.

Record PodCondition := mkPodCondition { pc_Type : string; pc_Status : ConditionStatus }.
Record Pod := mkPod { pod_Meta : ObjectMeta; pod_Conditions : list PodCondition }.

(** ** Configuration and network objects *)
Record Secret := mkSecret { sec_Meta : ObjectMeta; sec_Data : gmap string string }.
Record ConfigMap := mkConfigMap { cm_Meta : ObjectMeta; cm_Data : gmap string string }.

Record ServicePort := mkServicePort {
  sp_Name : string; sp_Port : Z; sp_TargetPort : option IntOrString }.
Record Service := mkService {
  svc_Meta : ObjectMeta;
  svc_ClusterIP : string;
  svc_Selector : gmap string string;
  svc_Ports : list ServicePort }.

Record IngressPath := mkIngressPath {
  ip_Path : string; ip_PathType : string; ip_ServiceName : string; ip_ServicePort : Z }.
Record IngressRule := mkIngressRule { ir_Host : string; ir_Paths : list IngressPath }.
Record IngressTLS := mkIngressTLS { tls_Hosts : list string; tls_SecretName : string }.
Record Ingress := mkIngressObj {
  ing_Meta : ObjectMeta;
  ingo_ClassName : option string;
  ingo_Rules : list IngressRule;
  ingo_TLS : list IngressTLS }.

Inductive NetworkPolicyPeer :=
  | PeerPods (sel : LabelSelector)
  | PeerNamespaces (sel : LabelSelector)
  | PeerIPBlock (cidr : string) (except : list string).
Record NetworkPolicyPort := mkNPPort { npp_Protocol : option string; npp_Port : Z }.
Record NetworkPolicyRule := mkNPRule {
  npr_Peers : list NetworkPolicyPeer; npr_Ports : list NetworkPolicyPort }.
Record NetworkPolicy := mkNetworkPolicy {
  np_Meta : ObjectMeta;
  np_PodSelector : LabelSelector;
  np_PolicyTypes : list string;
  np_Ingress : list NetworkPolicyRule;
  np_Egress : list NetworkPolicyRule }.

Record PodDisruptionBudget := mkPDB {
  pdb_Meta : ObjectMeta;
  pdb_MaxUnavailable : option IntOrString;
  pdb_Selector : option LabelSelector }.

Record MetricSpec := mkMetric { met_Resource : string; met_AverageUtilization : Z }.
Record HPA := mkHPA {
  hpa_Meta : ObjectMeta;
  hpa_TargetKind : string;
  hpa_TargetName : string;
  hpa_MinReplicas : option Z;
  hpa_MaxReplicas : Z;
  hpa_Metrics : list MetricSpec }.

Record ResourceQuota := mkQuota { rq_Meta : ObjectMeta; rq_Hard : ResourceList }.
Record LimitRangeItem := mkLimitItem {
  li_Type : string; li_Default : ResourceList; li_DefaultRequest : ResourceList; li_Max : ResourceList }.
Record LimitRange := mkLimitRangeObj { lro_Meta : ObjectMeta; lro_Limits : list LimitRangeItem }.

(** ** Fresh objects: an object literal with a name and a namespace only *)
Definition newSecret (name ns : string) : Secret := mkSecret (newMeta name ns) ∅.
Definition newConfigMap (name ns : string) : ConfigMap := mkConfigMap (newMeta name ns) ∅.
Definition newService (name ns : string) : Service := mkService (newMeta name ns) "" ∅ [].
Definition emptyTemplate : PodTemplate := mkTemplate ∅ ∅ emptyPodSpec.
Definition newDeployment (name ns : string) : Deployment :=
  mkDeployment (newMeta name ns) None (mkStrategy "" None None) (matchLabels ∅) emptyTemplate 0 0 0.
Definition newStatefulSet (name ns : string) : StatefulSet :=
  mkStatefulSet (newMeta name ns) "" None (matchLabels ∅) emptyTemplate [] 0.
Definition newIngress (name ns : string) : Ingress := mkIngressObj (newMeta name ns) None [] [].
Definition newNetworkPolicy (name ns : string) : NetworkPolicy :=
  mkNetworkPolicy (newMeta name ns) (matchLabels ∅) [] [] [].
Definition newPDB (name ns : string) : PodDisruptionBudget := mkPDB (newMeta name ns) None None.
Definition newHPA (name ns : string) : HPA := mkHPA (newMeta name ns) "" "" None 0 [].
Definition newQuota (name ns : string) : ResourceQuota := mkQuota (newMeta name ns) ∅.
Definition newLimitRange (name ns : string) : LimitRange := mkLimitRangeObj (newMeta name ns) [].
Definition newUnstructured (g : GVK) (name ns : string) : Unstructured :=
  mkUnstructured g (newMeta name ns) (JObj []).

(** A fresh unstructured object with labels and a spec. *)
Definition unstructuredWith (g : GVK) (name ns : string) (labels : gmap string string) (spec : json)
    : Unstructured :=
  mkUnstructured g (set_Labels labels (newMeta name ns)) (JObj [("spec", spec)]).
