(* ===== verification/Kube.v ===== *)
(** * The API client: requests, handlers as request trees, and reasoning about them

    A handler of the controllers is a [prog]: a tree whose nodes are the requests it sends
    through the client, the event recorder, the clock and the random source, and whose
    branches are the possible answers.  Nothing is assumed about the API server: a property
    of a handler holds for every answer to every request.

    [wp p Q h] says that every run of [p] that starts after the history [h] ends in a history
    and a result that satisfy [Q]; [runs] is the relational semantics it is sound for. *)
From S2P Require Export KubeTypes.
Local Open Scope string_scope.
Local Open Scope Z_scope.
Local Open Scope list_scope.

(** ** Errors *)

(** The classes of API errors the source tells apart ([apierrors.IsNotFound],
    [meta.IsNoMatchError], conflicts), and the text of an error. *)
Inductive errKind := EKNotFound | EKNoMatch | EKConflict | EKOther.
#[global] Instance errKind_eq_dec : EqDecision errKind.
Proof. solve_decision. Defined.
Record error := mkError { err_Kind : errKind; err_Text : string }.
Definition isNotFound (e : error) : bool :=
  match err_Kind e with EKNotFound => true | _ => false end.
Definition isNoMatch (e : error) : bool :=
  match err_Kind e with EKNoMatch => true | _ => false end.
Definition isConflict (e : error) : bool :=
  match err_Kind e with EKConflict => true | _ => false end.
(** [fmt.Errorf]; with [%w] the class of the wrapped error is kept. *)
Definition errorf (s : string) : error := mkError EKOther s.
Definition wrapErr (prefix : string) (e : error) : error :=
  mkError (err_Kind e) (prefix +:+ ": " +:+ err_Text e).

(** ** Kinds and their objects *)
Inductive kind :=
  | KMisskey | KChannel | KSecret | KConfigMap | KService | KDeployment | KStatefulSet | KJob
  | KIngress | KNetworkPolicy | KPDB | KHPA | KResourceQuota | KLimitRange | KPVC | KPod
  | KU (g : GVK).
Definition objT (k : kind) : Type :=
  match k with
  | KMisskey => Misskey
  | KChannel => MisskeyChannel
  | KSecret => Secret
  | KConfigMap => ConfigMap
  | KService => Service
  | KDeployment => Deployment
  | KStatefulSet => StatefulSet
  | KJob => Job
  | KIngress => Ingress
  | KNetworkPolicy => NetworkPolicy
  | KPDB => PodDisruptionBudget
  | KHPA => HPA
  | KResourceQuota => ResourceQuota
  | KLimitRange => LimitRange
  | KPVC => PersistentVolumeClaim
  | KPod => Pod
  | KU _ => Unstructured
  end.
Definition metaOf (k : kind) : objT k → ObjectMeta :=
  match k with
  | KMisskey => m_Meta
  | KChannel => ch_Meta
  | KSecret => sec_Meta
  | KConfigMap => cm_Meta
  | KService => svc_Meta
  | KDeployment => dep_Meta
  | KStatefulSet => sts_Meta
  | KJob => job_Meta
  | KIngress => ing_Meta
  | KNetworkPolicy => np_Meta
  | KPDB => pdb_Meta
  | KHPA => hpa_Meta
  | KResourceQuota => rq_Meta
  | KLimitRange => lro_Meta
  | KPVC => pvc_Meta
  | KPod => pod_Meta
  | KU _ => u_Meta
  end.
Definition setMeta (k : kind) : ObjectMeta → objT k → objT k :=
  match k return ObjectMeta → objT k → objT k with
  | KMisskey => set_m_Meta
  | KChannel => fun om o => mkChannel om (ch_Spec o) (ch_Status o)
  | KSecret => fun om o => mkSecret om (sec_Data o)
  | KConfigMap => fun om o => mkConfigMap om (cm_Data o)
  | KService => fun om o => mkService om (svc_ClusterIP o) (svc_Selector o) (svc_Ports o)
  | KDeployment => fun om o =>
      mkDeployment om (dep_Replicas o) (dep_Strategy o) (dep_Selector o) (dep_Template o)
        (dep_ObservedGeneration o) (dep_UpdatedReplicas o) (dep_AvailableReplicas o)
  | KStatefulSet => fun om o =>
      mkStatefulSet om (sts_ServiceName o) (sts_Replicas o) (sts_Selector o) (sts_Template o)
        (sts_VolumeClaimTemplates o) (sts_ReadyReplicas o)
  | KJob => fun om o =>
      mkJob om (job_BackoffLimit o) (job_Parallelism o) (job_Completions o) (job_Template o)
        (job_Active o) (job_Succeeded o) (job_Failed o)
  | KIngress => fun om o => mkIngressObj om (ingo_ClassName o) (ingo_Rules o) (ingo_TLS o)
  | KNetworkPolicy => fun om o =>
      mkNetworkPolicy om (np_PodSelector o) (np_PolicyTypes o) (np_Ingress o) (np_Egress o)
  | KPDB => fun om o => mkPDB om (pdb_MaxUnavailable o) (pdb_Selector o)
  | KHPA => fun om o =>
      mkHPA om (hpa_TargetKind o) (hpa_TargetName o) (hpa_MinReplicas o) (hpa_MaxReplicas o)
        (hpa_Metrics o)
  | KResourceQuota => fun om o => mkQuota om (rq_Hard o)
  | KLimitRange => fun om o => mkLimitRangeObj om (lro_Limits o)
  | KPVC => fun om o =>
      mkPVC om (pvc_AccessModes o) (pvc_StorageClassName o) (pvc_Requests o)
  | KPod => fun om o => mkPod om (pod_Conditions o)
  | KU _ => fun om o => mkUnstructured (u_GVK o) om (u_Object o)
  end.

(** Deletion propagation; [None] is the request without the option. *)
Inductive propagation := Background | Orphan.

(** An entry of the digest cache (imagedigest.go). *)
Record digestEntry := mkDigest { d_digest : string; d_resolvedAt : Z }.
#[global] Instance digestEntry_eq_dec : EqDecision digestEntry.
Proof. solve_decision. Defined.

(** ** Requests and answers *)

(** [UpsertBegin]/[UpsertCommit] are the two halves of [controllerutil.CreateOrUpdate]: it
    reads the object, calls the mutation on what it found (or on the given object when there
    is none), and writes the result.  [RemoteHead] is the registry's manifest request
    ([remote.Head]) with the keychain of the given pull Secrets, or the default one;
    [CacheLoad] and [CacheStore] are the two sections of the digest resolver that hold its
    lock (their effect is in [Digest]).  [Poll]
    asks a poll loop whether its time is left. *)
Inductive req :=
  | Get (k : kind) (name ns : string)
  | ListIn (k : kind) (ns : option string) (sel : gmap string string)
  | Create (k : kind) (o : objT k)
  | Update (k : kind) (o : objT k)
  | StatusUpdate (k : kind) (o : objT k)
  | DeleteObj (k : kind) (name ns : string) (policy : option propagation)
  | Apply (u : Unstructured)
  | UpsertBegin (k : kind) (o : objT k)
  | UpsertCommit (k : kind) (o : objT k)
  | Event (etype reason action note : string)
  | Now
  | RandRead (n : nat)
  | RemoteHead (image : string) (keychain : option (list Secret))
  | CacheLoad (key : string)
  | CacheStore (key digest : string)
  | Poll.
Definition resp (r : req) : Type :=
  match r with
  | Get k _ _ => result error (objT k)
  | ListIn k _ _ => result error (list (objT k))
  | Create k _ => result error (objT k)
  | Update k _ => result error (objT k)
  | StatusUpdate k _ => result error (objT k)
  | DeleteObj _ _ _ _ => result error unit
  | Apply _ => result error unit
  | UpsertBegin k _ => result error (objT k)
  | UpsertCommit k _ => result error (objT k)
  | Event _ _ _ _ => unit
  | Now => Z
  | RandRead _ => result error (list N)
  | RemoteHead _ _ => result error string
  | CacheLoad _ => option digestEntry
  | CacheStore _ _ => unit
  | Poll => bool
  end.

Definition event : Type := {r : req & resp r}.
Definition ev (r : req) (a : resp r) : event := existT r a.
(** A history lists the latest event last. *)
Definition history : Type := list event.

(** ** Programs *)
Inductive prog (A : Type) : Type :=
  | Ret (a : A)
  | Do (r : req) (k : resp r → prog A).
Arguments Ret {A} a.
Arguments Do {A} r k.

Fixpoint bind {A B} (p : prog A) (f : A → prog B) : prog B :=
  match p with
  | Ret a => f a
  | Do r k => Do r (fun x => bind (k x) f)
  end.
Definition send (r : req) : prog (resp r) := Do r (fun x => Ret x).

(** Programs that can fail: [if err != nil return err]. *)
Definition rprog (A : Type) : Type := prog (result error A).
Definition ok {A} (a : A) : rprog A := Ret (Ok a).
Definition fail {A} (e : error) : rprog A := Ret (Err e).
Definition tryBind {A B} (p : rprog A) (f : A → rprog B) : rprog B :=
  bind p (fun r => match r with Ok a => f a | Err e => fail e end).

Notation "'let!' x ':=' p 'in' k" := (bind p (fun x => k))
  (at level 10, x name, p at level 100, k at level 200) : go_scope.
Notation "'try' x ':=' p 'in' k" := (tryBind p (fun x => k))
  (at level 10, x name, p at level 100, k at level 200) : go_scope.
Notation "'do' p ';' k" := (tryBind p (fun _ => k))
  (at level 10, p at level 100, k at level 200) : go_scope.
Open Scope go_scope.

(** [for _, x := range l { if err := f(x); err != nil { return err } }] *)
Fixpoint forEach {A} (l : list A) (f : A → rprog unit) : rprog unit :=
  match l with
  | [] => ok tt
  | x :: l => do f x; forEach l f
  end.
(** The same, with results collected. *)
Fixpoint collect {A B} (l : list A) (f : A → rprog B) : rprog (list B) :=
  match l with
  | [] => ok []
  | x :: l => try y := f x in try ys := collect l f in ok (y :: ys)
  end.
(** A loop whose body cannot fail. *)
Fixpoint mapP {A B} (l : list A) (f : A → prog B) : prog (list B) :=
  match l with
  | [] => Ret []
  | x :: l => let! y := f x in let! ys := mapP l f in Ret (y :: ys)
  end.
Definition lift {A} (r : result error A) : rprog A := Ret r.

(** ** Semantics *)

(** [runs p h a]: some answers of the environment make [p] send the requests of [h] and end
    with [a]. *)
Fixpoint runs {A} (p : prog A) (h : history) (a : A) : Prop :=
  match p with
  | Ret b => h = [] ∧ a = b
  | Do r k => ∃ x h', h = ev r x :: h' ∧ runs (k x) h' a
  end.

(** An environment that keeps a state [S] and answers every request: the executable
    semantics the witnesses use. *)
Fixpoint exec {A S} (env : S → ∀ r, S * resp r) (s : S) (p : prog A) : S * history * A :=
  match p with
  | Ret a => (s, [], a)
  | Do r k =>
      let '(s', x) := env s r in
      let '(s'', h, a) := exec env s' (k x) in (s'', ev r x :: h, a)
  end.

Fixpoint wp {A} (p : prog A) (Q : history → A → Prop) (h : history) : Prop :=
  match p with
  | Ret a => Q h a
  | Do r k => ∀ x, wp (k x) Q (h ++ [ev r x])
  end.

(** Every request of every run satisfies [P]. *)
Fixpoint emits {A} (P : req → Prop) (p : prog A) : Prop :=
  match p with
  | Ret _ => True
  | Do r k => P r ∧ ∀ x, emits P (k x)
  end.
Definition reqs (h : history) : list req := map projT1 h.

(** [ctrl.Result]: nanoseconds until the next run, [0] for none. *)
Record Result := mkResult { RequeueAfter : Z }.

(** ** The parts of controller-runtime and apimachinery the handlers call *)
Class KubeLib := {
  setControllerReference : Misskey → ObjectMeta → result error ObjectMeta;
  isControlledBy : ObjectMeta → ObjectMeta → bool;
  containsFinalizer : ObjectMeta → string → bool;
  addFinalizer : ObjectMeta → string → ObjectMeta * bool;
  removeFinalizer : ObjectMeta → string → ObjectMeta;
  setStatusCondition : list Condition → Condition → list Condition;
  removeStatusCondition : list Condition → string → list Condition;
  (** the steps of [retry.DefaultRetry] *)
  retrySteps : nat;
  (** [runtime.DefaultUnstructuredConverter.ToUnstructured] on resource requirements *)
  resourcesToUnstructured : ResourceRequirements → result error (list (string * json));
  (** [time.Parse(time.RFC3339, s)] *)
  parseRFC3339 : string → option Z;
  (** [name.ParseReference]: whether an image reference parses *)
  parseReference : string → result error unit;
  (** [kubernetes.NewFromPullSecrets]: whether the pull Secrets parse *)
  newFromPullSecrets : list Secret → result error unit;
  (** [time.Duration.String] *)
  durationString : Z → string }.

(** The controller reference of the instance. *)
Definition refersTo (m : Misskey) (r : OwnerReference) : bool :=
  String.eqb (own_APIVersion r) "cloudnative-misskey.dev/v1beta1" && String.eqb (own_Kind r) "Misskey"
  && String.eqb (own_Name r) (m_Name m) && String.eqb (own_UID r) (om_UID (m_Meta m)).

(** [SetControllerReference] only adds an owner reference. *)
Class OwnerLaws `{KubeLib} :=
  scr_keeps : ∀ m om om', setControllerReference m om = Ok om' →
    om_Name om' = om_Name om ∧ om_Namespace om' = om_Namespace om.

(** Membership of an event in a history that is put together from pieces. *)
Ltac in_hist :=
  repeat match goal with H : _ ∈ _ ++ _ |- _ => rewrite elem_of_app in H end;
  rewrite ?elem_of_app, ?elem_of_cons; tauto.

(** ** Soundness and composition *)

Lemma exec_runs {A S} (env : S → ∀ r, S * resp r) (p : prog A) s :
  runs p (exec env s p).1.2 (exec env s p).2.
Proof.
  revert s. induction p as [a|r k IH]; intros s; simpl; [done|].
  destruct (env s r) as [s' x] eqn:E. pose proof (IH x s') as Hx.
  destruct (exec env s' (k x)) as [[s'' h] a] eqn:E'. simpl. by exists x, h.
Qed.

Lemma wp_runs {A} (p : prog A) Q h0 :
  wp p Q h0 ↔ ∀ h a, runs p h a → Q (h0 ++ h) a.
Proof.
  revert h0. induction p as [a|r k IH]; intros h0; simpl; split.
  - intros HQ h b [-> ->]. by rewrite app_nil_r.
  - intros H. specialize (H [] a). rewrite app_nil_r in H. by apply H.
  - intros H h b (x & h' & -> & Hr). specialize (H x). rewrite IH in H.
    specialize (H _ _ Hr). by rewrite <- app_assoc in H.
  - intros H x. rewrite IH. intros h a Hr. rewrite <- app_assoc. apply H. eauto.
Qed.

Lemma wp_mono {A} (p : prog A) (Q Q' : history → A → Prop) h :
  (∀ h a, Q h a → Q' h a) → wp p Q h → wp p Q' h.
Proof. intros HQ. revert h. induction p as [a|r k IH]; simpl; eauto. Qed.

Lemma wp_bind {A B} (p : prog A) (f : A → prog B) Q h :
  wp (bind p f) Q h ↔ wp p (fun h a => wp (f a) Q h) h.
Proof.
  revert h. induction p as [a|r k IH]; intros h; simpl; [done|].
  split; intros H x; apply IH, H.
Qed.

Lemma wp_tryBind {A B} (p : rprog A) (f : A → rprog B) Q h :
  wp (tryBind p f) Q h ↔
  wp p (fun h r => match r with Ok a => wp (f a) Q h | Err e => Q h (Err e) end) h.
Proof.
  unfold tryBind. rewrite wp_bind. split; apply wp_mono; intros h' [a|e]; done.
Qed.

Lemma wp_send r Q h : wp (send r) Q h ↔ ∀ x, Q (h ++ [ev r x]) x.
Proof. done. Qed.

(** Two facts about the same runs. *)
Lemma wp_and {A} (p : prog A) (Q Q' : history → A → Prop) h :
  wp p Q h → wp p Q' h → wp p (fun h a => Q h a ∧ Q' h a) h.
Proof. rewrite !wp_runs. auto. Qed.

(** From a property of all runs that end with [r] to weakest preconditions. *)
Lemma wp_result {A} (p : prog A) (Q : history → Prop) h r :
  wp p (fun h' r' => r' = r → Q h') [] → runs p h r → Q h.
Proof. rewrite wp_runs. intros H Hr. by apply (H h r). Qed.

(** A sub-program of which only the result matters. *)
Lemma wp_any {A} (p : prog A) Q h : (∀ h' a, Q (h ++ h') a) → wp p Q h.
Proof. intros HQ. apply wp_runs. auto. Qed.

(** Histories only grow. *)
Lemma wp_prefix {A} (p : prog A) (Q : history → A → Prop) h :
  wp p (fun h' a => h `prefix_of` h' → Q h' a) h → wp p Q h.
Proof.
  rewrite !wp_runs. intros H h' a Hr. apply H; [done|]. by exists h'.
Qed.

Lemma runs_bind {A B} (p : prog A) (f : A → prog B) h r :
  runs (bind p f) h r → ∃ h1 h2 a, h = h1 ++ h2 ∧ runs p h1 a ∧ runs (f a) h2 r.
Proof.
  revert h. induction p as [a|q k IH]; intros h; simpl.
  - intros Hr. by exists [], h, a.
  - intros (x & h' & -> & (h1 & h2 & a & -> & H1 & H2)%IH).
    exists (ev q x :: h1), h2, a. split_and!; [done| |done]. eauto.
Qed.

Lemma emits_mono {A} (P P' : req → Prop) (p : prog A) :
  (∀ r, P r → P' r) → emits P p → emits P' p.
Proof. intros HP. induction p as [a|r k IH]; simpl; [done|]. intros [? ?]; eauto. Qed.
Lemma emits_bind {A B} P (p : prog A) (f : A → prog B) :
  emits P p → (∀ a, emits P (f a)) → emits P (bind p f).
Proof. intros Hp Hf. induction p as [a|r k IH]; simpl in *; [done|]. destruct Hp as [? Hk]. eauto. Qed.
Lemma emits_tryBind {A B} P (p : rprog A) (f : A → rprog B) :
  emits P p → (∀ a, emits P (f a)) → emits P (tryBind p f).
Proof. intros Hp Hf. apply emits_bind; [done|]. by intros [a|e]. Qed.
(** The same, with what is known of the result. *)
Lemma emits_bind_runs {A B} P (p : prog A) (f : A → prog B) :
  emits P p → (∀ h a, runs p h a → emits P (f a)) → emits P (bind p f).
Proof.
  induction p as [a|r k IH]; simpl; intros Hp Hf; [by apply (Hf [])|].
  destruct Hp as [HP Hk]. split; [done|]. intros x. apply IH; [done|].
  intros h a Hr. apply (Hf (ev r x :: h)). eauto.
Qed.
Lemma emits_tryBind_runs {A B} P (p : rprog A) (f : A → rprog B) :
  emits P p → (∀ h a, runs p h (Ok a) → emits P (f a)) → emits P (tryBind p f).
Proof. intros Hp Hf. apply emits_bind_runs; [done|]. intros h [a|e] Hr; [eauto|done]. Qed.
Lemma emits_forEach {A} P (l : list A) (f : A → rprog unit) :
  (∀ a, a ∈ l → emits P (f a)) → emits P (forEach l f).
Proof.
  induction l as [|x l IH]; intros Hf; simpl; [done|].
  apply emits_tryBind; [apply Hf; left|]. intros _. apply IH. intros a Ha. apply Hf. by right.
Qed.
Lemma emits_collect {A B} P (l : list A) (f : A → rprog B) :
  (∀ a, a ∈ l → emits P (f a)) → emits P (collect l f).
Proof.
  induction l as [|x l IH]; intros Hf; simpl; [done|].
  apply emits_tryBind; [apply Hf; left|]. intros y.
  apply emits_tryBind; [apply IH; intros a Ha; apply Hf; by right|done].
Qed.
Lemma emits_mapP {A B} P (l : list A) (f : A → prog B) :
  (∀ a, a ∈ l → emits P (f a)) → emits P (mapP l f).
Proof.
  induction l as [|x l IH]; intros Hf; simpl; [done|].
  apply emits_bind; [apply Hf; left|]. intros y.
  apply emits_bind; [apply IH; intros a Ha; apply Hf; by right|done].
Qed.
Lemma emits_runs {A} P (p : prog A) h a : emits P p → runs p h a → Forall P (reqs h).
Proof.
  revert h. induction p as [b|r k IH]; intros h; simpl.
  - intros _ [-> _]. constructor.
  - intros [HP Hk] (x & h' & -> & Hr). constructor; [done|]. eauto.
Qed.

(** Footprints given by a boolean test. *)
Lemma emits_existsb {A} (f : req → bool) (p : prog A) h a :
  emits (fun r => f r = false) p → runs p h a → existsb f (reqs h) = false.
Proof.
  intros Hp Hr. apply existsb_false_In. intros r Hin%list_elem_of_In.
  pose proof (emits_runs _ _ _ _ Hp Hr) as Hf. rewrite Forall_forall in Hf. by apply Hf.
Qed.

(** A run of a program with a footprint extends the history by events of the footprint. *)
Lemma wp_emits {A} P (p : prog A) (Q : history → A → Prop) h :
  emits P p → (∀ h' a, Forall P (reqs h') → Q (h ++ h') a) → wp p Q h.
Proof. intros Hp HQ. apply wp_runs. intros h' a Hr. eauto using emits_runs. Qed.

Lemma wp_forEach {A} (I : history → Prop) (l : list A) (f : A → rprog unit) Q h :
  I h →
  (∀ x h, x ∈ l → I h →
     wp (f x) (fun h r => match r with Ok _ => I h | Err e => Q h (Err e) end) h) →
  (∀ h, I h → Q h (Ok tt)) → wp (forEach l f) Q h.
Proof.
  intros HI Hf HQ. revert h HI. induction l as [|x l IH]; intros h HI; simpl; [by apply HQ|].
  apply wp_tryBind. eapply wp_mono, Hf; [|left|done].
  intros h' [[]|e]; [|done]. intros HI'. apply IH; [|done].
  intros y h'' Hy. apply Hf. by right.
Qed.

(** A completed loop has treated every element, for a kind of evidence that stays. *)
Lemma wp_forEach_all {A} (E : A → history → Prop) (l : list A) (f : A → rprog unit) h :
  (∀ x h h', E x h → E x (h ++ h')) →
  (∀ x h, x ∈ l → wp (f x) (fun h r => r = Ok tt → E x h) h) →
  wp (forEach l f) (fun h r => r = Ok tt → ∀ x, x ∈ l → E x h) h.
Proof.
  intros Hm. revert h. induction l as [|x l IH]; intros h Hf; simpl.
  - intros _ x Hx. by apply not_elem_of_nil in Hx.
  - apply wp_tryBind. eapply wp_mono, Hf; [|left]. intros h' [[]|e] Hx; [|done].
    specialize (Hx eq_refl). apply wp_prefix. eapply wp_mono, IH.
    + intros h'' r Hr [h3 ->] Hok y Hy. apply elem_of_cons in Hy as [->|Hy]; auto.
    + intros y h'' Hy. apply Hf. by right.
Qed.

Lemma wp_mapP {A B} (R : A → B → history → Prop) (l : list A) (f : A → prog B) h0 :
  (∀ x y h h', R x y h → R x y (h ++ h')) → (∀ x h, wp (f x) (fun h y => R x y h) h) →
  wp (mapP l f) (fun h ys => Forall2 (fun x y => R x y h) l ys) h0.
Proof.
  intros Hm Hf. revert h0. induction l as [|x l IH]; intros h0; cbn [mapP]; [constructor|].
  apply wp_bind. eapply wp_mono, Hf. intros h1 y Hy. apply wp_bind, wp_prefix.
  eapply wp_mono, IH. intros h2 ys Hys [h' ->]. constructor; [by apply Hm|done].
Qed.

(** Programs that keep an invariant of the history. *)
Definition keeps {A} (I : history → Prop) (p : prog A) : Prop :=
  ∀ h, I h → wp p (fun h' _ => I h') h.

Lemma keeps_bind {A B} I (p : prog A) (f : A → prog B) :
  keeps I p → (∀ a, keeps I (f a)) → keeps I (bind p f).
Proof.
  intros Hp Hf h Hh. apply wp_bind. eapply wp_mono, Hp; [|done]. intros h' a Hh'. by apply Hf.
Qed.
Lemma keeps_tryBind {A B} I (p : rprog A) (f : A → rprog B) :
  keeps I p → (∀ a, keeps I (f a)) → keeps I (tryBind p f).
Proof. intros Hp Hf. apply keeps_bind; [done|]. intros [a|e]; [done|]. by intros h Hh. Qed.
Lemma keeps_forEach {A} I (l : list A) (f : A → rprog unit) :
  (∀ a, a ∈ l → keeps I (f a)) → keeps I (forEach l f).
Proof.
  induction l as [|x l IH]; intros Hf; simpl; [by intros h Hh|].
  apply keeps_tryBind; [apply Hf; left|]. intros _. apply IH. intros a Ha. apply Hf. by right.
Qed.
Lemma keeps_mapP {A B} I (l : list A) (f : A → prog B) :
  (∀ a, a ∈ l → keeps I (f a)) → keeps I (mapP l f).
Proof.
  induction l as [|x l IH]; intros Hf; simpl; [by intros h Hh|].
  apply keeps_bind; [apply Hf; left|]. intros y. apply keeps_bind; [|by intros z h Hh].
  apply IH. intros a Ha. apply Hf. by right.
Qed.
Lemma keeps_collect {A B} I (l : list A) (f : A → rprog B) :
  (∀ a, a ∈ l → keeps I (f a)) → keeps I (collect l f).
Proof.
  induction l as [|x l IH]; intros Hf; simpl; [by intros h Hh|].
  apply keeps_tryBind; [apply Hf; left|]. intros y. apply keeps_tryBind; [|by intros z h Hh].
  apply IH. intros a Ha. apply Hf. by right.
Qed.
(** An invariant that the events of a footprint cannot break. *)
Lemma keeps_emits {A} I P (p : prog A) :
  (∀ h e, I h → P (projT1 e) → I (h ++ [e])) → emits P p → keeps I p.
Proof.
  intros HI. induction p as [a|r k IH]; intros Hp h Hh; simpl in *; [done|].
  destruct Hp as [HP Hk]. intros x. apply IH; [done|]. by apply HI.
Qed.

Lemma runs_keeps {A} I (p : prog A) h0 h a : keeps I p → I h0 → runs p h a → I (h0 ++ h).
Proof. intros Hp Hh Hr. pose proof (Hp h0 Hh) as Hw. rewrite wp_runs in Hw. by eapply Hw. Qed.

(** Every request was justified by the history in front of it. *)
Definition justified (J : req → history → Prop) (h : history) : Prop :=
  ∀ h1 e h2, h = h1 ++ e :: h2 → J (projT1 e) h1.

Lemma justified_nil J : justified J [].
Proof. intros h1 e h2 He. by destruct h1. Qed.
Lemma justified_snoc J h e : justified J h → J (projT1 e) h → justified J (h ++ [e]).
Proof.
  intros Hh He h1 e' h2 Heq. destruct h2 as [|x h2 _] using rev_ind.
  - apply app_inj_tail in Heq as [-> ->]. by apply He.
  - rewrite app_comm_cons, app_assoc in Heq. apply app_inj_tail in Heq as [-> _].
    by eapply Hh.
Qed.
(** Requests that need no justification, and one request behind another program. *)
Lemma keeps_justified {A} J (p : prog A) :
  emits (fun r => ∀ h, J r h) p → keeps (justified J) p.
Proof. apply keeps_emits. intros h e Hh Hn. by apply justified_snoc. Qed.
Lemma wp_justified J r (Q : history → resp r → Prop) h :
  justified J h → J r h → (∀ x, justified J (h ++ [ev r x]) → Q (h ++ [ev r x]) x) →
  wp (send r) Q h.
Proof. intros Hh Hr HQ x. by apply HQ, justified_snoc. Qed.

(** [G] held of the history whenever a request of [B] was sent. *)
Definition onlyAfter (B : req → Prop) (G : history → Prop) : history → Prop :=
  justified (fun r h => B r → G h).

Lemma onlyAfter_nil B G : onlyAfter B G [].
Proof. apply justified_nil. Qed.
Lemma keeps_onlyAfter {A} B G (p : prog A) :
  emits (fun r => ¬ B r) p → keeps (onlyAfter B G) p.
Proof. intros Hp. apply keeps_justified. eapply emits_mono, Hp. by intros r Hn h Hr. Qed.
(** Behind the gate anything may happen. *)
Lemma keeps_open {A} B G (p : prog A) h :
  (∀ h h', G h → G (h ++ h')) → G h → onlyAfter B G h → wp p (fun h' _ => onlyAfter B G h') h.
Proof.
  intros HG. revert h. induction p as [a|r k IH]; intros h Hg Hh; [done|]. intros x. apply IH.
  - by apply HG.
  - by apply justified_snoc.
Qed.

(** ** Histories that hold given answers *)

Definition warranted (J : req → history → Prop) (W : list event) (h : history) : Prop :=
  justified J h ∧ ∀ w, w ∈ W → w ∈ h.

Section Warranted.
Context (J : req → history → Prop).

Lemma warranted_nil : warranted J [] [].
Proof. split; [apply justified_nil|]. by intros w Hw%not_elem_of_nil. Qed.
Lemma warranted_snoc W h r x :
  warranted J W h → J r h → warranted J (ev r x :: W) (h ++ [ev r x]).
Proof.
  intros [Hj HW] Hr. split; [by apply justified_snoc|].
  intros w [->|Hw]%elem_of_cons; apply elem_of_app; [right; left|left; auto].
Qed.
Lemma warranted_drop W W' h : W ⊆ W' → warranted J W' h → warranted J W h.
Proof. intros HW [Hj Hh]. split; [done|]. intros w Hw. by apply Hh, HW. Qed.

(** Sends one request and goes on with its answer. *)
Lemma keeps_read {A} W r (f : resp r → prog A) :
  (∀ h, warranted J W h → J r h) →
  (∀ x, keeps (warranted J (ev r x :: W)) (f x)) → keeps (warranted J W) (bind (send r) f).
Proof.
  intros HJ Hf h Hh x. eapply wp_mono; [|apply (Hf x), warranted_snoc; auto].
  intros h' a Hw. eapply warranted_drop, Hw. set_solver.
Qed.
Lemma keeps_send W r : (∀ h, warranted J W h → J r h) → keeps (warranted J W) (send r).
Proof.
  intros HJ h Hh x. eapply warranted_drop, warranted_snoc; [|done|auto]. set_solver.
Qed.
(** Forgets answers. *)
Lemma keeps_weaken {A} W W' (p : prog A) :
  W' ⊆ W → keeps (warranted J W') p → keeps (warranted J W) p.
Proof.
  intros HW Hp h [Hj Hh]. apply wp_prefix. eapply wp_mono.
  2:{ apply Hp. split; [done|]. intros w Hw. by apply Hh, HW. }
  intros h' a [Hj' _] [h'' ->]. split; [done|]. intros w Hw. apply elem_of_app. left. auto.
Qed.
End Warranted.

Lemma reqs_app h1 h2 : reqs (h1 ++ h2) = reqs h1 ++ reqs h2.
Proof. apply map_app. Qed.

(** ** Shared client operations *)

(** [deleteIfExists] (tenancy.go): missing objects and missing kinds are ignored. *)
Definition deleteIfExists (k : kind) (name ns : string) : rprog unit :=
  let! r := send (DeleteObj k name ns None) in
  match r with
  | Err e => if isNotFound e || isNoMatch e then ok tt else fail e
  | Ok _ => ok tt
  end.

(** [client.IgnoreNotFound] *)
Definition ignoreNotFound (r : result error unit) : result error unit :=
  match r with Err e => if isNotFound e then Ok tt else Err e | Ok _ => Ok tt end.

Section Apply.
Context `{KubeLib}.

(** [apply] (config.go), named [applyOwned] here: [CreateOrUpdate] with an owner reference. *)
Definition applyOwned (m : Misskey) (k : kind) (o : objT k) (mutate : objT k → rprog (objT k))
    : rprog unit :=
  try live := send (UpsertBegin k o) in
  try o' := mutate live in
  try om := lift (setControllerReference m (metaOf k o')) in
  do send (UpsertCommit k (setMeta k om o'));
  ok tt.

(** [applySSA] (config.go): server-side apply of an unstructured object. *)
Definition applySSA (m : Misskey) (u : Unstructured) : rprog unit :=
  try om := lift (setControllerReference m (u_Meta u)) in
  send (Apply (mkUnstructured (u_GVK u) om (u_Object u))).

(** [r.event]; the recorder is wired. *)
Definition event_ (etype reason action note : string) : prog unit :=
  send (Event etype reason action note).

(** [retry.RetryOnConflict(retry.DefaultRetry, f)] *)
Fixpoint retryLoop {A} (steps : nat) (f : rprog A) : rprog A :=
  match steps with
  | O => f
  | S n =>
      let! r := f in
      match r with
      | Err e => if isConflict e then retryLoop n f else fail e
      | Ok a => ok a
      end
  end.
Definition retryOnConflict {A} (f : rprog A) : rprog A := retryLoop (pred retrySteps) f.

Lemma emits_apply P m k o mutate :
  P (UpsertBegin k o) → (∀ live, emits P (mutate live)) →
  (∀ o', P (UpsertCommit k o')) → emits P (applyOwned m k o mutate).
Proof.
  intros Hb Hm Hc. apply emits_tryBind; [by split|]. intros live.
  apply emits_tryBind; [done|]. intros o'. apply emits_tryBind; [done|]. intros om.
  apply emits_tryBind; [by split|done].
Qed.
Lemma emits_retryLoop {A} P n (f : rprog A) : emits P f → emits P (retryLoop n f).
Proof.
  intros Hf. induction n; simpl; [done|]. apply emits_bind; [done|]. intros [a|e]; [done|].
  by destruct (isConflict e).
Qed.
Lemma emits_retry {A} P (f : rprog A) : emits P f → emits P (retryOnConflict f).
Proof. apply emits_retryLoop. Qed.
Lemma keeps_retry {A} I (f : rprog A) : keeps I f → keeps I (retryOnConflict f).
Proof.
  intros Hf. unfold retryOnConflict. induction (pred retrySteps) as [|n IH]; simpl; [done|].
  apply keeps_bind; [done|]. intros [a|e]; [by intros h Hh|]. destruct (isConflict e); [done|].
  by intros h Hh.
Qed.
Lemma emits_applySSA_owned P m u :
  (∀ om, setControllerReference m (u_Meta u) = Ok om →
         P (Apply (mkUnstructured (u_GVK u) om (u_Object u)))) → emits P (applySSA m u).
Proof.
  intros HP. unfold applySSA. destruct (setControllerReference m (u_Meta u)) as [om|e]; [|done].
  split; [by apply HP|done].
Qed.
Lemma emits_applySSA P m u :
  (∀ om, P (Apply (mkUnstructured (u_GVK u) om (u_Object u)))) → emits P (applySSA m u).
Proof. intros HP. apply emits_applySSA_owned. auto. Qed.
End Apply.
Lemma emits_deleteIfExists P k name ns :
  P (DeleteObj k name ns None) → emits P (deleteIfExists k name ns).
Proof.
  intros HP. apply emits_bind; [by split|]. intros [u|e]; [done|].
  by destruct (isNotFound e || isNoMatch e).
Qed.

(** ** Evidence in a history *)

(** The server was asked to delete an object and did, or does not know it. *)
Definition removed (k : kind) (name ns : string) (h : history) : Prop :=
  ∃ x, ev (DeleteObj k name ns None) x ∈ h
       ∧ match x with Ok _ => True | Err e => isNotFound e || isNoMatch e = true end.
Lemma removed_app k n ns h h' : removed k n ns h → removed k n ns (h ++ h').
Proof. intros (x & Hx & Hk). exists x. split; [set_solver|done]. Qed.
Lemma deleteIfExists_wp k n ns h0 :
  wp (deleteIfExists k n ns) (fun h r => r = Ok tt → removed k n ns h) h0.
Proof.
  unfold deleteIfExists. apply wp_bind, wp_send. intros x.
  assert (ev (DeleteObj k n ns None) x ∈ h0 ++ [ev (DeleteObj k n ns None) x]) as Hin by set_solver.
  destruct x as [u|e]; [intros _; by exists (Ok u)|].
  destruct (isNotFound e || isNoMatch e) eqn:E; [|done]. intros _. by exists (Err e).
Qed.

(** A server-side apply of [u] was accepted. *)
Definition applied `{KubeLib} (m : Misskey) (u : Unstructured) (h : history) : Prop :=
  ∃ om, setControllerReference m (u_Meta u) = Ok om
        ∧ ev (Apply (mkUnstructured (u_GVK u) om (u_Object u))) (Ok tt) ∈ h.
Lemma applied_app `{KubeLib} m u h h' : applied m u h → applied m u (h ++ h').
Proof. intros (om & Hom & Hin). exists om. split; [done|set_solver]. Qed.
Lemma applySSA_wp `{KubeLib} m u h0 :
  wp (applySSA m u) (fun h r => r = Ok tt → applied m u h) h0.
Proof.
  unfold applySSA. apply wp_tryBind. destruct (setControllerReference m (u_Meta u)) as [om|e] eqn:E;
    cbn [lift wp]; [|done]. intros [[]|e]; [|done]. intros _. exists om. split; [done|set_solver].
Qed.

(** ** Footprint automation *)

Create HintDb emits.
#[export] Hint Resolve emits_tryBind emits_bind emits_forEach emits_collect emits_mapP : emits.

(** Walks over the structure of a handler and leaves the requests. *)
Ltac emits_step :=
  lazymatch goal with
  | |- emits _ (Ret _) => exact I
  | |- emits _ (ok _) => exact I
  | |- emits _ (fail _) => exact I
  | |- emits _ (lift _) => exact I
  | |- emits _ (send _) => split; [|intros ?; exact I]
  | |- emits _ (event_ _ _ _ _) => split; [|intros ?; exact I]
  | |- emits _ (deleteIfExists _ _ _) => apply emits_deleteIfExists
  | |- emits _ (applyOwned _ _ _ _) => apply emits_apply; [|intros ?|intros ?]
  | |- emits _ (applySSA _ _) => apply emits_applySSA; intros ?
  | |- emits _ (retryOnConflict _) => apply emits_retry
  | |- emits _ (Do _ _) => split; [|intros ?]
  | |- emits _ (bind _ _) => apply emits_bind; [|intros ?]
  | |- emits _ (tryBind _ _) => apply emits_tryBind; [|intros ?]
  | |- emits _ (forEach _ _) => apply emits_forEach; intros ? _
  | |- emits _ (collect _ _) => apply emits_collect; intros ? _
  | |- emits _ (mapP _ _) => apply emits_mapP; intros ? _
  | |- emits _ (match ?x with _ => _ end) => destruct x
  | |- emits _ _ => fail
  end.
Ltac emits_tac := repeat (emits_step || (progress (auto with emits))).
