(* ===== verification/KubeSamples.v ===== *)
(** * A sample API server

    A concrete instance of the library interface and an environment that answers every
    request from a fixed set of objects: the runs the witnesses evaluate. *)
From S2P Require Export Samples Kube.
Local Open Scope string_scope.
Local Open Scope Z_scope.
Local Open Scope list_scope.

Definition ownerSample (m : Misskey) : OwnerReference :=
  mkOwner "cloudnative-misskey.dev/v1beta1" "Misskey" (m_Name m) (om_UID (m_Meta m)) true.
Definition ownedByUID (uid : string) (om : ObjectMeta) : bool :=
  existsb (fun r => own_Controller r && String.eqb (own_UID r) uid) (om_OwnerReferences om).
Definition setConditionSample (l : list Condition) (c : Condition) : list Condition :=
  if existsb (fun d => String.eqb (cond_Type d) (cond_Type c)) l
  then map (fun d => if String.eqb (cond_Type d) (cond_Type c) then c else d) l
  else l ++ [c].

Definition kubeSample : KubeLib := {|
  setControllerReference m om :=
    match List.find own_Controller (om_OwnerReferences om) with
    | Some r =>
        if refersTo m r then Ok om
        else Err (errorf "object is already owned by another controller")
    | None => Ok (set_OwnerReferences (om_OwnerReferences om ++ [ownerSample m]) om)
    end;
  isControlledBy om owner := ownedByUID (om_UID owner) om;
  containsFinalizer om f := existsb (String.eqb f) (om_Finalizers om);
  addFinalizer om f :=
    if existsb (String.eqb f) (om_Finalizers om) then (om, false)
    else (set_Finalizers (om_Finalizers om ++ [f]) om, true);
  removeFinalizer om f :=
    set_Finalizers (List.filter (fun g => negb (String.eqb f g)) (om_Finalizers om)) om;
  setStatusCondition := setConditionSample;
  removeStatusCondition l t := List.filter (fun c => negb (String.eqb (cond_Type c) t)) l;
  retrySteps := 5;
  resourcesToUnstructured r := Ok [];
  parseRFC3339 s := None;
  parseReference s := Ok tt;
  newFromPullSecrets l := Ok tt;
  durationString z := itoa z +:+ "ns" |}.

Definition quantitySample : QuantityLib :=
  {| mustParse s := mkQuantity (Z.of_nat (String.length s)) s |}.

(** The objects the server holds, by kind and name. *)
Definition store : Type := ∀ k, string → option (objT k).
Definition noObjects : store := fun _ _ => None.
Definition notFoundSample (name : string) : error := mkError EKNotFound (name +:+ " not found").

Definition serverSample (objs : store) (_ : unit) (r : req) : unit * resp r :=
  (tt, match r as r return resp r with
       | Get k name _ =>
           match objs k name with Some o => Ok o | None => Err (notFoundSample name) end
       | ListIn _ _ _ => Ok []
       | Create _ o => Ok o
       | Update _ o => Ok o
       | StatusUpdate _ o => Ok o
       | DeleteObj _ _ _ _ => Ok tt
       | Apply _ => Ok tt
       | UpsertBegin k o =>
           match objs k (om_Name (metaOf k o)) with Some o' => Ok o' | None => Ok o end
       | UpsertCommit _ o => Ok o
       | Event _ _ _ _ => tt
       | Now => 1700000000 * Second
       | RandRead n => Ok (repeat 7%N n)
       | RemoteHead _ _ => Ok "sha256:1111"
       | CacheLoad _ => None
       | CacheStore _ _ => tt
       | Poll => false
       end).

(** The history and the result of a run against the sample server. *)
Definition historyOf {A} (objs : store) (p : prog A) : history :=
  (exec (serverSample objs) tt p).1.2.
Definition resultOf {A} (objs : store) (p : prog A) : A := (exec (serverSample objs) tt p).2.

Lemma sample_runs {A} (objs : store) (p : prog A) a :
  resultOf objs p = a → runs p (historyOf objs p) a.
Proof. intros <-. apply exec_runs. Qed.

(** Jobs the server reports as completed and as failed, and stores that hold one under any
    name. *)
Definition jobDone (name : string) : Job :=
  mkJob (newMeta name "fedi") (Some 1) None None emptyTemplate 0 1 0.
Definition jobFailed (name : string) : Job :=
  mkJob (newMeta name "fedi") (Some 1) None None emptyTemplate 0 0 3.
(** A Job with a failed pod whose replacement is running. *)
Definition jobRetrying (name : string) : Job :=
  mkJob (newMeta name "fedi") (Some 20) None None emptyTemplate 1 0 1.
Definition jobStore (job : string → Job) : store := fun k =>
  match k as k return string → option (objT k) with
  | KJob => fun n => Some (job n)
  | _ => fun _ => None
  end.
