(* ===== verification/Plan.v ===== *)
(** * The resolved plan: plan.go

    [resolve] flattens [MisskeySpec] with its defaults into one [plan]; every builder reads
    the plan instead of the managed/external alternatives of the spec.  [migratePlan]
    (config.go), [jobQueueEndpoint] (autoscaling.go) and [referencedSecretNames] (common.go)
    are the derived views the other components share. *)
From S2P Require Export Naming Url.
Local Open Scope string_scope.
Local Open Scope Z_scope.
Local Open Scope list_scope.

(** ** Data *)
Record dbEndpoint := mkDbEndpoint {
  dbe_host : string; dbe_port : Z; dbe_db : string; dbe_user : string }.

Record redisHostPort := mkHostPort { hp_host : string; hp_port : Z }.

Record redisEndpoint := mkRedisEndpoint {
  re_host : string;
  re_port : Z;
  re_db : Z;
  re_sentinels : list redisHostPort;
  re_masterName : string;
  re_passSel : option SecretKeySelector;
  re_passEnv : string;
  re_managed : bool;
  re_ha : bool;
  re_enableTLS : bool }.

Record plan := mkPlan {
  p_dbManaged : bool;
  p_dbHost : string;
  p_dbPort : Z;
  p_dbName : string;
  p_dbUser : string;
  p_dbPassSel : SecretKeySelector;
  p_dbReplications : bool;
  p_dbSlaves : list dbEndpoint;
  p_redisDefault : redisEndpoint;
  p_redisRoles : gmap string redisEndpoint;
  p_provider : SearchProvider;
  p_meiliEnabled : bool;
  p_meiliManaged : bool;
  p_meiliHost : string;
  p_meiliPort : Z;
  p_meiliSSL : bool;
  p_meiliIndex : string;
  p_meiliScope : string;
  p_meiliKeySel : SecretKeySelector;
  p_ingressHost : string;
  p_setupEnabled : bool;
  p_setupManaged : bool;
  p_setupSel : SecretKeySelector;
  p_objEnabled : bool;
  p_objAutoConfigure : bool;
  p_objBucket : string;
  p_objEndpoint : string;
  p_objRegion : string;
  p_objPrefix : string;
  p_objBaseURL : string;
  p_objPort : option Z;
  p_objUseSSL : bool;
  p_objUseProxy : bool;
  p_objSetPublicRead : bool;
  p_objForcePathStyle : bool;
  p_objAccessKeySel : SecretKeySelector;
  p_objSecretKeySel : SecretKeySelector;
  p_objColumns : gmap string string;
  p_objExtra : gmap string string;
  p_objImage : string;
  p_sensitiveDetectorEnabled : bool;
  p_sensitiveDetectorManaged : bool;
  p_sensitiveDetectorURL : string;
  p_sensitiveDetectorAPIKeySel : SecretKeySelector;
  p_sensitiveDetectorConfigImage : string }.

(** The zero value of a selector. *)
Definition noSel : SecretKeySelector := mkSel "" "".

(** ** Hosts *)

Definition hostFromURL (raw : string) : string :=
  match urlParseHost raw with
  | Some host =>
      if String.eqb host "" then
        let s := trimPrefix (trimPrefix raw "https://") "http://" in
        match indexAny s "/:" with Some i => str_take i s | None => s end
      else urlHostname host
  | None =>
      let s := trimPrefix (trimPrefix raw "https://") "http://" in
      match indexAny s "/:" with Some i => str_take i s | None => s end
  end.

Definition index_char (c : ascii) : bool := is_alnum c || in_set "-_" c.
Definition is_dash (c : ascii) : bool := Ascii.eqb c "-"%char.

(** One output byte per rune. *)
Definition sanitize_rune (r : chunk) : string :=
  match r with
  | RAscii c => if index_char c then String c "" else "-"
  | _ => "-"
  end.
Definition sanitizeIndex (host : string) : string :=
  let out := trim is_dash (concat_str (map sanitize_rune (runes host))) in
  if String.eqb out "" then "misskey" else out.

(** ** Redis endpoints *)

Definition externalRedisEndpoint (ext : ExternalRedis) (passEnv : string) : redisEndpoint :=
  let sentinels :=
    map (fun s => mkHostPort (rhp_Host s) (int32OrDefault (rhp_Port s) sentinelPort))
      (er_Sentinels ext) in
  mkRedisEndpoint (er_Host ext) (int32OrDefault (er_Port ext) redisPort) (er_DB ext)
    sentinels (if (0 <? length sentinels)%nat then er_MasterName ext else "")
    (er_PasswordSecret ext) passEnv false false (boolOr (er_TLS ext) false).

Definition managedRedisEndpoint (m : Misskey) (suffix passEnv : string) (ha : option RedisHA)
    : redisEndpoint :=
  let authSel := redisAuthSecretKeySelector m in
  match ha with
  | Some _ =>
      mkRedisEndpoint (nameRedisHA m suffix) redisPort 0
        [mkHostPort (nameRedisSentinelService m suffix) sentinelPort] redisMasterGroup
        (Some authSel) passEnv true true false
  | None =>
      mkRedisEndpoint (nameRedisInstance m suffix) redisPort 0 [] ""
        (Some authSel) passEnv true false false
  end.

(** One role of the loop in [resolve]. *)
Definition resolveRole (m : Misskey) (roles : RedisRoles) (acc : gmap string redisEndpoint)
    (rd : redisRoleDesc) : gmap string redisEndpoint :=
  match rd_get rd roles with
  | None => acc
  | Some role =>
      match role_External role with
      | Some ext => <[rd_key rd := externalRedisEndpoint ext (rd_passEnv rd)]> acc
      | None =>
          <[rd_key rd := managedRedisEndpoint m (rd_nameSuffix rd) (rd_passEnv rd) (role_HA role)]> acc
      end
  end.
Definition resolveRoles (m : Misskey) : gmap string redisEndpoint :=
  match redis_Roles (spec_Redis (m_Spec m)) with
  | None => ∅
  | Some roles => foldl (resolveRole m roles) ∅ redisRoleDescs
  end.

(** ** PostgreSQL predicates (postgres.go) *)
Definition poolerEnabled (m : Misskey) : bool :=
  match pg_Pooler (spec_Postgres (m_Spec m)) with Some _ => true | None => false end.
Definition readOffloadActive (m : Misskey) : bool :=
  (2 <=? int32OrDefault (pg_Instances (spec_Postgres (m_Spec m))) 1)
  && boolOr (pg_ReadOffload (spec_Postgres (m_Spec m))) true.

(** ** Object storage columns *)
Definition objectStorageColumnDefaults : list (string * string) := [
  ("useObjectStorage", "useObjectStorage");
  ("baseUrl", "objectStorageBaseUrl");
  ("bucket", "objectStorageBucket");
  ("prefix", "objectStoragePrefix");
  ("endpoint", "objectStorageEndpoint");
  ("region", "objectStorageRegion");
  ("port", "objectStoragePort");
  ("accessKey", "objectStorageAccessKey");
  ("secretKey", "objectStorageSecretKey");
  ("useSSL", "objectStorageUseSSL");
  ("useProxy", "objectStorageUseProxy");
  ("setPublicRead", "objectStorageSetPublicRead");
  ("s3ForcePathStyle", "objectStorageS3ForcePathStyle")].

Definition columnOverrides (c : ObjectStorageColumns) : list (string * string) := [
  ("useObjectStorage", col_UseObjectStorage c);
  ("baseUrl", col_BaseURL c);
  ("bucket", col_Bucket c);
  ("prefix", col_Prefix c);
  ("endpoint", col_Endpoint c);
  ("region", col_Region c);
  ("port", col_Port c);
  ("accessKey", col_AccessKey c);
  ("secretKey", col_SecretKey c);
  ("useSSL", col_UseSSL c);
  ("useProxy", col_UseProxy c);
  ("setPublicRead", col_SetPublicRead c);
  ("s3ForcePathStyle", col_S3ForcePathStyle c)].

Definition objectStorageColumns (c : option ObjectStorageColumns) : gmap string string :=
  let out := list_to_map objectStorageColumnDefaults in
  match c with
  | None => out
  | Some c =>
      foldl (fun out '(logical, override) =>
        if String.eqb override "" then out else <[logical := override]> out)
        out (columnOverrides c)
  end.

(** The image of the psql Jobs. *)
Definition psqlImage : string := "ghcr.io/cloudnative-pg/postgresql:17".

(** ** resolve *)

(** The PostgreSQL part of [resolve]: managed, host, port, database, user, password
    selector, read offload and the replica endpoints. *)
Definition resolveDB (m : Misskey)
    : bool * string * Z * string * string * SecretKeySelector * bool * list dbEndpoint :=
  let pg := spec_Postgres (m_Spec m) in
  match pg_External pg with
  | Some ext =>
      (false, ep_Host ext, int32OrDefault (ep_Port ext) postgresPort, ep_Database ext,
       ep_User ext, ep_PasswordSecret ext, false, [])
  | None =>
      let name := stringOr (pg_Database pg) "misskey" in
      let user := stringOr (pg_Owner pg) "misskey" in
      let usePooler := poolerEnabled m in
      let host := if usePooler then nameDBPoolerRW m else nameDBService m in
      let sel := mkSel (nameDBAppSecret m) "password" in
      if readOffloadActive m then
        let readHost := if usePooler then nameDBPoolerRO m else nameDBReadService m in
        (true, host, postgresPort, name, user, sel, true,
         [mkDbEndpoint readHost postgresPort name user])
      else (true, host, postgresPort, name, user, sel, false, [])
  end.

(** The search part: enabled, managed, host, port, ssl, index, scope, key selector. *)
Definition resolveSearch (m : Misskey)
    : bool * bool * string * Z * bool * string * string * SecretKeySelector :=
  let s := m_Spec m in
  let provider := stringOr (search_Provider (spec_Search s)) SearchMeilisearch in
  if String.eqb provider SearchMeilisearch then
    let ms := search_Meilisearch (spec_Search s) in
    let index := stringOr (meili_Index ms) (sanitizeIndex (hostFromURL (spec_URL s))) in
    let scope := stringOr (meili_Scope ms) "local" in
    match meili_External ms with
    | Some ext =>
        (true, false, em_Host ext, int32OrDefault (em_Port ext) meiliPort, em_SSL ext,
         index, scope, em_APIKeySecret ext)
    | None =>
        (true, true, nameMeili m, meiliPort, false, index, scope,
         deref (mkSel (nameMeili m) meiliMasterKeyID) (meili_MasterKeySecret ms))
    end
  else (false, false, "", 0, false, "", "", noSel).

(** The sensitive-media detector: enabled, managed, URL, key selector, Job image. *)
Definition resolveDetector (m : Misskey)
    : bool * bool * string * SecretKeySelector * string :=
  match spec_SensitiveDetector (m_Spec m) with
  | None => (false, false, "", noSel, "")
  | Some d =>
      let img := stringOr (det_ConfigJobImage d) psqlImage in
      match det_External d with
      | Some ext => (true, false, ed_URL ext, ed_APIKeySecret ext, img)
      | None =>
          (true, true,
           "http://" +:+ nameSensitiveDetector m +:+ ":" +:+ itoa sensitiveDetectorPort,
           deref (mkSel (nameSensitiveDetector m) sensitiveDetectorAPIKeyID) (det_APIKeySecret d),
           img)
      end
  end.

(** The setup password: enabled, managed, selector. *)
Definition resolveSetup (m : Misskey) : bool * bool * SecretKeySelector :=
  match spec_SetupPassword (m_Spec m) with
  | None => (false, false, noSel)
  | Some sp =>
      match setup_SecretRef sp with
      | Some sel => (true, false, sel)
      | None => (true, true, mkSel (nameSetup m) setupPasswordID)
      end
  end.

Definition resolve (m : Misskey) : plan :=
  let s := m_Spec m in
  let '(dbManaged, dbHost, dbPort, dbName, dbUser, dbPassSel, dbReplications, dbSlaves) :=
    resolveDB m in
  let redisDefault :=
    match redis_External (spec_Redis s) with
    | Some ext => externalRedisEndpoint ext "REDIS_PASSWORD"
    | None => managedRedisEndpoint m "" "REDIS_PASSWORD" (redis_HA (spec_Redis s))
    end in
  let provider := stringOr (search_Provider (spec_Search s)) SearchMeilisearch in
  let '(meiliEnabled, meiliManaged, meiliHost, mPort, meiliSSL, meiliIndex, meiliScope, meiliKeySel) :=
    resolveSearch m in
  let '(detEnabled, detManaged, detURL, detSel, detImage) := resolveDetector m in
  let '(setupEnabled, setupManaged, setupSel) := resolveSetup m in
  let obj := spec_ObjectStorage s in
  let oget {A} (d : A) (f : ObjectStorageSpec → A) : A :=
    match obj with Some os => f os | None => d end in
  {| p_dbManaged := dbManaged; p_dbHost := dbHost; p_dbPort := dbPort; p_dbName := dbName;
     p_dbUser := dbUser; p_dbPassSel := dbPassSel; p_dbReplications := dbReplications;
     p_dbSlaves := dbSlaves;
     p_redisDefault := redisDefault; p_redisRoles := resolveRoles m;
     p_provider := provider; p_meiliEnabled := meiliEnabled; p_meiliManaged := meiliManaged;
     p_meiliHost := meiliHost; p_meiliPort := mPort; p_meiliSSL := meiliSSL;
     p_meiliIndex := meiliIndex; p_meiliScope := meiliScope; p_meiliKeySel := meiliKeySel;
     p_ingressHost := stringOr (ing_Host (spec_Ingress s)) (hostFromURL (spec_URL s));
     p_setupEnabled := setupEnabled; p_setupManaged := setupManaged; p_setupSel := setupSel;
     p_objEnabled := oget false (fun _ => true);
     p_objAutoConfigure := oget false (fun os => boolOr (os_AutoConfigure os) true);
     p_objBucket := oget "" os_Bucket;
     p_objEndpoint := oget "" os_Endpoint;
     p_objRegion := oget "" (fun os => stringOr (os_Region os) "us-east-1");
     p_objPrefix := oget "" os_Prefix;
     p_objBaseURL := oget "" os_BaseURL;
     p_objPort := oget None os_Port;
     p_objUseSSL := oget false (fun os => boolOr (os_UseSSL os) true);
     p_objUseProxy := oget false (fun os => boolOr (os_UseProxy os) true);
     p_objSetPublicRead := oget false (fun os => boolOr (os_SetPublicRead os) false);
     p_objForcePathStyle := oget false (fun os => boolOr (os_S3ForcePathStyle os) true);
     p_objAccessKeySel := oget noSel (fun os => s3_AccessKeyID (os_Credentials os));
     p_objSecretKeySel := oget noSel (fun os => s3_SecretAccessKey (os_Credentials os));
     p_objColumns := oget ∅ (fun os => objectStorageColumns (os_ColumnNames os));
     p_objExtra := oget ∅ os_ExtraColumns;
     p_objImage := oget "" (fun os => stringOr (os_Image os) psqlImage);
     p_sensitiveDetectorEnabled := detEnabled; p_sensitiveDetectorManaged := detManaged;
     p_sensitiveDetectorURL := detURL; p_sensitiveDetectorAPIKeySel := detSel;
     p_sensitiveDetectorConfigImage := detImage |}.

(** ** Derived views *)

(** [migratePlan] (config.go): the primary, without pooler and replicas. *)
Definition migratePlan (m : Misskey) (p : plan) : plan :=
  {| p_dbManaged := p_dbManaged p;
     p_dbHost := if p_dbManaged p then nameDBService m else p_dbHost p;
     p_dbPort := p_dbPort p; p_dbName := p_dbName p; p_dbUser := p_dbUser p;
     p_dbPassSel := p_dbPassSel p; p_dbReplications := false; p_dbSlaves := [];
     p_redisDefault := p_redisDefault p; p_redisRoles := p_redisRoles p;
     p_provider := p_provider p; p_meiliEnabled := p_meiliEnabled p;
     p_meiliManaged := p_meiliManaged p; p_meiliHost := p_meiliHost p;
     p_meiliPort := p_meiliPort p; p_meiliSSL := p_meiliSSL p;
     p_meiliIndex := p_meiliIndex p; p_meiliScope := p_meiliScope p;
     p_meiliKeySel := p_meiliKeySel p; p_ingressHost := p_ingressHost p;
     p_setupEnabled := p_setupEnabled p; p_setupManaged := p_setupManaged p;
     p_setupSel := p_setupSel p; p_objEnabled := p_objEnabled p;
     p_objAutoConfigure := p_objAutoConfigure p; p_objBucket := p_objBucket p;
     p_objEndpoint := p_objEndpoint p; p_objRegion := p_objRegion p;
     p_objPrefix := p_objPrefix p; p_objBaseURL := p_objBaseURL p; p_objPort := p_objPort p;
     p_objUseSSL := p_objUseSSL p; p_objUseProxy := p_objUseProxy p;
     p_objSetPublicRead := p_objSetPublicRead p; p_objForcePathStyle := p_objForcePathStyle p;
     p_objAccessKeySel := p_objAccessKeySel p; p_objSecretKeySel := p_objSecretKeySel p;
     p_objColumns := p_objColumns p; p_objExtra := p_objExtra p; p_objImage := p_objImage p;
     p_sensitiveDetectorEnabled := p_sensitiveDetectorEnabled p;
     p_sensitiveDetectorManaged := p_sensitiveDetectorManaged p;
     p_sensitiveDetectorURL := p_sensitiveDetectorURL p;
     p_sensitiveDetectorAPIKeySel := p_sensitiveDetectorAPIKeySel p;
     p_sensitiveDetectorConfigImage := p_sensitiveDetectorConfigImage p |}.

(** [jobQueueEndpoint] (autoscaling.go). *)
Definition jobQueueEndpoint (p : plan) : redisEndpoint :=
  match p_redisRoles p !! "jobQueue" with Some ep => ep | None => p_redisDefault p end.

(** [referencedSecretNames] (common.go). *)
Definition referencedSecretNames (p : plan) : gset string :=
  let names := {[sel_Name (p_dbPassSel p)]} in
  let names := if p_meiliEnabled p then {[sel_Name (p_meiliKeySel p)]} ∪ names else names in
  let names := match re_passSel (p_redisDefault p) with
               | Some sel => {[sel_Name sel]} ∪ names | None => names end in
  let names := foldl (fun names rd =>
    match p_redisRoles p !! rd_key rd with
    | Some ep => match re_passSel ep with
                 | Some sel => {[sel_Name sel]} ∪ names | None => names end
    | None => names
    end) names redisRoleDescs in
  if p_setupEnabled p then {[sel_Name (p_setupSel p)]} ∪ names else names.

(** ** sanitizeIndex yields a valid index name *)

(** The index names Misskey accepts as they are: letters, digits, [-] and [_], not empty,
    no dash at either end. *)
Definition index_ok (i : string) : bool :=
  negb (String.eqb i "") && str_forall index_char i
  && negb (hasPrefix i "-") && negb (hasSuffix i "-").

Lemma sanitize_runes_chars s :
  str_forall index_char (concat_str (map sanitize_rune (runes s))) = true.
Proof.
  induction (runes s) as [|r l IH]; [done|]. cbn [map concat_str].
  rewrite str_forall_app, IH, andb_true_r. destruct r as [c|b|c]; [|done|done].
  simpl. destruct (index_char c) eqn:E; [|done]. simpl. by rewrite E.
Qed.

Lemma trim_left_head f s c t : trim_left f s = String c t → f c = false.
Proof.
  induction s as [|x s IH]; simpl; [done|]. destruct (f x) eqn:E; [auto|].
  by intros [= -> ->].
Qed.

Lemma trim_right_head f s c t : trim_right f s = String c t → ∃ t', s = String c t'.
Proof.
  destruct s as [|x s]; simpl; [done|]. destruct (_ && f x); [done|]. intros [= -> _]. eauto.
Qed.

Lemma trim_right_last f s t c : trim_right f s = t +:+ String c "" → f c = false.
Proof.
  revert t. induction s as [|x s IH]; intros t; simpl; [by destruct t|].
  destruct (String.eqb (trim_right f s) "") eqn:E; simpl.
  - apply String.eqb_eq in E. rewrite E. destruct (f x) eqn:Fx; [by destruct t|].
    destruct t as [|y t]; simpl; [by intros [= <-]|]. intros [= _ H]. by destruct t.
  - destruct t as [|y t]; simpl; [intros [= _ H]; by rewrite H in E|]. intros [= _ H]. eauto.
Qed.

Lemma trim_head f s c t : trim f s = String c t → f c = false.
Proof. unfold trim. intros (t' & H)%trim_right_head. by eapply trim_left_head. Qed.

Lemma hasPrefix_dash s : hasPrefix s "-" = true ↔ ∃ t, s = String "-"%char t.
Proof. unfold hasPrefix. rewrite prefix_spec. done. Qed.

Lemma trim_no_dash s :
  hasPrefix (trim is_dash s) "-" = false ∧ hasSuffix (trim is_dash s) "-" = false.
Proof.
  split; apply not_true_is_false; intros H.
  - apply hasPrefix_dash in H as [t H]. by apply trim_head in H.
  - apply hasSuffix_spec in H as [t H]. by apply trim_right_last in H.
Qed.

(** A safe string is its own sanitisation. *)
Lemma sanitize_runes_id s :
  str_forall index_char s = true → concat_str (map sanitize_rune (runes s)) = s.
Proof.
  induction s as [|c s IH]; [done|]. intros H. cbn [str_forall] in H. bool_prop.
  cbn [runes]. assert (cont 0 127 c = true) as ->.
  { destruct c as [[] [] [] [] [] [] [] []]; try done; discriminate. }
  cbn [map concat_str sanitize_rune]. rewrite H. simpl. by rewrite IH.
Qed.

Lemma trim_left_id f s : (∀ c t, s = String c t → f c = false) → trim_left f s = s.
Proof. destruct s as [|c s]; [done|]. intros H. simpl. by rewrite (H c s). Qed.

Lemma trim_right_id f s : (∀ t c, s = t +:+ String c "" → f c = false) → trim_right f s = s.
Proof.
  induction s as [|c s IH]; intros H; [done|]. simpl.
  rewrite IH by (intros t x ->; apply (H (String c t)); done).
  destruct (String.eqb_spec s "") as [->|]; [|done]. by rewrite (H "" c).
Qed.

(** [sanitizeIndex] always yields a usable index name. *)
Theorem sanitizeIndex_ok host : index_ok (sanitizeIndex host) = true.
Proof.
  unfold sanitizeIndex.
  destruct (String.eqb (trim is_dash _) "") eqn:E; [done|]. unfold index_ok. rewrite E.
  destruct (trim_no_dash (concat_str (map sanitize_rune (runes host)))) as [-> ->].
  rewrite str_forall_trim by apply sanitize_runes_chars. done.
Qed.

Theorem sanitizeIndex_fixed i : index_ok i = true → sanitizeIndex i = i.
Proof.
  unfold index_ok, sanitizeIndex. intros H. bool_prop.
  rewrite sanitize_runes_id by done. unfold trim.
  rewrite trim_left_id.
  2:{ intros c t ->. unfold is_dash. apply not_true_is_false. intros ->%Ascii.eqb_eq.
      assert (hasPrefix (String "-"%char t) "-" = true) by (apply hasPrefix_dash; eauto).
      congruence. }
  rewrite trim_right_id.
  2:{ intros t c ->. unfold is_dash. apply not_true_is_false. intros ->%Ascii.eqb_eq.
      assert (hasSuffix (t +:+ "-") "-" = true) by (apply hasSuffix_spec; eauto). congruence. }
  destruct (String.eqb_spec i ""); done.
Qed.

(** ** Well-formedness of the resolved plan *)

(** A redis endpoint the renderers can use: a real port, a master name with sentinels, and
    sentinels on a managed endpoint only for the replicated form. *)
Definition redis_ok (ep : redisEndpoint) : bool :=
  negb (re_port ep =? 0)
  && forallb (fun s => negb (hp_port s =? 0)) (re_sentinels ep)
  && (if (0 <? length (re_sentinels ep))%nat then true else String.eqb (re_masterName ep) "")
  && (if re_managed ep
      then Bool.eqb (re_ha ep) (0 <? length (re_sentinels ep))%nat
           && negb (re_enableTLS ep) && bool_decide (is_Some (re_passSel ep))
           && (re_db ep =? 0)
      else negb (re_ha ep)).

(** The invariant of a plan: what the builders rely on without checking it again. *)
Record plan_ok (m : Misskey) (p : plan) : Prop := {
  ok_dbPort : p_dbPort p ≠ 0;
  ok_managed : p_dbManaged p = true ↔ pg_External (spec_Postgres (m_Spec m)) = None;
  ok_slaves : p_dbReplications p = true ↔ p_dbSlaves p ≠ [];
  ok_slaves_managed : p_dbReplications p = true → p_dbManaged p = true;
  ok_slaves_same : Forall (fun e => dbe_db e = p_dbName p ∧ dbe_user e = p_dbUser p
                     ∧ dbe_port e = p_dbPort p ∧ dbe_host e ≠ p_dbHost p) (p_dbSlaves p);
  ok_redis : redis_ok (p_redisDefault p) = true;
  ok_roles : map_Forall (fun _ ep => redis_ok ep = true) (p_redisRoles p);
  ok_role_keys : dom (p_redisRoles p) ⊆ list_to_set (map rd_key redisRoleDescs);
  ok_meili : p_meiliEnabled p = bool_decide (p_provider p = SearchMeilisearch);
  ok_meili_managed : p_meiliManaged p = true → p_meiliEnabled p = true;
  ok_meili_index : p_meiliEnabled p = true → p_meiliIndex p ≠ "" ∧ p_meiliPort p ≠ 0;
  ok_setup : p_setupManaged p = true → p_setupEnabled p = true;
  ok_obj : p_objAutoConfigure p = true → p_objEnabled p = true;
  ok_detector : p_sensitiveDetectorManaged p = true → p_sensitiveDetectorEnabled p = true }.

Lemma externalRedis_ok ext env : redis_ok (externalRedisEndpoint ext env) = true.
Proof.
  unfold redis_ok, externalRedisEndpoint. cbn. rewrite !andb_true_r, !andb_true_iff. split_and!.
  - apply negb_true_iff, Z.eqb_neq. by apply int32OrDefault_nonzero.
  - rewrite forallb_forall. intros s (x & <- & _)%in_map_iff. cbn.
    apply negb_true_iff, Z.eqb_neq. by apply int32OrDefault_nonzero.
  - by destruct (map _ _).
Qed.
Lemma managedRedis_ok m suffix env ha : redis_ok (managedRedisEndpoint m suffix env ha) = true.
Proof. by destruct ha. Qed.

Lemma resolveRole_ok m roles acc rd :
  map_Forall (fun _ ep => redis_ok ep = true) acc →
  map_Forall (fun _ ep => redis_ok ep = true) (resolveRole m roles acc rd).
Proof.
  unfold resolveRole. intros H. destruct (rd_get rd roles) as [role|]; [|done].
  destruct (role_External role); apply map_Forall_insert_2;
    auto using externalRedis_ok, managedRedis_ok.
Qed.
Lemma resolveRoles_ok m : map_Forall (fun _ ep => redis_ok ep = true) (resolveRoles m).
Proof.
  unfold resolveRoles. destruct (redis_Roles _) as [roles|]; [|apply map_Forall_empty].
  cbn [redisRoleDescs foldl]. repeat apply resolveRole_ok. apply map_Forall_empty.
Qed.

Lemma resolveRole_dom m roles acc rd (X : gset string) :
  rd_key rd ∈ X → dom acc ⊆ X → dom (resolveRole m roles acc rd) ⊆ X.
Proof.
  unfold resolveRole. intros Hk Ha. destruct (rd_get rd roles) as [role|]; [|done].
  destruct (role_External role); rewrite dom_insert_L; intros k; rewrite elem_of_union,
    elem_of_singleton; intros [->|?]; auto.
Qed.
Lemma resolveRoles_dom m : dom (resolveRoles m) ⊆ list_to_set (map rd_key redisRoleDescs).
Proof.
  unfold resolveRoles. destruct (redis_Roles _) as [roles|];
    [|rewrite dom_empty_L; apply empty_subseteq].
  cbn [redisRoleDescs foldl]. repeat (apply resolveRole_dom; [cbn; set_solver|]).
  rewrite dom_empty_L. apply empty_subseteq.
Qed.

Lemma db_hosts_differ m :
  nameDBPoolerRO m ≠ nameDBPoolerRW m ∧ nameDBReadService m ≠ nameDBService m.
Proof.
  unfold nameDBPoolerRO, nameDBPoolerRW, nameDBReadService, nameDBService.
  split; intros H%sapp_inj_l; done.
Qed.

Lemma resolveDB_ok m :
  let '(managed, host, port, db, user, _, repl, slaves) := resolveDB m in
  port ≠ 0 ∧ (managed = true ↔ pg_External (spec_Postgres (m_Spec m)) = None)
  ∧ (repl = true ↔ slaves ≠ []) ∧ (repl = true → managed = true)
  ∧ Forall (fun e => dbe_db e = db ∧ dbe_user e = user ∧ dbe_port e = port
                     ∧ dbe_host e ≠ host) slaves.
Proof.
  destruct (db_hosts_differ m) as [Hp Hs]. unfold resolveDB.
  destruct (pg_External _) as [ext|].
  - split_and!; try done. by apply int32OrDefault_nonzero.
  - destruct (readOffloadActive m); split_and!; try done.
    constructor; [|done]. cbn. split_and!; try done. by destruct (poolerEnabled m).
Qed.

Lemma resolveSearch_ok m :
  let '(enabled, managed, _, port, _, index, _, _) := resolveSearch m in
  enabled = bool_decide (stringOr (search_Provider (spec_Search (m_Spec m))) SearchMeilisearch
                         = SearchMeilisearch)
  ∧ (managed = true → enabled = true) ∧ (enabled = true → index ≠ "" ∧ port ≠ 0).
Proof.
  unfold resolveSearch. destruct (String.eqb_spec
    (stringOr (search_Provider (spec_Search (m_Spec m))) SearchMeilisearch) SearchMeilisearch)
    as [E|E]; [|by rewrite bool_decide_eq_false_2].
  assert (sanitizeIndex (hostFromURL (spec_URL (m_Spec m))) ≠ "") as Hidx.
  { generalize (hostFromURL (spec_URL (m_Spec m))). intros h. unfold sanitizeIndex.
    destruct (String.eqb_spec (trim is_dash (concat_str (map sanitize_rune (runes h)))) "");
      done. }
  rewrite bool_decide_eq_true_2 by done.
  destruct (meili_External _) as [ext|]; split_and!; try done; intros _;
    (split; [by apply stringOr_nonempty|]); [by apply int32OrDefault_nonzero|done].
Qed.

(** C30. [resolve] establishes the invariant the builders rely on, for every object. *)
Theorem resolve_ok m : plan_ok m (resolve m).
Proof.
  pose proof (resolveDB_ok m) as HDB. pose proof (resolveSearch_ok m) as HS. unfold resolve.
  destruct (resolveDB m) as [[[[[[[managed host] port] db] user] sel] repl] slaves].
  destruct (resolveSearch m) as [[[[[[[en man] h] po] ssl] idx] scope] key].
  destruct HDB as (? & ? & ? & ? & ?), HS as (? & ? & ?).
  assert (let '(e, g, _, _, _) := resolveDetector m in g = true → e = true) as HD.
  { unfold resolveDetector. destruct (spec_SensitiveDetector _) as [d|]; [|done]. by destruct (det_External d). }
  assert (let '(e, g, _) := resolveSetup m in g = true → e = true) as HSe.
  { unfold resolveSetup. destruct (spec_SetupPassword _) as [sp|]; [|done]. by destruct (setup_SecretRef sp). }
  destruct (resolveDetector m) as [[[[]]]], (resolveSetup m) as [[]].
  constructor; cbn; try done.
  - destruct (redis_External _); [apply externalRedis_ok|apply managedRedis_ok].
  - apply resolveRoles_ok.
  - apply resolveRoles_dom.
  - by destruct (spec_ObjectStorage _).
Qed.

(** ** The migration plan is independent of the access topology *)

(** [m] with other instances, read offload and pooler settings of its database. *)
Definition with_access (inst : Z) (ro : option bool) (pool : option PostgresPooler) (m : Misskey)
    : Misskey :=
  let s := m_Spec m in
  let g := spec_Postgres s in
  let g' := mkPostgres (pg_External g) inst (pg_Image g) (pg_Database g) (pg_Owner g)
              (pg_Storage g) (pg_StorageClassName g) (pg_Parameters g) (pg_Resources g)
              (pg_Backup g) (pg_Recovery g) (pg_Import g) ro pool in
  mkMisskey (m_Meta m)
    (mkMisskeySpec (spec_URL s) (spec_Image s) (spec_ImageFrom s) (spec_TrackImageDigest s)
       (spec_IDGenerationMethod s) (spec_DeletionPolicy s) (spec_Suspend s) (spec_Tenant s)
       (spec_ImagePullSecrets s) (spec_Runtime s) (spec_App s) (spec_Worker s) (spec_Proxy s)
       (spec_Ingress s) (spec_Redis s) (spec_Search s) g' (spec_Migration s)
       (spec_SetupPassword s) (spec_ExtraConfig s) (spec_ObjectStorage s)
       (spec_SensitiveDetector s) (spec_Network s) (spec_Tenancy s) (spec_Monitoring s)
       (spec_Performance s) (spec_OutboundProxy s) (spec_Files s))
    (m_Status m).

(** What the migration keeps of the database part. *)
Lemma resolveDB_migrate m :
  let '(managed, host, port, db, user, sel, _, _) := resolveDB m in
  (managed, if managed then nameDBService m else host, port, db, user, sel)
  = match pg_External (spec_Postgres (m_Spec m)) with
    | Some ext => (false, ep_Host ext, int32OrDefault (ep_Port ext) postgresPort,
                   ep_Database ext, ep_User ext, ep_PasswordSecret ext)
    | None => (true, nameDBService m, postgresPort,
               stringOr (pg_Database (spec_Postgres (m_Spec m))) "misskey",
               stringOr (pg_Owner (spec_Postgres (m_Spec m))) "misskey",
               mkSel (nameDBAppSecret m) "password")
    end.
Proof.
  unfold resolveDB. destruct (pg_External _); [done|]. by destruct (readOffloadActive m).
Qed.

Lemma migratePlan_access inst ro pool m :
  migratePlan (with_access inst ro pool m) (resolve (with_access inst ro pool m))
  = migratePlan m (resolve m).
Proof.
  set (m' := with_access inst ro pool m).
  pose proof (resolveDB_migrate m') as H'. pose proof (resolveDB_migrate m) as H.
  unfold resolve.
  change (resolveSearch m') with (resolveSearch m).
  change (resolveDetector m') with (resolveDetector m).
  change (resolveSetup m') with (resolveSetup m).
  change (resolveRoles m') with (resolveRoles m).
  destruct (resolveDB m) as [[[[[[[managed host] port] db] user] sel] repl] slaves].
  destruct (resolveDB m') as [[[[[[[managed' host'] port'] db'] user'] sel'] repl'] slaves'].
  destruct (resolveSearch m) as [[[[[[[en man] h] po] ssl] idx] scope] key].
  destruct (resolveDetector m) as [[[[]]]], (resolveSetup m) as [[]].
  assert ((managed', if managed' then nameDBService m else host', port', db', user', sel')
    = (managed, if managed then nameDBService m else host, port, db, user, sel)) as E
    by (etrans; [exact H'|by symmetry]).
  clear H H'. injection E as -> Eh -> -> -> ->. unfold migratePlan. cbn.
  change (nameDBService m') with (nameDBService m). rewrite Eh. done.
Qed.
