(* ===== verification/Config.v ===== *)
(** * Rendered configuration: config.go

    The quoting of user strings, Misskey's [default.yml], the Caddyfile of the proxy and the
    maintenance page.  Rendering is string building; [fmt] verbs are written out.  The
    ConfigMap and Secret reconcilers of config.go are in [Secrets] and [Workloads]. *)
From S2P Require Export Plan.
Local Open Scope string_scope.
Local Open Scope Z_scope.
Local Open Scope list_scope.

Definition nl : string := String "010" "".
Definition tab : string := String "009" "".
Definition dq : string := String dquote "".

(** ** yq: a JSON string scalar *)

(** [encoding/json] with HTML escaping, one rune at a time. *)
Definition json_ascii (c : ascii) : string :=
  let n := Ascii.N_of_ascii c in
  if (n =? 34)%N || (n =? 92)%N then "\" +:+ String c "" else
  if (n =? 8)%N then "\b" else if (n =? 12)%N then "\f" else
  if (n =? 10)%N then "\n" else if (n =? 13)%N then "\r" else if (n =? 9)%N then "\t" else
  if (n <? 32)%N || (n =? 60)%N || (n =? 62)%N || (n =? 38)%N
  then "\u00" +:+ String (hexdigit (n / 16)) (String (hexdigit (n mod 16)) "")
  else String c "".
(** U+2028 and U+2029. *)
Definition ls_bytes : string := String "226" (String "128" (String "168" "")).
Definition ps_bytes : string := String "226" (String "128" (String "169" "")).
Definition json_rune (r : chunk) : string :=
  match r with
  | RAscii c => json_ascii c
  | RMulti b => if String.eqb b ls_bytes then "\u2028"
                else if String.eqb b ps_bytes then "\u2029" else b
  | RBad _ => "\ufffd"
  end.
Definition yq (s : string) : string :=
  dq +:+ concat_str (map json_rune (runes s)) +:+ dq.

(** ** default.yml *)

Definition renderRedisBlock (key : string) (ep : redisEndpoint) : string :=
  concat_str (
    [key; ":"; nl;
     "  host: "; yq (re_host ep); nl;
     "  port: "; itoa (re_port ep); nl] ++
    (if negb (re_db ep =? 0) then ["  db: "; itoa (re_db ep); nl] else []) ++
    (if (0 <? length (re_sentinels ep))%nat then
       ["  sentinels:"; nl] ++
       concat (map (fun s => ["    - host: "; yq (hp_host s); nl;
                              "      port: "; itoa (hp_port s); nl]) (re_sentinels ep)) ++
       ["  name: "; yq (re_masterName ep); nl]
     else []) ++
    (match re_passSel ep with
     | Some _ =>
         ["  pass: ${"; re_passEnv ep; "}"; nl] ++
         (if (0 <? length (re_sentinels ep))%nat
          then ["  sentinelPassword: ${"; re_passEnv ep; "}"; nl] else [])
     | None => []
     end) ++
    (if re_enableTLS ep then ["  tls: {}"; nl] else [])).

Definition writeInt (key : string) (v : option Z) : string :=
  match v with Some v => key +:+ ": " +:+ itoa v +:+ nl | None => "" end.

Definition renderPerformance (p : PerformanceSpec) : string :=
  concat_str [
    writeInt "deliverJobConcurrency" (perf_DeliverJobConcurrency p);
    writeInt "inboxJobConcurrency" (perf_InboxJobConcurrency p);
    writeInt "deliverJobPerSec" (perf_DeliverJobPerSec p);
    writeInt "inboxJobPerSec" (perf_InboxJobPerSec p);
    writeInt "relationshipJobPerSec" (perf_RelationshipJobPerSec p);
    writeInt "deliverJobMaxAttempts" (perf_DeliverJobMaxAttempts p);
    writeInt "inboxJobMaxAttempts" (perf_InboxJobMaxAttempts p)].

Definition renderOutboundProxy (o : OutboundProxySpec) : string :=
  concat_str (
    (if String.eqb (op_HTTP o) "" then [] else ["proxy: "; yq (op_HTTP o); nl]) ++
    (if String.eqb (op_SMTP o) "" then [] else ["proxySmtp: "; yq (op_SMTP o); nl]) ++
    (match op_BypassHosts o with
     | [] => []
     | hs => ["proxyBypassHosts: ["; join (map yq hs) ", "; "]"; nl]
     end)).

Definition renderFiles (f : FilesSpec) : string :=
  writeInt "maxFileSize" (files_MaxFileSize f) +:+
  (if String.eqb (files_MediaProxy f) "" then ""
   else "mediaProxy: " +:+ yq (files_MediaProxy f) +:+ nl).

Definition is_nl (c : ascii) : bool := Ascii.eqb c "010"%char.

Definition renderDefaultYML (m : Misskey) (p : plan) : string :=
  let s := m_Spec m in
  concat_str (
    ["# Managed by cloudnative-misskey. Do not edit by hand."; nl;
     "url: "; yq (spec_URL s); nl;
     "port: "; itoa misskeyPort; nl; nl] ++
    (if p_setupEnabled p then ["setupPassword: ${SETUP_PASSWORD}"; nl; nl] else []) ++
    ["db:"; nl;
     "  host: "; yq (p_dbHost p); nl;
     "  port: "; itoa (p_dbPort p); nl;
     "  db: "; yq (p_dbName p); nl;
     "  user: "; yq (p_dbUser p); nl;
     "  pass: ${DB_PASSWORD}"; nl] ++
    (if p_dbReplications p then
       ["dbReplications: true"; nl; "dbSlaves:"; nl] ++
       concat (map (fun e =>
         ["  - host: "; yq (dbe_host e); nl;
          "    port: "; itoa (dbe_port e); nl;
          "    db: "; yq (dbe_db e); nl;
          "    user: "; yq (dbe_user e); nl;
          "    pass: ${DB_PASSWORD}"; nl]) (p_dbSlaves p)) ++ [nl]
     else ["dbReplications: false"; nl; nl]) ++
    [renderRedisBlock "redis" (p_redisDefault p)] ++
    map (fun rd => match p_redisRoles p !! rd_key rd with
                   | Some ep => renderRedisBlock (rd_configKey rd) ep
                   | None => ""
                   end) redisRoleDescs ++
    [nl; "fulltextSearch:"; nl; "  provider: "; p_provider p; nl] ++
    (if p_meiliEnabled p then
       [nl; "meilisearch:"; nl;
        "  host: "; yq (p_meiliHost p); nl;
        "  port: "; itoa (p_meiliPort p); nl;
        "  apiKey: ${MEILI_KEY}"; nl;
        "  ssl: "; formatBool (p_meiliSSL p); nl;
        "  index: "; yq (p_meiliIndex p); nl;
        "  scope: "; p_meiliScope p; nl]
     else []) ++
    [nl;
     "id: '"; stringOr (spec_IDGenerationMethod s) "aidx"; "'"; nl;
     "proxyRemoteFiles: "; formatBool (boolOr (files_ProxyRemoteFiles (spec_Files s)) true); nl;
     "signToActivityPubGet: true"; nl;
     renderPerformance (spec_Performance s);
     renderOutboundProxy (spec_OutboundProxy s);
     renderFiles (spec_Files s)] ++
    (if String.eqb (trimSpace (spec_ExtraConfig s)) "" then []
     else [nl; "# --- extraConfig ---"; nl; trim_right is_nl (spec_ExtraConfig s); nl])).

(** ** Caddyfile *)

Definition header_char (c : ascii) : bool := is_alnum c || Ascii.eqb c "-"%char.
(** [clientIPHeaderPattern]: [^[A-Za-z0-9-]+$]. *)
Definition clientIPHeaderPattern (h : string) : bool :=
  negb (String.eqb h "") && str_forall header_char h.

Fixpoint tabs (n : nat) : string := match n with O => "" | S n => tab +:+ tabs n end.
(** An indented line of the Caddyfile. *)
Definition cl (n : nat) (s : string) : string := tabs n +:+ s +:+ nl.

Definition renderCaddyfile (m : Misskey) : string :=
  let px := spec_Proxy (m_Spec m) in
  let h := proxy_ClientIPHeader px in
  concat_str (
    [cl 0 "{"; cl 1 "servers {"; cl 2 "trusted_proxies static private_ranges"; cl 2 "metrics";
     cl 1 "}"; cl 0 "}"; nl;
     ":" +:+ itoa proxyMetricsPort +:+ " {" +:+ nl; cl 1 "metrics /metrics"; cl 0 "}"; nl;
     ":" +:+ itoa proxyPort +:+ " {" +:+ nl;
     cl 1 "encode gzip";
     cl 1 ("header /assets Cache-Control " +:+ dq +:+ "public, max-age=31536000, immutable" +:+ dq);
     nl;
     cl 1 ("reverse_proxy " +:+ nameApp m +:+ ":" +:+ itoa misskeyPort +:+ " {")] ++
    (if negb (String.eqb h "") && clientIPHeaderPattern h then
       [cl 2 ("header_up X-Real-IP {header." +:+ h +:+ "}");
        cl 2 ("header_up X-Forwarded-For {header." +:+ h +:+ "}")]
     else []) ++
    [cl 2 "header_up X-Forwarded-Host {host}"; nl;
     cl 2 "health_uri /api/server-info"; cl 2 "health_interval 10s"; cl 2 "health_timeout 2s";
     cl 2 "health_status 200"; cl 1 "}"] ++
    (if boolOr (maint_Enabled (proxy_Maintenance px)) true then
       [nl; cl 1 "handle_errors {";
        cl 2 "@backend_down `{err.status_code} in [500, 501, 502, 503, 504, 522]`";
        cl 2 "handle @backend_down {";
        cl 3 "@api path /api/*";
        cl 3 "handle @api {";
        cl 4 ("respond " +:+ dq +:+ dq +:+ " {err.status_code}");
        cl 3 "}";
        cl 3 "handle {";
        cl 4 ("header Cache-Control " +:+ dq +:+ "no-store" +:+ dq);
        cl 4 "root * /usr/share/caddy";
        cl 4 "rewrite * /maintenance.html";
        cl 4 "file_server {";
        cl 5 ("status " +:+ itoa (deref 200 (maint_StatusCode (proxy_Maintenance px))));
        cl 4 "}"; cl 3 "}"; cl 2 "}"; cl 1 "}"]
     else []) ++
    [cl 0 "}"]).

(** ** Maintenance page *)

Definition defaultMaintenanceHTML (reloadSeconds : Z) : string :=
  let reload :=
    if 0 <? reloadSeconds then
      nl +:+ "<script>setTimeout(function () { location.reload() }, "
      +:+ itoa (wrap32 (reloadSeconds * 1000)) +:+ ")</script>"
    else "" in
  concat_str [
    "<!doctype html>"; nl;
    "<html lang="; dq; "en"; dq; ">"; nl;
    "<head>"; nl;
    "<meta charset="; dq; "utf-8"; dq; ">"; nl;
    "<meta name="; dq; "viewport"; dq; " content="; dq; "width=device-width, initial-scale=1"; dq; ">"; nl;
    "<title>Under maintenance</title>"; reload; nl;
    "<style>body{font-family:system-ui,sans-serif;display:grid;place-items:center;height:100vh;margin:0;background:#f5f5f7;color:#333}main{text-align:center}</style>"; nl;
    "</head>"; nl;
    "<body><main><h1>Under maintenance</h1><p>This server is temporarily unavailable. Please try again shortly.</p></main></body>"; nl;
    "</html>"; nl].

Definition maintenanceHTMLContent (m : Misskey) : string :=
  let mt := proxy_Maintenance (spec_Proxy (m_Spec m)) in
  let reload := deref 30 (maint_ReloadSeconds mt) in
  stringOr (maint_HTML mt) (defaultMaintenanceHTML reload).

(** ** A reader of double-quoted scalars *)

(** The code points below U+10000 in UTF-8. *)
Definition utf8_encode (n : N) : string :=
  if (n <? 128)%N then String (Ascii.ascii_of_N n) ""
  else if (n <? 2048)%N then
    String (Ascii.ascii_of_N (192 + n / 64)) (String (Ascii.ascii_of_N (128 + n mod 64)) "")
  else String (Ascii.ascii_of_N (224 + n / 4096))
         (String (Ascii.ascii_of_N (128 + n / 64 mod 64))
            (String (Ascii.ascii_of_N (128 + n mod 64)) "")).
Definition hex4 (a b c d : ascii) : option N :=
  if is_hex a && is_hex b && is_hex c && is_hex d
  then Some (N.of_nat (unhex a) * 4096 + N.of_nat (unhex b) * 256
             + N.of_nat (unhex c) * 16 + N.of_nat (unhex d))%N
  else None.
Definition simple_escape (e : ascii) : option ascii :=
  match Ascii.N_of_ascii e with
  | 34%N => Some dquote
  | 92%N => Some "\"%char
  | 98%N => Some "008"%char
  | 102%N => Some "012"%char
  | 110%N => Some "010"%char
  | 114%N => Some "013"%char
  | 116%N => Some "009"%char
  | _ => None
  end.
Definition prepend (x : string) (o : option (string * string)) : option (string * string) :=
  match o with Some (a, r) => Some (x +:+ a, r) | None => None end.

(** Reading the body of a scalar up to its closing quote: the value and the rest of the
    input.  Raw control characters and unknown escapes are errors. *)
Fixpoint scan_body (s : string) : option (string * string) :=
  match s with
  | EmptyString => None
  | String c r =>
      if Ascii.eqb c dquote then Some ("", r)
      else if Ascii.eqb c "\"%char then
        match r with
        | EmptyString => None
        | String e r1 =>
            if Ascii.eqb e "u"%char then
              match r1 with
              | String a (String b (String c' (String d r2))) =>
                  match hex4 a b c' d with
                  | Some n => prepend (utf8_encode n) (scan_body r2)
                  | None => None
                  end
              | _ => None
              end
            else match simple_escape e with
                 | Some x => prepend (String x "") (scan_body r1)
                 | None => None
                 end
        end
      else if (Ascii.N_of_ascii c <? 32)%N then None
      else prepend (String c "") (scan_body r)
  end.
Definition scan_scalar (s : string) : option (string * string) :=
  match s with
  | String c r => if Ascii.eqb c dquote then scan_body r else None
  | EmptyString => None
  end.

(** ** Quoting is injection free *)

Lemma prepend_app x y o : prepend x (prepend y o) = prepend (x +:+ y) o.
Proof. destruct o as [[a r]|]; simpl; [by rewrite sapp_assoc|done]. Qed.

(** Every ASCII character is read back from its encoding. *)
Lemma scan_json_ascii c t :
  cont 0 127 c = true → scan_body (json_ascii c +:+ t) = prepend (String c "") (scan_body t).
Proof.
  destruct c as [[] [] [] [] [] [] [] []]; intros H; try discriminate H; reflexivity.
Qed.

(** Bytes from 128 on stand for themselves. *)
Lemma scan_high c t :
  cont 128 255 c = true → scan_body (String c t) = prepend (String c "") (scan_body t).
Proof.
  unfold cont. intros H. bool_prop. apply N.leb_le in H.
  cbn [scan_body].
  destruct (Ascii.eqb_spec c dquote) as [->|_]; [by vm_compute in H|].
  destruct (Ascii.eqb_spec c "\"%char) as [->|_]; [by vm_compute in H|].
  destruct (N.ltb_spec (N_of_ascii c) 32); [lia|done].
Qed.

Lemma two_ok_high a b : two_ok a b = true → cont 128 255 a = true ∧ cont 128 255 b = true.
Proof. unfold two_ok. intros H. split; high_bytes. Qed.
Lemma three_ok_high a b c :
  three_ok a b c = true → cont 128 255 a = true ∧ cont 128 255 b = true ∧ cont 128 255 c = true.
Proof. unfold three_ok. intros H. split_and!; high_bytes. Qed.
Lemma four_ok_high a b c d :
  four_ok a b c d = true →
  cont 128 255 a = true ∧ cont 128 255 b = true ∧ cont 128 255 c = true ∧ cont 128 255 d = true.
Proof. unfold four_ok. intros H. split_and!; high_bytes. Qed.

(** One valid rune is read back from its encoding. *)
Lemma scan_multi2 a b t :
  two_ok a b = true →
  scan_body (json_rune (RMulti (String a (String b ""))) +:+ t)
  = prepend (String a (String b "")) (scan_body t).
Proof.
  intros (Ha & Hb)%two_ok_high. unfold json_rune.
  destruct (String.eqb_spec (String a (String b "")) ls_bytes) as [E|_]; [discriminate E|].
  destruct (String.eqb_spec (String a (String b "")) ps_bytes) as [E|_]; [discriminate E|].
  cbn [String.append]. rewrite !scan_high, !prepend_app by done. done.
Qed.

Lemma scan_multi3 a b c t :
  three_ok a b c = true →
  scan_body (json_rune (RMulti (String a (String b (String c "")))) +:+ t)
  = prepend (String a (String b (String c ""))) (scan_body t).
Proof.
  intros (Ha & Hb & Hc)%three_ok_high. unfold json_rune.
  destruct (String.eqb_spec (String a (String b (String c ""))) ls_bytes) as [->|_]; [done|].
  destruct (String.eqb_spec (String a (String b (String c ""))) ps_bytes) as [->|_]; [done|].
  cbn [String.append]. rewrite !scan_high, !prepend_app by done. done.
Qed.

Lemma scan_multi4 a b c d t :
  four_ok a b c d = true →
  scan_body (json_rune (RMulti (String a (String b (String c (String d ""))))) +:+ t)
  = prepend (String a (String b (String c (String d "")))) (scan_body t).
Proof.
  intros (Ha & Hb & Hc & Hd)%four_ok_high. unfold json_rune.
  destruct (String.eqb_spec (String a (String b (String c (String d "")))) ls_bytes) as [E|_];
    [discriminate E|].
  destruct (String.eqb_spec (String a (String b (String c (String d "")))) ps_bytes) as [E|_];
    [discriminate E|].
  cbn [String.append]. rewrite !scan_high, !prepend_app by done. done.
Qed.

Lemma scan_runes s t :
  utf8_valid s = true →
  scan_body (concat_str (map json_rune (runes s)) +:+ t) = prepend s (scan_body t).
Proof.
  unfold utf8_valid. revert t.
  apply (runes_ind (fun s l => ∀ t, forallb chunk_valid l = true →
    scan_body (concat_str (map json_rune l) +:+ t) = prepend s (scan_body t))).
  - intros t _. simpl. by destruct (scan_body t) as [[]|].
  - intros c r l Hc IH t Hv. cbn [map concat_str]. rewrite sapp_assoc.
    change (json_rune (RAscii c)) with (json_ascii c).
    rewrite scan_json_ascii, IH, prepend_app by done. done.
  - discriminate.
  - intros a b r l Hab IH t Hv. cbn [map concat_str]. rewrite sapp_assoc.
    rewrite scan_multi2, IH, prepend_app by done. done.
  - intros a b c r l Habc IH t Hv. cbn [map concat_str]. rewrite sapp_assoc.
    rewrite scan_multi3, IH, prepend_app by done. done.
  - intros a b c d r l Habcd IH t Hv. cbn [map concat_str]. rewrite sapp_assoc.
    rewrite scan_multi4, IH, prepend_app by done. done.
Qed.

(** Printable: no control character, so in particular no line break. *)
Definition printable (c : ascii) : bool := (32 <=? Ascii.N_of_ascii c)%N.

Lemma json_rune_printable s :
  str_forall printable (concat_str (map json_rune (runes s))) = true.
Proof.
  apply (runes_ind (fun _ l => str_forall printable (concat_str (map json_rune l)) = true));
    [done|..].
  - intros c _ l Hc IH. cbn [map concat_str]. rewrite str_forall_app, IH, andb_true_r.
    destruct c as [[] [] [] [] [] [] [] []]; try discriminate Hc; reflexivity.
  - intros c _ l _ IH. cbn [map concat_str]. by rewrite str_forall_app, IH, andb_true_r.
  - intros a b _ l (Ha & Hb)%two_ok_high IH. cbn [map concat_str].
    rewrite str_forall_app, IH, andb_true_r. unfold json_rune.
    destruct (String.eqb _ ls_bytes); [done|]. destruct (String.eqb _ ps_bytes); [done|].
    unfold cont, printable in *. bool_prop. rewrite !N.leb_le in *. simpl.
    rewrite !andb_true_iff, !N.leb_le. lia.
  - intros a b c _ l (Ha & Hb & Hc)%three_ok_high IH. cbn [map concat_str].
    rewrite str_forall_app, IH, andb_true_r. unfold json_rune.
    destruct (String.eqb _ ls_bytes); [done|]. destruct (String.eqb _ ps_bytes); [done|].
    unfold cont, printable in *. bool_prop. rewrite !N.leb_le in *. simpl.
    rewrite !andb_true_iff, !N.leb_le. lia.
  - intros a b c d _ l (Ha & Hb & Hc & Hd)%four_ok_high IH. cbn [map concat_str].
    rewrite str_forall_app, IH, andb_true_r. unfold json_rune.
    destruct (String.eqb _ ls_bytes); [done|]. destruct (String.eqb _ ps_bytes); [done|].
    unfold cont, printable in *. bool_prop. rewrite !N.leb_le in *. simpl.
    rewrite !andb_true_iff, !N.leb_le. lia.
Qed.

(** ** The structure of default.yml does not depend on user strings

    [blank] walks over a rendered file and replaces the contents of every double-quoted
    scalar by a placeholder ([x], or nothing when it is empty).  Rendering a plan and
    blanking the result is the same as rendering the plan whose quoted strings are
    [squash]ed, so no user string can add, remove or alter a line or a key. *)
Inductive qmode := QOut | QIn (nonempty : bool) | QEsc.
Fixpoint blank (q : qmode) (s : string) : string :=
  match s with
  | EmptyString => ""
  | String c r =>
      match q with
      | QOut => String c (blank (if Ascii.eqb c dquote then QIn false else QOut) r)
      | QIn ne =>
          if Ascii.eqb c dquote then (if ne then "x" else "") +:+ String dquote (blank QOut r)
          else if Ascii.eqb c "\"%char then blank QEsc r
          else blank (QIn true) r
      | QEsc => blank (QIn true) r
      end
  end.
Definition squash (s : string) : string := if String.eqb s "" then "" else "x".

Definition plain_char (c : ascii) : bool := negb (Ascii.eqb c dquote).
Definition plain (s : string) : bool := str_forall plain_char s.

(** [a] blanks to [b], whatever follows. *)
Definition blanks (a b : string) : Prop := ∀ t, blank QOut (a +:+ t) = b +:+ blank QOut t.

Lemma blanks_nil : blanks "" "".
Proof. by intros t. Qed.
Lemma blanks_app a b c d : blanks a b → blanks c d → blanks (a +:+ c) (b +:+ d).
Proof. intros H1 H2 t. by rewrite !sapp_assoc, H1, H2. Qed.
Lemma blanks_plain a : plain a = true → blanks a a.
Proof.
  intros H t. induction a as [|c a IH]; [done|]. unfold plain in *. simpl in *.
  bool_prop. unfold plain_char in H. bool_prop. rewrite H. by rewrite IH.
Qed.

Lemma blank_high ne c t :
  cont 128 255 c = true → blank (QIn ne) (String c t) = blank (QIn true) t.
Proof.
  unfold cont. intros H. bool_prop. apply N.leb_le in H. cbn [blank].
  destruct (Ascii.eqb_spec c dquote) as [->|_]; [by vm_compute in H|].
  destruct (Ascii.eqb_spec c "\"%char) as [->|_]; [by vm_compute in H|]. done.
Qed.

Lemma blank_ascii ne c t :
  cont 0 127 c = true → blank (QIn ne) (json_ascii c +:+ t) = blank (QIn true) t.
Proof.
  destruct c as [[] [] [] [] [] [] [] []]; intros H; try discriminate H; reflexivity.
Qed.

Lemma blank_runes s ne t :
  blank (QIn ne) (concat_str (map json_rune (runes s)) +:+ t)
  = blank (QIn (ne || negb (String.eqb s ""))) t.
Proof.
  revert ne t.
  apply (runes_ind (fun s l => ∀ ne t,
    blank (QIn ne) (concat_str (map json_rune l) +:+ t)
    = blank (QIn (ne || negb (String.eqb s ""))) t)).
  - intros ne t. by rewrite orb_false_r.
  - intros c r l Hc IH ne t. cbn [map concat_str]. rewrite sapp_assoc.
    change (json_rune (RAscii c)) with (json_ascii c).
    rewrite blank_ascii, IH by done. by rewrite orb_true_r.
  - intros c r l _ IH ne t. cbn [map concat_str]. rewrite sapp_assoc.
    change (blank (QIn ne) (json_rune (RBad c) +:+ ?x)) with (blank (QIn true) x).
    rewrite IH. by rewrite orb_true_r.
  - intros a b r l (Ha & Hb)%two_ok_high IH ne t. cbn [map concat_str]. rewrite sapp_assoc.
    unfold json_rune.
    destruct (String.eqb_spec (String a (String b "")) ls_bytes) as [E|_]; [discriminate E|].
    destruct (String.eqb_spec (String a (String b "")) ps_bytes) as [E|_]; [discriminate E|].
    cbn [String.append]. rewrite !blank_high, IH by done. by rewrite orb_true_r.
  - intros a b c r l (Ha & Hb & Hc)%three_ok_high IH ne t. cbn [map concat_str].
    rewrite sapp_assoc. unfold json_rune.
    destruct (String.eqb _ ls_bytes); [|destruct (String.eqb _ ps_bytes)].
    1,2: change (blank (QIn ne) (_ +:+ ?x)) with (blank (QIn true) x);
      rewrite IH; by rewrite orb_true_r.
    cbn [String.append]. rewrite !blank_high, IH by done. by rewrite orb_true_r.
  - intros a b c d r l (Ha & Hb & Hc & Hd)%four_ok_high IH ne t. cbn [map concat_str].
    rewrite sapp_assoc. unfold json_rune.
    destruct (String.eqb _ ls_bytes); [|destruct (String.eqb _ ps_bytes)].
    1,2: change (blank (QIn ne) (_ +:+ ?x)) with (blank (QIn true) x);
      rewrite IH; by rewrite orb_true_r.
    cbn [String.append]. rewrite !blank_high, IH by done. by rewrite orb_true_r.
Qed.

Lemma blanks_yq s : blanks (yq s) (yq (squash s)).
Proof.
  intros t. unfold yq at 1, dq. rewrite !sapp_assoc.
  cbn [String.append blank]. change (Ascii.eqb dquote dquote) with true. cbv iota.
  rewrite blank_runes. unfold squash. destruct (String.eqb s ""); done.
Qed.

Lemma plain_digits s : str_forall is_digit s = true → plain s = true.
Proof.
  apply str_forall_impl. intros c H. unfold plain_char.
  destruct (Ascii.eqb_spec c dquote) as [->|]; [by vm_compute in H|done].
Qed.
Lemma plain_itoa z : plain (itoa z) = true.
Proof.
  unfold itoa. destruct (z <? 0).
  - change (plain (String "-"%char (digits 20 (Z.to_N (- z)) "")) = true).
    unfold plain. cbn [str_forall]. apply plain_digits, digits_all. done.
  - apply plain_digits, digits_all. done.
Qed.
Lemma plain_formatBool b : plain (formatBool b) = true.
Proof. by destruct b. Qed.

(** Lists of pieces. *)
Lemma blanks_concat l l' : Forall2 blanks l l' → blanks (concat_str l) (concat_str l').
Proof. induction 1; cbn [concat_str]; auto using blanks_nil, blanks_app. Qed.
Lemma blanks_cons a b l l' : blanks a b → Forall2 blanks l l' → Forall2 blanks (a :: l) (b :: l').
Proof. by constructor. Qed.
Lemma blanks_if (b : bool) l1 l2 l1' l2' :
  Forall2 blanks l1 l1' → Forall2 blanks l2 l2' →
  Forall2 blanks (if b then l1 else l2) (if b then l1' else l2').
Proof. by destruct b. Qed.
Lemma blanks_concat_map {A} (f g : A → list string) (h : A → A) l :
  (∀ a, Forall2 blanks (f a) (g (h a))) →
  Forall2 blanks (concat (map f l)) (concat (map g (map h l))).
Proof. intros H. induction l; simpl; [constructor|]. by apply Forall2_app. Qed.

Create HintDb blanking.
#[export] Hint Resolve blanks_nil blanks_yq plain_itoa plain_formatBool : blanking.
(** Solves [Forall2 blanks] goals piece by piece. *)
Ltac blanks_tac :=
  repeat first
    [ apply Forall2_nil_2 | apply Forall2_app | apply blanks_cons | apply blanks_if
    | solve [auto with blanking]
    | apply blanks_plain; solve [reflexivity | auto with blanking] ].

(** The same plan with every quoted string squashed. *)
Definition squash_redis (ep : redisEndpoint) : redisEndpoint :=
  mkRedisEndpoint (squash (re_host ep)) (re_port ep) (re_db ep)
    (map (fun s => mkHostPort (squash (hp_host s)) (hp_port s)) (re_sentinels ep))
    (squash (re_masterName ep)) (re_passSel ep) (re_passEnv ep) (re_managed ep) (re_ha ep)
    (re_enableTLS ep).
Definition squash_db (e : dbEndpoint) : dbEndpoint :=
  mkDbEndpoint (squash (dbe_host e)) (dbe_port e) (squash (dbe_db e)) (squash (dbe_user e)).
Definition squash_plan (p : plan) : plan :=
  mkPlan (p_dbManaged p) (squash (p_dbHost p)) (p_dbPort p) (squash (p_dbName p))
    (squash (p_dbUser p)) (p_dbPassSel p) (p_dbReplications p) (map squash_db (p_dbSlaves p))
    (squash_redis (p_redisDefault p)) (squash_redis <$> p_redisRoles p) (p_provider p)
    (p_meiliEnabled p) (p_meiliManaged p) (squash (p_meiliHost p)) (p_meiliPort p)
    (p_meiliSSL p) (squash (p_meiliIndex p)) (p_meiliScope p) (p_meiliKeySel p)
    (p_ingressHost p) (p_setupEnabled p) (p_setupManaged p) (p_setupSel p) (p_objEnabled p)
    (p_objAutoConfigure p) (p_objBucket p) (p_objEndpoint p) (p_objRegion p) (p_objPrefix p)
    (p_objBaseURL p) (p_objPort p) (p_objUseSSL p) (p_objUseProxy p) (p_objSetPublicRead p)
    (p_objForcePathStyle p) (p_objAccessKeySel p) (p_objSecretKeySel p) (p_objColumns p)
    (p_objExtra p) (p_objImage p) (p_sensitiveDetectorEnabled p)
    (p_sensitiveDetectorManaged p) (p_sensitiveDetectorURL p)
    (p_sensitiveDetectorAPIKeySel p) (p_sensitiveDetectorConfigImage p).
Definition squash_outbound (o : OutboundProxySpec) : OutboundProxySpec :=
  mkOutboundProxy (squash (op_HTTP o)) (squash (op_SMTP o)) (map squash (op_BypassHosts o)).
Definition squash_files (f : FilesSpec) : FilesSpec :=
  mkFiles (files_MaxFileSize f) (squash (files_MediaProxy f)) (files_ProxyRemoteFiles f).
Definition squash_misskey (m : Misskey) : Misskey :=
  let s := m_Spec m in
  mkMisskey (m_Meta m)
    (mkMisskeySpec (squash (spec_URL s)) (spec_Image s) (spec_ImageFrom s)
       (spec_TrackImageDigest s)
       (spec_IDGenerationMethod s) (spec_DeletionPolicy s) (spec_Suspend s) (spec_Tenant s)
       (spec_ImagePullSecrets s) (spec_Runtime s) (spec_App s) (spec_Worker s) (spec_Proxy s)
       (spec_Ingress s) (spec_Redis s) (spec_Search s) (spec_Postgres s) (spec_Migration s)
       (spec_SetupPassword s) (spec_ExtraConfig s) (spec_ObjectStorage s)
       (spec_SensitiveDetector s) (spec_Network s) (spec_Tenancy s) (spec_Monitoring s)
       (spec_Performance s) (squash_outbound (spec_OutboundProxy s))
       (squash_files (spec_Files s)))
    (m_Status m).

(** The strings that are written without quotes hold no quote: the provider, scope and id
    method are enumerations of the CRD, the environment names are constants. *)
Definition plain_names (m : Misskey) (p : plan) : bool :=
  plain (p_provider p) && plain (p_meiliScope p) && plain (spec_IDGenerationMethod (m_Spec m))
  && plain (re_passEnv (p_redisDefault p))
  && forallb (fun rd => match p_redisRoles p !! rd_key rd with
                        | Some ep => plain (re_passEnv ep) | None => true end) redisRoleDescs.

Lemma squash_empty s : String.eqb (squash s) "" = String.eqb s "".
Proof. unfold squash. by destruct (String.eqb s ""). Qed.

Lemma blanks_redis key ep :
  plain key = true → plain (re_passEnv ep) = true →
  blanks (renderRedisBlock key ep) (renderRedisBlock key (squash_redis ep)).
Proof.
  intros Hk He. unfold renderRedisBlock, squash_redis.
  cbn [re_host re_port re_db re_sentinels re_masterName re_passSel re_passEnv re_enableTLS].
  rewrite length_map. apply blanks_concat. blanks_tac.
  - apply (blanks_concat_map _ _ (fun s => mkHostPort (squash (hp_host s)) (hp_port s))).
    intros a. cbn [hp_host hp_port]. blanks_tac.
  - destruct (re_passSel ep); blanks_tac.
Qed.

Lemma blanks_writeInt key v :
  plain key = true → blanks (writeInt key v) (writeInt key v).
Proof.
  intros Hk. apply blanks_plain. destruct v as [z|]; [|done].
  unfold writeInt, plain. rewrite !str_forall_app. fold (plain key) (plain (itoa z)).
  by rewrite Hk, plain_itoa.
Qed.

Lemma blanks_performance p : blanks (renderPerformance p) (renderPerformance p).
Proof.
  apply blanks_concat. repeat (apply blanks_cons; [by apply blanks_writeInt|]). constructor.
Qed.

Lemma blanks_join l :
  blanks (join (map yq l) ", ") (join (map yq (map squash l)) ", ").
Proof.
  induction l as [|x l IH]; [apply blanks_nil|].
  destruct l as [|y l]; [apply blanks_yq|].
  change (blanks (yq x +:+ ", " +:+ join (map yq (y :: l)) ", ")
            (yq (squash x) +:+ ", " +:+ join (map yq (map squash (y :: l))) ", ")).
  apply blanks_app; [apply blanks_yq|]. apply blanks_app; [by apply blanks_plain|done].
Qed.

Lemma blanks_outbound o :
  blanks (renderOutboundProxy o) (renderOutboundProxy (squash_outbound o)).
Proof.
  unfold renderOutboundProxy, squash_outbound. cbn [op_HTTP op_SMTP op_BypassHosts].
  rewrite !squash_empty. apply blanks_concat. blanks_tac.
  pose proof (blanks_join (op_BypassHosts o)) as Hj.
  destruct (op_BypassHosts o) as [|h hs]; [constructor|].
  cbn [map] in *. blanks_tac.
Qed.

Lemma blanks_files f : blanks (renderFiles f) (renderFiles (squash_files f)).
Proof.
  unfold renderFiles, squash_files. cbn [files_MaxFileSize files_MediaProxy].
  rewrite squash_empty. apply blanks_app; [by apply blanks_writeInt|].
  destruct (String.eqb (files_MediaProxy f) ""); [apply blanks_nil|].
  repeat (apply blanks_app; [first [apply blanks_yq | by apply blanks_plain]|]).
  by apply blanks_plain.
Qed.
#[export] Hint Resolve blanks_performance blanks_outbound blanks_files : blanking.

Lemma blanks_roles p l :
  forallb (fun rd => plain (rd_configKey rd)
    && match p_redisRoles p !! rd_key rd with
       | Some ep => plain (re_passEnv ep) | None => true end) l = true →
  Forall2 blanks
    (map (fun rd => match p_redisRoles p !! rd_key rd with
                    | Some ep => renderRedisBlock (rd_configKey rd) ep | None => "" end) l)
    (map (fun rd => match (squash_redis <$> p_redisRoles p) !! rd_key rd with
                    | Some ep => renderRedisBlock (rd_configKey rd) ep | None => "" end) l).
Proof.
  induction l as [|rd l IH]; cbn [map forallb]; [constructor|]. intros H. bool_prop.
  apply blanks_cons; [|auto]. rewrite lookup_fmap.
  destruct (p_redisRoles p !! rd_key rd) as [ep|]; [|apply blanks_nil].
  by apply blanks_redis.
Qed.

Lemma plain_stringOr s d : plain s = true → plain d = true → plain (stringOr s d) = true.
Proof. unfold stringOr. by destruct (String.eqb s ""). Qed.

Lemma blanks_default_yml m p :
  trimSpace (spec_ExtraConfig (m_Spec m)) = "" → plain_names m p = true →
  blanks (renderDefaultYML m p) (renderDefaultYML (squash_misskey m) (squash_plan p)).
Proof.
  intros Hx Hp. unfold plain_names in Hp. bool_prop.
  unfold renderDefaultYML, squash_misskey, squash_plan. 
  cbn -[concat_str renderRedisBlock app yq itoa formatBool renderPerformance renderOutboundProxy
    renderFiles stringOr boolOr map concat redisRoleDescs squash blanks nl trimSpace squash_redis].
  pose proof (blanks_roles p redisRoleDescs) as Hr.
  ospecialize (Hr _).
  { apply forallb_forall. intros rd Hin.
    rewrite forallb_forall in H0. apply andb_true_iff. split; [|by apply H0].
    destruct Hin as [<-|[<-|[<-|[<-|[]]]]]; done. }
  revert Hr. generalize (map (fun rd => match p_redisRoles p !! rd_key rd with
    | Some ep => renderRedisBlock (rd_configKey rd) ep | None => "" end) redisRoleDescs)
    (map (fun rd => match (squash_redis <$> p_redisRoles p) !! rd_key rd with
    | Some ep => renderRedisBlock (rd_configKey rd) ep | None => "" end) redisRoleDescs).
  intros ra rb Hr. rewrite Hx. apply blanks_concat. blanks_tac.
  - apply blanks_concat_map. intros a. unfold squash_db.
    cbn [dbe_host dbe_port dbe_db dbe_user]. blanks_tac.
  - by apply blanks_redis.
  - apply blanks_plain. by apply plain_stringOr.
Qed.

(** ** Properties *)

(** The strings of a spec that the renderer prints without quotes; the CRD restricts each
    to an enumeration. *)
Definition enums_plain (m : Misskey) : bool :=
  plain (search_Provider (spec_Search (m_Spec m)))
  && plain (meili_Scope (search_Meilisearch (spec_Search (m_Spec m))))
  && plain (spec_IDGenerationMethod (m_Spec m)).

Lemma plain_passEnv_external ext env :
  plain env = true → plain (re_passEnv (externalRedisEndpoint ext env)) = true.
Proof. done. Qed.
Lemma plain_passEnv_managed m suffix env ha :
  plain env = true → plain (re_passEnv (managedRedisEndpoint m suffix env ha)) = true.
Proof. by destruct ha. Qed.

Lemma resolveRole_plain m roles acc rd :
  plain (rd_passEnv rd) = true →
  map_Forall (fun _ ep => plain (re_passEnv ep) = true) acc →
  map_Forall (fun _ ep => plain (re_passEnv ep) = true) (resolveRole m roles acc rd).
Proof.
  unfold resolveRole. intros Hr H. destruct (rd_get rd roles) as [role|]; [|done].
  destruct (role_External role); apply map_Forall_insert_2;
    auto using plain_passEnv_external, plain_passEnv_managed.
Qed.
Lemma resolveRoles_plain m :
  map_Forall (fun _ ep => plain (re_passEnv ep) = true) (resolveRoles m).
Proof.
  unfold resolveRoles. destruct (redis_Roles _) as [roles|]; [|apply map_Forall_empty].
  cbn [redisRoleDescs foldl]. repeat (apply resolveRole_plain; [done|]). apply map_Forall_empty.
Qed.

Lemma resolve_plain_names m : enums_plain m = true → plain_names m (resolve m) = true.
Proof.
  unfold enums_plain. intros H. bool_prop. unfold plain_names, resolve.
  destruct (resolveDB m) as [[[[[[[managed host] port] db] user] sel] repl] slaves].
  assert (let '(_, _, _, _, _, _, scope, _) := resolveSearch m in plain scope = true) as Hs.
  { unfold resolveSearch. destruct (String.eqb _ SearchMeilisearch); [|done].
    destruct (meili_External _); by apply plain_stringOr. }
  destruct (resolveSearch m) as [[[[[[[en man] h] po] ssl] idx] scope] key].
  destruct (resolveDetector m) as [[[[]]]], (resolveSetup m) as [[]].
  cbn [p_provider p_meiliScope p_redisDefault p_redisRoles].
  rewrite plain_stringOr, Hs, H0 by done. cbn [andb]. apply andb_true_iff. split.
  - destruct (redis_External _); [done|by apply plain_passEnv_managed].
  - apply forallb_forall. intros rd _. pose proof (resolveRoles_plain m) as Hr.
    destruct (resolveRoles m !! rd_key rd) as [ep|] eqn:E; [|done]. by apply (Hr _ _ E).
Qed.

(** C28. Quoting round trip: a reader gets back the string and stops at the closing quote. *)
Theorem yq_roundtrip s t :
  utf8_valid s = true → scan_scalar (yq s +:+ t) = Some (s, t).
Proof.
  intros Hs. unfold yq, dq. rewrite !sapp_assoc. cbn [String.append scan_scalar].
  change (Ascii.eqb dquote dquote) with true. cbv iota. rewrite scan_runes by done.
  cbn [scan_body]. change (Ascii.eqb dquote dquote) with true. cbv iota.
  cbn [prepend]. by rewrite sapp_nil_r.
Qed.

Theorem yq_single_line s : str_forall printable (yq s) = true.
Proof. unfold yq. rewrite !str_forall_app, json_rune_printable. done. Qed.

(** C29. No injection into default.yml: with the content of every quoted scalar blanked out, the
    file rendered for an instance is the file rendered for the instance in which every quoted
    user string (host, database, user, index, URL, proxies, media proxy) is a placeholder.
    So no such string can add, remove or change a key or a line; only whether it is empty
    matters.  [spec.extraConfig] is appended as it is and left out here. *)
Theorem default_yml_structure m :
  trimSpace (spec_ExtraConfig (m_Spec m)) = "" → enums_plain m = true →
  blank QOut (renderDefaultYML m (resolve m))
  = renderDefaultYML (squash_misskey m) (squash_plan (resolve m)).
Proof.
  intros Hx Hp. rewrite <- (sapp_nil_r (renderDefaultYML m (resolve m))).
  rewrite (blanks_default_yml m (resolve m) Hx (resolve_plain_names m Hp)).
  apply sapp_nil_r.
Qed.

Theorem migrate_config_topology inst ro pool m :
  let m' := with_access inst ro pool m in
  renderDefaultYML m' (migratePlan m' (resolve m'))
  = renderDefaultYML m (migratePlan m (resolve m)).
Proof. cbv zeta. by rewrite migratePlan_access. Qed.
