(* ===== verification/Pod.v ===== *)
(** * Pod templates: misskey_pod.go and the builders of common.go

    The init containers that render the configuration, the app/worker pods, and the hardened
    security contexts every workload shares. *)
From S2P Require Export Plan KubeTypes.
Local Open Scope string_scope.
Local Open Scope Z_scope.
Local Open Scope list_scope.

Definition roleApp : string := "app".
Definition roleWorker : string := "worker".

(** ** common.go *)

Definition nonRootPodSecurityContext (uid : Z) : PodSecurityContext :=
  mkPodSecurityContext (Some true) (Some uid) (Some uid) "RuntimeDefault".
Definition restrictedContainerSecurityContext : SecurityContext :=
  mkSecurityContext (Some false) (Some true) ["ALL"].
Definition tmpVolume : Volume := mkVolume "tmp" VSEmptyDir.
Definition tmpMount : VolumeMount := mkMount "tmp" "/tmp" "" false.
Definition spreadConstraints (labels : gmap string string) : list TopologySpreadConstraint :=
  [mkSpread 1 "kubernetes.io/hostname" "ScheduleAnyway" (matchLabels labels)].

(** ** misskey_pod.go *)

Definition secretEnv (name : string) (sel : SecretKeySelector) : EnvVar := mkEnv name "" (Some sel).

Definition renderInitEnv (p : plan) : list EnvVar :=
  [secretEnv "DB_PASSWORD" (p_dbPassSel p)] ++
  (if p_meiliEnabled p then [secretEnv "MEILI_KEY" (p_meiliKeySel p)] else []) ++
  (match re_passSel (p_redisDefault p) with
   | Some sel => [secretEnv (re_passEnv (p_redisDefault p)) sel] | None => [] end) ++
  concat (map (fun rd =>
    match p_redisRoles p !! rd_key rd with
    | Some ep => match re_passSel ep with
                 | Some sel => [secretEnv (re_passEnv ep) sel] | None => [] end
    | None => []
    end) redisRoleDescs) ++
  (if p_setupEnabled p then [secretEnv "SETUP_PASSWORD" (p_setupSel p)] else []).

(** The placeholders [renderConfigScript] knows, in its order. *)
Definition renderConfigKeys : list string := [
  "DB_PASSWORD"; "MEILI_KEY"; "REDIS_PASSWORD"; "REDIS_PASSWORD_JOBQUEUE";
  "REDIS_PASSWORD_PUBSUB"; "REDIS_PASSWORD_TIMELINES"; "REDIS_PASSWORD_REACTIONS";
  "SETUP_PASSWORD"].
(** The Node.js program of the render-config container, as text. *)
Definition renderConfigScript : string :=
  let nl := String "010" "" in
  join [
    "const fs = require('fs');";
    "let s = fs.readFileSync('/tpl/default.yml', 'utf8');";
    "for (const k of [" +:+ join (map (fun k => "'" +:+ k +:+ "'") renderConfigKeys) ", " +:+ "]) {";
    "  const v = process.env[k];";
    "  if (v !== undefined) s = s.split('${' + k + '}').join(JSON.stringify(v));";
    "}";
    "fs.writeFileSync('/shared/default.yml', s);"] nl.

Definition httpProbe (path : string) (period timeout failure : Z) : Probe :=
  mkProbe (HTTPGet path (IOSInt misskeyPort)) 0 period timeout failure.

Definition misskeyInitContainers (m : Misskey) (p : plan) : list Container :=
  let bp := runtimeBuiltPath m in
  (if String.eqb bp "" then [] else
     [mkContainer "prepare-built" (spec_Image (m_Spec m))
        ["cp"; "-r"; bp +:+ "/."; "/tmp/built/"] [] [] noResources
        [mkMount "built-volume" "/tmp/built" "" false] None None None
        (Some restrictedContainerSecurityContext)]) ++
  [mkContainer "render-config" (spec_Image (m_Spec m)) ["node"; "-e"; renderConfigScript]
     (renderInitEnv p) [] noResources
     [mkMount "config-tpl" "/tpl" "" false; mkMount "config-rendered" "/shared" "" false; tmpMount]
     None None None (Some restrictedContainerSecurityContext)].

Definition misskeyVolumes (m : Misskey) (cfg : string) : list Volume :=
  [mkVolume "config-tpl" (VSConfigMap cfg); mkVolume "config-rendered" VSEmptyDir; tmpVolume] ++
  (if String.eqb (runtimeBuiltPath m) "" then [] else [mkVolume "built-volume" VSEmptyDir]).

Definition misskeyConfigMounts (m : Misskey) : list VolumeMount :=
  let bp := runtimeBuiltPath m in
  [mkMount "config-rendered" (runtimeConfigPath m) "default.yml" true; tmpMount] ++
  (if String.eqb bp "" then [] else [mkMount "built-volume" bp "" false]).

Definition buildMisskeyPodSpec `{QuantityLib} (m : Misskey) (p : plan) (role : string)
    (comp : ComponentSpec) : PodSpec :=
  let isApp := String.eqb role roleApp in
  let env := [envValue "MK_DISABLE_CLUSTERING" "true"] ++
    (if isApp then [envValue "MK_ONLY_SERVER" "true"] else [envValue "MK_ONLY_QUEUE" "true"]) in
  let ports := if isApp then [mkContainerPort "" misskeyPort] else [] in
  let res := if String.eqb role roleWorker
             then resourcesOr (comp_Resources comp) "100m" "500Mi" "1Gi"
             else resourcesOr (comp_Resources comp) "100m" "400Mi" "800Mi" in
  let healthPath := runtimeHealthPath m in
  let probe p t f := if isApp then Some (httpProbe healthPath p t f) else None in
  let main :=
    mkContainer role (spec_Image (m_Spec m)) (runtimeStartCommand m) env ports res
      (misskeyConfigMounts m) (probe 10 3 30) (probe 10 3 3) (probe 20 5 3)
      (Some restrictedContainerSecurityContext) in
  mkPodSpec (Some false) "" (spec_ImagePullSecrets (m_Spec m))
    (Some (nonRootPodSecurityContext (runtimeUID m))) (spreadConstraints (labelsFor m role))
    (comp_NodeSelector comp) (comp_Tolerations comp) (misskeyInitContainers m p) [main]
    (misskeyVolumes m (nameConfig m)).

(** ** The referenced Secrets are those of the init environment *)

(** The names of the Secrets an environment reads. *)
Definition envSecretNames (env : list EnvVar) : gset string :=
  list_to_set (omap (fun e => sel_Name <$> env_Secret e) env).

Lemma envSecretNames_app a b : envSecretNames (a ++ b) = envSecretNames a ∪ envSecretNames b.
Proof. unfold envSecretNames. by rewrite omap_app, list_to_set_app_L. Qed.

Lemma foldl_roles_union (p : plan) l (X : gset string) :
  foldl (fun names rd =>
    match p_redisRoles p !! rd_key rd with
    | Some ep => match re_passSel ep with
                 | Some sel => {[sel_Name sel]} ∪ names | None => names end
    | None => names
    end) X l
  = X ∪ envSecretNames (concat (map (fun rd =>
      match p_redisRoles p !! rd_key rd with
      | Some ep => match re_passSel ep with
                   | Some sel => [secretEnv (re_passEnv ep) sel] | None => [] end
      | None => []
      end) l)).
Proof.
  revert X. induction l as [|rd l IH]; intros X; cbn [foldl map concat].
  - cbn. by rewrite union_empty_r_L.
  - rewrite IH, envSecretNames_app.
    destruct (p_redisRoles p !! rd_key rd) as [ep|]; [destruct (re_passSel ep) as [sel|]|];
      cbn; rewrite ?union_empty_r_L, ?union_empty_l_L, ?assoc_L by apply _; try done.
    by rewrite (comm_L (∪) X).
Qed.

Theorem referencedSecretNames_env p :
  referencedSecretNames p = envSecretNames (renderInitEnv p).
Proof.
  unfold referencedSecretNames, renderInitEnv. rewrite !envSecretNames_app, foldl_roles_union.
  destruct (p_meiliEnabled p), (re_passSel (p_redisDefault p)), (p_setupEnabled p);
    cbn [envSecretNames omap list_omap secretEnv env_Secret fmap option_fmap option_map
         list_to_set]; rewrite ?union_empty_r_L, ?union_empty_l_L.
  all: try apply set_eq; intros x; repeat rewrite elem_of_union; tauto.
Qed.

(** ** The init environment holds exactly variables the render script expands *)

Lemma roleDescs_passEnv rd rd' :
  rd ∈ redisRoleDescs → rd' ∈ redisRoleDescs → rd_key rd = rd_key rd' →
  rd_passEnv rd = rd_passEnv rd'.
Proof.
  unfold redisRoleDescs. rewrite !elem_of_cons, !elem_of_nil.
  intros [->|[->|[->|[->|[]]]]] [->|[->|[->|[->|[]]]]]; done.
Qed.

Definition roles_named (acc : gmap string redisEndpoint) : Prop :=
  ∀ rd ep, rd ∈ redisRoleDescs → acc !! rd_key rd = Some ep → re_passEnv ep = rd_passEnv rd.

Lemma resolveRole_named m roles acc rd :
  rd ∈ redisRoleDescs → roles_named acc → roles_named (resolveRole m roles acc rd).
Proof.
  intros Hrd Ha. unfold resolveRole. destruct (rd_get rd roles) as [role|]; [|done].
  intros rd' ep' Hrd' Hl.
  destruct (role_External role); (destruct (decide (rd_key rd = rd_key rd')) as [E|E];
    [rewrite E, lookup_insert_eq in Hl; injection Hl as <-; cbn;
     rewrite (roleDescs_passEnv rd' rd) by done; try done; by destruct (role_HA role)
    |rewrite lookup_insert_ne in Hl by done; by apply Ha]).
Qed.

Lemma resolveRoles_named m : roles_named (resolveRoles m).
Proof.
  assert (roles_named ∅) as H0 by (intros ? ? _; by rewrite lookup_empty).
  unfold resolveRoles. destruct (redis_Roles _) as [roles|]; [|done].
  cbn [redisRoleDescs foldl]. repeat (apply resolveRole_named; [unfold redisRoleDescs; set_solver|]).
  done.
Qed.

Lemma default_passEnv m : re_passEnv (p_redisDefault (resolve m)) = "REDIS_PASSWORD".
Proof.
  unfold resolve.
  destruct (resolveDB m) as [[[[[[[]]]]]]], (resolveSearch m) as [[[[[[[]]]]]]],
    (resolveDetector m) as [[[[]]]], (resolveSetup m) as [[]].
  cbn [p_redisDefault]. destruct (redis_External _); [done|]. by destruct (redis_HA _).
Qed.
Lemma resolve_roles m : p_redisRoles (resolve m) = resolveRoles m.
Proof.
  unfold resolve.
  destruct (resolveDB m) as [[[[[[[]]]]]]], (resolveSearch m) as [[[[[[[]]]]]]],
    (resolveDetector m) as [[[[]]]], (resolveSetup m) as [[]]. done.
Qed.

(** The variables of one role. *)
Lemma role_env_names m l :
  l ⊆ redisRoleDescs →
  map env_Name (concat (map (fun rd =>
    match p_redisRoles (resolve m) !! rd_key rd with
    | Some ep => match re_passSel ep with
                 | Some sel => [secretEnv (re_passEnv ep) sel] | None => [] end
    | None => []
    end) l)) `sublist_of` map rd_passEnv l.
Proof.
  induction l as [|rd l IH]; intros Hl; cbn [map concat]; [constructor|].
  rewrite map_app, resolve_roles.
  assert (l ⊆ redisRoleDescs) as Hl' by (intros x Hx; apply Hl; by right).
  specialize (IH Hl'). rewrite resolve_roles in IH.
  destruct (resolveRoles m !! rd_key rd) as [ep|] eqn:E; [|by apply sublist_cons].
  destruct (re_passSel ep); [|by apply sublist_cons].
  cbn. rewrite (resolveRoles_named m rd ep) by (try done; apply Hl; left).
  by apply sublist_skip.
Qed.

Theorem renderInitEnv_keys m :
  map env_Name (renderInitEnv (resolve m)) `sublist_of` renderConfigKeys.
Proof.
  unfold renderInitEnv. rewrite !map_app.
  change renderConfigKeys with
    (["DB_PASSWORD"] ++ ["MEILI_KEY"] ++ ["REDIS_PASSWORD"] ++ map rd_passEnv redisRoleDescs
     ++ ["SETUP_PASSWORD"]).
  apply sublist_app; [done|]. apply sublist_app; [destruct (p_meiliEnabled _); [done|apply sublist_nil_l]|].
  apply sublist_app.
  { destruct (re_passSel _); [|apply sublist_nil_l]. cbn. by rewrite default_passEnv. }
  apply sublist_app; [by apply role_env_names|].
  destruct (p_setupEnabled _); [done|apply sublist_nil_l].
Qed.
