(* ===== verification/Secrets.v ===== *)
(** * Generated Secrets, Secret versions and ConfigMaps

    The Secrets the operator generates (meilisearch.go, config.go, redisha.go,
    sensitive_detector.go) share one mutation, [secretMutate]: it fills a missing key with
    random hex and renews it when the rotation annotation of the instance changes.  The file
    also holds the version strings of referenced Secrets (common.go), which enter the
    checksums, and the ConfigMaps of config.go. *)
From S2P Require Export Pod Config Kube.
Local Open Scope string_scope.
Local Open Scope Z_scope.
Local Open Scope list_scope.

(** ** Rotation (common.go) *)

(** The rotation value of the instance, [""] when the annotation is missing. *)
Definition annotation (om : ObjectMeta) (key : string) : string :=
  match om_Annotations om !! key with Some v => v | None => "" end.

Definition rotationRequested (m : Misskey) (secret : Secret) : bool :=
  let want := annotation (m_Meta m) rotateAnnotation in
  if String.eqb want "" then false
  else negb (String.eqb (annotation (sec_Meta secret) rotateAnnotation) want).

Definition markRotation (m : Misskey) (secret : Secret) : Secret :=
  let want := annotation (m_Meta m) rotateAnnotation in
  if String.eqb want "" then secret
  else mkSecret (set_Annotations (<[rotateAnnotation := want]> (om_Annotations (sec_Meta secret)))
                   (sec_Meta secret)) (sec_Data secret).

(** ** Generation *)

Definition randomHex (n : nat) : rprog string :=
  try buf := send (RandRead n) in ok (hexEncode buf).

(** The mutation of a generated Secret with one key. *)
Definition secretMutate (m : Misskey) (component key : string) (n : nat) (live : Secret)
    : rprog Secret :=
  let secret := mkSecret (set_Labels (labelsFor m component) (sec_Meta live)) (sec_Data live) in
  if negb (bool_decide (is_Some (sec_Data secret !! key))) || rotationRequested m secret then
    try pw := randomHex n in
    ok (markRotation m (mkSecret (sec_Meta secret) (<[key := pw]> (sec_Data secret))))
  else ok (markRotation m secret).

Section Secrets.
Context `{KubeLib}.

Definition generatedSecret (m : Misskey) (name component key : string) (n : nat) : rprog unit :=
  applyOwned m KSecret (newSecret name (m_Namespace m)) (secretMutate m component key n).

Definition reconcileMeiliSecret (m : Misskey) : rprog unit :=
  match meili_MasterKeySecret (search_Meilisearch (spec_Search (m_Spec m))) with
  | Some _ => ok tt
  | None => generatedSecret m (nameMeili m) "meilisearch" meiliMasterKeyID 32
  end.
Definition reconcileSetupSecret (m : Misskey) : rprog unit :=
  generatedSecret m (nameSetup m) "setup" setupPasswordID 16.
Definition reconcileRedisAuthSecret (m : Misskey) : rprog unit :=
  generatedSecret m (nameRedisAuthSecret m) "redis" "password" 24.
Definition reconcileSensitiveDetectorSecret (m : Misskey) : rprog unit :=
  match spec_SensitiveDetector (m_Spec m) with
  | None => ok tt
  | Some d =>
      match det_External d, det_APIKeySecret d with
      | None, None =>
          generatedSecret m (nameSensitiveDetector m) "sensitive-detector"
            sensitiveDetectorAPIKeyID 32
      | _, _ => ok tt
      end
  end.

(** ** Versions of referenced Secrets (common.go) *)

Definition secretVersion (ns name : string) : rprog string :=
  let! r := send (Get KSecret name ns) in
  match r with
  | Ok s => ok (name +:+ ":" +:+ om_ResourceVersion (sec_Meta s))
  | Err e => if isNotFound e then ok (name +:+ ":missing") else fail e
  end.

(** Go walks the set of names in any order; the sorted result does not depend on it. *)
Definition referencedSecretVersions (m : Misskey) (p : plan) : rprog (list string) :=
  try out := collect (elements (referencedSecretNames p)) (secretVersion (m_Namespace m)) in
  ok (sortStrings out).

(** ** ConfigMaps (config.go) *)

Definition setData (m : Misskey) (component : string) (data : gmap string string)
    (cm : ConfigMap) : rprog ConfigMap :=
  ok (mkConfigMap (set_Labels (labelsFor m component) (cm_Meta cm)) data).

Definition configData (m : Misskey) (p : plan) : gmap string string :=
  if boolOr (proxy_Enabled (spec_Proxy (m_Spec m))) true
  then <["Caddyfile" := renderCaddyfile m]> {["default.yml" := renderDefaultYML m p]}
  else {["default.yml" := renderDefaultYML m p]}.

Definition reconcileConfigMaps (m : Misskey) (p : plan) : rprog unit :=
  do applyOwned m KConfigMap (newConfigMap (nameConfig m) (m_Namespace m))
       (setData m "config" (configData m p));
  do applyOwned m KConfigMap (newConfigMap (nameMigrateConfig m) (m_Namespace m))
       (setData m "config" {["default.yml" := renderDefaultYML m (migratePlan m p)]});
  if negb (boolOr (proxy_Enabled (spec_Proxy (m_Spec m))) true)
     || negb (boolOr (maint_Enabled (proxy_Maintenance (spec_Proxy (m_Spec m)))) true)
  then ok tt
  else applyOwned m KConfigMap (newConfigMap (nameMaintenanceHTML m) (m_Namespace m))
         (setData m "maintenance" {["maintenance.html" := maintenanceHTMLContent m]}).
End Secrets.

(** ** Lemmas *)

Lemma markRotation_data m s : sec_Data (markRotation m s) = sec_Data s.
Proof. unfold markRotation. by destruct (String.eqb _ ""). Qed.
Lemma markRotation_done m s : rotationRequested m (markRotation m s) = false.
Proof.
  unfold rotationRequested, markRotation. destruct (String.eqb _ "") eqn:E; [done|].
  cbn. unfold annotation at 1. cbn. rewrite lookup_insert_eq, String.eqb_refl. done.
Qed.
Lemma markRotation_idem m s : markRotation m (markRotation m s) = markRotation m s.
Proof.
  unfold markRotation. destruct (String.eqb _ "") eqn:E; [done|]. cbn. f_equal.
  unfold set_Annotations. cbn. by rewrite insert_insert_eq.
Qed.
Lemma markRotation_labels m s :
  om_Labels (sec_Meta (markRotation m s)) = om_Labels (sec_Meta s).
Proof. unfold markRotation. by destruct (String.eqb _ ""). Qed.
Lemma set_Labels_id l om : om_Labels om = l → set_Labels l om = om.
Proof. destruct om. unfold set_Labels. cbn. by intros ->. Qed.

(** The mutation of an object it has produced does nothing. *)
Lemma secretMutate_fixed m component key n s :
  om_Labels (sec_Meta s) = labelsFor m component → is_Some (sec_Data s !! key) →
  secretMutate m component key n (markRotation m s) = ok (markRotation m s).
Proof.
  intros Hl Hk. unfold secretMutate.
  rewrite set_Labels_id by by rewrite markRotation_labels.
  assert (mkSecret (sec_Meta (markRotation m s)) (sec_Data (markRotation m s))
          = markRotation m s) as -> by by destruct (markRotation m s).
  rewrite markRotation_done, markRotation_data, bool_decide_eq_true_2 by done. cbn.
  by rewrite markRotation_idem.
Qed.

(** ** Properties *)

(** A generated Secret is written once: reconciling the result again reads no randomness and
    changes nothing, with or without a rotation request. *)
Theorem secretMutate_idempotent m component key n live h s :
  runs (secretMutate m component key n live) h (Ok s) →
  ∀ h' r, runs (secretMutate m component key n s) h' r → h' = [] ∧ r = Ok s.
Proof.
  unfold secretMutate at 1. set (base := mkSecret _ _).
  destruct (negb _ || _) eqn:E.
  - cbn. intros (x & h1 & -> & Hr). destruct x as [buf|e]; cbn in Hr; destruct Hr as [_ Hr]; [|done].
    injection Hr as ->. intros h' r. rewrite secretMutate_fixed; cbn; [done|done|].
    rewrite lookup_insert_eq. eauto.
  - cbn. intros [_ [= ->]] h' r. apply orb_false_iff in E as [E _].
    apply negb_false_iff, bool_decide_eq_true_1 in E.
    rewrite secretMutate_fixed; cbn; [done|done|]. done.
Qed.

(** A key that is there and not asked to rotate keeps its value, and so does every other
    key of the Secret in any case. *)
Theorem secretMutate_preserves m component key n live h s k :
  runs (secretMutate m component key n live) h (Ok s) →
  (k ≠ key ∨ is_Some (sec_Data live !! key) ∧ rotationRequested m live = false) →
  sec_Data s !! k = sec_Data live !! k.
Proof.
  unfold secretMutate. set (base := mkSecret _ _).
  assert (rotationRequested m base = rotationRequested m live) as -> by done.
  change (sec_Data base) with (sec_Data live).
  destruct (negb _ || _) eqn:E.
  - cbn. intros (x & h1 & -> & Hr) Hk.
    destruct x as [buf|e]; cbn in Hr; destruct Hr as [_ Hr]; [|done]. injection Hr as ->.
    rewrite markRotation_data. cbn. destruct Hk as [Hk|[Hk Hrot]].
    + by rewrite lookup_insert_ne.
    + rewrite Hrot, bool_decide_eq_true_2 in E by done. done.
  - cbn. intros [_ [= ->]] _. by rewrite markRotation_data.
Qed.
