(* ===== verification/StatefulSet.v ===== *)
(** * StatefulSets with growing volumes: statefulset.go

    The claim templates of a StatefulSet cannot be changed in place: [applyStatefulSet]
    expands the existing claims, deletes the StatefulSet without its pods and claims, waits
    for it to go and creates it again. *)
From S2P Require Export Kube.
Local Open Scope string_scope.
Local Open Scope Z_scope.
Local Open Scope list_scope.

(** [Spec.Resources.Requests[corev1.ResourceStorage]], the zero quantity when missing. *)
Definition storageOf (c : PersistentVolumeClaim) : Quantity :=
  deref qty_zero (pvc_Requests c !! "storage").
Definition pvc_Name (c : PersistentVolumeClaim) : string := om_Name (pvc_Meta c).

Fixpoint claimsDiffer (current desired : list PersistentVolumeClaim) : bool :=
  match current, desired with
  | c :: current, d :: desired =>
      if negb (String.eqb (pvc_Name c) (pvc_Name d)) then true
      else if negb (String.eqb (deref "" (pvc_StorageClassName c)) (deref "" (pvc_StorageClassName d)))
      then true
      else match qty_Cmp (storageOf c) (storageOf d) with
           | Eq => claimsDiffer current desired
           | _ => true
           end
  | _, _ => false
  end.
Definition volumeClaimTemplatesChanged (current desired : list PersistentVolumeClaim) : bool :=
  if negb (length current =? length desired)%nat then true else claimsDiffer current desired.

(** The claim of the pod [i]. *)
Definition claimName (tpl sts : string) (i : Z) : string :=
  tpl +:+ "-" +:+ sts +:+ "-" +:+ itoa i.
(** [pvc.Spec.Resources.Requests[storage] = want]; the API server admits no claim without
    requests, to whose nil map Go could not write. *)
Definition withStorage (want : Quantity) (pvc : PersistentVolumeClaim) : PersistentVolumeClaim :=
  mkPVC (pvc_Meta pvc) (pvc_AccessModes pvc) (pvc_StorageClassName pvc)
    (<["storage" := want]> (pvc_Requests pvc)).

(** The body of the inner loop of [expandStatefulSetPVCs]. *)
Definition expandPVC (ns name : string) (want : Quantity) : prog unit :=
  let! r := send (Get KPVC name ns) in
  match r with
  | Err _ => Ret tt
  | Ok pvc =>
      match qty_Cmp want (storageOf pvc) with
      | Gt =>
          let! u := send (Update KPVC (withStorage want pvc)) in
          match u with
          | Err e =>
              event_ "Warning" "PVCExpandFailed" "ApplyStatefulSet"
                ("failed to expand PVC " +:+ name +:+ " to " +:+ qty_String want +:+ ": "
                 +:+ err_Text e)
          | Ok _ => Ret tt
          end
      | _ => Ret tt
      end
  end.
(** [0 ..< n] *)
Definition ordinals (n : Z) : list Z := map Z.of_nat (seq 0 (Z.to_nat n)).
Definition expandStatefulSetPVCs (sts : StatefulSet) (desired : list PersistentVolumeClaim)
    : prog unit :=
  let replicas := deref 1 (sts_Replicas sts) in
  let! _ := mapP desired (fun tpl =>
    match pvc_Requests tpl !! "storage" with
    | None => Ret []
    | Some want =>
        mapP (ordinals replicas) (fun i =>
          expandPVC (om_Namespace (sts_Meta sts))
            (claimName (pvc_Name tpl) (om_Name (sts_Meta sts)) i) want)
    end) in
  Ret tt.

(** [wait.PollUntilContextTimeout] every 200ms for 5s: the condition is tried at once and
    after each of at most 25 ticks; [Poll] is whether the next tick comes before the limit. *)
Definition pollTicks : nat := 25.
Fixpoint waitGone (ticks : nat) (name ns : string) : rprog unit :=
  let! r := send (Get KStatefulSet name ns) in
  let again :=
    match ticks with
    | O => fail (errorf "context deadline exceeded")
    | S n =>
        let! more := send Poll in
        if more then waitGone n name ns else fail (errorf "context deadline exceeded")
    end in
  match r with
  | Err e => if isNotFound e then ok tt else again
  | Ok _ => again
  end.

Definition terminating (name : string) : error :=
  errorf ("statefulset " +:+ name +:+ " is terminating, waiting to recreate").

Section Apply.
Context `{KubeLib}.

(** The replacement of a StatefulSet whose claim templates have changed. *)
Definition recreate (existing : StatefulSet) (desired : list PersistentVolumeClaim)
    (name ns : string) : rprog unit :=
  let! _ := expandStatefulSetPVCs existing desired in
  let! d := send (DeleteObj KStatefulSet (om_Name (sts_Meta existing))
                    (om_Namespace (sts_Meta existing)) (Some Orphan)) in
  do lift (ignoreNotFound d);
  let! _ := event_ "Normal" "StatefulSetRecreated" "ApplyStatefulSet"
    ("recreating StatefulSet " +:+ name
     +:+ " to apply volume claim changes (pods and PVCs are retained)") in
  let! w := waitGone pollTicks name ns in
  match w with Ok _ => ok tt | Err _ => fail (terminating name) end.

(** [sts] is the object the caller gives; the mutation runs on it first for the desired
    templates, and again in [apply]. *)
Definition applyStatefulSet (m : Misskey) (sts : StatefulSet)
    (mutate : StatefulSet → rprog StatefulSet) : rprog unit :=
  try sts' := mutate sts in
  let desired := sts_VolumeClaimTemplates sts' in
  let name := om_Name (sts_Meta sts') in
  let ns := om_Namespace (sts_Meta sts') in
  let! r := send (Get KStatefulSet name ns) in
  do match r with
     | Err e => if isNotFound e then ok tt else fail e
     | Ok existing =>
         match om_DeletionTimestamp (sts_Meta existing) with
         | Some _ => fail (terminating name)
         | None =>
             if volumeClaimTemplatesChanged (sts_VolumeClaimTemplates existing) desired
             then recreate existing desired name ns else ok tt
         end
     end;
  applyOwned m KStatefulSet sts' mutate.
End Apply.

(** ** Properties *)

(** What the operator manages of a claim template. *)
Definition claimKey (c : PersistentVolumeClaim) : string * string * Z :=
  (pvc_Name c, deref "" (pvc_StorageClassName c), qty_value (storageOf c)).

Lemma qty_Cmp_Eq a b : qty_Cmp a b = Eq ↔ qty_value a = qty_value b.
Proof. apply Z.compare_eq_iff. Qed.
Lemma qty_Cmp_Gt a b : qty_Cmp a b = Gt ↔ qty_value b < qty_value a.
Proof. unfold qty_Cmp. rewrite Z.compare_gt_iff. done. Qed.

Lemma claimsDiffer_spec c d :
  length c = length d → claimsDiffer c d = false ↔ map claimKey c = map claimKey d.
Proof.
  revert d. induction c as [|x c IH]; intros [|y d]; simpl; [done..|]. intros [= Hl].
  specialize (IH d Hl). unfold claimKey at 1 3.
  destruct (String.eqb_spec (pvc_Name x) (pvc_Name y)) as [->|Hn]; cbn; [|split; congruence].
  destruct (String.eqb_spec (deref "" (pvc_StorageClassName x)) (deref "" (pvc_StorageClassName y)))
    as [->|Hc]; cbn; [|split; congruence].
  destruct (qty_Cmp (storageOf x) (storageOf y)) eqn:E.
  - apply qty_Cmp_Eq in E as ->. rewrite IH. split; congruence.
  - split; [done|]. intros [= Hv _]. apply qty_Cmp_Eq in Hv. congruence.
  - split; [done|]. intros [= Hv _]. apply qty_Cmp_Eq in Hv. congruence.
Qed.

(** A StatefulSet is recreated exactly when a managed field of its claim templates differs:
    defaults the server adds to other fields never start a recreation. *)
Theorem volumeClaimTemplatesChanged_spec current desired :
  volumeClaimTemplatesChanged current desired = false
  ↔ map claimKey current = map claimKey desired.
Proof.
  unfold volumeClaimTemplatesChanged.
  destruct (Nat.eqb_spec (length current) (length desired)) as [Hl|Hl]; cbn.
  - by apply claimsDiffer_spec.
  - split; [done|]. intros H%(f_equal length). by rewrite !length_map in H.
Qed.

(** The mutation of a caller only reads. *)
Definition reads (r : req) : Prop := match r with Get _ _ _ | RandRead _ | Now => True | _ => False end.

(** The requests of [applyStatefulSet]; claims are only updated, a StatefulSet is only
    deleted without its dependents, and what is written satisfies [N]. *)
Definition stsFootprint (N : StatefulSet → Prop) (r : req) : Prop :=
  match r with
  | Get k _ _ => match k with KStatefulSet | KPVC | KSecret => True | _ => False end
  | RandRead _ | Now | Poll | Event _ _ _ _ => True
  | Update KPVC _ => True
  | DeleteObj KStatefulSet _ _ (Some Orphan) => True
  | UpsertBegin KStatefulSet o => N o
  | UpsertCommit KStatefulSet _ => True
  | _ => False
  end.
Lemma emits_waitGone (P : req → Prop) n name ns :
  P (Get KStatefulSet name ns) → P Poll → emits P (waitGone n name ns).
Proof.
  intros Hg Hp. induction n as [|n IH]; cbn [waitGone]; (split; [done|]); intros [x|e].
  - done.
  - cbn. by destruct (isNotFound e).
  - cbn. split; [done|]. intros b. by destruct b.
  - cbn. destruct (isNotFound e); [done|]. split; [done|]. intros b. by destruct b.
Qed.
Lemma emits_expandPVC (P : req → Prop) ns name want :
  P (Get KPVC name ns) → (∀ o, P (Update KPVC o)) → (∀ a b c d, P (Event a b c d)) →
  emits P (expandPVC ns name want).
Proof.
  intros Hg Hu He. unfold expandPVC. apply emits_bind; [by split|]. intros [pvc|e]; [|done].
  destruct (qty_Cmp _ _); [done..|]. apply emits_bind; [by split|]. intros [u|e]; [done|]. by split.
Qed.
Lemma emits_expand (P : req → Prop) sts desired :
  (∀ name ns, P (Get KPVC name ns)) → (∀ o, P (Update KPVC o)) → (∀ a b c d, P (Event a b c d)) →
  emits P (expandStatefulSetPVCs sts desired).
Proof.
  intros Hg Hu He. unfold expandStatefulSetPVCs. apply emits_bind; [|done].
  apply emits_mapP. intros tpl _. destruct (pvc_Requests tpl !! "storage"); [|done].
  apply emits_mapP. intros i _. by apply emits_expandPVC.
Qed.

Lemma applyStatefulSet_footprint `{KubeLib} N P m sts mutate :
  (∀ h s, runs (mutate sts) h (Ok s) → N s) →
  (∀ r, stsFootprint N r → P r) → (∀ s, emits P (mutate s)) →
  emits P (applyStatefulSet m sts mutate).
Proof.
  intros HN HP Hm. unfold applyStatefulSet. apply emits_tryBind_runs; [done|]. intros h sts' Hr.
  apply emits_bind; [by split; [apply HP|]|]. intros r. apply emits_tryBind.
  - destruct r as [ex|e]; [|by destruct (isNotFound e)].
    destruct (om_DeletionTimestamp _); [done|]. case_match; [|done]. unfold recreate.
    apply emits_bind; [apply emits_expand; intros; by apply HP|]. intros _.
    apply emits_bind; [by split; [apply HP|]|]. intros d.
    apply emits_tryBind; [done|]. intros _.
    apply emits_bind; [by split; [apply HP|]|]. intros _.
    apply emits_bind; [apply emits_waitGone; by apply HP|]. by intros [w|w].
  - intros _. apply emits_apply; [apply HP; by eapply HN|done|intros; by apply HP].
Qed.

(** A claim that is written is one the server showed, with a larger size and nothing else
    changed. *)
Definition grown (h : history) (o : PersistentVolumeClaim) : Prop :=
  ∃ name ns pvc want, ev (Get KPVC name ns) (Ok pvc) ∈ h ∧ o = withStorage want pvc
    ∧ qty_value (storageOf pvc) < qty_value want.
Definition updatesPVC (r : req) : Prop := match r with Update KPVC _ => True | _ => False end.
Definition claimsGrow (h : history) : Prop :=
  Forall (fun r => match r with Update KPVC o => grown h o | _ => True end) (reqs h).

Lemma grown_app h h' o : grown h o → grown (h ++ h') o.
Proof. intros (n & ns & pvc & w & Hg & Ho & Hw). exists n, ns, pvc, w. split_and!; [set_solver|done..]. Qed.
Lemma claimsGrow_app h h' : claimsGrow h → Forall (fun r => ¬ updatesPVC r) (reqs h') → claimsGrow (h ++ h').
Proof.
  intros Hh Hn. unfold claimsGrow. rewrite reqs_app. apply Forall_app. split.
  - eapply Forall_impl; [exact Hh|]. intros [] Hr; try done. destruct k; try done. by apply grown_app.
  - eapply Forall_impl; [exact Hn|]. intros [] Hr; try done. by destruct k.
Qed.
Lemma claimsGrow_emits {A} (p : prog A) :
  emits (fun r => ¬ updatesPVC r) p → keeps claimsGrow p.
Proof.
  apply keeps_emits. intros h e Hh He. apply claimsGrow_app; [done|]. by constructor.
Qed.

Lemma expandPVC_grows ns name want : keeps claimsGrow (expandPVC ns name want).
Proof.
  intros h Hh. unfold expandPVC. apply wp_bind, wp_send. intros [pvc|e].
  2:{ apply claimsGrow_app; [done|]. repeat constructor. intros []. }
  assert (claimsGrow (h ++ [ev (Get KPVC name ns) (Ok pvc)])) as H1.
  { apply claimsGrow_app; [done|]. repeat constructor. intros []. }
  destruct (qty_Cmp want (storageOf pvc)) eqn:E; [done..|]. apply qty_Cmp_Gt in E.
  apply wp_bind, wp_send. intros u. set (h2 := _ ++ [ev (Update _ _) _]).
  assert (claimsGrow h2) as H2.
  { unfold claimsGrow, h2. rewrite reqs_app. apply Forall_app. split.
    - eapply Forall_impl; [exact H1|]. intros [] Hr; try done. destruct k; try done. by apply grown_app.
    - repeat constructor. exists name, ns, pvc, want. split; [set_solver|done]. }
  destruct u as [u|e]; [done|]. apply (claimsGrow_emits (event_ _ _ _ _)); [|done].
  split; [intros []|done].
Qed.
Lemma expand_grows sts desired : keeps claimsGrow (expandStatefulSetPVCs sts desired).
Proof.
  apply keeps_bind; [|by intros _ h Hh]. apply keeps_mapP. intros tpl _.
  destruct (pvc_Requests tpl !! "storage"); [|by intros h Hh]. apply keeps_mapP. intros i _.
  apply expandPVC_grows.
Qed.

(** C24. Volumes only grow: every claim that [applyStatefulSet] writes was read in the same run
    and differs from what was read in a strictly larger size only. *)
Theorem volumes_only_grow `{KubeLib} m sts mutate h r :
  (∀ s, emits reads (mutate s)) → runs (applyStatefulSet m sts mutate) h r → claimsGrow h.
Proof.
  intros Hm. apply (proj1 (wp_runs _ (fun h _ => claimsGrow h) [])).
  assert (∀ s, keeps claimsGrow (mutate s)) as Hk.
  { intros s. apply claimsGrow_emits. eapply emits_mono, Hm. by intros [] Hr Hu. }
  assert (keeps claimsGrow (applyStatefulSet m sts mutate)) as K; [|apply K; constructor].
  apply keeps_tryBind; [apply Hk|]. intros sts'. apply keeps_bind.
  { apply claimsGrow_emits. split; [intros []|done]. }
  intros x. apply keeps_tryBind.
  - destruct x as [ex|e]; [|by destruct (isNotFound e); intros h' Hh'].
    destruct (om_DeletionTimestamp _); [by intros h' Hh'|].
    destruct (volumeClaimTemplatesChanged _ _); [|by intros h' Hh'].
    apply keeps_bind; [apply expand_grows|]. intros _. apply claimsGrow_emits.
    apply emits_bind; [split; [intros []|done]|]. intros d. apply emits_tryBind; [done|]. intros _.
    apply emits_bind; [split; [intros []|done]|]. intros _.
    apply emits_bind; [apply emits_waitGone; intros []|]. by intros [].
  - intros _. apply keeps_tryBind; [apply claimsGrow_emits; split; [intros []|done]|].
    intros live. apply keeps_tryBind; [apply Hk|]. intros o. apply claimsGrow_emits.
    apply emits_tryBind; [done|]. intros om. apply emits_tryBind; [split; [intros []|done]|done].
Qed.

(** ** Recreation waits for the old object to go *)

(** The last answer of the history is that the StatefulSet does not exist. *)
Definition gone (name ns : string) (h : history) : Prop :=
  ∃ h' e, h = h' ++ [ev (Get KStatefulSet name ns) (Err e)] ∧ isNotFound e = true.

Lemma waitGone_gone n name ns h0 :
  wp (waitGone n name ns) (fun h r => r = Ok tt → gone name ns h) h0.
Proof.
  revert h0. induction n as [|n IH]; intros h0; cbn [waitGone]; apply wp_bind, wp_send;
    intros [x|e]; try done.
  - destruct (isNotFound e) eqn:E; [|done]. intros _. by exists h0, e.
  - apply wp_bind, wp_send. intros []; [apply IH|done].
  - destruct (isNotFound e) eqn:E; [intros _; by exists h0, e|].
    apply wp_bind, wp_send. intros []; [apply IH|done].
Qed.

(** A recreation lets the creation go ahead only once the server has answered that the old
    StatefulSet is gone. *)
Theorem recreate_gone existing desired name ns h :
  runs (recreate existing desired name ns) h (Ok tt) → gone name ns h.
Proof.
  apply (wp_result _ (gone name ns)). unfold recreate.
  apply wp_bind, wp_any. intros h1 _. apply wp_bind, wp_any. intros h2 d.
  apply wp_tryBind, wp_any. intros h3 [[]|e]; [|done]. apply wp_bind, wp_any. intros h4 _.
  apply wp_bind. eapply wp_mono, waitGone_gone. intros h5 [[]|e] Hg; [|done]. by intros _; apply Hg.
Qed.

(** The wait ends: at most one look per tick. *)
Theorem waitGone_bounded n name ns h r :
  runs (waitGone n name ns) h r → (length h ≤ 2 * n + 1)%nat.
Proof.
  revert h. induction n as [|n IH]; intros h; cbn [waitGone bind send runs].
  - intros (x & h' & -> & Hr). destruct x as [x|e]; [|destruct (isNotFound e)];
      destruct Hr as [-> _]; simpl; lia.
  - assert (∀ h', runs (let! more := send Poll in
        if more then waitGone n name ns else fail (errorf "context deadline exceeded")) h' r →
        (length h' ≤ 2 * n + 2)%nat) as Ha.
    { cbn [bind send runs]. intros h' (b & h2 & -> & Hr). destruct b.
      - apply IH in Hr. simpl. lia.
      - destruct Hr as [-> _]. simpl. lia. }
    intros (x & h' & -> & Hr). destruct x as [x|e].
    + apply Ha in Hr. simpl. lia.
    + destruct (isNotFound e).
      * destruct Hr as [-> _]. simpl. lia.
      * apply Ha in Hr. simpl. lia.
Qed.
