(* ===== verification/ObjectStorage.v ===== *)
(** * Object storage settings: objectstorage.go

    The assignments to Misskey's [meta] row, the SQL script that writes them, its Job and
    the reconciler that creates the Job and waits for it. *)
From S2P Require Export Pod Kube Config.
Local Open Scope string_scope.
Local Open Scope Z_scope.
Local Open Scope list_scope.

Definition metaRowID : string := "x".

(** ** Identifiers *)

Definition is_alpha_ (c : ascii) : bool :=
  let n := Ascii.N_of_ascii c in
  ((65 <=? n) && (n <=? 90) || (97 <=? n) && (n <=? 122) || (n =? 95))%N.
Definition is_ident_char (c : ascii) : bool := is_alpha_ c || is_digit c.
(** [identRe]: [^[A-Za-z_][A-Za-z0-9_]*$]. *)
Definition identRe (s : string) : bool :=
  match s with
  | EmptyString => false
  | String c s => is_alpha_ c && str_forall is_ident_char s
  end.
Definition safeIdent (name : string) : result error unit :=
  if identRe name then Ok tt else Err (errorf ("invalid SQL identifier " +:+ goQuote name)).

(** ** Assignments *)

Record objAssign := mkAssign {
  a_column : string;
  a_literal : string;
  a_envName : string;
  a_psqlVar : string;
  a_value : string;
  a_secret : option SecretKeySelector }.

(** The state of [objectStorageAssignments]: the used columns and the list so far. *)
Record assignState := mkAState { as_used : gset string; as_out : list objAssign }.

Section Assignments.
Context (p : plan).

Definition col (logical : string) : string :=
  match p_objColumns p !! logical with Some c => c | None => "" end.
Definition push (c : string) (a : objAssign) (st : assignState) : assignState :=
  mkAState ({[c]} ∪ as_used st) (as_out st ++ [a]).

Definition addLiteral (logical lit : string) (st : assignState) : result error assignState :=
  let c := col logical in
  let? _ := safeIdent c in
  Ok (push c (mkAssign c lit "" "" "" None) st).
Definition addString (logical val : string) (st : assignState) : result error assignState :=
  let c := col logical in
  let? _ := safeIdent c in
  if String.eqb val "" then Ok (push c (mkAssign c "NULL" "" "" "" None) st)
  else Ok (push c (mkAssign c "" ("OBJVAL_" +:+ logical) ("v_" +:+ logical) val None) st).
Definition addSecret (logical : string) (sel : SecretKeySelector) (st : assignState)
    : result error assignState :=
  let c := col logical in
  let? _ := safeIdent c in
  Ok (push c (mkAssign c "" ("OBJVAL_" +:+ logical) ("v_" +:+ logical) "" (Some sel)) st).

Definition portLit : string :=
  match p_objPort p with Some v => itoa v | None => "NULL" end.

(** The standard columns, in the source's order. *)
Definition standardSteps : list (assignState → result error assignState) := [
  addLiteral "useObjectStorage" "true";
  addString "bucket" (p_objBucket p);
  addString "endpoint" (p_objEndpoint p);
  addString "region" (p_objRegion p);
  addString "prefix" (p_objPrefix p);
  addString "baseUrl" (p_objBaseURL p);
  addLiteral "port" portLit;
  addSecret "accessKey" (p_objAccessKeySel p);
  addSecret "secretKey" (p_objSecretKeySel p);
  addLiteral "useSSL" (formatBool (p_objUseSSL p));
  addLiteral "useProxy" (formatBool (p_objUseProxy p));
  addLiteral "setPublicRead" (formatBool (p_objSetPublicRead p));
  addLiteral "s3ForcePathStyle" (formatBool (p_objForcePathStyle p))].

Fixpoint runSteps (l : list (assignState → result error assignState)) (st : assignState)
    : result error assignState :=
  match l with
  | [] => Ok st
  | f :: l => let? st := f st in runSteps l st
  end.

(** One extra column, the [i]-th of the sorted keys. *)
Definition addExtra (i : nat) (k : string) (st : assignState) : result error assignState :=
  let? _ := safeIdent k in
  if bool_decide (k ∈ as_used st) then
    Err (errorf ("extraColumns key " +:+ goQuote k
                 +:+ " collides with a standard object storage column"))
  else
    Ok (push k (mkAssign k "" ("OBJEXTRA_" +:+ itoa (Z.of_nat i)) ("x_" +:+ itoa (Z.of_nat i))
                  (match p_objExtra p !! k with Some v => v | None => "" end) None) st).

Definition extraKeys : list string := sortStrings (map fst (map_to_list (p_objExtra p))).

Fixpoint addExtras (i : nat) (keys : list string) (st : assignState)
    : result error assignState :=
  match keys with
  | [] => Ok st
  | k :: keys => let? st := addExtra i k st in addExtras (S i) keys st
  end.

Definition objectStorageAssignments : result error (list objAssign) :=
  let? st := runSteps standardSteps (mkAState ∅ []) in
  let? st := addExtras 0 extraKeys st in
  Ok (as_out st).
End Assignments.

(** ** The SQL script *)

Definition sqlGetenv (a : objAssign) : string :=
  if String.eqb (a_envName a) "" then ""
  else "\getenv " +:+ a_psqlVar a +:+ " " +:+ a_envName a +:+ nl.
Definition sqlSet (last : bool) (a : objAssign) : string :=
  let sep := if last then "" else "," in
  if String.eqb (a_envName a) ""
  then "  " +:+ goQuote (a_column a) +:+ " = " +:+ a_literal a +:+ sep +:+ nl
  else "  " +:+ goQuote (a_column a) +:+ " = :'" +:+ a_psqlVar a +:+ "'" +:+ sep +:+ nl.
Fixpoint sqlSets (l : list objAssign) : string :=
  match l with
  | [] => ""
  | [a] => sqlSet true a
  | a :: l => sqlSet false a +:+ sqlSets l
  end.

Definition renderObjectStorageSQL (assigns : list objAssign) : string :=
  concat_str [
    "-- Managed by cloudnative-misskey. Do not edit by hand."; nl;
    "\set ON_ERROR_STOP on"; nl;
    concat_str (map sqlGetenv assigns);
    "INSERT INTO meta (id) VALUES ('"; metaRowID; "') ON CONFLICT (id) DO NOTHING;"; nl;
    "UPDATE meta SET"; nl;
    sqlSets assigns;
    "WHERE id = '"; metaRowID; "';"; nl].

Definition objectStorageJobEnv (assigns : list objAssign) : list EnvVar :=
  omap (fun a =>
    if String.eqb (a_envName a) "" then None
    else Some (match a_secret a with
               | Some sel => secretEnv (a_envName a) sel
               | None => envValue (a_envName a) (a_value a)
               end)) assigns.

(** ** The Job *)

(** The name, labels and pod of a one-shot Job ([batchv1.Job] literals of the source). *)
Definition oneShotJob (m : Misskey) (name component : string) (annotations : gmap string string)
    (pod : PodSpec) : Job :=
  mkJob (set_Annotations annotations (set_Labels (labelsFor m component) (newMeta name (m_Namespace m))))
    (Some 20) (Some 1) (Some 1) (mkTemplate (labelsFor m component) ∅ pod) 0 0 0.

(** The database environment of a psql Job: the primary, as the migration plan has it. *)
Definition psqlEnv (mp : plan) : list EnvVar := [
  envValue "PGHOST" (p_dbHost mp);
  envValue "PGPORT" (itoa (p_dbPort mp));
  envValue "PGDATABASE" (p_dbName mp);
  envValue "PGUSER" (p_dbUser mp);
  secretEnv "PGPASSWORD" (p_dbPassSel mp);
  envValue "HOME" "/tmp"].

Definition psqlJobPod `{QuantityLib} (m : Misskey) (container image file configMap : string)
    (env : list EnvVar) : PodSpec :=
  mkPodSpec (Some false) "OnFailure" (spec_ImagePullSecrets (m_Spec m))
    (Some (nonRootPodSecurityContext genericNonRootUID)) [] ∅ [] []
    [mkContainer container image ["psql"; "-1"; "-f"; file] env []
       (resourcesOr noResources "50m" "64Mi" "128Mi")
       [mkMount "sql" "/sql" "" true; tmpMount] None None None
       (Some restrictedContainerSecurityContext)]
    [mkVolume "sql" (VSConfigMap configMap); tmpVolume].

Definition buildObjectStorageJob `{QuantityLib} (m : Misskey) (p : plan) (name : string)
    (objEnv : list EnvVar) : Job :=
  let mp := migratePlan m p in
  oneShotJob m name "objstorage" ∅
    (psqlJobPod m "objectstorage" (p_objImage p) "/sql/objectstorage.sql" (nameObjectStorageSQL m)
       (psqlEnv mp ++ objEnv)).

(** ** Reconciliation *)

Section Reconcile.
Context `{KubeLib} `{QuantityLib}.

(** [credentialSecretVersions]: the two credential Secrets, without duplicates, sorted; an
    unreadable one counts as missing. *)
Definition credentialSecretVersions (m : Misskey) (p : plan) : prog (list string) :=
  let names := elements (A := string)
    ({[sel_Name (p_objAccessKeySel p); sel_Name (p_objSecretKeySel p)]} : gset string) in
  let! out := mapP names (fun name =>
    let! r := send (Get KSecret name (m_Namespace m)) in
    Ret (name +:+ ":" +:+
         match r with Ok s => om_ResourceVersion (sec_Meta s) | Err _ => "missing" end)) in
  Ret (sortStrings out).

Definition objectStorageHash (m : Misskey) (p : plan) (sql : string) (assigns : list objAssign)
    : prog string :=
  let! versions := credentialSecretVersions m p in
  Ret (sha256hex (checksumInput (
    [sql] ++
    omap (fun a => if negb (String.eqb (a_envName a) "") && bool_decide (a_secret a = None)
                   then Some (a_column a +:+ "=" +:+ a_value a) else None) assigns ++
    versions))).

(** Deletes the Jobs of a component except [keep]; the cleanup loop of the Job
    reconcilers. *)
Definition cleanupJobs (m : Misskey) (component keep : string) : rprog unit :=
  try jobs := send (ListIn KJob (Some (m_Namespace m)) (selectorFor m component)) in
  forEach jobs (fun j =>
    if String.eqb (om_Name (job_Meta j)) keep then ok tt
    else
      let! r := send (DeleteObj KJob (om_Name (job_Meta j)) (om_Namespace (job_Meta j))
                        (Some Background)) in
      match r with
      | Err e => if isNotFound e then ok tt else fail e
      | Ok _ => ok tt
      end).

Definition cleanupObjectStorageJobs (m : Misskey) (keep : string) : rprog unit :=
  cleanupJobs m "objstorage" keep.

Definition cleanupObjectStorage (m : Misskey) : rprog unit :=
  do cleanupObjectStorageJobs m "";
  deleteIfExists KConfigMap (nameObjectStorageSQL m) (m_Namespace m).

(** Creating a controlled Job: [SetControllerReference], then [Create]. *)
Definition createControlled (m : Misskey) (k : kind) (o : objT k) : rprog (objT k) :=
  try om := lift (setControllerReference m (metaOf k o)) in
  send (Create k (setMeta k om o)).

Definition reconcileObjectStorage (m : Misskey) (p : plan) : rprog bool :=
  try assigns := lift (objectStorageAssignments p) in
  let sql := renderObjectStorageSQL assigns in
  let! hash := objectStorageHash m p sql assigns in
  let jobName := nameObjectStorage m hash in
  do cleanupObjectStorageJobs m jobName;
  do applyOwned m KConfigMap (newConfigMap (nameObjectStorageSQL m) (m_Namespace m)) (fun cm =>
    ok (mkConfigMap (set_Labels (labelsFor m "objstorage") (cm_Meta cm))
          {["objectstorage.sql" := sql]}));
  let! r := send (Get KJob jobName (m_Namespace m)) in
  match r with
  | Err e =>
      if isNotFound e then
        try job := createControlled m KJob
          (buildObjectStorageJob m p jobName (objectStorageJobEnv assigns)) in
        let! _ := event_ "Normal" "ObjectStorageConfiguring" "Configure"
          ("created object storage meta Job " +:+ om_Name (job_Meta job)) in
        ok false
      else fail e
  | Ok job =>
      let! _ :=
        if (job_Succeeded job =? 0) && (1 <=? job_Failed job) then
          event_ "Warning" "ObjectStorageFailed" "Configure"
            ("object storage meta Job " +:+ om_Name (job_Meta job) +:+ " failed ("
             +:+ itoa (job_Failed job) +:+ "); delete the Job to retry")
        else Ret tt in
      ok (1 <=? job_Succeeded job)
  end.
End Reconcile.

(** ** Steps of the assignment list *)

Lemma safeIdent_ok c u : safeIdent c = Ok u → identRe c = true.
Proof. unfold safeIdent. by destruct (identRe c). Qed.

Lemma runSteps_inv (I : assignState → Prop) l st st' :
  Forall (fun f => ∀ st st', f st = Ok st' → I st → I st') l →
  runSteps l st = Ok st' → I st → I st'.
Proof.
  intros Hl. revert st. induction Hl as [|f l Hf _ IH]; intros st; simpl; [by intros [= ->]|].
  destruct (f st) as [s|e] eqn:E; simpl; [|done]. intros H HI. eauto.
Qed.

(** What a successful step does: it pushes one assignment with a valid column. *)
Definition pushes (f : assignState → result error assignState) (env : list string) : Prop :=
  ∀ st st', f st = Ok st' → ∃ a,
    st' = push (a_column a) a st ∧ identRe (a_column a) = true
    ∧ (a_envName a = "" ∨ a_envName a ∈ env).

Lemma addLiteral_pushes p logical lit : pushes (addLiteral p logical lit) [].
Proof.
  intros st st'. unfold addLiteral. destruct (safeIdent _) as [u|] eqn:E; simpl; [|done].
  intros [= <-]. eexists (mkAssign _ _ _ _ _ _). cbn. split_and!; eauto using safeIdent_ok.
Qed.
Lemma addString_pushes p logical val :
  pushes (addString p logical val) ["OBJVAL_" +:+ logical].
Proof.
  intros st st'. unfold addString. destruct (safeIdent _) as [u|] eqn:E; simpl; [|done].
  destruct (String.eqb val ""); intros [= <-]; eexists (mkAssign _ _ _ _ _ _); cbn;
    (split; [done|]; split; [by eapply safeIdent_ok|]); [by left|right; left].
Qed.
Lemma addSecret_pushes p logical sel :
  pushes (addSecret p logical sel) ["OBJVAL_" +:+ logical].
Proof.
  intros st st'. unfold addSecret. destruct (safeIdent _) as [u|] eqn:E; simpl; [|done].
  intros [= <-]; eexists (mkAssign _ _ _ _ _ _); cbn.
  split; [done|]; split; [by eapply safeIdent_ok|]. right; left.
Qed.
Lemma addExtra_pushes p i k :
  pushes (addExtra p i k) ["OBJEXTRA_" +:+ itoa (Z.of_nat i)].
Proof.
  intros st st'. unfold addExtra. destruct (safeIdent _) as [u|] eqn:E; cbn -[itoa]; [|done].
  destruct (bool_decide _); [done|].
  intros [= <-]; eexists (mkAssign _ _ _ _ _ _); cbn -[itoa].
  split; [done|]; split; [by eapply safeIdent_ok|]. right; left.
Qed.

(** The columns pushed so far are exactly the used ones, all valid. *)
Definition state_ok (st : assignState) : Prop :=
  Forall (fun a => identRe (a_column a) = true) (as_out st)
  ∧ as_used st = list_to_set (map a_column (as_out st)).
Lemma pushes_ok f env st st' : pushes f env → f st = Ok st' → state_ok st → state_ok st'.
Proof.
  intros Hf Hst [H1 H2]. destruct (Hf _ _ Hst) as (a & -> & Ha & _). split; cbn.
  - apply Forall_app. auto.
  - rewrite H2, map_app, list_to_set_app_L. cbn. rewrite union_empty_r_L. apply comm_L, _.
Qed.

Lemma standardSteps_pushes p :
  Forall (fun f => ∃ env, pushes f env) (standardSteps p).
Proof.
  unfold standardSteps. repeat constructor; eexists;
    eauto using addLiteral_pushes, addString_pushes, addSecret_pushes.
Qed.

Lemma standard_ok p st : runSteps (standardSteps p) (mkAState ∅ []) = Ok st → state_ok st.
Proof.
  intros H. eapply runSteps_inv; [|exact H|by split].
  eapply Forall_impl; [apply standardSteps_pushes|]. intros f [env Hf] s s'.
  by eapply pushes_ok.
Qed.

(** The extra columns are appended: one assignment per key, none of them used before. *)
Lemma addExtras_spec p i keys st st' :
  addExtras p i keys st = Ok st' → state_ok st →
  ∃ ext, as_out st' = as_out st ++ ext ∧ map a_column ext = keys ∧ state_ok st'
         ∧ NoDup keys ∧ Forall (fun k => k ∉ as_used st) keys
         ∧ map a_envName ext = imap (fun j _ => "OBJEXTRA_" +:+ itoa (Z.of_nat (i + j))) keys
         ∧ Forall (fun a => a_secret a = None ∧ a_literal a = "") ext.
Proof.
  revert i st. induction keys as [|k keys IH]; intros i st; cbn [addExtras].
  - intros [= <-] Hst. exists []. rewrite app_nil_r. split_and!; try done; constructor.
  - destruct (addExtra p i k st) as [s|] eqn:E; cbn [result_bind]; [|done]. intros H Hst.
    assert (state_ok s) as Hs by (eapply pushes_ok; [apply addExtra_pushes|done..]).
    destruct (IH _ _ H Hs) as (ext & Ho & Hk & Hst' & Hnd & Hfr & Hen & Hse).
    revert E. unfold addExtra. destruct (safeIdent k) as [u|]; cbn [result_bind]; [|done].
    case_bool_decide as Hin; [done|]. intros [= <-]. cbn [push as_out as_used] in *.
    eexists (_ :: ext). rewrite Ho, <- app_assoc. split; [done|].
    rewrite Forall_forall in Hfr.
    split_and!; try done.
    + cbn. by rewrite Hk.
    + constructor; [|done]. intros Hk'. apply (Hfr k Hk').
      apply elem_of_union_l, elem_of_singleton. done.
    + constructor; [done|]. apply Forall_forall. intros k' Hk' Hu.
      apply (Hfr k' Hk'). by apply elem_of_union_r.
    + cbn [map imap]. rewrite Nat.add_0_r, Hen. f_equal. apply imap_ext. intros j x _. cbn.
      by rewrite Nat.add_succ_r.
    + by constructor.
Qed.

(** The environment variables of the standard columns. *)
Definition standardEnv : list string := map (fun l => "OBJVAL_" +:+ l)
  ["bucket"; "endpoint"; "region"; "prefix"; "baseUrl"; "accessKey"; "secretKey"].
Definition envNames (l : list objAssign) : list string :=
  List.filter (fun n => negb (String.eqb n "")) (map a_envName l).

Lemma envNames_app a b : envNames (a ++ b) = envNames a ++ envNames b.
Proof. unfold envNames. by rewrite map_app, List.filter_app. Qed.

Lemma runSteps_env l envs st st' :
  Forall2 pushes l envs → runSteps l st = Ok st' →
  ∃ ext, as_out st' = as_out st ++ ext ∧ envNames ext `sublist_of` concat envs.
Proof.
  intros Hl. revert st. induction Hl as [|f env l envs Hf _ IH]; intros st; cbn [runSteps].
  - intros [= <-]. exists []. by rewrite app_nil_r.
  - destruct (f st) as [s|] eqn:E; cbn [result_bind]; [|done]. intros (ext & Ho & Hs)%IH.
    destruct (Hf _ _ E) as (a & -> & _ & Ha). exists (a :: ext).
    cbn [push as_out] in Ho. rewrite Ho, <- app_assoc. split; [done|].
    change (a :: ext) with ([a] ++ ext). rewrite envNames_app. cbn [concat].
    apply sublist_app; [|done]. unfold envNames. cbn.
    destruct (String.eqb_spec (a_envName a) ""); cbn; [apply sublist_nil_l|].
    destruct Ha as [?|?]; [done|]. by apply singleton_sublist_l.
Qed.

Lemma standard_env p st :
  runSteps (standardSteps p) (mkAState ∅ []) = Ok st →
  envNames (as_out st) `sublist_of` standardEnv.
Proof.
  assert (Forall2 pushes (standardSteps p) [[]; ["OBJVAL_bucket"]; ["OBJVAL_endpoint"];
    ["OBJVAL_region"]; ["OBJVAL_prefix"]; ["OBJVAL_baseUrl"]; []; ["OBJVAL_accessKey"];
    ["OBJVAL_secretKey"]; []; []; []; []]) as Hp.
  { unfold standardSteps. repeat constructor; first [apply addLiteral_pushes
      | apply addString_pushes | apply addSecret_pushes]. }
  intros H. destruct (runSteps_env _ _ _ _ Hp H) as (ext & -> & Hs). done.
Qed.

Lemma extraEnv_in k i (keys : list string) :
  k ∈ imap (fun j _ => "OBJEXTRA_" +:+ itoa (Z.of_nat (i + j))) keys →
  ∃ j, (i <= j < i + length keys)%nat ∧ k = "OBJEXTRA_" +:+ itoa (Z.of_nat j).
Proof.
  rewrite elem_of_lookup_imap. intros (j & x & -> & Hj). exists (i + j)%nat.
  apply lookup_lt_Some in Hj. split; [lia|done].
Qed.

Lemma extraEnv_NoDup i (keys : list string) :
  (Z.of_nat (i + length keys) < 2 ^ 63)%Z →
  NoDup (imap (fun j _ => "OBJEXTRA_" +:+ itoa (Z.of_nat (i + j))) keys).
Proof.
  revert i. induction keys as [|k keys IH]; intros i Hl; [constructor|].
  cbn [length] in Hl. rewrite imap_cons. constructor.
  - intros Hin. assert (imap ((λ j (_ : string), "OBJEXTRA_" +:+ itoa (Z.of_nat (i + j))) ∘ S) keys
      = imap (fun j _ => "OBJEXTRA_" +:+ itoa (Z.of_nat (S i + j))) keys) as E.
    { apply imap_ext. intros j x _. cbn. by rewrite Nat.add_succ_r. }
    rewrite E in Hin. apply extraEnv_in in Hin as (j & Hj & Hk).
    apply sapp_inj_l, itoa_inj in Hk; unfold int64_range; lia.
  - eapply eq_ind_r with (P := NoDup); [apply (IH (S i)); lia|].
    apply imap_ext. intros j x _. cbn. by rewrite Nat.add_succ_r.
Qed.

(** ** Properties *)

Lemma assignments_split p l :
  objectStorageAssignments p = Ok l →
  ∃ std ext, l = std ++ ext ∧ map a_column ext = extraKeys p
    ∧ Forall (fun a => identRe (a_column a) = true) l
    ∧ NoDup (extraKeys p) ∧ Forall (fun k => k ∉ map a_column std) (extraKeys p)
    ∧ envNames std `sublist_of` standardEnv
    ∧ map a_envName ext
      = imap (fun j _ => "OBJEXTRA_" +:+ itoa (Z.of_nat j)) (extraKeys p)
    ∧ Forall (fun a => a_secret a = None ∧ a_literal a = "") ext.
Proof.
  unfold objectStorageAssignments.
  destruct (runSteps (standardSteps p) _) as [st|] eqn:E1; cbn [result_bind]; [|done].
  destruct (addExtras p 0 (extraKeys p) st) as [st'|] eqn:E2; cbn [result_bind]; [|done].
  intros [= <-]. pose proof (standard_ok _ _ E1) as Hst.
  destruct (addExtras_spec _ _ _ _ _ E2 Hst) as (ext & Ho & Hk & [Hc _] & Hnd & Hfr & Hen & Hse).
  exists (as_out st), ext. split_and!; try done; [|by apply (standard_env p)].
  eapply Forall_impl; [exact Hfr|]. intros k Hk' Hin. apply Hk'.
  rewrite (proj2 Hst), elem_of_list_to_set. done.
Qed.

(** The columns of every assignment are plain SQL identifiers, and an extra column is never
    a column set by another assignment. *)
Theorem assignments_columns p l :
  objectStorageAssignments p = Ok l →
  Forall (fun a => identRe (a_column a) = true) l
  ∧ ∃ std ext, l = std ++ ext ∧ map a_column ext = extraKeys p ∧ NoDup (map a_column ext)
      ∧ Forall (fun a => a_column a ∉ map a_column std) ext.
Proof.
  intros (std & ext & -> & Hk & Hc & Hnd & Hfr & _)%assignments_split. split; [done|].
  exists std, ext. rewrite Hk. split_and!; try done.
  apply Forall_forall. intros a Ha. rewrite Forall_forall in Hfr. apply Hfr.
  rewrite <- Hk. by apply (list_elem_of_fmap_2 a_column).
Qed.

(** Two environment variables of the Job never have the same name, so no value is read for
    another column. *)
Theorem job_env_distinct p l :
  objectStorageAssignments p = Ok l → (Z.of_nat (size (p_objExtra p)) < 2 ^ 63)%Z →
  NoDup (map env_Name (objectStorageJobEnv l)).
Proof.
  intros (std & ext & -> & Hk & _ & _ & _ & Hstd & Hext & _)%assignments_split Hsz.
  assert (∀ l, map env_Name (objectStorageJobEnv l) = envNames l) as E.
  { clear. induction l as [|a l IH]; [done|]. unfold objectStorageJobEnv, envNames in *. cbn.
    destruct (String.eqb (a_envName a) ""); cbn; [done|]. rewrite IH.
    by destruct (a_secret a). }
  rewrite E, envNames_app. apply NoDup_app. split_and!.
  - eapply sublist_NoDup; [|exact Hstd].
    by apply (bool_decide_eq_true_1 (NoDup standardEnv)).
  - intros x Hx Hy. assert (x ∈ standardEnv) as Hs by (eapply elem_of_sublist; [exact Hx|exact Hstd]).
    unfold envNames in Hy. apply list_elem_of_In, filter_In in Hy as [Hy _].
    apply list_elem_of_In in Hy. rewrite Hext in Hy.
    apply (extraEnv_in x 0) in Hy as (j & _ & ->).
    unfold standardEnv in Hs. apply list_elem_of_In, in_map_iff in Hs as (y & Hy & _). done.
  - unfold envNames. apply NoDup_ListNoDup, List.NoDup_filter, NoDup_ListNoDup. rewrite Hext.
    apply (extraEnv_NoDup 0). unfold extraKeys. rewrite sortStrings_perm, length_map.
    rewrite length_map_to_list. done.
Qed.

(** ** The SQL text does not depend on user values *)

(** An assignment without its value. *)
Definition erase (a : objAssign) : objAssign :=
  mkAssign (a_column a) (a_literal a) (a_envName a) (a_psqlVar a) "" None.

(** The script of a list is the script of its erasure. *)
Lemma sql_erase l : renderObjectStorageSQL (map erase l) = renderObjectStorageSQL l.
Proof.
  unfold renderObjectStorageSQL. rewrite map_map.
  assert (sqlSets (map erase l) = sqlSets l) as ->; [|done].
  induction l as [|a l IH]; [done|]. cbn [map]. destruct l as [|b l]; [done|].
  cbn [map sqlSets] in *. by rewrite IH.
Qed.

(** Two plans with the same columns, the same settings that are not strings, the same empty
    strings and the same extra column names. *)
Record sql_shape (p p' : plan) : Prop := {
  shape_columns : p_objColumns p = p_objColumns p';
  shape_bucket : p_objBucket p = "" ↔ p_objBucket p' = "";
  shape_endpoint : p_objEndpoint p = "" ↔ p_objEndpoint p' = "";
  shape_region : p_objRegion p = "" ↔ p_objRegion p' = "";
  shape_prefix : p_objPrefix p = "" ↔ p_objPrefix p' = "";
  shape_baseURL : p_objBaseURL p = "" ↔ p_objBaseURL p' = "";
  shape_port : p_objPort p = p_objPort p';
  shape_useSSL : p_objUseSSL p = p_objUseSSL p';
  shape_useProxy : p_objUseProxy p = p_objUseProxy p';
  shape_public : p_objSetPublicRead p = p_objSetPublicRead p';
  shape_pathStyle : p_objForcePathStyle p = p_objForcePathStyle p';
  shape_extra : dom (p_objExtra p) = dom (p_objExtra p') }.

Definition erase_state (st : assignState) : gset string * list objAssign :=
  (as_used st, map erase (as_out st)).
Definition same_erased (r r' : result error assignState) : Prop :=
  match r, r' with
  | Ok s, Ok s' => erase_state s = erase_state s'
  | Err e, Err e' => e = e'
  | _, _ => False
  end.
Definition step_rel (f f' : assignState → result error assignState) : Prop :=
  ∀ st st', erase_state st = erase_state st' → same_erased (f st) (f' st').

Lemma push_erased c a a' st st' :
  erase a = erase a' → erase_state st = erase_state st' →
  erase_state (push c a st) = erase_state (push c a' st').
Proof.
  unfold erase_state. intros Ha [= Hu Ho]. cbn. rewrite !map_app, Hu, Ho. cbn. by rewrite Ha.
Qed.

Lemma addLiteral_rel p p' l v :
  p_objColumns p = p_objColumns p' → step_rel (addLiteral p l v) (addLiteral p' l v).
Proof.
  intros Hc st st' Hst. unfold addLiteral, col. rewrite Hc. destruct (safeIdent _); cbn; [|done].
  by apply push_erased.
Qed.
Lemma addString_rel p p' l v v' :
  p_objColumns p = p_objColumns p' → (v = "" ↔ v' = "") →
  step_rel (addString p l v) (addString p' l v').
Proof.
  intros Hc Hv st st' Hst. unfold addString, col. rewrite Hc.
  destruct (safeIdent _); cbn; [|done].
  destruct (String.eqb_spec v ""), (String.eqb_spec v' ""); try (exfalso; tauto);
    by apply push_erased.
Qed.
Lemma addSecret_rel p p' l s s' :
  p_objColumns p = p_objColumns p' → step_rel (addSecret p l s) (addSecret p' l s').
Proof.
  intros Hc st st' Hst. unfold addSecret, col. rewrite Hc. destruct (safeIdent _); cbn; [|done].
  by apply push_erased.
Qed.
Lemma addExtra_rel p p' i k : step_rel (addExtra p i k) (addExtra p' i k).
Proof.
  intros st st' Hst. unfold addExtra. destruct (safeIdent k); cbn -[itoa]; [|done].
  pose proof Hst as [= -> _]. case_bool_decide; cbn -[itoa]; [done|]. by apply push_erased.
Qed.

Lemma runSteps_rel l l' st st' :
  Forall2 step_rel l l' → erase_state st = erase_state st' →
  same_erased (runSteps l st) (runSteps l' st').
Proof.
  intros Hl. revert st st'. induction Hl as [|f f' l l' Hf _ IH]; intros st st' Hst; cbn; [done|].
  specialize (Hf st st' Hst). destruct (f st), (f' st'); cbn in *; try done. by apply IH.
Qed.
Lemma addExtras_rel p p' keys i st st' :
  erase_state st = erase_state st' →
  same_erased (addExtras p i keys st) (addExtras p' i keys st').
Proof.
  revert i st st'. induction keys as [|k keys IH]; intros i st st' Hst; cbn [addExtras]; [done|].
  pose proof (addExtra_rel p p' i k st st' Hst) as Hf.
  destruct (addExtra p i k st), (addExtra p' i k st'); cbn in *; try done. by apply IH.
Qed.

Lemma extraKeys_dom p p' :
  dom (p_objExtra p) = dom (p_objExtra p') → extraKeys p = extraKeys p'.
Proof.
  intros Hd. apply sortStrings_canonical. apply NoDup_Permutation.
  1,2: apply (NoDup_fst_map_to_list (M := gmap string)).
  assert (∀ (m : gmap string string) k, k ∈ map fst (map_to_list m) ↔ k ∈ dom m) as E.
  { intros m k. rewrite dom_alt. by rewrite elem_of_list_to_set. }
  intros k. by rewrite !E, Hd.
Qed.

Lemma standardSteps_rel p p' :
  sql_shape p p' → Forall2 step_rel (standardSteps p) (standardSteps p').
Proof.
  intros []. unfold standardSteps, portLit.
  rewrite shape_port0, shape_useSSL0, shape_useProxy0, shape_public0, shape_pathStyle0.
  repeat constructor; auto using addLiteral_rel, addString_rel, addSecret_rel.
Qed.

(** C27. No value and no Secret gets into the SQL script: the script, and whether there is one,
    is the same for every bucket, endpoint, region, prefix, base URL, extra value and Secret
    reference; of the values it shows only which ones are empty.  The strings of the user that
    do enter it are the column names, the configured ones and the keys of the extra columns, and
    each of them is a plain SQL identifier; any other name is an error and no script.  Values
    reach the database through the environment. *)
Theorem sql_value_free p p' :
  sql_shape p p' →
  match objectStorageAssignments p, objectStorageAssignments p' with
  | Ok l, Ok l' =>
      renderObjectStorageSQL l = renderObjectStorageSQL l'
      ∧ map a_column l = map a_column l' ∧ Forall (fun a => identRe (a_column a) = true) l
  | Err e, Err e' => e = e'
  | _, _ => False
  end.
Proof.
  intros Hs. pose proof (assignments_split p) as Hc. revert Hc. unfold objectStorageAssignments.
  rewrite <- (extraKeys_dom p p') by apply Hs.
  pose proof (runSteps_rel _ _ (mkAState ∅ []) (mkAState ∅ []) (standardSteps_rel p p' Hs) eq_refl)
    as H1.
  destruct (runSteps (standardSteps p) _) as [s|], (runSteps (standardSteps p') _) as [s'|];
    cbn [result_bind same_erased] in *; try done.
  pose proof (addExtras_rel p p' (extraKeys p) 0 s s' H1) as H2.
  destruct (addExtras p 0 _ s) as [t|], (addExtras p' 0 _ s') as [t'|];
    cbn [result_bind same_erased] in *; try done.
  intros Hc. destruct (Hc _ eq_refl) as (_ & _ & _ & _ & Hi & _). injection H2 as _ Ho.
  rewrite <- (sql_erase (as_out t)), Ho, sql_erase. split_and!; [done| |done].
  apply (f_equal (map a_column)) in Ho. by rewrite !map_map in Ho.
Qed.

(** ** The reconciler reports completion only for a Job that succeeded *)

(** In the history, the API server reported a completed run of the Job [name]. *)
Definition jobSucceeded (m : Misskey) (name : string) (h : history) : Prop :=
  ∃ job, ev (Get KJob name (m_Namespace m)) (Ok job) ∈ h ∧ (1 <= job_Succeeded job).

Lemma objectStorage_wp `{KubeLib} `{QuantityLib} m p h0 :
  wp (reconcileObjectStorage m p) (fun h r => r = Ok true →
    ∃ hash, jobSucceeded m (nameObjectStorage m hash) h) h0.
Proof.
  unfold reconcileObjectStorage. apply wp_tryBind.
  destruct (objectStorageAssignments p) as [l|e]; cbn [lift wp]; [|done].
  apply wp_bind, wp_any. intros h1 hash.
  apply wp_tryBind, wp_any. intros h2 [[]|e]; [|done].
  apply wp_tryBind, wp_any. intros h3 [[]|e]; [|done].
  apply wp_bind, wp_send. intros [job|e].
  - apply wp_bind, wp_any. intros h4 u. intros [= Hs%Z.leb_le]. exists hash, job.
    split; [in_hist|done].
  - destruct (isNotFound e); [|done]. apply wp_tryBind, wp_any. intros h4 [job|e']; [|done].
    apply wp_bind, wp_any. done.
Qed.

Theorem objectStorage_gate `{KubeLib} `{QuantityLib} m p h :
  runs (reconcileObjectStorage m p) h (Ok true) →
  ∃ hash, jobSucceeded m (nameObjectStorage m hash) h.
Proof.
  apply (wp_result _ (fun h => ∃ hash, jobSucceeded m (nameObjectStorage m hash) h)),
    objectStorage_wp.
Qed.
