(* ===== verification/Migration.v ===== *)
(** * Database migration: migration.go

    The version-scoped migration Job, the on-demand backup that gates it, and the cleanup of
    the Jobs and Backups of other images. *)
From S2P Require Export Secrets ObjectStorage.
Local Open Scope string_scope.
Local Open Scope Z_scope.
Local Open Scope list_scope.

Definition cnpgGroup : string := "postgresql.cnpg.io".
Definition cnpgClusterGVK : GVK := mkGVK cnpgGroup "v1" "Cluster".
Definition cnpgScheduledBackupGVK : GVK := mkGVK cnpgGroup "v1" "ScheduledBackup".
Definition cnpgBackupGVK : GVK := mkGVK cnpgGroup "v1" "Backup".
Definition cnpgPoolerGVK : GVK := mkGVK cnpgGroup "v1" "Pooler".

Definition preBackupEnabled (m : Misskey) : bool :=
  match mig_PreBackup (spec_Migration (m_Spec m)) with Some b => b | None => false end.

Definition buildMigrationJob `{QuantityLib} (m : Misskey) (p : plan)
    (annotations : gmap string string) : Job :=
  let env := if migrationConcurrentIndexes m
             then [envValue "MISSKEY_MIGRATION_CREATE_INDEX_CONCURRENTLY" "1"] else [] in
  oneShotJob m (nameMigrate m) "migrate" annotations
    (mkPodSpec (Some false) "OnFailure" (spec_ImagePullSecrets (m_Spec m))
       (Some (nonRootPodSecurityContext (runtimeUID m))) [] ∅ [] (misskeyInitContainers m p)
       [mkContainer "migrate" (spec_Image (m_Spec m)) (runtimeMigrateCommand m) env []
          (resourcesOr noResources "100m" "400Mi" "800Mi") (misskeyConfigMounts m)
          None None None (Some restrictedContainerSecurityContext)]
       (misskeyVolumes m (nameMigrateConfig m))).

Definition buildPreMigrationBackup (m : Misskey) : Unstructured :=
  unstructuredWith cnpgBackupGVK (namePreBackup m) (m_Namespace m) (labelsFor m "premigrate")
    (JObj [("cluster", JObj [("name", JStr (nameDB m))])]).

Section Migration.
Context `{KubeLib} `{QuantityLib}.

Definition migrationChecksum (m : Misskey) (p : plan) : rprog (gmap string string) :=
  try versions := referencedSecretVersions m p in
  ok (checksumAnnotation
        ([renderDefaultYML m (migratePlan m p); formatBool (migrationConcurrentIndexes m)]
         ++ versions)).

Definition cleanupOldMigrationJobs (m : Misskey) : rprog unit :=
  cleanupJobs m "migrate" (nameMigrate m).

(** The value of the checksum annotation in a map, [""] when it is missing. *)
Definition checksumOf (annotations : gmap string string) : string :=
  match annotations !! configChecksumAnnotation with Some v => v | None => "" end.

Definition reconcileMigration (m : Misskey) (p : plan) : rprog bool :=
  do cleanupOldMigrationJobs m;
  try checksum := migrationChecksum m p in
  let! r := send (Get KJob (nameMigrate m) (m_Namespace m)) in
  match r with
  | Err e =>
      if isNotFound e then
        try job := createControlled m KJob (buildMigrationJob m p checksum) in
        let! _ := event_ "Normal" "MigrationStarted" "Migrate"
          ("created migration Job " +:+ om_Name (job_Meta job) +:+ " (image "
           +:+ spec_Image (m_Spec m) +:+ ")") in
        ok false
      else fail e
  | Ok job =>
      if (job_Succeeded job =? 0) && (1 <=? job_Failed job) then
        if negb (String.eqb (checksumOf (om_Annotations (job_Meta job))) (checksumOf checksum)) then
          let! d := send (DeleteObj KJob (om_Name (job_Meta job)) (om_Namespace (job_Meta job))
                            (Some Background)) in
          do lift (ignoreNotFound d);
          let! _ := event_ "Normal" "MigrationRetried" "Migrate"
            ("recreated failed migration Job " +:+ om_Name (job_Meta job)
             +:+ " after a configuration change") in
          ok false
        else
          let! _ := event_ "Warning" "MigrationFailed" "Migrate"
            ("migration Job " +:+ om_Name (job_Meta job) +:+ " failed ("
             +:+ itoa (job_Failed job) +:+ "); delete the Job to retry with the same configuration") in
          ok (1 <=? job_Succeeded job)
      else ok (1 <=? job_Succeeded job)
  end.

Definition cleanupOldPreMigrationBackups (m : Misskey) : rprog unit :=
  try l := send (ListIn (KU cnpgBackupGVK) (Some (m_Namespace m)) (selectorFor m "premigrate")) in
  forEach l (fun b =>
    if String.eqb (om_Name (u_Meta b)) (namePreBackup m) then ok tt
    else
      let! d := send (DeleteObj (KU cnpgBackupGVK) (om_Name (u_Meta b))
                        (om_Namespace (u_Meta b)) None) in
      lift (ignoreNotFound d)).

Definition reconcilePreMigrationBackup (m : Misskey) (p : plan) : rprog bool :=
  if negb (preBackupEnabled m) || negb (p_dbManaged p)
     || bool_decide (pg_Backup (spec_Postgres (m_Spec m)) = None)
  then ok true
  else
    do cleanupOldPreMigrationBackups m;
    let! j := send (Get KJob (nameMigrate m) (m_Namespace m)) in
    match j with
    | Ok _ => ok true
    | Err e =>
        if negb (isNotFound e) then fail e
        else
          let! r := send (Get (KU cnpgBackupGVK) (namePreBackup m) (m_Namespace m)) in
          match r with
          | Err e =>
              if isNotFound e then
                try b := createControlled m (KU cnpgBackupGVK) (buildPreMigrationBackup m) in
                let! _ := event_ "Normal" "PreBackupStarted" "Migrate"
                  ("created pre-migration Backup " +:+ om_Name (u_Meta b) +:+ " (image "
                   +:+ spec_Image (m_Spec m) +:+ ")") in
                ok false
              else fail e
          | Ok b =>
              let phase := nestedString (u_Object b) ["status"; "phase"] in
              if String.eqb phase "completed" then ok true
              else if String.eqb phase "failed" then
                let! _ := event_ "Warning" "PreBackupFailed" "Migrate"
                  ("pre-migration Backup " +:+ om_Name (u_Meta b) +:+ " failed; delete it to retry") in
                ok false
              else ok false
          end
    end.
End Migration.

(** ** Properties *)

Lemma jobSucceeded_app_l m n h1 h2 : jobSucceeded m n h1 → jobSucceeded m n (h1 ++ h2).
Proof. intros (job & Hj & Hs). exists job. split; [set_solver|done]. Qed.

Lemma reconcileMigration_wp `{KubeLib} `{QuantityLib} m p h0 :
  wp (reconcileMigration m p) (fun h r => r = Ok true → jobSucceeded m (nameMigrate m) h) h0.
Proof.
  unfold reconcileMigration. apply wp_tryBind, wp_any. intros h1 [[]|e]; [|done].
  apply wp_tryBind, wp_any. intros h2 [cs|e]; [|done].
  apply wp_bind, wp_send. intros [job|e].
  - assert (∀ h', (1 <=? job_Succeeded job) = true →
      jobSucceeded m (nameMigrate m) (((h0 ++ h1) ++ h2) ++ ev (Get KJob (nameMigrate m) (m_Namespace m)) (Ok job) :: h'))
      as Hj.
    { intros h' Hs%Z.leb_le. exists job. split; [set_solver|done]. }
    destruct (_ && _); [destruct (negb _)|].
    + apply wp_bind, wp_any. intros h3 d. apply wp_tryBind, wp_any. intros h4 [[]|e]; [|done].
      apply wp_bind, wp_any. done.
    + apply wp_bind, wp_any. intros h3 u. cbn [ok wp]. intros [= Hs]. rewrite <- !app_assoc.
      rewrite (app_assoc h0), (app_assoc (h0 ++ h1)). by apply Hj.
    + cbn [ok wp]. intros [= Hs]. by apply Hj.
  - destruct (isNotFound e); [|done]. apply wp_tryBind, wp_any. intros h3 [job|e']; [|done].
    apply wp_bind, wp_any. done.
Qed.

(** [reconcileMigration] reports completion only on a Job of the current image that the API
    server reports as succeeded. *)
Theorem migration_gate `{KubeLib} `{QuantityLib} m p h :
  runs (reconcileMigration m p) h (Ok true) → jobSucceeded m (nameMigrate m) h.
Proof. apply (wp_result _ (jobSucceeded m (nameMigrate m))), reconcileMigration_wp. Qed.

(** The evidence that lets a new migration start: the migration Job already exists, or its
    backup is complete. *)
Definition backupEvidence (m : Misskey) (h : history) : Prop :=
  (∃ job, ev (Get KJob (nameMigrate m) (m_Namespace m)) (Ok job) ∈ h)
  ∨ (∃ b, ev (Get (KU cnpgBackupGVK) (namePreBackup m) (m_Namespace m)) (Ok b) ∈ h
          ∧ nestedString (u_Object b) ["status"; "phase"] = "completed").

Definition preBackupRequired (m : Misskey) (p : plan) : Prop :=
  preBackupEnabled m = true ∧ p_dbManaged p = true
  ∧ pg_Backup (spec_Postgres (m_Spec m)) ≠ None.

Lemma reconcilePreMigrationBackup_wp `{KubeLib} m p h0 :
  preBackupRequired m p →
  wp (reconcilePreMigrationBackup m p) (fun h r => r = Ok true → backupEvidence m h) h0.
Proof.
  intros (Hp & Hd & Hb). unfold reconcilePreMigrationBackup.
  rewrite Hp, Hd, bool_decide_eq_false_2 by done. cbn [negb orb].
  apply wp_tryBind, wp_any. intros h1 [[]|e]; [|done].
  apply wp_bind, wp_send. intros [job|e].
  - cbn. intros _. left. exists job. set_solver.
  - destruct (negb (isNotFound e)); [done|].
    apply wp_bind, wp_send. intros [b|e'].
    + destruct (String.eqb_spec (nestedString (u_Object b) ["status"; "phase"]) "completed").
      { cbn. intros _. right. exists b. split; [set_solver|done]. }
      destruct (String.eqb _ "failed"); [|done]. apply wp_bind, wp_any. done.
    + destruct (isNotFound e'); [|done]. apply wp_tryBind, wp_any. intros h3 [b|e'']; [|done].
      apply wp_bind, wp_any. done.
Qed.

(** With a pre-migration backup required, the gate opens only on evidence of one. *)
Theorem preBackup_gate `{KubeLib} m p h :
  preBackupRequired m p → runs (reconcilePreMigrationBackup m p) h (Ok true) →
  backupEvidence m h.
Proof.
  intros Hp. apply (wp_result _ (backupEvidence m)). by apply reconcilePreMigrationBackup_wp.
Qed.

Lemma emits_secretVersion P ns name :
  P (Get KSecret name ns) → emits P (secretVersion ns name).
Proof.
  intros HP. apply emits_bind; [by split|]. intros [s|e]; [done|]. by destruct (isNotFound e).
Qed.
Lemma emits_referencedSecretVersions P m p :
  (∀ name, P (Get KSecret name (m_Namespace m))) → emits P (referencedSecretVersions m p).
Proof.
  intros HP. apply emits_tryBind; [|done]. apply emits_collect. intros n _.
  by apply emits_secretVersion.
Qed.
Lemma emits_migrationChecksum P m p :
  (∀ name, P (Get KSecret name (m_Namespace m))) → emits P (migrationChecksum m p).
Proof. intros HP. apply emits_tryBind; [by apply emits_referencedSecretVersions|done]. Qed.

(** [hb] computed the checksum [cs] of the inputs, and the next event is the answer [x] about
    the Job of the current image. *)
Definition computedThen `{KubeLib} `{QuantityLib} (m : Misskey) (p : plan) (cs : gmap string string)
    (x : result error Job) (h : history) : Prop :=
  ∃ ha hb, h = ha ++ hb ++ [ev (Get KJob (nameMigrate m) (m_Namespace m)) x]
           ∧ runs (migrationChecksum m p) hb (Ok cs).
(** Jobs of other images, in any state. *)
Definition supersededJob (m : Misskey) (n ns : string) (h : history) : Prop :=
  ∃ jobs j, ev (ListIn KJob (Some (m_Namespace m)) (selectorFor m "migrate")) (Ok jobs) ∈ h
            ∧ j ∈ jobs ∧ om_Name (job_Meta j) ≠ nameMigrate m
            ∧ n = om_Name (job_Meta j) ∧ ns = om_Namespace (job_Meta j).
(** The current Job had a failed pod and no success, and was made from other inputs. *)
Definition staleJob `{KubeLib} `{QuantityLib} (m : Misskey) (p : plan) (n ns : string) (h : history) : Prop :=
  ∃ cs job, computedThen m p cs (Ok job) h
            ∧ job_Succeeded job = 0 ∧ 1 <= job_Failed job
            ∧ checksumOf (om_Annotations (job_Meta job)) ≠ checksumOf cs
            ∧ n = om_Name (job_Meta job) ∧ ns = om_Namespace (job_Meta job).
(** What [reconcileMigration] may change, and on which evidence. *)
Definition migrationWrite `{KubeLib} `{QuantityLib} (m : Misskey) (p : plan) (r : req) (h : history) : Prop :=
  match r with
  | Create KJob j =>
      ∃ cs e om, computedThen m p cs (Err e) h ∧ isNotFound e = true
                 ∧ setControllerReference m (job_Meta (buildMigrationJob m p cs)) = Ok om
                 ∧ j = setMeta KJob om (buildMigrationJob m p cs)
  | DeleteObj KJob n ns pol =>
      pol = Some Background ∧ (supersededJob m n ns h ∨ staleJob m p n ns h)
  | Get _ _ _ | ListIn _ _ _ | Event _ _ _ _ => True
  | _ => False
  end.

Lemma cleanupJobs_migration `{KubeLib} `{QuantityLib} m p W :
  keeps (warranted (migrationWrite m p) W) (cleanupJobs m "migrate" (nameMigrate m)).
Proof.
  unfold cleanupJobs. apply keeps_read; [done|]. intros [jobs|e]; [|by intros h Hh].
  apply keeps_forEach. intros j Hj.
  destruct (String.eqb_spec (om_Name (job_Meta j)) (nameMigrate m)) as [|Hn]; [by intros h Hh|].
  apply keeps_bind; [|intros [u|e]; [|destruct (isNotFound e)]; by intros h Hh].
  apply keeps_send. intros h [_ HW]. split; [done|]. left. exists jobs, j.
  split_and!; [|done..]. apply HW. left.
Qed.
Lemma emits_migrationReads `{KubeLib} `{QuantityLib} m p q :
  emits (fun r => ∀ h, migrationWrite m q r h) (migrationChecksum m p).
Proof. by apply emits_migrationChecksum. Qed.

(** C15. What a reconcile of the migration changes, request by request: it creates the Job of
    the current image, from the inputs of this run, only after the server reported that there
    is none; and it deletes a Job, leaving its pods to the garbage collector, only in two
    cases.  Either it is a Job of another image, listed under the instance's migration label,
    in whatever state; or it is the Job of the current image, just shown with a failed pod and
    no success, and made from inputs with another checksum.  So while the Job of the current
    image exists, a finished migration is not repeated, one without a failed pod is not
    interrupted, and one that failed is not retried on the same inputs.  Whether pods of the
    Job are still active is not looked at: a Job with a failed pod may be deleted while another
    of its pods runs. *)
Theorem migration_replaced `{KubeLib} `{QuantityLib} m p h r :
  runs (reconcileMigration m p) h r →
  ∀ h1 q x h2, h = h1 ++ ev q x :: h2 → migrationWrite m p q h1.
Proof.
  set (J := migrationWrite m p). intros Hr.
  enough (justified J h) as Hj by (intros h1 q x h2 E; by apply (Hj h1 (ev q x) h2)).
  revert Hr. apply (wp_result _ (justified J)).
  apply (wp_mono _ (fun h _ => justified J h)); [auto|]. unfold reconcileMigration.
  apply wp_tryBind. eapply wp_mono; [|apply (cleanupJobs_migration m p []), warranted_nil].
  intros h1 [[]|e] [Hj _]; [|done]. apply wp_tryBind, wp_runs. intros h2 [cs|e] Hcs.
  all: assert (justified J (h1 ++ h2)) as Hj2 by
    (eapply runs_keeps; [apply keeps_justified, emits_migrationReads|exact Hj|exact Hcs]).
  2: done.
  apply wp_bind, (wp_justified J); [done|exact I|]. intros x Hj3.
  assert (computedThen m p cs x ((h1 ++ h2) ++ [ev (Get KJob (nameMigrate m) (m_Namespace m)) x])) as Hc
    by (exists h1, h2; by rewrite <- app_assoc).
  destruct x as [job|e].
  - destruct (_ && _) eqn:E; [|done]. apply andb_true_iff in E as [E1%Z.eqb_eq E2%Z.leb_le].
    destruct (String.eqb_spec (checksumOf (om_Annotations (job_Meta job))) (checksumOf cs)) as [|Hne];
      cbn [negb].
    + apply (keeps_bind (justified J)); [by apply keeps_justified|by intros u h' Hh'|done].
    + apply wp_bind, (wp_justified J); [done| |].
      { split; [done|]. right. by exists cs, job. }
      intros d Hd. apply wp_tryBind. destruct (ignoreNotFound d) as [u|e]; cbn [lift wp]; [|done].
      apply (keeps_bind (justified J)); [by apply keeps_justified|by intros u' h' Hh'|done].
  - destruct (isNotFound e) eqn:En; [|done]. unfold createControlled.
    destruct (setControllerReference m _) as [om|e'] eqn:Eo; [|done].
    apply wp_tryBind, wp_tryBind. cbn [lift wp]. apply (wp_justified J); [done| |].
    { exists cs, e, om. by split_and!. }
    intros y Hy. destruct y as [job|e']; [|done].
    apply (keeps_bind (justified J)); [by apply keeps_justified|by intros u' h' Hh'|done].
Qed.
