(* ===== verification/Deletion.v ===== *)
(** * Deletion of an instance: deletion.go

    With [deletionPolicy: Retain] the objects that hold data lose their owner reference
    before the finalizer of the instance goes, so that the garbage collector keeps them. *)
From S2P Require Export Migration.
Local Open Scope string_scope.
Local Open Scope Z_scope.
Local Open Scope list_scope.

Definition misskeyFinalizer : string := "cloudnative-misskey.dev/finalizer".
Definition secretGVK : GVK := mkGVK "" "v1" "Secret".
Definition statefulSetGVK : GVK := mkGVK "apps" "v1" "StatefulSet".
Definition redisReplicationGVK : GVK := mkGVK "redis.redis.opstreelabs.in" "v1beta2" "RedisReplication".
Definition redisSentinelGVK : GVK := mkGVK "redis.redis.opstreelabs.in" "v1beta2" "RedisSentinel".

Record retainTarget := mkTarget { rt_gvk : GVK; rt_name : string }.

Definition retainTargets (m : Misskey) : list retainTarget :=
  [mkTarget cnpgClusterGVK (nameDB m);
   mkTarget statefulSetGVK (nameMeili m);
   mkTarget secretGVK (nameMeili m);
   mkTarget secretGVK (nameSetup m);
   mkTarget secretGVK (nameRedisAuthSecret m);
   mkTarget secretGVK (nameSensitiveDetector m)] ++
  concat (map (fun suffix =>
    [mkTarget statefulSetGVK (nameRedisInstance m suffix);
     mkTarget redisReplicationGVK (nameRedisHA m suffix);
     mkTarget redisSentinelGVK (nameRedisHA m suffix)]) allRedisSuffixes).

(** The owner references that do not point to the instance. *)
Definition ownedBy (m : Misskey) (r : OwnerReference) : bool :=
  String.eqb (own_UID r) (om_UID (m_Meta m)).
Definition keptRefs (m : Misskey) (l : list OwnerReference) : list OwnerReference :=
  List.filter (fun r => negb (ownedBy m r)) l.

Definition orphan (m : Misskey) (gvk : GVK) (name : string) : rprog unit :=
  let! r := send (Get (KU gvk) name (m_Namespace m)) in
  match r with
  | Err e => if isNotFound e || isNoMatch e then ok tt else fail e
  | Ok u =>
      let refs := om_OwnerReferences (u_Meta u) in
      if negb (existsb (ownedBy m) refs) then ok tt
      else
        do send (Update (KU gvk)
             (mkUnstructured (u_GVK u) (set_OwnerReferences (keptRefs m refs) (u_Meta u)) (u_Object u)));
        ok tt
  end.

Definition retainData (m : Misskey) : rprog unit :=
  forEach (retainTargets m) (fun t => orphan m (rt_gvk t) (rt_name t)).

Definition reconcileDelete `{KubeLib} (m : Misskey) : rprog Result :=
  if negb (containsFinalizer (m_Meta m) misskeyFinalizer) then ok (mkResult 0)
  else
    do (if String.eqb (spec_DeletionPolicy (m_Spec m)) "Retain" then
          do retainData m;
          let! _ := event_ "Normal" "DataRetained" "Delete"
            "detached owner references from data resources per deletionPolicy=Retain" in
          ok tt
        else ok tt);
    do send (Update KMisskey (set_m_Meta (removeFinalizer (m_Meta m) misskeyFinalizer) m));
    ok (mkResult 0).

(** ** Properties *)

(** The object of a target is out of reach of the garbage collector: the API server said it
    does not exist, or showed it without a reference to the instance, or accepted it without
    one and otherwise unchanged. *)
Definition detached (m : Misskey) (t : retainTarget) (h : history) : Prop :=
  let get := Get (KU (rt_gvk t)) (rt_name t) (m_Namespace m) in
  (∃ e, ev get (Err e) ∈ h ∧ isNotFound e || isNoMatch e = true)
  ∨ (∃ u, ev get (Ok u) ∈ h ∧ Forall (fun r => ownedBy m r = false) (om_OwnerReferences (u_Meta u)))
  ∨ (∃ u u', ev get (Ok u) ∈ h
      ∧ Forall (fun r => ownedBy m r = false) (keptRefs m (om_OwnerReferences (u_Meta u)))
      ∧ ev (Update (KU (rt_gvk t))
              (mkUnstructured (u_GVK u)
                 (set_OwnerReferences (keptRefs m (om_OwnerReferences (u_Meta u))) (u_Meta u))
                 (u_Object u))) (Ok u') ∈ h).

Lemma detached_app m t h h' : detached m t h → detached m t (h ++ h').
Proof.
  intros [(e & He & Hk)|[(u & Hu & Hf)|(u & u' & Hu & Hf & Hd)]].
  - left. exists e. split; [set_solver|done].
  - right; left. exists u. split; [set_solver|done].
  - right; right. exists u, u'. split_and!; [set_solver|done|set_solver].
Qed.

Lemma keptRefs_free m l : Forall (fun r => ownedBy m r = false) (keptRefs m l).
Proof.
  apply Forall_forall. intros r Hr. apply list_elem_of_In, filter_In in Hr as [_ Hr].
  by apply negb_true_iff in Hr.
Qed.

Lemma orphan_wp m t h :
  wp (orphan m (rt_gvk t) (rt_name t)) (fun h r => r = Ok tt → detached m t h) h.
Proof.
  unfold orphan. apply wp_bind, wp_send. intros [u|e].
  - destruct (negb (existsb (ownedBy m) (om_OwnerReferences (u_Meta u)))) eqn:E.
    + intros _. right; left. exists u. split; [set_solver|].
      apply negb_true_iff in E. apply Forall_forall. intros r Hr%list_elem_of_In.
      by apply (proj1 (existsb_false_In _ _) E).
    + apply wp_tryBind, wp_send. intros [u'|e']; [|done]. intros _. right; right.
      exists u, u'. split_and!; [set_solver|apply keptRefs_free|set_solver].
  - destruct (isNotFound e || isNoMatch e) eqn:E; [|done]. intros _. left. exists e.
    split; [set_solver|done].
Qed.

(** The finalizer update of [m]. *)
Definition updatesMisskey (r : req) : Prop :=
  match r with Update KMisskey _ => True | _ => False end.

(** C1. Retention comes first: under [deletionPolicy: Retain] the request that removes the
    finalizer is sent only when every object that holds data has been detached. *)
Theorem retain_before_finalizer `{KubeLib} m h r :
  spec_DeletionPolicy (m_Spec m) = "Retain" →
  runs (reconcileDelete m) h r → Exists updatesMisskey (reqs h) →
  ∀ t, t ∈ retainTargets m → detached m t h.
Proof.
  intros Hpol.
  set (Q := fun h : history => Exists updatesMisskey (reqs h) →
    ∀ t, t ∈ retainTargets m → detached m t h).
  apply (wp_result _ Q).
  assert (∀ h : history, Forall (fun r => ¬ updatesMisskey r) (reqs h) → Q h) as HQ.
  { intros h' Hf He. apply Exists_exists in He as (x & Hx & Hd).
    rewrite Forall_forall in Hf. by destruct (Hf x Hx). }
  unfold reconcileDelete. destruct (negb _); [intros _; by apply HQ|].
  rewrite Hpol. cbn [String.eqb Ascii.eqb Bool.eqb]. apply wp_tryBind, wp_tryBind.
  assert (emits (fun r => ¬ updatesMisskey r) (retainData m)) as Hem.
  { apply emits_forEach. intros t _. apply emits_bind; [by split; [intros []|]|].
    intros [u|e].
    - cbv zeta. case_match; [done|].
      apply emits_tryBind; [by split; [intros []|]|done].
    - by destruct (isNotFound e || isNoMatch e). }
  pose proof (wp_forEach_all (detached m) (retainTargets m)
    (fun t => orphan m (rt_gvk t) (rt_name t)) [] (detached_app m)
    (fun t h _ => orphan_wp m t h)) as Hall.
  apply wp_runs. intros h1 r1 Hr1. pose proof (emits_runs _ _ _ _ Hem Hr1) as H1.
  rewrite wp_runs in Hall. specialize (Hall h1 r1 Hr1).
  destruct r1 as [[]|e]; [|intros _; by apply HQ].
  apply wp_bind, wp_any. intros h2 u. apply wp_tryBind, wp_any.
  intros h3 r3. assert (Q ((([] ++ h1) ++ h2) ++ h3)) as HQ3.
  { intros _ t Ht. do 2 apply detached_app. by apply Hall. }
  destruct r3 as [m'|e]; [|intros _; exact HQ3]. intros _. exact HQ3.
Qed.

(** Nothing else is written: the deletion handler creates and deletes no object. *)
Theorem deletion_footprint `{KubeLib} m h r :
  runs (reconcileDelete m) h r →
  Forall (fun r => match r with
                   | Get _ _ _ | Update _ _ | Event _ _ _ _ => True
                   | _ => False end) (reqs h).
Proof.
  apply emits_runs. unfold reconcileDelete, retainData, orphan. emits_tac; exact I.
Qed.
