(* ===== verification/Redis.v ===== *)
(** * Redis: redis.go, redisha.go and the exporter of monitoring.go

    The managed redis instances of an object, one for the default and one per separated role;
    each is a single StatefulSet or a RedisReplication/RedisSentinel pair of the redis
    operator, and what an instance no longer needs is removed. *)
From S2P Require Export Secrets StatefulSet Deletion.
Local Open Scope string_scope.
Local Open Scope Z_scope.
Local Open Scope list_scope.

Definition redisUID : Z := 999.
Definition opstreeRedisUID : Z := 1000.
Definition nsNameLabel : string := "kubernetes.io/metadata.name".

(** ** The exporter (monitoring.go) *)

Definition redisExporterPort : Z := 9121.
Definition monitoringEnabled (m : Misskey) : bool :=
  boolOr (mon_Enabled (spec_Monitoring (m_Spec m))) false.
Definition redisExporterContainer `{QuantityLib} (m : Misskey) : Container :=
  mkContainer "metrics"
    (stringOr (mon_RedisExporterImage (spec_Monitoring (m_Spec m)))
       "oliver006/redis_exporter:v1.62.0-alpine") []
    [envValue "REDIS_ADDR" ("redis://localhost:" +:+ itoa redisPort);
     secretEnv "REDIS_PASSWORD" (redisAuthSecretKeySelector m)]
    [mkContainerPort "metrics" redisExporterPort] (resourcesOr noResources "10m" "16Mi" "64Mi") []
    None None None (Some restrictedContainerSecurityContext).

(** ** Instances (redis.go) *)

Definition redisPingProbe (period : Z) : Probe := mkProbe (Exec ["redis-cli"; "ping"]) 0 period 3 0.

Record redisManagedInstance := mkRedisInstance {
  ri_suffix : string;
  ri_ha : bool;
  ri_image : string;
  ri_maxMemory : string;
  ri_maxMemoryPolicy : string;
  ri_appendOnly : bool;
  ri_storage : Quantity;
  ri_storageClass : option string;
  ri_resources : ResourceRequirements;
  ri_replicas : Z;
  ri_sentinels : Z;
  ri_haImage : string;
  ri_haSentinelImage : string }.

Section Instances.
Context `{QuantityLib}.

Definition buildManagedInstance (m : Misskey) (suffix : string) (role : option RedisRole)
    (ha : option RedisHA) : redisManagedInstance :=
  let rs := spec_Redis (m_Spec m) in
  let maxMemory := stringOr (redis_MaxMemory rs) "400mb" in
  let maxMemoryPolicy := stringOr (redis_MaxMemoryPolicy rs) "noeviction" in
  let storage := quantityOr (redis_Storage rs) "2Gi" in
  let '(haImage, haSentinelImage, replicas, sentinels) :=
    match ha with
    | None => ("", "", 0, 0)
    | Some h =>
        (stringOr (ha_Image h) "quay.io/opstree/redis:v8.2.5",
         stringOr (ha_SentinelImage h) "quay.io/opstree/redis-sentinel:v8.2.5",
         int32OrDefault (ha_Replicas h) 3, int32OrDefault (ha_Sentinels h) 3)
    end in
  {| ri_suffix := suffix;
     ri_ha := match ha with Some _ => true | None => false end;
     ri_image := stringOr (redis_Image rs) "redis:8-alpine";
     ri_maxMemory :=
       match role with Some ro => stringOr (role_MaxMemory ro) maxMemory | None => maxMemory end;
     ri_maxMemoryPolicy :=
       match role with
       | Some ro => stringOr (role_MaxMemoryPolicy ro) maxMemoryPolicy
       | None => maxMemoryPolicy
       end;
     ri_appendOnly := boolOr (redis_AppendOnly rs) true;
     ri_storage :=
       match role with
       | Some ro => if qty_IsZero (role_Storage ro) then storage else role_Storage ro
       | None => storage
       end;
     ri_storageClass :=
       match role with
       | Some ro => match role_StorageClassName ro with Some c => Some c | None => redis_StorageClassName rs end
       | None => redis_StorageClassName rs
       end;
     ri_resources :=
       match role with
       | Some ro => if resourcesSet (role_Resources ro) then role_Resources ro else redis_Resources rs
       | None => redis_Resources rs
       end;
     ri_replicas := replicas; ri_sentinels := sentinels;
     ri_haImage := haImage; ri_haSentinelImage := haSentinelImage |}.

Definition managedRedisInstances (m : Misskey) : list redisManagedInstance :=
  let rs := spec_Redis (m_Spec m) in
  (match redis_External rs with
   | None => [buildManagedInstance m "" None (redis_HA rs)]
   | Some _ => []
   end) ++
  (match redis_Roles rs with
   | None => []
   | Some roles =>
       concat (map (fun rd =>
         match rd_get rd roles with
         | None => []
         | Some role =>
             match role_External role with
             | Some _ => []
             | None => [buildManagedInstance m (rd_nameSuffix rd) (Some role) (role_HA role)]
             end
         end) redisRoleDescs)
   end).
End Instances.

(** ** The custom resources of the redis operator (redisha.go) *)

Definition redisAuthSecretRef (m : Misskey) : json :=
  JObj [("name", JStr (nameRedisAuthSecret m)); ("key", JStr "password")].

Definition redisUnstructured (m : Misskey) (gvk : GVK) (name : string) (spec : json) : Unstructured :=
  unstructuredWith gvk name (m_Namespace m)
    (list_to_map [("app.kubernetes.io/managed-by", "cloudnative-misskey");
                  ("cloudnative-misskey.dev/tenant", tenantOf m)]) spec.

Definition redisHAPodSecurityContext : json :=
  JObj [("runAsNonRoot", JBool true); ("runAsUser", JInt opstreeRedisUID);
        ("runAsGroup", JInt opstreeRedisUID); ("fsGroup", JInt opstreeRedisUID);
        ("seccompProfile", JObj [("type", JStr "RuntimeDefault")])].

Definition redisPVCSpec (inst : redisManagedInstance) : json :=
  JObj ([("accessModes", JArr [JStr "ReadWriteOnce"]);
         ("resources", JObj [("requests", JObj [("storage", JStr (qty_String (ri_storage inst)))])])] ++
        match ri_storageClass inst with
        | Some c => if String.eqb c "" then [] else [("storageClassName", JStr c)]
        | None => []
        end).

Section HA.
Context `{KubeLib} `{QuantityLib}.

(** [res, _ := ToUnstructured(...)]: the error is dropped and the map is nil. *)
Definition resourcesJSON (r : ResourceRequirements) : json :=
  match resourcesToUnstructured r with Ok fields => JObj fields | Err _ => JNull end.

Definition buildRedisReplication (m : Misskey) (inst : redisManagedInstance) : Unstructured :=
  redisUnstructured m redisReplicationGVK (nameRedisHA m (ri_suffix inst))
    (JObj ([("clusterSize", JInt (ri_replicas inst));
      ("kubernetesConfig", JObj [
         ("image", JStr (ri_haImage inst));
         ("imagePullPolicy", JStr "IfNotPresent");
         ("resources", resourcesJSON (resourcesOr (ri_resources inst) "50m" "128Mi" "512Mi"));
         ("redisSecret", redisAuthSecretRef m);
         ("persistentVolumeClaimRetentionPolicy",
           JObj [("whenDeleted", JStr "Retain"); ("whenScaled", JStr "Retain")])]);
      ("podSecurityContext", redisHAPodSecurityContext);
      ("storage", JObj [("volumeClaimTemplate", JObj [("spec", redisPVCSpec inst)])])] ++
      if monitoringEnabled m then [("redisExporter", JObj [("enabled", JBool true)])] else [])).

Definition buildRedisSentinel (m : Misskey) (inst : redisManagedInstance) : Unstructured :=
  redisUnstructured m redisSentinelGVK (nameRedisHA m (ri_suffix inst))
    (JObj [("clusterSize", JInt (ri_sentinels inst));
      ("kubernetesConfig", JObj [
         ("image", JStr (ri_haSentinelImage inst));
         ("imagePullPolicy", JStr "IfNotPresent");
         ("resources", resourcesJSON (resourcesOr noResources "25m" "64Mi" "128Mi"));
         ("redisSecret", redisAuthSecretRef m)]);
      ("podSecurityContext", redisHAPodSecurityContext);
      ("redisSentinelConfig", JObj [
         ("redisReplicationName", JStr (nameRedisHA m (ri_suffix inst)));
         ("masterGroupName", JStr redisMasterGroup);
         ("quorum", JStr (itoa (Z.quot (ri_sentinels inst) 2 + 1)));
         ("redisReplicationPassword",
           JObj [("secretKeyRef", JObj [("name", JStr (nameRedisAuthSecret m)); ("key", JStr "password")])])])]).

Definition reconcileRedisHA (m : Misskey) (inst : redisManagedInstance) : rprog unit :=
  do applySSA m (buildRedisReplication m inst);
  applySSA m (buildRedisSentinel m inst).

Definition deleteRedisHA (m : Misskey) (suffix : string) : rprog unit :=
  forEach [redisReplicationGVK; redisSentinelGVK] (fun gvk =>
    deleteIfExists (KU gvk) (nameRedisHA m suffix) (m_Namespace m)).

(** ** The network policy of an HA instance (redis.go) *)

Definition deleteRedisHANetworkPolicy (m : Misskey) (suffix : string) : rprog unit :=
  deleteIfExists KNetworkPolicy (nameRedisInstance m suffix +:+ "-ha") (m_Namespace m).

Definition redisHAPolicy (m : Misskey) (inst : redisManagedInstance) (np : NetworkPolicy)
    : NetworkPolicy :=
  let appIn := mkSelector ∅ [mkReq "app" OpIn
    [nameRedisHA m (ri_suffix inst); nameRedisSentinelService m (ri_suffix inst)]] in
  let from :=
    [PeerPods (matchLabels (selectorFor m roleApp));
     PeerPods (matchLabels (selectorFor m roleWorker)); PeerPods appIn] ++
    map (fun ns => PeerNamespaces (matchLabels {[nsNameLabel := ns]}))
      (iso_AllowedNamespaces (net_Isolation (spec_Network (m_Spec m)))) in
  mkNetworkPolicy (set_Labels (labelsFor m "redis") (np_Meta np)) appIn ["Ingress"]
    [mkNPRule from [mkNPPort None redisPort; mkNPPort None sentinelPort]] (np_Egress np).

Definition reconcileRedisHANetworkPolicy (m : Misskey) (inst : redisManagedInstance) : rprog unit :=
  let name := nameRedisInstance m (ri_suffix inst) +:+ "-ha" in
  if negb (boolOr (iso_Enabled (net_Isolation (spec_Network (m_Spec m)))) true)
  then deleteIfExists KNetworkPolicy name (m_Namespace m)
  else applyOwned m KNetworkPolicy (newNetworkPolicy name (m_Namespace m))
         (fun np => ok (redisHAPolicy m inst np)).

(** ** A standalone instance (redis.go) *)

Definition redisCmd (inst : redisManagedInstance) : string :=
  let q (v : string) := String "034" ("$" +:+ v +:+ String "034" "") in
  "exec redis-server --requirepass " +:+ q "REDIS_PASSWORD" +:+ " --maxmemory " +:+ q "MAXMEMORY"
  +:+ " --maxmemory-policy " +:+ q "MAXMEMORY_POLICY"
  +:+ (if ri_appendOnly inst then " --appendonly yes" else "").

Definition redisServicePorts (m : Misskey) : list ServicePort :=
  [mkServicePort "redis" redisPort None] ++
  (if monitoringEnabled m
   then [mkServicePort "metrics" redisExporterPort (Some (IOSInt redisExporterPort))] else []).

Definition redisContainers (m : Misskey) (inst : redisManagedInstance) : list Container :=
  let authSel := redisAuthSecretKeySelector m in
  [mkContainer "redis" (ri_image inst) ["sh"; "-c"; redisCmd inst]
     [secretEnv "REDIS_PASSWORD" authSel; secretEnv "REDISCLI_AUTH" authSel;
      envValue "MAXMEMORY" (ri_maxMemory inst);
      envValue "MAXMEMORY_POLICY" (ri_maxMemoryPolicy inst)]
     [mkContainerPort "" redisPort]
     (resourcesOr (ri_resources inst) "50m" "128Mi" "512Mi")
     [mkMount "data" "/data" "" false; tmpMount]
     None (Some (redisPingProbe 10)) (Some (redisPingProbe 20))
     (Some restrictedContainerSecurityContext)] ++
  (if monitoringEnabled m then [redisExporterContainer m] else []).

Definition redisStatefulSet (m : Misskey) (inst : redisManagedInstance) (checksum : gmap string string)
    (sts : StatefulSet) : StatefulSet :=
  let comp := redisComponent (ri_suffix inst) in
  mkStatefulSet (set_Labels (labelsFor m comp) (sts_Meta sts)) (nameRedisInstance m (ri_suffix inst))
    (Some 1) (matchLabels (selectorFor m comp))
    (mkTemplate (labelsFor m comp) checksum
       (mkPodSpec (Some false) "" [] (Some (nonRootPodSecurityContext redisUID)) [] ∅ [] []
          (redisContainers m inst) [tmpVolume]))
    [mkPVC (newMeta "data" "") ["ReadWriteOnce"] (ri_storageClass inst)
       {["storage" := ri_storage inst]}]
    (sts_ReadyReplicas sts).

Definition reconcileRedisStandalone (m : Misskey) (inst : redisManagedInstance) : rprog unit :=
  let name := nameRedisInstance m (ri_suffix inst) in
  let comp := redisComponent (ri_suffix inst) in
  do applyOwned m KService (newService name (m_Namespace m)) (fun svc =>
       ok (mkService (set_Labels (labelsFor m comp) (svc_Meta svc)) "None" (selectorFor m comp)
             (redisServicePorts m)));
  do applyStatefulSet m (newStatefulSet name (m_Namespace m)) (fun sts =>
       try ver := secretVersion (m_Namespace m) (nameRedisAuthSecret m) in
       ok (redisStatefulSet m inst (checksumAnnotation [ver]) sts));
  deleteIfExists KNetworkPolicy name (m_Namespace m).

Definition deleteRedisStandalone (m : Misskey) (suffix : string) : rprog unit :=
  let name := nameRedisInstance m suffix in
  do deleteIfExists KStatefulSet name (m_Namespace m);
  do deleteIfExists KService name (m_Namespace m);
  do deleteIfExists KNetworkPolicy name (m_Namespace m);
  ok tt.

(** ** All instances *)

Definition reconcileInstance (m : Misskey) (inst : redisManagedInstance) : rprog unit :=
  if ri_ha inst then
    do deleteRedisStandalone m (ri_suffix inst);
    do reconcileRedisHA m inst;
    reconcileRedisHANetworkPolicy m inst
  else
    do deleteRedisHA m (ri_suffix inst);
    do deleteRedisHANetworkPolicy m (ri_suffix inst);
    reconcileRedisStandalone m inst.

(** [seenStandalone]/[seenHA] after the loop: the suffixes of the desired instances. *)
Definition seen (ha : bool) (desired : list redisManagedInstance) (suffix : string) : bool :=
  existsb (fun i => Bool.eqb (ri_ha i) ha && String.eqb (ri_suffix i) suffix) desired.

Definition cleanupSuffix (m : Misskey) (desired : list redisManagedInstance) (suffix : string)
    : rprog unit :=
  do (if seen false desired suffix then ok tt else deleteRedisStandalone m suffix);
  if seen true desired suffix then ok tt
  else
    do deleteRedisHA m suffix;
    deleteRedisHANetworkPolicy m suffix.

Definition reconcileRedis (m : Misskey) : rprog unit :=
  let desired := managedRedisInstances m in
  do (if (0 <? length desired)%nat then reconcileRedisAuthSecret m else ok tt);
  do forEach desired (reconcileInstance m);
  forEach allRedisSuffixes (cleanupSuffix m desired).
End HA.

(** ** Names and suffixes *)

Lemma nameRedisInstance_inj m s s' : nameRedisInstance m s = nameRedisInstance m s' → s = s'.
Proof.
  unfold nameRedisInstance. destruct (String.eqb_spec s ""), (String.eqb_spec s' ""); subst; try done.
  - intros H. exfalso. apply (f_equal String.length) in H. rewrite slen_app in H. simpl in H. lia.
  - intros H. exfalso. apply (f_equal String.length) in H. rewrite slen_app in H. simpl in H. lia.
  - intros H. by apply sapp_inj_l, sapp_inj_l in H.
Qed.
Lemma nameRedisHA_inj m s s' : nameRedisHA m s = nameRedisHA m s' → s = s'.
Proof. unfold nameRedisHA. intros H%sapp_inj_r. by apply nameRedisInstance_inj in H. Qed.

Lemma built_suffix `{QuantityLib} m s role ha : ri_suffix (buildManagedInstance m s role ha) = s.
Proof. by destruct ha. Qed.
Lemma suffixes_sublist `{QuantityLib} m :
  map ri_suffix (managedRedisInstances m) `sublist_of` allRedisSuffixes.
Proof.
  unfold managedRedisInstances, allRedisSuffixes. rewrite map_app.
  change ("" :: ?l) with ([""] ++ l). apply sublist_app.
  - destruct (redis_External _); [apply sublist_nil_l|]. cbn [map]. by rewrite built_suffix.
  - destruct (redis_Roles _) as [roles|]; [|apply sublist_nil_l].
    induction redisRoleDescs as [|rd l IH]; cbn [map concat]; [done|]. rewrite map_app.
    change (rd_nameSuffix rd :: ?t) with ([rd_nameSuffix rd] ++ t). apply sublist_app; [|done].
    destruct (rd_get rd roles) as [role|]; [|apply sublist_nil_l].
    destruct (role_External role); [apply sublist_nil_l|]. cbn [map]. by rewrite built_suffix.
Qed.
(** There is at most one instance per suffix. *)
Lemma instance_unique `{QuantityLib} m i j :
  i ∈ managedRedisInstances m → j ∈ managedRedisInstances m → ri_suffix i = ri_suffix j → i = j.
Proof.
  intros Hi Hj Hs. assert (NoDup (map ri_suffix (managedRedisInstances m))) as Hnd.
  { eapply sublist_NoDup; [|apply suffixes_sublist].
    apply (bool_decide_unpack _). by vm_compute. }
  revert Hi Hj Hnd. generalize (managedRedisInstances m) as l.
  induction l as [|x l IH]; cbn [map]; [by intros ?%not_elem_of_nil|].
  rewrite !elem_of_cons, NoDup_cons. intros Hi Hj [Hx Hnd].
  destruct Hi as [->|Hi], Hj as [->|Hj]; [done| | |by apply IH].
  - destruct Hx. rewrite Hs. by apply (list_elem_of_fmap_2 ri_suffix).
  - destruct Hx. rewrite <- Hs. by apply (list_elem_of_fmap_2 ri_suffix).
Qed.
Lemma seen_desired ha desired inst :
  inst ∈ desired → ri_ha inst = ha → seen ha desired (ri_suffix inst) = true.
Proof.
  intros Hi <-. apply existsb_exists. exists inst. split; [by apply list_elem_of_In|].
  by rewrite Bool.eqb_reflx, String.eqb_refl.
Qed.

(** ** Properties *)

(** A request that deletes the data-bearing object of an instance along with its dependents. *)
Definition deletesInstance (m : Misskey) (inst : redisManagedInstance) (r : req) : Prop :=
  match r with
  | DeleteObj KStatefulSet n _ pol =>
      ri_ha inst = false ∧ n = nameRedisInstance m (ri_suffix inst) ∧ pol ≠ Some Orphan
  | DeleteObj (KU _) n _ _ => ri_ha inst = true ∧ n = nameRedisHA m (ri_suffix inst)
  | _ => False
  end.

Section Kept.
Context `{KubeLib} `{QuantityLib} (m : Misskey) (inst : redisManagedInstance).
Let spares (r : req) : Prop := ¬ deletesInstance m inst r.

Lemma spares_deleteStandalone suffix :
  (ri_ha inst = false → suffix ≠ ri_suffix inst) → emits spares (deleteRedisStandalone m suffix).
Proof.
  intros Hs. unfold deleteRedisStandalone. emits_tac; try (by intros []).
  intros (Hha & Hn & _). apply Hs; [done|]. by apply nameRedisInstance_inj in Hn.
Qed.
Lemma spares_deleteHA suffix :
  (ri_ha inst = true → suffix ≠ ri_suffix inst) → emits spares (deleteRedisHA m suffix).
Proof.
  intros Hs. apply emits_forEach. intros gvk _. apply emits_deleteIfExists.
  intros (Hha & Hn). apply Hs; [done|]. by apply nameRedisHA_inj in Hn.
Qed.
Lemma spares_deletePolicy k n ns :
  match k with KStatefulSet | KU _ => False | _ => True end → emits spares (deleteIfExists k n ns).
Proof. intros Hk. apply emits_deleteIfExists. by destruct k; intros []. Qed.
Lemma spares_generated name component key n :
  emits spares (generatedSecret m name component key n).
Proof.
  apply emits_apply; [intros []| |intros o []]. intros live. unfold secretMutate, randomHex.
  destruct (_ || _); [|done]. apply emits_tryBind; [|done]. apply emits_tryBind; [|done].
  split; [intros []|done].
Qed.
Lemma spares_standalone i : emits spares (reconcileRedisStandalone m i).
Proof.
  apply emits_tryBind; [apply emits_apply; [intros []|done|intros o []]|]. intros _.
  apply emits_tryBind; [|intros _; by apply spares_deletePolicy].
  apply (applyStatefulSet_footprint (fun _ => True)); [done| |].
  - intros q Hf Hd. destruct q; try done. destruct k; try done.
    destruct policy as [[]|]; try done. destruct Hd as (_ & _ & Hp). by apply Hp.
  - intros s. apply emits_tryBind; [|done]. apply emits_bind; [split; [intros []|done]|].
    intros [x|e]; [done|]. by destruct (isNotFound e).
Qed.
Lemma spares_policy i : emits spares (reconcileRedisHANetworkPolicy m i).
Proof.
  unfold reconcileRedisHANetworkPolicy. destruct (negb _); [by apply spares_deletePolicy|].
  apply emits_apply; [intros []|done|intros o []].
Qed.
End Kept.

(** A desired instance keeps its data: no run of [reconcileRedis] deletes the StatefulSet of a
    standalone instance it wants with its dependents, nor the custom resources of an HA
    instance it wants, also when another instance changes its mode. *)
Theorem redis_desired_kept `{KubeLib} `{QuantityLib} m h r inst :
  runs (reconcileRedis m) h r → inst ∈ managedRedisInstances m →
  Forall (fun r => ¬ deletesInstance m inst r) (reqs h).
Proof.
  intros Hr Hin. revert Hr. apply emits_runs. unfold reconcileRedis.
  assert (∀ i, i ∈ managedRedisInstances m → ri_ha i ≠ ri_ha inst → ri_suffix i ≠ ri_suffix inst)
    as Huniq by (intros i Hi Hha Hs; apply Hha; f_equal; by apply (instance_unique m)).
  apply emits_tryBind; [destruct (_ <? _)%nat; [apply spares_generated|done]|]. intros _.
  apply emits_tryBind; [apply emits_forEach; intros i Hi|intros _; apply emits_forEach; intros s _].
  - specialize (Huniq i Hi). unfold reconcileInstance. destruct (ri_ha i).
    + apply emits_tryBind; [apply spares_deleteStandalone; intros Hf; apply Huniq; by rewrite Hf|].
      intros _. apply emits_tryBind; [|intros _; apply spares_policy].
      unfold reconcileRedisHA. emits_tac; intros [].
    + apply emits_tryBind; [apply spares_deleteHA; intros Hf; apply Huniq; by rewrite Hf|].
      intros _. apply emits_tryBind; [by apply spares_deletePolicy|]. intros _.
      apply spares_standalone.
  - unfold cleanupSuffix. apply emits_tryBind; [|intros _].
    + destruct (seen false _ s) eqn:E; [done|]. apply spares_deleteStandalone. intros Hf ->.
      by rewrite seen_desired in E.
    + destruct (seen true _ s) eqn:E; [done|]. apply emits_tryBind; [|intros _; by apply spares_deletePolicy].
      apply spares_deleteHA. intros Hf ->. by rewrite seen_desired in E.
Qed.

(** Nothing of an instance that is not wanted in a mode is left after a completed run. *)
Definition cleaned (m : Misskey) (desired : list redisManagedInstance) (suffix : string)
    (h : history) : Prop :=
  (seen false desired suffix = false →
     removed KStatefulSet (nameRedisInstance m suffix) (m_Namespace m) h
     ∧ removed KService (nameRedisInstance m suffix) (m_Namespace m) h
     ∧ removed KNetworkPolicy (nameRedisInstance m suffix) (m_Namespace m) h)
  ∧ (seen true desired suffix = false →
     removed (KU redisReplicationGVK) (nameRedisHA m suffix) (m_Namespace m) h
     ∧ removed (KU redisSentinelGVK) (nameRedisHA m suffix) (m_Namespace m) h
     ∧ removed KNetworkPolicy (nameRedisHA m suffix) (m_Namespace m) h).

Lemma deleteStandalone_wp m s h0 :
  wp (deleteRedisStandalone m s) (fun h r => r = Ok tt →
     removed KStatefulSet (nameRedisInstance m s) (m_Namespace m) h
     ∧ removed KService (nameRedisInstance m s) (m_Namespace m) h
     ∧ removed KNetworkPolicy (nameRedisInstance m s) (m_Namespace m) h) h0.
Proof.
  unfold deleteRedisStandalone. apply wp_tryBind. eapply wp_mono, deleteIfExists_wp.
  intros h1 [[]|e] H1; [|done]. apply wp_tryBind, wp_prefix. eapply wp_mono, deleteIfExists_wp.
  intros h2 [[]|e] H2 [h2' ->]; [|done]. apply wp_tryBind, wp_prefix. eapply wp_mono, deleteIfExists_wp.
  intros h3 [[]|e] H3 [h3' ->]; [|done]. intros _. split_and!; auto using removed_app.
Qed.
Lemma deleteHA_wp m s h0 :
  wp (deleteRedisHA m s) (fun h r => r = Ok tt →
     removed (KU redisReplicationGVK) (nameRedisHA m s) (m_Namespace m) h
     ∧ removed (KU redisSentinelGVK) (nameRedisHA m s) (m_Namespace m) h) h0.
Proof.
  eapply wp_mono, (wp_forEach_all (fun g h => removed (KU g) (nameRedisHA m s) (m_Namespace m) h)).
  - intros h r Hr Hok. specialize (Hr Hok). split; apply Hr; set_solver.
  - intros; by apply removed_app.
  - intros g h _. apply deleteIfExists_wp.
Qed.
Lemma cleanupSuffix_wp m desired s h0 :
  wp (cleanupSuffix m desired s) (fun h r => r = Ok tt → cleaned m desired s h) h0.
Proof.
  unfold cleanupSuffix. apply wp_tryBind.
  apply (wp_mono _ (fun h r => r = Ok tt → seen false desired s = false →
     removed KStatefulSet (nameRedisInstance m s) (m_Namespace m) h
     ∧ removed KService (nameRedisInstance m s) (m_Namespace m) h
     ∧ removed KNetworkPolicy (nameRedisInstance m s) (m_Namespace m) h)).
  2:{ destruct (seen false desired s); [done|]. eapply wp_mono, deleteStandalone_wp. auto. }
  intros h1 [[]|e] H1; [|done]. specialize (H1 eq_refl).
  destruct (seen true desired s) eqn:E; [intros _; split; [done|congruence]|].
  apply wp_tryBind, wp_prefix. eapply wp_mono, deleteHA_wp. intros h2 [[]|e] H2 [h2' ->]; [|done].
  apply wp_prefix. eapply wp_mono, deleteIfExists_wp. intros h3 r H3 [h3' ->] ->.
  specialize (H2 eq_refl). split; intros Hs.
  - destruct (H1 Hs) as (? & ? & ?). split_and!; by do 2 apply removed_app.
  - destruct H2 as (? & ?). split_and!; [by apply removed_app..|by apply H3].
Qed.

(** A completed [reconcileRedis] has removed, for every suffix there can be, the objects of
    the modes it does not want. *)
Theorem redis_undesired_removed `{KubeLib} `{QuantityLib} m h :
  runs (reconcileRedis m) h (Ok tt) →
  ∀ suffix, suffix ∈ allRedisSuffixes → cleaned m (managedRedisInstances m) suffix h.
Proof.
  apply (wp_result _ (fun h => ∀ suffix, suffix ∈ allRedisSuffixes →
    cleaned m (managedRedisInstances m) suffix h)). unfold reconcileRedis.
  apply wp_tryBind, wp_any. intros h1 [[]|e]; [|done].
  apply wp_tryBind, wp_any. intros h2 [[]|e]; [|done].
  apply wp_forEach_all.
  - intros s h' h'' [Ha Hb]. split; intros Hs.
    + destruct (Ha Hs) as (? & ? & ?). split_and!; by apply removed_app.
    + destruct (Hb Hs) as (? & ? & ?). split_and!; by apply removed_app.
  - intros s h' _. apply cleanupSuffix_wp.
Qed.
