(* ===== verification/Postgres.v ===== *)
(** * PostgreSQL: postgres.go and backupverify.go

    The CNPG Cluster of a managed database, its scheduled backup and poolers, and the
    periodic restore test of the backups in a throw-away Cluster. *)
From S2P Require Export Migration.
Local Open Scope string_scope.
Local Open Scope Z_scope.
Local Open Scope list_scope.

Definition recoveryOriginName : string := "origin".
Definition defaultPostgresImage : string := "ghcr.io/cloudnative-pg/postgresql:17".

(** [if v != "" { o[k] = v }] as a list of fields. *)
Definition optField (k v : string) : list (string * json) :=
  if String.eqb v "" then [] else [(k, JStr v)].
(** [if p != nil && *p != "" ] *)
Definition optPtrField (k : string) (v : option string) : list (string * json) :=
  optField k (deref "" v).

Definition selectorJSON (s : SecretKeySelector) : json :=
  JObj [("name", JStr (sel_Name s)); ("key", JStr (sel_Key s))].
Definition s3CredentialsMap (c : S3Credentials) : json :=
  JObj [("accessKeyId", selectorJSON (s3_AccessKeyID c));
        ("secretAccessKey", selectorJSON (s3_SecretAccessKey c))].
Definition s3Field (c : option S3Credentials) : list (string * json) :=
  match c with Some c => [("s3Credentials", s3CredentialsMap c)] | None => [] end.

(** The recovery bootstrap and the archive it reads. *)
Definition recoveryFields (pg : PostgresSpec) (rec : PostgresRecovery) : list (string * json) :=
  [("bootstrap", JObj [("recovery", JObj (
      [("source", JStr recoveryOriginName);
       ("database", JStr (stringOr (pg_Database pg) "misskey"));
       ("owner", JStr (stringOr (pg_Owner pg) "misskey"))] ++
      (if String.eqb (rec_TargetTime rec) "" then []
       else [("recoveryTarget", JObj [("targetTime", JStr (rec_TargetTime rec))])])))]);
   ("externalClusters", JArr [JObj [("name", JStr recoveryOriginName);
      ("barmanObjectStore", JObj (
        [("destinationPath", JStr (rs_DestinationPath (rec_Source rec)));
         ("serverName", JStr (rs_ServerName (rec_Source rec)));
         ("wal", JObj [("maxParallel", JInt 8)])] ++
        optField "endpointURL" (rs_EndpointURL (rec_Source rec)) ++
        s3Field (rs_S3Credentials (rec_Source rec))))]])].

(** The initdb bootstrap, with the import of an existing database when asked for. *)
Definition importSourceJSON (imp : ImportSource) : json :=
  JObj [("name", JStr recoveryOriginName);
        ("connectionParameters", JObj [
           ("host", JStr (imp_Host imp)); ("port", JStr (itoa (int32OrDefault (imp_Port imp) 5432)));
           ("user", JStr (imp_User imp)); ("dbname", JStr (imp_Database imp));
           ("sslmode", JStr (stringOr (imp_SSLMode imp) "prefer"))]);
        ("password", selectorJSON (imp_PasswordSecret imp))].
Definition initdbFields (m : Misskey) : list (string * json) :=
  let pg := spec_Postgres (m_Spec m) in
  let base := [("database", JStr (stringOr (pg_Database pg) "misskey"));
               ("owner", JStr (stringOr (pg_Owner pg) "misskey"))] ++
    (if String.eqb (search_Provider (spec_Search (m_Spec m))) SearchSQLPgroonga
     then [("postInitApplicationSQL", JArr [JStr "CREATE EXTENSION IF NOT EXISTS pgroonga"])]
     else []) in
  match pg_Import pg with
  | None => [("bootstrap", JObj [("initdb", JObj base)])]
  | Some imp =>
      [("externalClusters", JArr [importSourceJSON (import_Source imp)]);
       ("bootstrap", JObj [("initdb", JObj (base ++
          [("import", JObj [("type", JStr "microservice");
              ("databases", JArr [JStr (imp_Database (import_Source imp))]);
              ("source", JObj [("externalCluster", JStr recoveryOriginName)])])]))])]
  end.

(** The archive of the backups. *)
Definition backupFields (b : option PostgresBackup) : list (string * json) :=
  match b with
  | None => []
  | Some b =>
      [("backup", JObj [
         ("barmanObjectStore", JObj (
            [("destinationPath", JStr (bk_DestinationPath b));
             ("wal", JObj [("compression", JStr "gzip")]);
             ("data", JObj [("compression", JStr "gzip")])] ++
            optField "endpointURL" (bk_EndpointURL b) ++
            optField "serverName" (bk_ServerName b) ++
            s3Field (bk_S3Credentials b)));
         ("retentionPolicy", JStr (stringOr (bk_RetentionPolicy b) "30d"))])]
  end.

Section Postgres.
Context `{KubeLib} `{QuantityLib}.

(** [res, err := ToUnstructured(r); err == nil && len(res) > 0] *)
Definition resourceFields (r : ResourceRequirements) : list (string * json) :=
  match resourcesToUnstructured r with
  | Ok [] | Err _ => []
  | Ok fields => fields
  end.

Definition storageJSON (pg : PostgresSpec) : json :=
  JObj ([("size", JStr (qty_String (quantityOr (pg_Storage pg) "20Gi")))] ++
        optPtrField "storageClass" (pg_StorageClassName pg)).

Definition buildDBCluster (m : Misskey) : Unstructured :=
  let pg := spec_Postgres (m_Spec m) in
  unstructuredWith cnpgClusterGVK (nameDB m) (m_Namespace m) (labelsFor m "postgres")
    (JObj (
      [("instances", JInt (int32OrDefault (pg_Instances pg) 1));
       ("imageName", JStr (stringOr (pg_Image pg) defaultPostgresImage));
       ("inheritedMetadata", JObj [("labels", jmap (labelsFor m "postgres"))]);
       ("storage", storageJSON pg)] ++
      match pg_Recovery pg with
      | Some rec => recoveryFields pg rec
      | None => initdbFields m
      end ++
      (if (0 <? size (pg_Parameters pg))%nat
       then [("postgresql", JObj [("parameters", jmap (pg_Parameters pg))])] else []) ++
      match resourceFields (pg_Resources pg) with
      | [] => []
      | fields => [("resources", JObj fields)]
      end ++
      backupFields (pg_Backup pg))).

(** [b] is [m.Spec.Postgres.Backup], which the caller has checked. *)
Definition buildDBScheduledBackup (m : Misskey) (b : PostgresBackup) : Unstructured :=
  unstructuredWith cnpgScheduledBackupGVK (nameDB m) (m_Namespace m) (labelsFor m "postgres")
    (JObj [("schedule", JStr (bk_Schedule b)); ("backupOwnerReference", JStr "self");
           ("cluster", JObj [("name", JStr (nameDB m))])]).

Definition reconcilePostgres (m : Misskey) : rprog unit :=
  do applySSA m (buildDBCluster m);
  match pg_Backup (spec_Postgres (m_Spec m)) with
  | None => ok tt
  | Some b =>
      if String.eqb (bk_Schedule b) "" then ok tt else applySSA m (buildDBScheduledBackup m b)
  end.

(** ** Poolers *)

Definition poolerDefaults : gmap string string :=
  list_to_map [
    ("max_client_conn", "1000"); ("default_pool_size", "25");
    ("ignore_startup_parameters",
     "statement_timeout,extra_float_digits,search_path,options,idle_in_transaction_session_timeout")].
(** [pc] is [m.Spec.Postgres.Pooler], which the callers have checked. *)
Definition buildPooler (m : Misskey) (pc : PostgresPooler) (name poolerType : string) : Unstructured :=
  unstructuredWith cnpgPoolerGVK name (m_Namespace m) (labelsFor m "postgres-pooler")
    (JObj [("cluster", JObj [("name", JStr (nameDB m))]);
           ("instances", JInt (int32OrDefault (pool_Instances pc) 2));
           ("type", JStr poolerType);
           ("template", JObj (
              [("metadata", JObj [("labels", jmap (labelsFor m "postgres-pooler"))])] ++
              match resourceFields (pool_Resources pc) with
              | [] => []
              | fields => [("spec", JObj [("containers", JArr [JObj [
                   ("name", JStr "pgbouncer"); ("resources", JObj fields)]])])]
              end));
           ("pgbouncer", JObj [
              ("poolMode", JStr (stringOr (pool_PoolMode pc) "transaction"));
              ("parameters", jmap (pool_Parameters pc ∪ poolerDefaults))])]).

Definition deletePooler (m : Misskey) (name : string) : rprog unit :=
  deleteIfExists (KU cnpgPoolerGVK) name (m_Namespace m).

Definition reconcilePoolers (m : Misskey) : rprog unit :=
  match pg_Pooler (spec_Postgres (m_Spec m)) with
  | Some pc =>
      do applySSA m (buildPooler m pc (nameDBPoolerRW m) "rw");
      if readOffloadActive m then applySSA m (buildPooler m pc (nameDBPoolerRO m) "ro")
      else deletePooler m (nameDBPoolerRO m)
  | None =>
      do deletePooler m (nameDBPoolerRW m);
      deletePooler m (nameDBPoolerRO m)
  end.

(** ** Restore tests (backupverify.go) *)

Definition backupVerifyDue (m : Misskey) (interval now : Z) : bool :=
  match st_BackupVerification (m_Status m) with
  | None => true
  | Some v => if time_IsZero (bvs_LastVerifiedTime v) then true
              else interval <=? time_Sub now (bvs_LastVerifiedTime v)
  end.

(** [b] is [m.Spec.Postgres.Backup], which the caller has checked. *)
Definition buildDBVerifyCluster (m : Misskey) (b : PostgresBackup) : Unstructured :=
  let pg := spec_Postgres (m_Spec m) in
  unstructuredWith cnpgClusterGVK (nameDBVerify m) (m_Namespace m) (labelsFor m "postgres-verify")
    (JObj
      [("instances", JInt 1);
       ("imageName", JStr (stringOr (pg_Image pg) defaultPostgresImage));
       ("inheritedMetadata", JObj [("labels", jmap (labelsFor m "postgres-verify"))]);
       ("storage", storageJSON pg);
       ("bootstrap", JObj [("recovery", JObj [("source", JStr recoveryOriginName)])]);
       ("externalClusters", JArr [JObj [("name", JStr recoveryOriginName);
          ("barmanObjectStore", JObj (
            [("destinationPath", JStr (bk_DestinationPath b));
             ("serverName", JStr (stringOr (bk_ServerName b) (nameDB m)));
             ("wal", JObj [("maxParallel", JInt 8)])] ++
            optField "endpointURL" (bk_EndpointURL b) ++
            s3Field (bk_S3Credentials b)))]])]).

Definition deleteVerifyCluster (m : Misskey) : rprog unit :=
  deleteIfExists (KU cnpgClusterGVK) (nameDBVerify m) (m_Namespace m).

Definition withVerification (v : BackupVerificationStatus) (m : Misskey) : Misskey :=
  set_m_Status (set_st_BackupVerification (Some v) (m_Status m)) m.

(** The status writer and the object as the rest of the reconcile sees it. *)
Definition recordBackupVerification (m : Misskey) (v : BackupVerificationStatus)
    : prog (Misskey * result error unit) :=
  let! r := retryOnConflict (
    try cur := send (Get KMisskey (m_Name m) (m_Namespace m)) in
    send (StatusUpdate KMisskey (withVerification v cur))) in
  match r with
  | Ok cur =>
      Ret (set_m_Status (set_st_BackupVerification (st_BackupVerification (m_Status cur))
                           (m_Status m)) m, Ok tt)
  | Err e => Ret (m, Err e)
  end.

(** A finished test: the result is recorded, announced, and the Cluster deleted. *)
Definition finishVerify (m : Misskey) (v : BackupVerificationStatus)
    (etype reason note : string) : prog (Misskey * result error unit) :=
  let! r := recordBackupVerification m v in
  match r with
  | (m', Err e) => Ret (m', Err e)
  | (m', Ok _) =>
      let! _ := event_ etype reason "VerifyBackup" note in
      let! d := deleteVerifyCluster m in
      Ret (m', d)
  end.

Definition verifyInterval (v : BackupVerify) : Z :=
  if bv_Interval v <=? 0 then 168 * Hour else bv_Interval v.
Definition verifyTimeout (v : BackupVerify) : Z :=
  if bv_Timeout v <=? 0 then 30 * Minute else bv_Timeout v.

Definition reconcileBackupVerify (m : Misskey) : prog (Misskey * result error unit) :=
  match pg_Backup (spec_Postgres (m_Spec m)) with
  | Some b =>
      match bk_Verify b with
      | Some vs =>
          let! r := send (Get (KU cnpgClusterGVK) (nameDBVerify m) (m_Namespace m)) in
          match r with
          | Err e =>
              if negb (isNotFound e) then Ret (m, Err e)
              else
                let! now := send Now in
                if negb (backupVerifyDue m (verifyInterval vs) now) then Ret (m, Ok tt)
                else
                  let! a := applySSA m (buildDBVerifyCluster m b) in
                  match a with
                  | Err e => Ret (m, Err e)
                  | Ok _ =>
                      let! _ := event_ "Normal" "BackupVerifyStarted" "VerifyBackup"
                        ("created restore test cluster " +:+ nameDBVerify m) in
                      Ret (m, Ok tt)
                  end
          | Ok cluster =>
              let! now := send Now in
              let timeout := verifyTimeout vs in
              if 1 <=? nestedInt64 (u_Object cluster) ["status"; "readyInstances"] then
                finishVerify m
                  (mkBackupVerification now "Succeeded" "restore test cluster became ready")
                  "Normal" "BackupVerified"
                  ("restore test from " +:+ bk_DestinationPath b +:+ " succeeded")
              else if timeout <? time_Sub now (om_CreationTimestamp (u_Meta cluster)) then
                let msg := "restore test cluster not ready within " +:+ durationString timeout in
                finishVerify m (mkBackupVerification now "Failed" msg)
                  "Warning" "BackupVerifyFailed" msg
              else Ret (m, Ok tt)
          end
      | None => let! d := deleteVerifyCluster m in Ret (m, d)
      end
  | None => let! d := deleteVerifyCluster m in Ret (m, d)
  end.
End Postgres.

(** ** The poolers of the configuration exist *)

Definition planHosts (p : plan) : list string := p_dbHost p :: map dbe_host (p_dbSlaves p).

Lemma planHosts_managed m :
  pg_External (spec_Postgres (m_Spec m)) = None →
  planHosts (resolve m) =
    (if poolerEnabled m then nameDBPoolerRW m else nameDBService m) ::
    (if readOffloadActive m
     then [if poolerEnabled m then nameDBPoolerRO m else nameDBReadService m] else []).
Proof.
  intros He. unfold planHosts, resolve, resolveDB. rewrite He.
  destruct (resolveSearch m) as [[[[[[[]]]]]]], (resolveDetector m) as [[[[]]]],
    (resolveSetup m) as [[]].
  by destruct (readOffloadActive m).
Qed.

Lemma pooler_name_neq m a b : a ≠ b → nameDB m +:+ a ≠ nameDB m +:+ b.
Proof. intros Hn H. by apply sapp_inj_l in H. Qed.

(** Every host of the list is a service of the CNPG Cluster or an applied pooler, and the
    poolers that are not in the list are gone. *)
Definition poolersMatch `{KubeLib} (m : Misskey) (hosts : list string) (h : history) : Prop :=
  (∀ host, host ∈ hosts →
     host = nameDBService m ∨ host = nameDBReadService m
     ∨ ∃ pc ty, pg_Pooler (spec_Postgres (m_Spec m)) = Some pc ∧ applied m (buildPooler m pc host ty) h)
  ∧ ∀ host, host ∈ [nameDBPoolerRW m; nameDBPoolerRO m] → host ∉ hosts →
     removed (KU cnpgPoolerGVK) host (m_Namespace m) h.

(** C35. The database hosts that enter the configuration are services of the CNPG Cluster or
    poolers that [reconcilePoolers] has applied, and a pooler the configuration does not name
    has been removed: the two agree on read offload and on pooling. *)
Theorem poolers_match_plan `{KubeLib} m h :
  pg_External (spec_Postgres (m_Spec m)) = None → runs (reconcilePoolers m) h (Ok tt) →
  poolersMatch m (planHosts (resolve m)) h.
Proof.
  intros He. rewrite (planHosts_managed m He). unfold reconcilePoolers, poolerEnabled.
  apply (wp_result _ (poolersMatch m _)).
  destruct (pg_Pooler (spec_Postgres (m_Spec m))) as [pc|] eqn:Ep; apply wp_tryBind.
  - eapply wp_mono, applySSA_wp. intros h1 [[]|e] H1; [|done]. specialize (H1 eq_refl).
    destruct (readOffloadActive m).
    + apply wp_prefix. eapply wp_mono, applySSA_wp. intros h2 r2 H2 [h2' ->] ->.
      specialize (H2 eq_refl). split; [|intros host Hh Hn; set_solver].
      intros host Hh. right; right. exists pc. set_unfold in Hh.
      destruct Hh as [->|[->|[]]]; eexists; split; eauto using applied_app.
    + apply wp_prefix. eapply wp_mono, deleteIfExists_wp. intros h2 r2 H2 [h2' ->] ->.
      specialize (H2 eq_refl). split.
      * intros host Hh. right; right. exists pc. set_unfold in Hh.
        destruct Hh as [->|[]]. eexists; split; eauto using applied_app.
      * intros host Hh Hn. set_unfold in Hh. destruct Hh as [->|[->|[]]]; [set_solver|done].
  - eapply wp_mono, deleteIfExists_wp. intros h1 [[]|e] H1; [|done].
    specialize (H1 eq_refl). apply wp_prefix. eapply wp_mono, deleteIfExists_wp.
    intros h2 r2 H2 [h2' ->] ->. specialize (H2 eq_refl). split.
    + intros host Hh. destruct (readOffloadActive m); set_unfold in Hh; intuition.
    + intros host Hh Hn. set_unfold in Hh. destruct Hh as [->|[->|[]]]; [by apply removed_app|done].
Qed.

(** ** Restore tests touch only their own Cluster *)

Definition verifyFootprint (m : Misskey) (r : req) : Prop :=
  match r with
  | Get _ _ _ | Now | Event _ _ _ _ | StatusUpdate KMisskey _ => True
  | Apply u => u_GVK u = cnpgClusterGVK ∧ nested (u_Object u) ["spec"; "backup"] = None
  | DeleteObj k n ns _ =>
      k = KU cnpgClusterGVK ∧ n = nameDBVerify m ∧ n ≠ nameDB m ∧ ns = m_Namespace m
  | _ => False
  end.

Lemma nameDBVerify_neq m : nameDBVerify m ≠ nameDB m.
Proof.
  unfold nameDBVerify. intros H. apply (f_equal String.length) in H. rewrite slen_app in H.
  simpl in H. lia.
Qed.

Section Verify.
Context `{KubeLib} `{QuantityLib}.

Lemma emits_deleteVerify m : emits (verifyFootprint m) (deleteVerifyCluster m).
Proof.
  apply emits_deleteIfExists. split_and!; [done|done|apply nameDBVerify_neq|done].
Qed.
Lemma emits_record P m v :
  P (Get KMisskey (m_Name m) (m_Namespace m)) → (∀ o, P (StatusUpdate KMisskey o)) →
  emits P (recordBackupVerification m v).
Proof.
  intros Hg Hs. apply emits_bind; [|by intros [u|e]]. apply emits_retry.
  apply emits_tryBind; [by split|]. intros cur. by split.
Qed.
Lemma emits_finish m v a b c : emits (verifyFootprint m) (finishVerify m v a b c).
Proof.
  apply emits_bind; [by apply emits_record|]. intros [m' [u|e]]; [|done].
  apply emits_bind; [by split|]. intros _. apply emits_bind; [apply emits_deleteVerify|done].
Qed.

(** A restore test writes nothing but its own throw-away Cluster, which never archives into
    the backups it reads, and the status of the instance. *)
Theorem verify_isolated m h r :
  runs (reconcileBackupVerify m) h r → Forall (verifyFootprint m) (reqs h).
Proof.
  apply emits_runs. unfold reconcileBackupVerify.
  destruct (pg_Backup _) as [b|]; [|apply emits_bind; [apply emits_deleteVerify|done]].
  destruct (bk_Verify b) as [vs|]; [|apply emits_bind; [apply emits_deleteVerify|done]].
  apply emits_bind; [by split|]. intros [cluster|e].
  - apply emits_bind; [by split|]. intros now. cbv zeta.
    destruct (1 <=? _); [apply emits_finish|]. destruct (_ <? _); [apply emits_finish|done].
  - destruct (negb (isNotFound e)); [done|]. apply emits_bind; [by split|]. intros now.
    destruct (negb _); [done|]. apply emits_bind; [|intros [u|e']; [|done]].
    + apply emits_applySSA. intros om. by split.
    + apply emits_bind; [by split|done].
Qed.

(** The result [v] of a restore test was written to the status. *)
Definition recorded (v : BackupVerificationStatus) (h : history) : Prop :=
  ∃ cur x, ev (StatusUpdate KMisskey (withVerification v cur)) (Ok x) ∈ h.

Lemma retryLoop_wp {A} (E : history → Prop) n (f : rprog A) h0 :
  (∀ h, wp f (fun h r => ∀ a, r = Ok a → E h) h) →
  wp (retryLoop n f) (fun h r => ∀ a, r = Ok a → E h) h0.
Proof.
  intros Hf. revert h0. induction n as [|n IH]; intros h0; cbn [retryLoop]; [done|].
  apply wp_bind. eapply wp_mono, Hf. intros h1 [a|e] H1; [intros b _; by apply (H1 a)|].
  by destruct (isConflict e).
Qed.
Lemma record_wp m v h0 :
  wp (recordBackupVerification m v) (fun h x => x.2 = Ok tt → recorded v h) h0.
Proof.
  unfold recordBackupVerification. apply wp_bind. eapply wp_mono.
  2:{ apply (retryLoop_wp (recorded v)). intros h. apply wp_tryBind, wp_send.
      intros [cur|e]; [|done]. apply wp_send. intros [x|e]; [|done].
      intros _ _. exists cur, x. set_solver. }
  intros h1 [a|e] H1; [|done]. intros _. by apply (H1 a).
Qed.

(** What a restore test may claim: success only for a Cluster that was seen ready, failure
    only for one that was seen after its time was up. *)
Definition verdict (m : Misskey) (vs : BackupVerify) (v : BackupVerificationStatus)
    (h : history) : Prop :=
  ∃ cluster now, ev (Get (KU cnpgClusterGVK) (nameDBVerify m) (m_Namespace m)) (Ok cluster) ∈ h
    ∧ ev Now now ∈ h ∧ bvs_LastVerifiedTime v = now
    ∧ (bvs_Result v = "Succeeded" ∧ 1 <= nestedInt64 (u_Object cluster) ["status"; "readyInstances"]
       ∨ bvs_Result v = "Failed" ∧ nestedInt64 (u_Object cluster) ["status"; "readyInstances"] < 1
         ∧ verifyTimeout vs < time_Sub now (om_CreationTimestamp (u_Meta cluster))).
Definition deletes (r : req) : Prop := match r with DeleteObj _ _ _ _ => True | _ => False end.

Lemma finish_wp m vs v a b c h0 :
  verdict m vs v h0 → Forall (fun r => ¬ deletes r) (reqs h0) →
  wp (finishVerify m v a b c) (fun h _ => Exists deletes (reqs h) →
    ∃ v, recorded v h ∧ verdict m vs v h) h0.
Proof.
  intros Hv Hn.
  assert (∀ h, verdict m vs v (h0 ++ h)) as Hv'.
  { intros h. destruct Hv as (cl & now & H1 & H2 & H3). exists cl, now.
    split; [in_hist|]. split; [in_hist|done]. }
  unfold finishVerify. apply wp_bind. apply wp_runs. intros h1 [m' x] Hr1.
  pose proof (record_wp m v h0) as Hw. rewrite wp_runs in Hw. specialize (Hw _ _ Hr1).
  assert (Forall (fun r => ¬ deletes r) (reqs h1)) as H1.
  { eapply emits_runs, Hr1. apply emits_record; [intros []|intros o []]. }
  destruct x as [[]|e].
  - destruct (Hw eq_refl) as (cur & y & Hrec).
    apply wp_bind, wp_any. intros h2 u. apply wp_bind, wp_any. intros h3 d _.
    exists v. split; [exists cur, y; in_hist|]. rewrite <- !app_assoc. apply Hv'.
  - intros He. exfalso. rewrite reqs_app in He. apply Exists_app in He as [He|He];
      apply Exists_exists in He as (q & Hq & Hd); rewrite Forall_forall in *; firstorder.
Qed.

(** While restore tests are configured, the test Cluster is deleted only after its result
    has been recorded, and the result is the one the Cluster showed. *)
Theorem verify_recorded m b vs h r :
  pg_Backup (spec_Postgres (m_Spec m)) = Some b → bk_Verify b = Some vs →
  runs (reconcileBackupVerify m) h r → Exists deletes (reqs h) →
  ∃ v, recorded v h ∧ verdict m vs v h.
Proof.
  intros Hb Hvs. apply (proj1 (wp_runs _ (fun h _ => Exists deletes (reqs h) →
    ∃ v, recorded v h ∧ verdict m vs v h) [])).
  assert (∀ h : history, Forall (fun r => ¬ deletes r) (reqs h) → Exists deletes (reqs h) → False)
    as Hno.
  { intros h' Hf He. apply Exists_exists in He as (x & Hx & Hd).
    rewrite Forall_forall in Hf. by destruct (Hf x Hx). }
  unfold reconcileBackupVerify. rewrite Hb, Hvs.
  apply wp_bind, wp_send. intros [cluster|e].
  - apply wp_bind, wp_send. intros now. cbv zeta.
    assert (Forall (fun r => ¬ deletes r) (reqs (([] ++ [ev (Get (KU cnpgClusterGVK) (nameDBVerify m)
      (m_Namespace m)) (Ok cluster)]) ++ [ev Now now]))) as Hf
      by (repeat constructor; intros []).
    destruct (Z.leb_spec 1 (nestedInt64 (u_Object cluster) ["status"; "readyInstances"])) as [Hr|Hr].
    { apply finish_wp; [|done]. exists cluster, now. split_and!; [set_solver|set_solver|done|by left]. }
    destruct (Z.ltb_spec (verifyTimeout vs) (time_Sub now (om_CreationTimestamp (u_Meta cluster))))
      as [Ht|Ht].
    { apply finish_wp; [|done]. exists cluster, now. split_and!; [set_solver|set_solver|done|by right]. }
    intros He. by destruct (Hno _ Hf He).
  - apply (wp_emits (fun r => ¬ deletes r)).
    + destruct (negb (isNotFound e)); [done|]. apply emits_bind; [split; [intros []|done]|].
      intros now. destruct (negb _); [done|]. apply emits_bind; [|intros [u|e']; [|done]].
      * apply emits_applySSA. intros om [].
      * apply emits_bind; [split; [intros []|done]|done].
    + intros h' a Hf He. exfalso. apply (Hno _ Hf). rewrite reqs_app in He.
      apply Exists_app in He as [He|He]; [|done]. exfalso.
      apply Exists_exists in He as (q & Hq & Hd). cbn in Hq. apply elem_of_cons in Hq as [->|Hq]; [done|by apply not_elem_of_nil in Hq].
Qed.
End Verify.
