(* ===== verification/Digest.v ===== *)
(** * The digest resolver: imagedigest.go

    Images are pinned to the digest a registry reports, through a cache that both controllers
    share.  The cache is keyed by the image and by the pull Secrets of the caller. *)
From S2P Require Export Kube.
Local Open Scope string_scope.
Local Open Scope Z_scope.
Local Open Scope list_scope.

Definition digestResolveTTL : Z := 5 * Minute.
Definition maxCacheEntries : nat := 1024.

Definition nul : string := String "000" "".
Definition cacheKey (image keyID : string) : string := image +:+ nul +:+ keyID.

(** The state of a [DigestResolver]. *)
Abbreviation cache := (gmap string digestEntry).

(** ** Eviction *)

(** The oldest entry of a list: the key of the first minimum. *)
Fixpoint oldest (l : list (string * digestEntry)) (best : option (string * digestEntry))
    : option (string * digestEntry) :=
  match l with
  | [] => best
  | (k, e) :: l =>
      match best with
      | None => oldest l (Some (k, e))
      | Some (_, b) =>
          if d_resolvedAt e <? d_resolvedAt b then oldest l (Some (k, e)) else oldest l best
      end
  end.

(** [evictLocked]; [clock k] is what the clock shows when the loop looks at the entry [k]. *)
Definition expiredAt (clock : string → Z) (k : string) (e : digestEntry) : bool :=
  digestResolveTTL <=? time_Sub (clock k) (d_resolvedAt e).
Definition evictLocked (clock : string → Z) (c : cache) : cache :=
  if (size c <? maxCacheEntries)%nat then c
  else
    let c := filter (fun '(k, e) => expiredAt clock k e = false) c in
    if (size c <? maxCacheEntries)%nat then c
    else match oldest (map_to_list c) None with
         | Some (k, _) => delete k c
         | None => c
         end.
(** The second critical section of [Pinned], at the time [now]. *)
Definition cacheStore (clock : string → Z) (now : Z) (key digest : string) (c : cache) : cache :=
  <[key := mkDigest digest now]> (evictLocked clock c).

(** ** Resolution *)

Section Resolver.
Context `{KubeLib}.

Definition registryHead (image : string) (keychain : option (list Secret)) : rprog string :=
  match parseReference image with
  | Err e => fail (wrapErr ("parse image " +:+ goQuote image) e)
  | Ok _ =>
      let! r := send (RemoteHead image keychain) in
      match r with
      | Err e => fail (wrapErr ("resolve digest of " +:+ goQuote image) e)
      | Ok d => ok d
      end
  end.

(** [time.Since(t)] *)
Definition since (t : Z) : prog Z := let! now := send Now in Ret (time_Sub now t).

Definition Pinned (image : string) (keychain : option (list Secret)) (keyID : string)
    : rprog string :=
  if contains image "@" then ok image
  else
    let key := cacheKey image keyID in
    let! entry := send (CacheLoad key) in
    let! fresh :=
      match entry with
      | Some e => let! d := since (d_resolvedAt e) in Ret (d <? digestResolveTTL)
      | None => Ret false
      end in
    match entry, fresh with
    | Some e, true => ok (image +:+ "@" +:+ d_digest e)
    | _, _ =>
        let! r := registryHead image keychain in
        match r with
        | Err err =>
            match entry with
            | Some e => ok (image +:+ "@" +:+ d_digest e)
            | None => fail err
            end
        | Ok digest =>
            let! _ := send (CacheStore key digest) in
            ok (image +:+ "@" +:+ digest)
        end
    end.
End Resolver.

(** ** Eviction makes room *)

Lemma oldest_some l b : is_Some b → is_Some (oldest l b).
Proof.
  revert b. induction l as [|[k e] l IH]; intros b [[k' b'] ->]; simpl; [by eexists|].
  destruct (_ <? _); apply IH; by eexists.
Qed.
Lemma oldest_in l b k e :
  oldest l b = Some (k, e) → (k, e) ∈ l ∨ b = Some (k, e).
Proof.
  revert b. induction l as [|[k' e'] l IH]; intros b; simpl; [by right|].
  destruct b as [[k2 e2]|].
  - destruct (_ <? _); intros [Hin|Hb]%IH.
    + left. by right.
    + left. injection Hb as -> ->. left.
    + left. by right.
    + by right.
  - intros [Hin|Hb]%IH; left; [by right|]. injection Hb as -> ->. left.
Qed.

(** Eviction only removes entries, and leaves room for one more. *)
Lemma evictLocked_subseteq clock c : evictLocked clock c ⊆ c.
Proof.
  unfold evictLocked. destruct (size c <? _)%nat; [done|].
  set (c' := filter _ c). assert (c' ⊆ c) as Hs by apply map_filter_subseteq.
  destruct (size c' <? _)%nat; [done|]. destruct (oldest _ None) as [[k e]|]; [|done].
  etrans; [apply delete_subseteq|done].
Qed.
Lemma evictLocked_room clock c :
  (size c <= maxCacheEntries)%nat → (size (evictLocked clock c) < maxCacheEntries)%nat.
Proof.
  intros Hc. unfold evictLocked. destruct (Nat.ltb_spec (size c) maxCacheEntries); [done|].
  set (c' := filter _ c).
  assert (size c' ≤ size c)%nat as Hs by (apply map_subseteq_size, map_filter_subseteq).
  destruct (Nat.ltb_spec (size c') maxCacheEntries) as [|Hge]; [done|].
  assert (is_Some (oldest (map_to_list c') None)) as [[k e] E].
  { destruct (map_to_list c') as [|[k e] l] eqn:El.
    - apply (f_equal length) in El. rewrite length_map_to_list in El. simpl in El.
      unfold maxCacheEntries in *. lia.
    - simpl. apply oldest_some. by eexists. }
  rewrite E. apply oldest_in in E as [Hin|]; [|done].
  apply elem_of_map_to_list in Hin.
  rewrite map_size_delete_Some by eauto. unfold maxCacheEntries in *. lia.
Qed.

(** ** The resolver under concurrent callers

    Both controllers call [Pinned] from many goroutines.  A [thread] is a call in progress; a
    step lets one thread send its next request.  The lock makes a load and a store atomic;
    everything else may be answered in any way, at any time. *)
Record call := mkCall {
  cl_image : string; cl_keychain : option (list Secret); cl_keyID : string }.
Definition callKey (c : call) : string := cacheKey (cl_image c) (cl_keyID c).
Record thread := mkThread { t_call : call; t_prog : rprog string }.
(** The cache, the threads, and what the registry has answered to which call. *)
Record resolver := mkResolver {
  rs_cache : cache; rs_threads : list thread; rs_log : list (call * string) }.
Definition start : resolver := mkResolver ∅ [] [].

(** What a request other than the cache operations adds to the log. *)
Definition logged (c : call) (r : req) : resp r → list (call * string) :=
  match r return resp r → list (call * string) with
  | RemoteHead image kc => fun x =>
      match x with Ok d => [(mkCall image kc (cl_keyID c), d)] | Err _ => [] end
  | _ => fun _ => []
  end.
Definition cacheOp (r : req) : bool :=
  match r with CacheLoad _ | CacheStore _ _ => true | _ => false end.

Section System.
Context `{KubeLib}.

Inductive step : resolver → resolver → Prop :=
| step_call s c :
    step s (mkResolver (rs_cache s)
      (rs_threads s ++ [mkThread c (Pinned (cl_image c) (cl_keychain c) (cl_keyID c))]) (rs_log s))
| step_load s i c key k :
    rs_threads s !! i = Some (mkThread c (Do (CacheLoad key) k)) →
    step s (mkResolver (rs_cache s)
      (<[i := mkThread c (k (rs_cache s !! key))]> (rs_threads s)) (rs_log s))
| step_store s i c key d k clock now :
    rs_threads s !! i = Some (mkThread c (Do (CacheStore key d) k)) →
    step s (mkResolver (cacheStore clock now key d (rs_cache s))
      (<[i := mkThread c (k tt)]> (rs_threads s)) (rs_log s))
| step_other s i c r k x :
    rs_threads s !! i = Some (mkThread c (Do r k)) → cacheOp r = false →
    step s (mkResolver (rs_cache s) (<[i := mkThread c (k x)]> (rs_threads s))
      (logged c r x ++ rs_log s)).

Inductive reachable : resolver → Prop :=
| reach_start : reachable start
| reach_step s s' : reachable s → step s s' → reachable s'.

(** The registry gave [d] to a call with the cache key [key]. *)
Definition vouched (log : list (call * string)) (key d : string) : Prop :=
  ∃ c, (c, d) ∈ log ∧ callKey c = key.

(** A program that stores and returns only vouched digests of its own call; [seen] are the
    digests it has learnt. *)
Fixpoint safe (c : call) (seen : list string) (p : rprog string) : Prop :=
  match p with
  | Ret (Ok x) => contains (cl_image c) "@" = true ∧ x = cl_image c
                  ∨ ∃ d, d ∈ seen ∧ x = cl_image c +:+ "@" +:+ d
  | Ret (Err _) => True
  | Do (CacheLoad key) k =>
      key = callKey c ∧ ∀ x, safe c (match x with Some e => d_digest e :: seen | None => seen end) (k x)
  | Do (CacheStore key d) k => key = callKey c ∧ d ∈ seen ∧ ∀ x, safe c seen (k x)
  | Do (RemoteHead image kc) k =>
      image = cl_image c ∧ kc = cl_keychain c
      ∧ ∀ x, safe c (match x with Ok d => d :: seen | Err _ => seen end) (k x)
  | Do _ k => ∀ x, safe c seen (k x)
  end.

Lemma Pinned_safe c seen : safe c seen (Pinned (cl_image c) (cl_keychain c) (cl_keyID c)).
Proof.
  unfold Pinned. destruct (contains (cl_image c) "@") eqn:E; [left; auto|].
  cbn [bind send safe]. split; [done|].
  assert (∀ seen (entry : option digestEntry),
    (∀ e, entry = Some e → d_digest e ∈ seen) →
    safe c seen (let! r := registryHead (cl_image c) (cl_keychain c) in
      match r with
      | Err err => match entry with
                   | Some e => ok (cl_image c +:+ "@" +:+ d_digest e) | None => fail err end
      | Ok digest => let! _ := send (CacheStore (cacheKey (cl_image c) (cl_keyID c)) digest) in
                     ok (cl_image c +:+ "@" +:+ digest)
      end)) as Hhead.
  { intros seen' entry He. unfold registryHead.
    assert (∀ err seen'', (∀ d, d ∈ seen' → d ∈ seen'') → safe c seen''
      match entry with
      | Some e => ok (cl_image c +:+ "@" +:+ d_digest e) | None => fail err end) as Hf.
    { intros err seen'' Hin. destruct entry as [e|]; [|done]. right. exists (d_digest e). auto. }
    destruct (parseReference (cl_image c)) as [u|e]; cbn [bind fail]; [|by apply Hf].
    cbn [send bind safe]. split_and!; [done..|]. intros [d|e]; cbn [bind ok fail];
      [|by apply Hf].
    cbn [send bind safe]. split_and!; [done|left|]. intros _. right. exists d. split; [left|done]. }
  intros [e|]; cbn [bind].
  - unfold since. cbn [bind send safe]. intros now.
    destruct (time_Sub now (d_resolvedAt e) <? digestResolveTTL).
    + right. exists (d_digest e). split; [left|done].
    + apply (Hhead _ (Some e)). intros e' [= <-]. left.
  - by apply (Hhead _ None).
Qed.

(** The invariant of the resolver. *)
Record resolver_ok (s : resolver) : Prop := {
  ok_size : (size (rs_cache s) ≤ maxCacheEntries)%nat;
  ok_entries : map_Forall (fun key e => vouched (rs_log s) key (d_digest e)) (rs_cache s);
  ok_threads : Forall (fun t => ∃ seen, Forall (vouched (rs_log s) (callKey (t_call t))) seen
                          ∧ safe (t_call t) seen (t_prog t)) (rs_threads s) }.

Lemma vouched_app log log' key d : vouched log key d → vouched (log' ++ log) key d.
Proof. intros (c & Hc & Hk). exists c. split; [set_solver|done]. Qed.

Lemma threads_insert s i t log' :
  resolver_ok s →
  (∃ seen, Forall (vouched (log' ++ rs_log s) (callKey (t_call t))) seen
           ∧ safe (t_call t) seen (t_prog t)) →
  Forall (fun t => ∃ seen, Forall (vouched (log' ++ rs_log s) (callKey (t_call t))) seen
                   ∧ safe (t_call t) seen (t_prog t)) (<[i := t]> (rs_threads s)).
Proof.
  intros [_ _ Ht] Hnew. apply Forall_insert; [|done].
  eapply Forall_impl; [exact Ht|]. intros t' (seen & Hs & Hp). exists seen. split; [|done].
  eapply Forall_impl; [exact Hs|]. intros d. apply vouched_app.
Qed.

Lemma cacheStore_size clock now key d c :
  (size c <= maxCacheEntries)%nat →
  (size (cacheStore clock now key d c) <= maxCacheEntries)%nat.
Proof.
  intros Hc. unfold cacheStore. pose proof (evictLocked_room clock c Hc).
  destruct (evictLocked clock c !! key) eqn:E.
  - rewrite map_size_insert_Some by eauto. lia.
  - rewrite map_size_insert_None by done. lia.
Qed.

Lemma step_ok s s' : resolver_ok s → step s s' → resolver_ok s'.
Proof.
  intros Hok Hs. pose proof Hok as [Hsz He Ht].
  destruct Hs as [s c|s i c key k Hi|s i c key d k clock now Hi|s i c r k x Hi Hop];
    constructor; cbn [rs_cache rs_threads rs_log]; try done.
  - apply Forall_app. split; [done|]. constructor; [|done]. exists []. split; [done|].
    apply Pinned_safe.
  - pose proof (Forall_lookup_1 _ _ _ _ Ht Hi) as (seen & Hseen & -> & Hk).
    apply (threads_insert s i _ []); [done|]. cbn in *. eexists. split; [|apply Hk].
    destruct (rs_cache s !! callKey c) as [e|] eqn:E; [|done]. constructor; [|done].
    by apply (He _ _ E).
  - by apply cacheStore_size.
  - pose proof (Forall_lookup_1 _ _ _ _ Ht Hi) as (seen & Hseen & -> & Hd & Hk).
    unfold cacheStore. apply map_Forall_insert_2.
    + cbn in *. rewrite Forall_forall in Hseen. by apply Hseen.
    + intros k' e' Hk'. apply (He k' e').
      eapply lookup_weaken; [exact Hk'|apply evictLocked_subseteq].
  - pose proof (Forall_lookup_1 _ _ _ _ Ht Hi) as (seen & Hseen & -> & Hd & Hk).
    apply (threads_insert s i _ []); [done|]. cbn in *. eauto.
  - intros key e Hke. apply vouched_app. by apply (He _ _ Hke).
  - pose proof (Forall_lookup_1 _ _ _ _ Ht Hi) as (seen & Hseen & Hp).
    apply threads_insert; [done|]. cbn [t_call t_prog] in *.
    assert (Forall (vouched (logged c r x ++ rs_log s) (callKey c)) seen) as Hseen'.
    { eapply Forall_impl; [exact Hseen|]. intros d. apply vouched_app. }
    destruct r; try discriminate Hop; cbn in Hp; try (eexists; split; [exact Hseen'|by apply Hp]).
    destruct Hp as (-> & -> & Hp). eexists; split; [|apply Hp].
    destruct x as [d|e]; [|done]. constructor; [|done].
    exists c. split; [|done]. cbn. destruct c. left.
Qed.

Lemma reachable_ok s : reachable s → resolver_ok s.
Proof.
  induction 1 as [|s s' _ IH Hs]; [|by eapply step_ok].
  constructor; cbn; [unfold maxCacheEntries; rewrite map_size_empty; lia|apply map_Forall_empty|done].
Qed.

(** A call that returns gives back its image when that is pinned already, and otherwise the
    image with a digest that the registry reported to a call with the same cache key. *)
Theorem Pinned_sound s c x :
  reachable s → mkThread c (ok x) ∈ rs_threads s →
  contains (cl_image c) "@" = true ∧ x = cl_image c
  ∨ ∃ d, vouched (rs_log s) (callKey c) d ∧ x = cl_image c +:+ "@" +:+ d.
Proof.
  intros Hs Ht. destruct (reachable_ok s Hs) as [_ _ Hth].
  rewrite Forall_forall in Hth. destruct (Hth _ Ht) as (seen & Hseen & [Hp|(d & Hd & Hx)]); auto.
  right. exists d. split; [|done]. rewrite Forall_forall in Hseen. by apply Hseen.
Qed.

(** C25. Under any interleaving of callers, the cache stays within its bound, every entry is a
    digest the registry reported to a call with the same key, and a call that returns gives
    back its image when that is pinned already, and otherwise with such a digest. *)
Theorem cache_bounded_and_sound s :
  reachable s →
  (size (rs_cache s) ≤ maxCacheEntries)%nat
  ∧ map_Forall (fun key e => vouched (rs_log s) key (d_digest e)) (rs_cache s)
  ∧ ∀ c x, mkThread c (ok x) ∈ rs_threads s →
      contains (cl_image c) "@" = true ∧ x = cl_image c
      ∨ ∃ d, vouched (rs_log s) (callKey c) d ∧ x = cl_image c +:+ "@" +:+ d.
Proof.
  intros Hs. destruct (reachable_ok s Hs) as [Hn Hv _]. split_and!; [done..|].
  intros c x. by apply Pinned_sound.
Qed.
End System.

(** The answers of a history to cache loads, to the clock and to the registry. *)
Definition loadAnswer (e : event) : option (option digestEntry) :=
  match e with existT (CacheLoad _) x => Some x | _ => None end.
Definition nowAnswer (e : event) : option Z :=
  match e with existT Now x => Some x | _ => None end.
Definition headAnswer (e : event) : option (result error string) :=
  match e with existT (RemoteHead _ _) x => Some x | _ => None end.

(** A call that finds an entry never fails: within the TTL it answers from the cache without
    asking the registry, later it asks and falls back to the old digest when that fails. *)
Theorem Pinned_cached `{KubeLib} image kc keyID e h r :
  contains image "@" = false → runs (Pinned image kc keyID) h r →
  omap loadAnswer h = [Some e] →
  ∃ now, omap nowAnswer h = [now] ∧
    (time_Sub now (d_resolvedAt e) < digestResolveTTL →
       omap headAnswer h = [] ∧ r = Ok (image +:+ "@" +:+ d_digest e))
    ∧ (digestResolveTTL <= time_Sub now (d_resolvedAt e) →
       r = Ok (image +:+ "@" +:+
               match omap headAnswer h with [Ok d] => d | _ => d_digest e end)).
Proof.
  intros Hat. unfold Pinned. rewrite Hat. cbn [bind send runs].
  intros (entry & h1 & -> & Hr). cbn [omap list_omap loadAnswer ev projT1].
  destruct entry as [e'|]; [|done].
  cbn [bind since send runs] in Hr. destruct Hr as (now & h2 & -> & Hr).
  cbn [omap list_omap loadAnswer nowAnswer headAnswer ev]. intros [= -> Hl].
  destruct (Z.ltb_spec (time_Sub now (d_resolvedAt e)) digestResolveTTL) as [Hlt|Hge].
  { destruct Hr as [-> ->]. exists now. split_and!; [done|done|lia]. }
  unfold registryHead in Hr. destruct (parseReference image) as [u|err].
  - cbn [bind send runs] in Hr. destruct Hr as (d & h3 & -> & Hr).
    destruct d as [d|err]; cbn [bind ok fail send runs] in Hr.
    + destruct Hr as (u' & h4 & -> & -> & ->). exists now. split_and!; [done|lia|done].
    + destruct Hr as [-> ->]. exists now. split_and!; [done|lia|done].
  - cbn [bind fail runs] in Hr. destruct Hr as [-> ->]. exists now. split_and!; [done|lia|done].
Qed.
