(* ===== verification/Channel.v ===== *)
(** * Image channels: channel.go and misskeychannel_controller.go

    The staged rollout of a channel's image over its instances, the in-memory image of an
    instance, and the controller that keeps the rollout state of a channel. *)
From S2P Require Export Digest.
Local Open Scope string_scope.
Local Open Scope Z_scope.
Local Open Scope list_scope.

(** ** Rollout *)

Definition channelBucket (namespace name : string) : Z :=
  Z.of_N (Fnv.sum32a (bytes_of (namespace +:+ "/" +:+ name))) mod 100.

(** The rollout interval, one hour when unset. *)
Definition rolloutInterval (ro : ChannelRollout) : Z :=
  if ro_Interval ro <=? 0 then Hour else ro_Interval ro.
(** The number of buckets that have switched, in 64-bit arithmetic. *)
Definition rolloutThreshold (ro : ChannelRollout) (changedAt now : Z) : Z :=
  let interval := rolloutInterval ro in
  let elapsed := time_Sub now changedAt in
  let elapsed := if elapsed <? 0 then 0 else elapsed in
  let batches := wrap64 (Z.quot elapsed interval + 1) in
  wrap64 (int32OrDefault (ro_BatchPercent ro) 20 * batches).

Definition channelImageFor (ch : MisskeyChannel) (bucket now : Z) : string :=
  let img := cht_Image (ch_Status ch) in
  if String.eqb img "" then chs_Image (ch_Spec ch)
  else
    let prev := cht_PreviousImage (ch_Status ch) in
    match chs_Rollout (ch_Spec ch) with
    | None => img
    | Some ro =>
        if String.eqb prev "" || String.eqb prev img
           || time_IsZero (cht_ImageChangedAt (ch_Status ch))
        then img
        else if bucket <? rolloutThreshold ro (cht_ImageChangedAt (ch_Status ch)) now
        then img else prev
    end.

(** ** The image of an instance *)

Definition pullSecretKeyID (m : Misskey) : string :=
  match spec_ImagePullSecrets (m_Spec m) with
  | [] => ""
  | l => m_Namespace m +:+ nul +:+ join (sortStrings (map ref_Name l)) ","
  end.

Section Channel.
Context `{KubeLib}.

Definition pullSecretKeychain (m : Misskey) : rprog (option (list Secret)) :=
  match spec_ImagePullSecrets (m_Spec m) with
  | [] => ok None
  | l =>
      try secrets := collect l (fun ref =>
        let! r := send (Get KSecret (ref_Name ref) (m_Namespace m)) in
        match r with
        | Ok s => ok s
        | Err e => fail (wrapErr ("imagePullSecret " +:+ goQuote (ref_Name ref)) e)
        end) in
      try _ := lift (newFromPullSecrets secrets) in
      ok (Some secrets)
  end.

(** The part of [resolveImage] after the channel: pinning [m.Spec.Image]. *)
Definition pinImage (m : Misskey) : prog (Misskey * result error unit) :=
  let image := spec_Image (m_Spec m) in
  if negb (spec_TrackImageDigest (m_Spec m)) || contains image "@" then Ret (m, Ok tt)
  else
    let! kc := pullSecretKeychain m in
    match kc with
    | Err e => Ret (m, Err e)
    | Ok keychain =>
        let! r := Pinned image keychain (pullSecretKeyID m) in
        match r with
        | Ok pinned => Ret (set_spec_Image pinned m, Ok tt)
        | Err e =>
            if hasPrefix (st_Image (m_Status m)) (image +:+ "@")
            then Ret (set_spec_Image (st_Image (m_Status m)) m, Ok tt)
            else Ret (m, Err (wrapErr "track image digest" e))
        end
    end.

(** [resolveImage]: the instance as the rest of the reconcile sees it, on errors too.  The
    resolver is wired ([main] does so). *)
Definition resolveImage (m : Misskey) : prog (Misskey * result error unit) :=
  match spec_ImageFrom (m_Spec m) with
  | None => pinImage m
  | Some src =>
      let! r := send (Get KChannel (if_Channel src) "") in
      match r with
      | Err e => Ret (m, Err (wrapErr ("resolve imageFrom.channel " +:+ goQuote (if_Channel src)) e))
      | Ok ch =>
          let! now := send Now in
          pinImage (set_spec_Image
            (channelImageFor ch (channelBucket (m_Namespace m) (m_Name m)) now) m)
      end
  end.

(** ** The channel controller *)

(** The status after a write of the target. *)
Definition channelStatus (target : string) (instances updated now : Z) (cur : MisskeyChannel)
    : MisskeyChannelStatus :=
  let st := ch_Status cur in
  let changed := negb (String.eqb target "") && negb (String.eqb target (cht_Image st)) in
  let started := changed && negb (String.eqb (cht_Image st) "") in
  mkChannelStatus
    (if changed then target else cht_Image st)
    (if started then cht_Image st else cht_PreviousImage st)
    (if started then now else cht_ImageChangedAt st)
    instances updated (om_Generation (ch_Meta cur)).

(** The instances of a channel, and those whose status shows [target]. *)
Definition follows (ch : MisskeyChannel) (m : Misskey) : bool :=
  match spec_ImageFrom (m_Spec m) with
  | Some src => String.eqb (if_Channel src) (ch_Name ch)
  | None => false
  end.
Definition countZ {A} (f : A → bool) (l : list A) : Z := Z.of_nat (length (List.filter f l)).

Definition channelTarget (ch : MisskeyChannel) : prog (string * option error) :=
  if chs_TrackImageDigest (ch_Spec ch) then
    let! r := Pinned (chs_Image (ch_Spec ch)) None "" in
    match r with
    | Ok pinned => Ret (pinned, None)
    | Err e => Ret (cht_Image (ch_Status ch), Some e)
    end
  else Ret (chs_Image (ch_Spec ch), None).

Definition channelRequeue (ch : MisskeyChannel) (instances updated : Z) : Z :=
  let requeue :=
    match chs_Rollout (ch_Spec ch) with
    | Some ro => if updated <? instances then rolloutInterval ro else 0
    | None => 0
    end in
  if chs_TrackImageDigest (ch_Spec ch) && ((requeue =? 0) || (digestResolveTTL <? requeue))
  then digestResolveTTL else requeue.

Definition reconcileChannel (name : string) : rprog Result :=
  let! r := send (Get KChannel name "") in
  match r with
  | Err e => if isNotFound e then ok (mkResult 0) else fail e
  | Ok ch =>
      let! t := channelTarget ch in
      let '(target, resolveErr) := t in
      try l := send (ListIn KMisskey None ∅) in
      let mine := List.filter (follows ch) l in
      let instances := wrap32 (Z.of_nat (length mine)) in
      let updated := wrap32 (countZ (fun m => negb (String.eqb target "")
                                      && String.eqb (st_Image (m_Status m)) target) mine) in
      do retryOnConflict (
        try cur := send (Get KChannel name "") in
        let st := ch_Status cur in
        let! now :=
          if negb (String.eqb target "") && negb (String.eqb target (cht_Image st))
             && negb (String.eqb (cht_Image st) "")
          then send Now else Ret 0 in
        do send (StatusUpdate KChannel
             (mkChannel (ch_Meta cur) (ch_Spec cur) (channelStatus target instances updated now cur)));
        ok tt);
      match resolveErr with
      | Some _ => ok (mkResult Minute)
      | None => ok (mkResult (channelRequeue ch instances updated))
      end
  end.
End Channel.

(** [channelOfMisskey] and [misskeysForChannel]: the watches between the two kinds. *)
Definition channelOfMisskey (m : Misskey) : list string :=
  match spec_ImageFrom (m_Spec m) with Some src => [if_Channel src] | None => [] end.
Definition misskeysForChannel (channel : string) : prog (list (string * string)) :=
  let! r := send (ListIn KMisskey None ∅) in
  match r with
  | Err _ => Ret []
  | Ok l => Ret (omap (fun m =>
      match spec_ImageFrom (m_Spec m) with
      | Some src => if String.eqb (if_Channel src) channel
                    then Some (m_Namespace m, m_Name m) else None
      | None => None
      end) l)
  end.

(** ** Rollout arithmetic *)

Definition elapsedSince (changedAt now : Z) : Z := Z.max 0 (time_Sub now changedAt).

Lemma elapsed_range changedAt now : 0 <= elapsedSince changedAt now <= 2 ^ 63 - 1.
Proof. unfold elapsedSince, time_Sub. lia. Qed.

(** Without overflow the threshold is the percentage times the intervals begun. *)
Lemma threshold_exact ro changedAt now :
  1 <= int32OrDefault (ro_BatchPercent ro) 20 <= 100 → 1000 <= rolloutInterval ro →
  rolloutThreshold ro changedAt now
  = int32OrDefault (ro_BatchPercent ro) 20
    * (elapsedSince changedAt now / rolloutInterval ro + 1).
Proof.
  intros Hp Hi. unfold rolloutThreshold.
  assert ((if time_Sub now changedAt <? 0 then 0 else time_Sub now changedAt)
          = elapsedSince changedAt now) as ->.
  { unfold elapsedSince. destruct (Z.ltb_spec (time_Sub now changedAt) 0); lia. }
  pose proof (elapsed_range changedAt now) as He. set (e := elapsedSince _ _) in *.
  rewrite Z.quot_div_nonneg by lia.
  assert (0 <= e / rolloutInterval ro <= (2 ^ 63 - 1) / 1000) as Hq.
  { split; [apply Z.div_pos; lia|]. etrans; [apply (Z.div_le_compat_l e 1000); lia|].
    apply Z.div_le_mono; lia. }
  change ((2 ^ 63 - 1) / 1000) with 9223372036854775 in Hq.
  generalize dependent (e / rolloutInterval ro). intros q Hq.
  rewrite (wrap64_id (q + 1)) by (unfold int64_range; lia).
  apply wrap64_id. unfold int64_range. nia.
Qed.

(** The shape under which an image is rolled out in stages. *)
Definition rollingOut (ch : MisskeyChannel) (ro : ChannelRollout) : Prop :=
  chs_Rollout (ch_Spec ch) = Some ro
  ∧ 1 <= int32OrDefault (ro_BatchPercent ro) 20 <= 100
  ∧ 1000 <= rolloutInterval ro.

Lemma channelImage_switched ch ro bucket now :
  rollingOut ch ro → cht_Image (ch_Status ch) ≠ "" →
  channelImageFor ch bucket now ≠ cht_Image (ch_Status ch) →
  int32OrDefault (ro_BatchPercent ro) 20
  * (elapsedSince (cht_ImageChangedAt (ch_Status ch)) now / rolloutInterval ro + 1) <= bucket.
Proof.
  intros (Hro & Hp & Hi) Hne. unfold channelImageFor. rewrite Hro.
  destruct (String.eqb_spec (cht_Image (ch_Status ch)) ""); [done|].
  destruct (_ || _); [done|]. rewrite threshold_exact by done.
  destruct (Z.ltb_spec bucket (int32OrDefault (ro_BatchPercent ro) 20
    * (elapsedSince (cht_ImageChangedAt (ch_Status ch)) now / rolloutInterval ro + 1))); done.
Qed.

Lemma channelImage_waiting ch ro bucket now :
  rollingOut ch ro → cht_Image (ch_Status ch) ≠ "" →
  int32OrDefault (ro_BatchPercent ro) 20
  * (elapsedSince (cht_ImageChangedAt (ch_Status ch)) now / rolloutInterval ro + 1) > bucket →
  channelImageFor ch bucket now = cht_Image (ch_Status ch).
Proof.
  intros Hr Hne Hb.
  destruct (String.eqb_spec (channelImageFor ch bucket now) (cht_Image (ch_Status ch))); [done|].
  pose proof (channelImage_switched ch ro bucket now Hr Hne n). lia.
Qed.

Lemma elapsed_mono changedAt now now' :
  now <= now' → elapsedSince changedAt now <= elapsedSince changedAt now'.
Proof. unfold elapsedSince, time_Sub. lia. Qed.

(** ** Properties *)

(** An instance runs the image of the status, the previous one, or (before the channel has
    a status) the image of the spec; never anything else. *)
Theorem channelImage_sound ch bucket now :
  let x := channelImageFor ch bucket now in
  x = cht_Image (ch_Status ch)
  ∨ (x = cht_PreviousImage (ch_Status ch) ∧ cht_PreviousImage (ch_Status ch) ≠ "")
  ∨ (x = chs_Image (ch_Spec ch) ∧ cht_Image (ch_Status ch) = "").
Proof.
  cbv zeta. unfold channelImageFor.
  destruct (String.eqb_spec (cht_Image (ch_Status ch)) ""); [by right; right|].
  destruct (chs_Rollout _); [|by left].
  destruct (String.eqb_spec (cht_PreviousImage (ch_Status ch)) ""); [by left|].
  destruct (_ || _); [by left|]. destruct (_ <? _); [by left|by right; left].
Qed.

(** C32. A rollout only moves forward: an instance that has switched does not switch back as time
    passes, and neither does one with a smaller bucket. *)
Theorem rollout_monotone ch ro b b' now now' :
  rollingOut ch ro → b' <= b → now <= now' →
  channelImageFor ch b now = cht_Image (ch_Status ch) →
  cht_PreviousImage (ch_Status ch) ≠ cht_Image (ch_Status ch) →
  cht_Image (ch_Status ch) ≠ "" →
  channelImageFor ch b' now' = cht_Image (ch_Status ch).
Proof.
  intros Hr Hb Hn Hsw Hpr Hne. pose proof Hr as (Hro & Hp & Hi).
  revert Hsw. unfold channelImageFor. rewrite Hro.
  destruct (String.eqb_spec (cht_Image (ch_Status ch)) ""); [done|].
  destruct (_ || _); [done|]. rewrite !threshold_exact by done.
  set (i := rolloutInterval ro) in *. set (p := int32OrDefault _ _) in *.
  pose proof (elapsed_mono (cht_ImageChangedAt (ch_Status ch)) now now' Hn) as Hm.
  assert (elapsedSince (cht_ImageChangedAt (ch_Status ch)) now / i
          <= elapsedSince (cht_ImageChangedAt (ch_Status ch)) now' / i) by (apply Z.div_le_mono; lia).
  destruct (Z.ltb_spec b (p * (elapsedSince (cht_ImageChangedAt (ch_Status ch)) now / i + 1)));
    [|done]. intros _.
  destruct (Z.ltb_spec b' (p * (elapsedSince (cht_ImageChangedAt (ch_Status ch)) now' / i + 1)));
    [done|nia].
Qed.

(** C33. A rollout completes: after enough intervals every instance of the fleet follows. *)
Theorem rollout_completes ch ro n ns name now :
  rollingOut ch ro → cht_Image (ch_Status ch) ≠ "" →
  100 <= int32OrDefault (ro_BatchPercent ro) 20 * (n + 1) → 0 <= n →
  n * rolloutInterval ro <= elapsedSince (cht_ImageChangedAt (ch_Status ch)) now →
  channelImageFor ch (channelBucket ns name) now = cht_Image (ch_Status ch).
Proof.
  intros Hr Hne Hn Hn0 He. apply (channelImage_waiting ch ro); [done..|].
  destruct Hr as (_ & Hp & Hi).
  assert (n <= elapsedSince (cht_ImageChangedAt (ch_Status ch)) now / rolloutInterval ro).
  { apply Z.div_le_lower_bound; lia. }
  assert (channelBucket ns name < 100) by (apply Z.mod_pos_bound; lia). nia.
Qed.

(** ** The cache key separates tenants *)

Definition noByte (x : ascii) (s : string) : bool := str_forall (fun y => negb (Ascii.eqb y x)) s.

Lemma join_cons x y l : join (x :: y :: l) "," = x +:+ String ","%char (join (y :: l) ",").
Proof. done. Qed.
Lemma noByte_end x a b :
  noByte x a = true → a = b +:+ String x "" → False.
Proof.
  intros H ->. unfold noByte in H. rewrite str_forall_app in H. simpl in H.
  rewrite Ascii.eqb_refl in H. by rewrite andb_false_r in H.
Qed.
Lemma noByte_mid x a b c : noByte x a = true → a = b +:+ String x c → False.
Proof.
  intros H ->. unfold noByte in H. rewrite str_forall_app in H. simpl in H.
  rewrite Ascii.eqb_refl in H. by rewrite andb_false_r in H.
Qed.

Lemma join_inj l l' :
  l ≠ [] → l' ≠ [] → Forall (fun s => noByte ","%char s = true) l →
  Forall (fun s => noByte ","%char s = true) l' → join l "," = join l' "," → l = l'.
Proof.
  revert l'. induction l as [|x [|y l] IH]; intros [|x' [|y' l']] Hne Hne' Hl Hl' H;
    try done; inversion Hl; inversion Hl'; subst.
  - simpl in H. by subst.
  - rewrite join_cons in H. simpl in H. by apply noByte_mid in H.
  - rewrite join_cons in H. symmetry in H. by apply noByte_mid in H.
  - rewrite !join_cons in H. apply sapp_sep_inj in H as [-> H]; [|done..].
    f_equal. by apply IH.
Qed.

Lemma keyID_cases m :
  (spec_ImagePullSecrets (m_Spec m) = [] ∧ pullSecretKeyID m = "")
  ∨ (spec_ImagePullSecrets (m_Spec m) ≠ []
     ∧ pullSecretKeyID m = m_Namespace m +:+ nul +:+
         join (sortStrings (map ref_Name (spec_ImagePullSecrets (m_Spec m)))) ",").
Proof. unfold pullSecretKeyID. destruct (spec_ImagePullSecrets _); [by left|by right]. Qed.

(** The strings that enter a cache key are free of the separators: image references and
    namespaces hold no zero byte, Secret names no comma. *)
Definition keyable (m : Misskey) (image : string) : Prop :=
  noByte "000"%char image = true ∧ noByte "000"%char (m_Namespace m) = true
  ∧ Forall (fun r => noByte ","%char (ref_Name r) = true) (spec_ImagePullSecrets (m_Spec m)).

Lemma sorted_names_ok m image :
  keyable m image →
  Forall (fun s => noByte ","%char s = true)
    (sortStrings (map ref_Name (spec_ImagePullSecrets (m_Spec m)))).
Proof. intros (_ & _ & H). rewrite sortStrings_perm. by apply Forall_fmap. Qed.

(** C26. Two instances share a cached digest only for the same image, and only when both pull
    anonymously or both live in one namespace and pull with the same Secrets. *)
Theorem cacheKey_isolates m m' image image' :
  keyable m image → keyable m' image' →
  cacheKey image (pullSecretKeyID m) = cacheKey image' (pullSecretKeyID m') →
  image = image'
  ∧ (spec_ImagePullSecrets (m_Spec m) = [] ∧ spec_ImagePullSecrets (m_Spec m') = []
     ∨ m_Namespace m = m_Namespace m'
       ∧ map ref_Name (spec_ImagePullSecrets (m_Spec m))
         ≡ₚ map ref_Name (spec_ImagePullSecrets (m_Spec m'))).
Proof.
  intros Hm Hm' H. pose proof (sorted_names_ok _ _ Hm) as Hs.
  pose proof (sorted_names_ok _ _ Hm') as Hs'.
  destruct Hm as (Hi & Hn & _), Hm' as (Hi' & Hn' & _).
  unfold cacheKey, nul in H. apply sapp_sep_inj in H as [-> H]; [|done..]. split; [done|].
  assert (∀ a (b : ascii) c, "" = a +:+ String b c → False) as Hnil by by intros [].
  destruct (keyID_cases m) as [[E K]|[E K]], (keyID_cases m') as [[E' K']|[E' K']];
    rewrite K, K' in H; unfold nul in H; cbn [String.append] in H; [by left|by apply Hnil in H|symmetry in H; by apply Hnil in H|right].
  apply sapp_sep_inj in H as [Hns H]; [|done..]. split; [done|].
  assert (∀ l, l ≠ [] → sortStrings (map ref_Name l) ≠ []) as Hne.
  { intros l Hl Hn0. apply Hl. pose proof (sortStrings_perm (map ref_Name l)) as Hp.
    rewrite Hn0 in Hp. apply Permutation_nil_l in Hp. by destruct l. }
  apply join_inj in H; auto.
  by rewrite <- (sortStrings_perm (map ref_Name (spec_ImagePullSecrets (m_Spec m)))), H,
    sortStrings_perm.
Qed.

(** ** Footprints *)

Definition readOnly (r : req) : Prop :=
  match r with
  | Get _ _ _ | ListIn _ _ _ | Now | RemoteHead _ _ | CacheLoad _ | CacheStore _ _ => True
  | _ => False
  end.

Lemma emits_registryHead P `{KubeLib} image kc :
  P (RemoteHead image kc) → emits P (registryHead image kc).
Proof. intros HP. unfold registryHead. emits_tac. Qed.
Lemma emits_Pinned P `{KubeLib} image kc keyID :
  P (RemoteHead image kc) → P Now → (∀ k, P (CacheLoad k)) → (∀ k d, P (CacheStore k d)) →
  emits P (Pinned image kc keyID).
Proof.
  intros HR HN HL HS. unfold Pinned.
  emits_tac; try by apply emits_registryHead. unfold since. emits_tac.
Qed.

(** Resolving an image writes nothing to the API server: the resolved image lives in memory
    for one reconcile only. *)
Theorem resolveImage_readonly `{KubeLib} m h r :
  runs (resolveImage m) h r → Forall readOnly (reqs h).
Proof.
  apply emits_runs. unfold resolveImage.
  assert (∀ m, emits readOnly (pinImage m)) as Hp.
  { intros m'. unfold pinImage, pullSecretKeychain. destruct (_ || _); [done|].
    apply emits_bind; [emits_tac; done|]. intros [kc|e]; [|done].
    apply emits_bind; [by apply emits_Pinned|]. intros [x|e]; [done|].
    by destruct (hasPrefix _ _). }
  emits_tac; done.
Qed.

(** ** The controller starts rollouts *)

(** The channel with another status. *)
Definition withStatus (ch : MisskeyChannel) (st : MisskeyChannelStatus) : MisskeyChannel :=
  mkChannel (ch_Meta ch) (ch_Spec ch) st.

(** When the controller writes a new target over a status that has an image, a rollout starts
    at that moment: the first batch gets the new image, everyone else keeps the old one. *)
Theorem rollout_starts ch ro target inst upd now bucket :
  let st := channelStatus target inst upd now ch in
  let ch' := withStatus ch st in
  chs_Rollout (ch_Spec ch) = Some ro → 1 <= int32OrDefault (ro_BatchPercent ro) 20 <= 100 →
  1000 <= rolloutInterval ro → time_IsZero now = false →
  cht_Image (ch_Status ch) ≠ "" → target ≠ "" → target ≠ cht_Image (ch_Status ch) →
  channelImageFor ch' bucket now
  = if bucket <? int32OrDefault (ro_BatchPercent ro) 20 then target
    else cht_Image (ch_Status ch).
Proof.
  cbv zeta. intros Hro Hp Hi Hz Hne Ht Hd. unfold channelImageFor, withStatus, channelStatus.
  cbn [ch_Status ch_Spec cht_Image cht_PreviousImage cht_ImageChangedAt].
  apply String.eqb_neq in Hne, Ht, Hd. rewrite Ht, Hd, Hne. cbn [negb andb].
  rewrite Ht, Hro, Hne, Hz. rewrite String.eqb_sym, Hd. cbn [orb].
  rewrite threshold_exact by done.
  assert (elapsedSince now now = 0) as ->.
  { unfold elapsedSince, time_Sub. rewrite Z.sub_diag. done. }
  rewrite Z.div_0_l by lia. by rewrite Z.add_0_l, Z.mul_1_r.
Qed.

(** The first image of a channel is for everyone at once. *)
Theorem first_image_immediate ch target inst upd now now' bucket :
  cht_Image (ch_Status ch) = "" → cht_PreviousImage (ch_Status ch) = "" → target ≠ "" →
  channelImageFor (withStatus ch (channelStatus target inst upd now ch)) bucket now' = target.
Proof.
  intros Hi Hp Ht. unfold channelImageFor, withStatus, channelStatus. cbn.
  apply String.eqb_neq in Ht. rewrite Hi, Hp, Ht. cbn. rewrite Ht. cbn.
  by destruct (chs_Rollout _).
Qed.
