(* ===== verification/Webhook.v ===== *)
(** * Admission webhooks: internal/webhook/v1beta1, and [splitCSV] of cmd/main.go

    The allow lists for images and cluster issuers, the tenant default, and the advisory
    warnings. *)
From S2P Require Export Plan.
Local Open Scope string_scope.
Local Open Scope Z_scope.
Local Open Scope list_scope.

(** ** Allow lists *)

Definition imageAllowed (image : string) (allowed : list string) : bool :=
  if String.eqb image "" || (length allowed =? 0)%nat then true
  else existsb (fun a => hasPrefix image a) allowed.
Definition nameAllowed (name : string) (allowed : list string) : bool :=
  if (length allowed =? 0)%nat then true else existsb (String.eqb name) allowed.

(** [splitCSV] (cmd/main.go). *)
Definition splitCSV (s : string) : list string :=
  if String.eqb (trimSpace s) "" then []
  else List.filter (fun p => negb (String.eqb p "")) (map trimSpace (split s ","%char)).

(** ** Default *)

(** [MisskeyCustomDefaulter.Default]; it cannot fail. *)
Definition Default (m : Misskey) : Misskey :=
  if String.eqb (spec_Tenant (m_Spec m)) "" then set_spec_Tenant (m_Namespace m) m else m.

(** ** Validation *)

(** The images of a redis role's HA block. *)
Definition roleImages (name : string) (role : option RedisRole) : list (string * string) :=
  match role with
  | Some r =>
      match role_HA r with
      | Some ha => [("spec.redis.roles." +:+ name +:+ ".ha.image", ha_Image ha);
                    ("spec.redis.roles." +:+ name +:+ ".ha.sentinelImage", ha_SentinelImage ha)]
      | None => []
      end
  | None => []
  end.

(** Every image field with its path, set or not. *)
Definition imageFields (m : Misskey) : list (string * string) :=
  let s := m_Spec m in
  [("spec.image", spec_Image s);
   ("spec.proxy.image", proxy_Image (spec_Proxy s));
   ("spec.postgres.image", pg_Image (spec_Postgres s));
   ("spec.redis.image", redis_Image (spec_Redis s))] ++
  (match redis_HA (spec_Redis s) with
   | Some ha => [("spec.redis.ha.image", ha_Image ha);
                 ("spec.redis.ha.sentinelImage", ha_SentinelImage ha)]
   | None => [] end) ++
  (match redis_Roles (spec_Redis s) with
   | Some roles => roleImages "jobQueue" (roles_JobQueue roles)
                   ++ roleImages "pubsub" (roles_Pubsub roles)
                   ++ roleImages "timelines" (roles_Timelines roles)
                   ++ roleImages "reactions" (roles_Reactions roles)
   | None => [] end) ++
  [("spec.search.meilisearch.image", meili_Image (search_Meilisearch (spec_Search s)))] ++
  (match spec_ObjectStorage s with
   | Some os => [("spec.objectStorage.image", os_Image os)] | None => [] end) ++
  (match spec_SensitiveDetector s with
   | Some d => (match det_External d with
                | None => [("spec.sensitiveDetector.image", det_Image d)] | Some _ => [] end)
               ++ [("spec.sensitiveDetector.configJobImage", det_ConfigJobImage d)]
   | None => [] end) ++
  [("spec.monitoring.redisExporterImage", mon_RedisExporterImage (spec_Monitoring s))].

(** [specImages]: the fields that are set, by path. *)
Definition specImages (m : Misskey) : gmap string string :=
  list_to_map (List.filter (fun '(_, img) => negb (String.eqb img "")) (imageFields m)).

(** A [field.Invalid] error: the path, the value, the reason. *)
Record fieldError := mkFieldError { fe_path : string; fe_value : string; fe_detail : string }.

Record MisskeyCustomValidator := mkValidator {
  AllowedImageRegistries : list string;
  AllowedClusterIssuers : list string }.

(** [validate]: the list of field errors, empty when the object is admitted.  The source walks
    a map, so the order of the image errors is not determined. *)
Definition validate (v : MisskeyCustomValidator) (m : Misskey) : list fieldError :=
  omap (fun '(path, img) =>
    if imageAllowed img (AllowedImageRegistries v) then None
    else Some (mkFieldError path img
           "image registry is not in the allowed list (--allowed-image-registries)"))
    (map_to_list (specImages m)) ++
  (match ing_IssuerRef (spec_Ingress (m_Spec m)) with
   | Some ref =>
       if negb (String.eqb (issuer_Kind ref) "Issuer")
          && negb (nameAllowed (issuer_Name ref) (AllowedClusterIssuers v))
       then [mkFieldError "spec.ingress.issuerRef.name" (issuer_Name ref)
               "ClusterIssuer is not in the allowed list (--allowed-cluster-issuers)"]
       else []
   | None => []
   end).

(** The validator of channels. *)
Definition validateChannel (allowed : list string) (ch : MisskeyChannel) : list fieldError :=
  if imageAllowed (chs_Image (ch_Spec ch)) allowed then []
  else [mkFieldError "spec.image" (chs_Image (ch_Spec ch))
          "image registry is not in the allowed list (--allowed-image-registries)"].

(** [MisskeyChannelCustomValidator] and its methods: no warnings, only the errors. *)
Record MisskeyChannelCustomValidator := mkChannelValidator { ch_AllowedImageRegistries : list string }.
Definition admission (errs : list fieldError) : result (list fieldError) (list string) :=
  match errs with [] => Ok [] | errs => Err errs end.
Definition ChannelValidateCreate (v : MisskeyChannelCustomValidator) (ch : MisskeyChannel)
    : result (list fieldError) (list string) :=
  admission (validateChannel (ch_AllowedImageRegistries v) ch).
Definition ChannelValidateUpdate (v : MisskeyChannelCustomValidator) (oldObj newObj : MisskeyChannel)
    : result (list fieldError) (list string) :=
  admission (validateChannel (ch_AllowedImageRegistries v) newObj).
Definition ChannelValidateDelete (v : MisskeyChannelCustomValidator) (ch : MisskeyChannel)
    : result (list fieldError) (list string) := Ok [].

(** ** Warnings *)

Definition instancesOr (instances : Z) : Z := if instances =? 0 then 1 else instances.

Definition reservedConfigKeys : list string := [
  "url"; "port"; "setupPassword"; "db"; "dbReplications"; "dbSlaves";
  "redis"; "redisForJobQueue"; "redisForPubsub"; "redisForTimelines"; "redisForReactions";
  "fulltextSearch"; "meilisearch"; "id"; "proxyRemoteFiles"; "signToActivityPubGet";
  "deliverJobConcurrency"; "inboxJobConcurrency"; "deliverJobPerSec"; "inboxJobPerSec";
  "relationshipJobPerSec"; "deliverJobMaxAttempts"; "inboxJobMaxAttempts";
  "proxy"; "proxySmtp"; "proxyBypassHosts"; "maxFileSize"; "mediaProxy"].

(** [sigs.k8s.io/yaml]: the top-level keys of a mapping, [None] when it does not parse. *)
Class YamlLib := { yamlKeys : string → option (gset string) }.

Definition extraConfigWarnings `{YamlLib} (extra : string) : list string :=
  if String.eqb (trimSpace extra) "" then []
  else
    match yamlKeys extra with
    | None => ["spec.extraConfig is not valid YAML and will break Misskey's config parse"]
    | Some keys =>
        map (fun k => "spec.extraConfig key " +:+ goQuote k +:+
          " duplicates an operator-managed key; duplicate top-level keys break Misskey's YAML parse")
          (sortStrings (List.filter (fun k => existsb (String.eqb k) reservedConfigKeys)
                          (elements keys)))
    end.

Definition isTrue (b : option bool) : bool := match b with Some b => b | None => false end.
(** [img[strings.LastIndex(img, sep)+1:]] *)
Definition afterLast (img : string) (sep : ascii) : string :=
  match lastIndex img sep with Some n => str_drop (S n) img | None => img end.

Definition advisoryWarnings `{YamlLib} (m : Misskey) : list string :=
  let s := m_Spec m in
  let pg := spec_Postgres s in
  (match pg_External pg with
   | Some _ => if isTrue (pg_ReadOffload pg)
               then ["spec.postgres.readOffload has no effect with an external database"] else []
   | None => if isTrue (pg_ReadOffload pg) && (instancesOr (pg_Instances pg) <? 2)
             then ["spec.postgres.readOffload needs postgres.instances>=2 to take effect"] else []
   end) ++
  (if bool_decide (is_Some (redis_External (spec_Redis s)))
      && bool_decide (is_Some (redis_Roles (spec_Redis s)))
   then ["spec.redis.roles is ignored while redis.external is set"] else []) ++
  (if String.eqb (search_Provider (spec_Search s)) SearchSQLPgroonga
      && negb (bool_decide (is_Some (pg_External pg))) && String.eqb (pg_Image pg) ""
   then ["search.provider=sqlPgroonga requires postgres.image with the PGroonga extension"] else []) ++
  (if bool_decide (is_Some (pg_Recovery pg)) || bool_decide (is_Some (pg_Import pg))
   then ["spec.postgres.recovery/import restores an existing database: keep spec.url and spec.idGenerationMethod identical to the source instance, and use a postgres.image compatible with the source's PostgreSQL major version and installed extensions"]
   else []) ++
  (if match app_Autoscaling (spec_App s) with
      | Some a => bool_decide (is_Some (aas_RPS a)) | None => false end
      && negb (isTrue (mon_Enabled (spec_Monitoring s)))
   then ["autoscaling.rps needs monitoring.enabled so the proxy metrics port is exposed and scraped"]
   else []) ++
  (let img := spec_Image s in
   if negb (String.eqb img "") && negb (spec_TrackImageDigest s) && negb (contains img "@")
      && (negb (contains (afterLast img "/"%char) ":") || hasSuffix img ":latest")
   then ["spec.image uses a mutable latest tag; set trackImageDigest: true or pin a version/digest, otherwise new pushes never roll app/worker"]
   else []) ++
  (match spec_ObjectStorage s with
   | Some os => if isTrue (os_SetPublicRead os) && contains (os_Endpoint os) "r2.cloudflarestorage.com"
                then ["spec.objectStorage.setPublicRead must be false for Cloudflare R2 (it does not support object ACLs)"]
                else []
   | None => [] end) ++
  (match pg_Import pg with
   | Some imp =>
       if existsb (String.eqb (imp_SSLMode (import_Source imp))) ["disable"; "allow"; "prefer"; ""]
       then ["spec.postgres.import.source.sslMode is weaker than require; use require or verify-full to prevent a man-in-the-middle downgrade of the import connection"]
       else []
   | None => [] end) ++
  (if hasPrefix (spec_URL s) "http://"
   then ["spec.url uses http://; federated peers will see a plaintext URL. Prefer https://"] else []) ++
  extraConfigWarnings (spec_ExtraConfig s).

(** [ValidateCreate], [ValidateUpdate] and [ValidateDelete]: the warnings, or the errors. *)
Definition ValidateCreate `{YamlLib} (v : MisskeyCustomValidator) (m : Misskey)
    : result (list fieldError) (list string) :=
  match validate v m with [] => Ok (advisoryWarnings m) | errs => Err errs end.
Definition ValidateUpdate `{YamlLib} (v : MisskeyCustomValidator) (oldObj newObj : Misskey)
    : result (list fieldError) (list string) :=
  match validate v newObj with [] => Ok (advisoryWarnings newObj) | errs => Err errs end.
Definition ValidateDelete (v : MisskeyCustomValidator) (m : Misskey)
    : result (list fieldError) (list string) := Ok [].

(** ** Properties *)

(** The paths of [imageFields], all different. *)
Definition rolePaths (name : string) : list string :=
  ["spec.redis.roles." +:+ name +:+ ".ha.image"; "spec.redis.roles." +:+ name +:+ ".ha.sentinelImage"].
Definition imagePaths : list string :=
  ["spec.image"; "spec.proxy.image"; "spec.postgres.image"; "spec.redis.image"] ++
  ["spec.redis.ha.image"; "spec.redis.ha.sentinelImage"] ++
  (rolePaths "jobQueue" ++ rolePaths "pubsub" ++ rolePaths "timelines" ++ rolePaths "reactions") ++
  ["spec.search.meilisearch.image"] ++ ["spec.objectStorage.image"] ++
  (["spec.sensitiveDetector.image"] ++ ["spec.sensitiveDetector.configJobImage"]) ++
  ["spec.monitoring.redisExporterImage"].

Lemma roleImages_paths name r : map fst (roleImages name r) `sublist_of` rolePaths name.
Proof. destruct r as [r|]; simpl; [destruct (role_HA r); [done|]|]; apply sublist_nil_l. Qed.

Lemma imageFields_paths m : map fst (imageFields m) `sublist_of` imagePaths.
Proof.
  unfold imageFields, imagePaths. rewrite !map_app.
  apply sublist_app; [done|].
  apply sublist_app; [destruct (redis_HA _); [done|apply sublist_nil_l]|].
  apply sublist_app.
  { destruct (redis_Roles _); [|apply sublist_nil_l]. rewrite !map_app.
    repeat apply sublist_app; apply roleImages_paths. }
  apply sublist_app; [done|].
  apply sublist_app; [destruct (spec_ObjectStorage _); [done|apply sublist_nil_l]|].
  apply sublist_app; [|done]. destruct (spec_SensitiveDetector _) as [d|]; [|apply sublist_nil_l].
  rewrite map_app. apply sublist_app; [|done]. destruct (det_External d); [apply sublist_nil_l|done].
Qed.

Lemma imageFields_NoDup m : NoDup (map fst (imageFields m)).
Proof.
  eapply sublist_NoDup; [|apply imageFields_paths].
  by apply (bool_decide_eq_true_1 (NoDup imagePaths)).
Qed.

Lemma specImages_field m path img :
  (path, img) ∈ imageFields m → img ≠ "" → specImages m !! path = Some img.
Proof.
  intros Hin Hne. unfold specImages. apply elem_of_list_to_map_1.
  - pose proof (imageFields_NoDup m) as Hnd. revert Hnd. clear.
    induction (imageFields m) as [|[p i] l IH]; simpl; [done|]. intros Hnd.
    inversion Hnd as [|? ? Hp Hl]; subst. specialize (IH Hl).
    destruct (negb (String.eqb i "")); [|done]. simpl. constructor; [|done].
    intros Hx. apply Hp. apply list_elem_of_In, in_map_iff in Hx as ([p' i'] & <- & Hx).
    apply filter_In in Hx as [Hx _]. apply list_elem_of_In, in_map_iff. by exists (p', i').
  - apply list_elem_of_In, filter_In. split; [by apply list_elem_of_In|].
    apply negb_true_iff. by apply String.eqb_neq.
Qed.

(** What the allow list promises for one image. *)
Definition image_ok (allowed : list string) (img : string) : Prop :=
  img = "" ∨ allowed = [] ∨ ∃ a, a ∈ allowed ∧ hasPrefix img a = true.
Lemma imageAllowed_spec img allowed : imageAllowed img allowed = true ↔ image_ok allowed img.
Proof.
  unfold imageAllowed, image_ok. destruct (String.eqb_spec img "") as [->|Hne]; simpl; [tauto|].
  destruct allowed as [|a l]; simpl; [tauto|].
  change (hasPrefix img a || existsb (λ a0, hasPrefix img a0) l)
    with (existsb (fun a => hasPrefix img a) (a :: l)).
  rewrite existsb_exists. split.
  - intros (x & Hx & Hp). right; right. exists x. by rewrite list_elem_of_In.
  - intros [?|[?|(x & Hx & Hp)]]; [done|done|]. exists x. by rewrite <- list_elem_of_In.
Qed.

Lemma nameAllowed_spec name allowed : nameAllowed name allowed = true ↔ allowed = [] ∨ name ∈ allowed.
Proof.
  unfold nameAllowed. destruct allowed as [|a l]; cbn [length Nat.eqb]; [tauto|].
  rewrite existsb_exists. split.
  - intros (x & Hx & ->%String.eqb_eq). right. by apply list_elem_of_In.
  - intros [?|Hx]; [done|]. exists name. by rewrite <- list_elem_of_In, String.eqb_refl.
Qed.
Lemma validate_reports v m path img :
  (path, img) ∈ imageFields m → ¬ image_ok (AllowedImageRegistries v) img →
  ∃ e, e ∈ validate v m ∧ fe_path e = path ∧ fe_value e = img.
Proof.
  intros Hin Hn. assert (img ≠ "") as Hne by by intros ->; apply Hn; left.
  rewrite <- imageAllowed_spec in Hn. apply specImages_field in Hin; [|done].
  apply elem_of_map_to_list in Hin.
  exists (mkFieldError path img "image registry is not in the allowed list (--allowed-image-registries)").
  split; [|by split].
  unfold validate. apply elem_of_app. left. apply list_elem_of_omap. exists (path, img).
  split; [done|]. by destruct (imageAllowed _ _).
Qed.
Lemma validate_images v m :
  validate v m = [] →
  Forall (fun '(_, img) => image_ok (AllowedImageRegistries v) img) (imageFields m).
Proof.
  intros Hv. apply Forall_forall. intros [path img] Hin. rewrite <- imageAllowed_spec.
  destruct (imageAllowed img _) eqn:E; [done|].
  destruct (validate_reports v m path img Hin) as (e & He & _); [by rewrite <- imageAllowed_spec, E|].
  rewrite Hv in He. by apply not_elem_of_nil in He.
Qed.
Lemma validate_iff v m :
  validate v m = [] ↔
  Forall (fun '(_, img) => image_ok (AllowedImageRegistries v) img) (imageFields m)
  ∧ match ing_IssuerRef (spec_Ingress (m_Spec m)) with
    | Some ref => issuer_Kind ref = "Issuer"
                  ∨ nameAllowed (issuer_Name ref) (AllowedClusterIssuers v) = true
    | None => True
    end.
Proof.
  split.
  - intros Hv. split; [by apply validate_images|]. unfold validate in Hv.
    apply app_eq_nil in Hv as [_ Hi]. destruct (ing_IssuerRef _) as [ref|]; [|done].
    destruct (String.eqb_spec (issuer_Kind ref) "Issuer"); [by left|]. right.
    by destruct (nameAllowed _ _).
  - unfold validate. intros [Hf Hi]. apply app_nil. split.
    + destruct (omap _ _) as [|e l] eqn:E; [done|]. exfalso.
      assert (e ∈ e :: l) as He by left. rewrite <- E in He.
      apply list_elem_of_omap in He as ([path img] & Hin & He).
      apply elem_of_map_to_list in Hin. unfold specImages in Hin.
      apply elem_of_list_to_map_2 in Hin. apply list_elem_of_In, filter_In in Hin as [Hin _].
      apply list_elem_of_In in Hin. rewrite Forall_forall in Hf. specialize (Hf _ Hin).
      apply imageAllowed_spec in Hf. by rewrite Hf in He.
    + destruct (ing_IssuerRef _) as [ref|]; [|done].
      destruct Hi as [->|Hi]; [done|]. by rewrite Hi, andb_false_r.
Qed.

(** *** The image fields of the API, one by one *)
Definition roleTable (name : string) (get : RedisRoles → option RedisRole)
    : list (string * (MisskeySpec → option string)) :=
  let ha s := roles ← redis_Roles (spec_Redis s); role ← get roles; role_HA role in
  [("spec.redis.roles." +:+ name +:+ ".ha.image", fun s => ha_Image <$> ha s);
   ("spec.redis.roles." +:+ name +:+ ".ha.sentinelImage", fun s => ha_SentinelImage <$> ha s)].
(** The path of every field of the API types that holds an image, and how to reach it. *)
Definition apiImages : list (string * (MisskeySpec → option string)) :=
  [("spec.image", fun s => Some (spec_Image s));
   ("spec.proxy.image", fun s => Some (proxy_Image (spec_Proxy s)));
   ("spec.postgres.image", fun s => Some (pg_Image (spec_Postgres s)));
   ("spec.redis.image", fun s => Some (redis_Image (spec_Redis s)))] ++
  [("spec.redis.ha.image", fun s => ha_Image <$> redis_HA (spec_Redis s));
   ("spec.redis.ha.sentinelImage", fun s => ha_SentinelImage <$> redis_HA (spec_Redis s))] ++
  (roleTable "jobQueue" roles_JobQueue ++ roleTable "pubsub" roles_Pubsub
   ++ roleTable "timelines" roles_Timelines ++ roleTable "reactions" roles_Reactions) ++
  [("spec.search.meilisearch.image", fun s => Some (meili_Image (search_Meilisearch (spec_Search s))))] ++
  [("spec.objectStorage.image", fun s => os_Image <$> spec_ObjectStorage s)] ++
  [("spec.sensitiveDetector.image", fun s => det_Image <$> spec_SensitiveDetector s);
   ("spec.sensitiveDetector.configJobImage", fun s => det_ConfigJobImage <$> spec_SensitiveDetector s)] ++
  [("spec.monitoring.redisExporterImage", fun s => Some (mon_RedisExporterImage (spec_Monitoring s)))].
(** The image of a detector that runs elsewhere, which nothing uses. *)
Definition unusedImage (s : MisskeySpec) (path : string) : Prop :=
  path = "spec.sensitiveDetector.image"
  ∧ ∃ d ext, spec_SensitiveDetector s = Some d ∧ det_External d = Some ext.
#[global] Instance unusedImage_dec s path : Decision (unusedImage s path).
Proof.
  unfold unusedImage. destruct (decide (path = "spec.sensitiveDetector.image")); [|right; tauto].
  destruct (spec_SensitiveDetector s) as [d|]; [|right; by intros (_ & ? & ? & [=] & _)].
  destruct (det_External d) as [ext|] eqn:E; [left|right]; [by eauto|].
  intros (_ & d' & e' & [= <-] & E'). congruence.
Defined.
Definition usedImage (s : MisskeySpec) (entry : string * (MisskeySpec → option string))
    : option (string * string) :=
  if decide (unusedImage s entry.1) then None else (entry.1,.) <$> entry.2 s.

Lemma usedImage_other s path get :
  path ≠ "spec.sensitiveDetector.image" → usedImage s (path, get) = (path,.) <$> get s.
Proof. intros Hn. unfold usedImage. by rewrite decide_False by by intros [??]. Qed.
Lemma usedImage_detector s :
  usedImage s ("spec.sensitiveDetector.image", fun s => det_Image <$> spec_SensitiveDetector s)
  = d ← spec_SensitiveDetector s;
    match det_External d with
    | Some _ => None
    | None => Some ("spec.sensitiveDetector.image", det_Image d)
    end.
Proof.
  unfold usedImage. cbn [fst snd]. case_decide as Hu.
  - destruct Hu as (_ & d & ext & -> & E). cbn. by rewrite E.
  - destruct (spec_SensitiveDetector s) as [d|] eqn:Ed; [|done]. cbn.
    destruct (det_External d) as [ext|] eqn:E; [|done]. destruct Hu. split; [done|]. by exists d, ext.
Qed.
Lemma roleTable_images s name get :
  omap (usedImage s) (roleTable name get)
  = roleImages name (roles ← redis_Roles (spec_Redis s); get roles).
Proof.
  unfold roleTable. cbn. rewrite !usedImage_other by done.
  destruct (redis_Roles _) as [roles|]; [|done]. cbn. destruct (get roles) as [role|]; [|done]. cbn.
  unfold roleImages. by destruct (role_HA role).
Qed.
Lemma imageFields_api m : imageFields m = omap (usedImage (m_Spec m)) apiImages.
Proof.
  unfold imageFields, apiImages. rewrite !omap_app, !roleTable_images. cbv zeta.
  repeat apply (f_equal2 app); cbn [omap list_omap];
    rewrite ?usedImage_detector, ?usedImage_other by done; try reflexivity.
  - by destruct (redis_HA _).
  - by destruct (redis_Roles _).
  - by destruct (spec_ObjectStorage _).
  - destruct (spec_SensitiveDetector _) as [d|]; [|done]. cbn. by destruct (det_External d).
Qed.
Lemma elem_of_imageFields m path img :
  (path, img) ∈ imageFields m ↔
  ∃ get, (path, get) ∈ apiImages ∧ get (m_Spec m) = Some img ∧ ¬ unusedImage (m_Spec m) path.
Proof.
  rewrite imageFields_api, list_elem_of_omap. unfold usedImage. split.
  - intros ([p get] & Hin & Hu). cbn in Hu. case_decide; [done|].
    apply fmap_Some in Hu as (i & Hg & [= -> ->]). by exists get.
  - intros (get & Hin & Hg & Hn). exists (path, get). split; [done|]. cbn. by rewrite decide_False, Hg.
Qed.

(** C39. The validator admits an object exactly when every image field of the API is unset or
    starts with an allowed prefix, and the cluster issuer is allowed; and for every image that
    is not allowed it reports the path of its field.  The one field left out is the image of the
    managed detector while an external one is configured. *)
Theorem validate_complete v m :
  (validate v m = [] ↔
   (∀ path get img, (path, get) ∈ apiImages → get (m_Spec m) = Some img →
      ¬ unusedImage (m_Spec m) path → image_ok (AllowedImageRegistries v) img)
   ∧ (∀ ref, ing_IssuerRef (spec_Ingress (m_Spec m)) = Some ref → issuer_Kind ref ≠ "Issuer" →
        AllowedClusterIssuers v = [] ∨ issuer_Name ref ∈ AllowedClusterIssuers v))
  ∧ (∀ path get img, (path, get) ∈ apiImages → get (m_Spec m) = Some img →
       ¬ unusedImage (m_Spec m) path → ¬ image_ok (AllowedImageRegistries v) img →
       ∃ e, e ∈ validate v m ∧ fe_path e = path ∧ fe_value e = img).
Proof.
  split; [|intros path get img Hin Hg Hu Hn; eapply validate_reports, Hn; apply elem_of_imageFields; eauto].
  rewrite validate_iff. f_equiv.
  - rewrite Forall_forall. split.
    + intros Hf path get img Hin Hg Hu. apply (Hf (path, img)), elem_of_imageFields. eauto.
    + intros Hf [path img] (get & Hin & Hg & Hu)%elem_of_imageFields. eauto.
  - split.
    + intros Hi ref E Hk. rewrite E in Hi. destruct Hi as [?|Hi]; [done|]. by apply nameAllowed_spec.
    + intros Hi. destruct (ing_IssuerRef _) as [ref|]; [|done].
      destruct (decide (issuer_Kind ref = "Issuer")); [by left|right]. apply nameAllowed_spec. auto.
Qed.

(** The flag parser never yields the empty prefix, which would allow every image. *)
Theorem splitCSV_nonempty s : Forall (fun p => p ≠ "") (splitCSV s).
Proof.
  unfold splitCSV. destruct (String.eqb _ _); [constructor|].
  apply Forall_forall. intros p Hp. apply list_elem_of_In, filter_In in Hp as [_ Hp].
  by apply negb_true_iff, String.eqb_neq in Hp.
Qed.

(** Defaulting fixes the tenant label the operator would have used anyway, once. *)
Theorem Default_tenant m :
  tenantOf (Default m) = tenantOf m ∧ Default (Default m) = Default m
  ∧ (∀ c, labelsFor (Default m) c = labelsFor m c)
  ∧ (m_Namespace m ≠ "" → spec_Tenant (m_Spec (Default m)) ≠ "").
Proof.
  assert (tenantOf (Default m) = tenantOf m) as Ht.
  { unfold Default, tenantOf. destruct (String.eqb_spec (spec_Tenant (m_Spec m)) "") as [E|E]; [|done].
    cbn. rewrite E. unfold stringOr. simpl. by destruct (String.eqb_spec (m_Namespace m) ""). }
  split_and!; [done| | |].
  - unfold Default at 2. destruct (String.eqb_spec (spec_Tenant (m_Spec m)) "") as [E|E];
      unfold Default; [|apply String.eqb_neq in E; by rewrite E].
    rewrite E. cbn. by destruct (String.eqb (m_Namespace m) "").
  - intros c. unfold labelsFor. rewrite Ht.
    assert (m_Name (Default m) = m_Name m) as ->; [|done]. unfold Default. by destruct (String.eqb _ _).
  - intros Hns. unfold Default. destruct (String.eqb_spec (spec_Tenant (m_Spec m)) ""); done.
Qed.
