(* ===== verification/Autoscaling.v ===== *)
(** * Autoscaling: autoscaling.go

    The native HPA or the KEDA ScaledObject of a workload, and the cleanup of the other. *)
From S2P Require Export Pod Kube.
Local Open Scope string_scope.
Local Open Scope Z_scope.
Local Open Scope list_scope.

Definition scaledObjectGVK : GVK := mkGVK "keda.sh" "v1alpha1" "ScaledObject".
Definition triggerAuthGVK : GVK := mkGVK "keda.sh" "v1alpha1" "TriggerAuthentication".

Record scaleConfig := mkScale {
  sc_AutoscalingSpec : AutoscalingSpec;
  sc_queues : list QueueScaleTrigger;
  sc_rps : option RPSTrigger }.

Definition appScaleConfig (a : option AppAutoscalingSpec) : option scaleConfig :=
  match a with
  | None => None
  | Some a => Some (mkScale (aas_AutoscalingSpec a) [] (aas_RPS a))
  end.
Definition workerScaleConfig (a : option WorkerAutoscalingSpec) : option scaleConfig :=
  match a with
  | None => None
  | Some a => Some (mkScale (was_AutoscalingSpec a) (was_Queues a) None)
  end.
Definition autoscalingEnabled (a : option scaleConfig) : bool :=
  match a with Some _ => true | None => false end.
Definition autoscalingUsesKEDA (a : scaleConfig) : bool :=
  (0 <? length (sc_queues a))%nat || bool_decide (is_Some (sc_rps a)).

Definition nameTriggerAuth (targetName : string) : string := targetName +:+ "-redis-auth".

(** ** The native HPA *)

Definition resourceUtilMetric (name : string) (target : Z) : MetricSpec := mkMetric name target.
Definition hpaMetrics (a : scaleConfig) : list MetricSpec :=
  let s := sc_AutoscalingSpec a in
  let metrics :=
    (match as_TargetCPUUtilizationPercentage s with
     | Some v => [resourceUtilMetric "cpu" v] | None => [] end) ++
    (match as_TargetMemoryUtilizationPercentage s with
     | Some v => [resourceUtilMetric "memory" v] | None => [] end) in
  match metrics with [] => [resourceUtilMetric "cpu" 80] | _ => metrics end.
Definition buildHPASpec (targetName : string) (a : scaleConfig) (om : ObjectMeta) : HPA :=
  mkHPA om "Deployment" targetName (as_MinReplicas (sc_AutoscalingSpec a))
    (as_MaxReplicas (sc_AutoscalingSpec a)) (hpaMetrics a).

(** ** The KEDA objects *)

Definition redisQueueListName (m : Misskey) (queue : string) : string :=
  hostFromURL (spec_URL (m_Spec m)) +:+ ":queue:" +:+ queue +:+ ":" +:+ queue +:+ ":wait".

Definition defaultRPSQuery (m : Misskey) : string :=
  "sum(rate(caddy_http_request_duration_seconds_count{namespace=" +:+ goQuote (m_Namespace m)
  +:+ ",service=" +:+ goQuote (nameProxy m) +:+ "}[2m]))".

Definition redisTriggerAddress (ep : redisEndpoint) (namespace : string) : string :=
  if re_managed ep
  then re_host ep +:+ "." +:+ namespace +:+ ".svc:" +:+ itoa (re_port ep)
  else re_host ep +:+ ":" +:+ itoa (re_port ep).
Definition sentinelHostsPorts (ep : redisEndpoint) (namespace : string) : string * string :=
  (join (map (fun s => if re_managed ep then hp_host s +:+ "." +:+ namespace +:+ ".svc"
                       else hp_host s) (re_sentinels ep)) ",",
   join (map (fun s => itoa (hp_port s)) (re_sentinels ep)) ",").

Definition queueTrigger (m : Misskey) (targetName : string) (ep : redisEndpoint)
    (q : QueueScaleTrigger) : json :=
  let sentinel := (0 <? length (re_sentinels ep))%nat in
  let listName := if String.eqb (queue_ListName q) ""
                  then redisQueueListName m (queue_Name q) else queue_ListName q in
  let '(hosts, ports) := sentinelHostsPorts ep (m_Namespace m) in
  let meta := JObj (
    [("listName", JStr listName);
     ("listLength", JStr (itoa (queue_ListLength q)));
     ("databaseIndex", JStr (itoa (re_db ep)));
     ("enableTLS", JStr (formatBool (re_enableTLS ep)))] ++
    (if sentinel
     then [("hosts", JStr hosts); ("ports", JStr ports);
           ("sentinelMaster", JStr (re_masterName ep))]
     else [("address", JStr (redisTriggerAddress ep (m_Namespace m)))])) in
  JObj ([("type", JStr (if sentinel then "redis-sentinel" else "redis")); ("metadata", meta)] ++
    (match re_passSel ep with
     | Some _ => [("authenticationRef", JObj [("name", JStr (nameTriggerAuth targetName))])]
     | None => [] end)).

Definition buildScaledObject (m : Misskey) (component targetName : string) (a : scaleConfig)
    (ep : redisEndpoint) : Unstructured :=
  let s := sc_AutoscalingSpec a in
  let triggers :=
    map (queueTrigger m targetName ep) (sc_queues a) ++
    (match sc_rps a with
     | Some rps =>
         [JObj [("type", JStr "prometheus");
                ("metadata", JObj [
                   ("serverAddress", JStr (rps_ServerAddress rps));
                   ("query", JStr (stringOr (rps_Query rps) (defaultRPSQuery m)));
                   ("threshold", JStr (itoa (rps_TargetRPS rps)))])]]
     | None => [] end) ++
    (match as_TargetCPUUtilizationPercentage s with
     | Some v => [JObj [("type", JStr "cpu");
                        ("metadata", JObj [("type", JStr "Utilization"); ("value", JStr (itoa v))])]]
     | None => [] end) in
  unstructuredWith scaledObjectGVK targetName (m_Namespace m) (labelsFor m component)
    (JObj [("scaleTargetRef", JObj [("name", JStr targetName)]);
           ("minReplicaCount", JInt (deref 1 (as_MinReplicas s)));
           ("maxReplicaCount", JInt (as_MaxReplicas s));
           ("triggers", JArr triggers)]).

Definition buildTriggerAuth (m : Misskey) (targetName : string) (ep : redisEndpoint)
    (sel : SecretKeySelector) : Unstructured :=
  let ref param := JObj [("parameter", JStr param); ("name", JStr (sel_Name sel));
                         ("key", JStr (sel_Key sel))] in
  unstructuredWith triggerAuthGVK (nameTriggerAuth targetName) (m_Namespace m)
    (labelsFor m "autoscaler")
    (JObj [("secretTargetRef",
            JArr ([ref "password"] ++
                  (if (0 <? length (re_sentinels ep))%nat then [ref "sentinelPassword"] else [])))]).

(** ** Reconciliation *)

Definition deleteHPA (m : Misskey) (targetName : string) : rprog unit :=
  deleteIfExists KHPA targetName (m_Namespace m).
Definition deleteTriggerAuth (m : Misskey) (targetName : string) : rprog unit :=
  deleteIfExists (KU triggerAuthGVK) (nameTriggerAuth targetName) (m_Namespace m).
Definition deleteScaledObject (m : Misskey) (targetName : string) : rprog unit :=
  do deleteIfExists (KU scaledObjectGVK) targetName (m_Namespace m);
  deleteTriggerAuth m targetName.

Section Autoscaling.
Context `{KubeLib}.

Definition reconcileScaledObject (m : Misskey) (component targetName : string)
    (a : scaleConfig) (p : plan) : rprog unit :=
  let ep := jobQueueEndpoint p in
  do (match re_passSel ep with
      | Some sel =>
          if (0 <? length (sc_queues a))%nat
          then applySSA m (buildTriggerAuth m targetName ep sel)
          else deleteTriggerAuth m targetName
      | None => deleteTriggerAuth m targetName
      end);
  applySSA m (buildScaledObject m component targetName a ep).

Definition reconcileAutoscaler (m : Misskey) (component targetName : string)
    (a : option scaleConfig) (p : plan) : rprog unit :=
  match a with
  | None =>
      do deleteHPA m targetName;
      deleteScaledObject m targetName
  | Some a =>
      if autoscalingUsesKEDA a then
        do deleteHPA m targetName;
        reconcileScaledObject m component targetName a p
      else
        do deleteScaledObject m targetName;
        applyOwned m KHPA (newHPA targetName (m_Namespace m)) (fun hpa =>
          ok (buildHPASpec targetName a (set_Labels (labelsFor m component) (hpa_Meta hpa))))
  end.
End Autoscaling.

(** ** Properties *)

(** The autoscalers a history leaves behind: what was applied, in order. *)
Definition appliesHPA (r : req) : bool := match r with UpsertCommit KHPA _ => true | _ => false end.
Definition appliesScaledObject (r : req) : bool :=
  match r with Apply u => bool_decide (u_GVK u = scaledObjectGVK) | _ => false end.

(** A workload never gets an HPA and a ScaledObject from one reconcile, and the one it does
    not get is deleted before the other is written. *)
Theorem one_autoscaler `{KubeLib} m component targetName a p h r :
  runs (reconcileAutoscaler m component targetName a p) h r →
  ¬ (existsb appliesHPA (reqs h) = true ∧ existsb appliesScaledObject (reqs h) = true)
  ∧ (existsb appliesHPA (reqs h) = true →
     ∃ t, reqs h = DeleteObj (KU scaledObjectGVK) targetName (m_Namespace m) None :: t)
  ∧ (existsb appliesScaledObject (reqs h) = true →
     ∃ t, reqs h = DeleteObj KHPA targetName (m_Namespace m) None :: t).
Proof.
  assert (∀ (h : history), existsb appliesHPA (reqs h) = false →
    existsb appliesScaledObject (reqs h) = false →
    ¬ (existsb appliesHPA (reqs h) = true ∧ existsb appliesScaledObject (reqs h) = true)
    ∧ (existsb appliesHPA (reqs h) = true →
       ∃ t, reqs h = DeleteObj (KU scaledObjectGVK) targetName (m_Namespace m) None :: t)
    ∧ (existsb appliesScaledObject (reqs h) = true →
       ∃ t, reqs h = DeleteObj KHPA targetName (m_Namespace m) None :: t)) as Hnone.
  { intros h' -> ->. split_and!; [by intros []|done|done]. }
  unfold reconcileAutoscaler. destruct a as [a|].
  2:{ intros Hr. apply Hnone; (eapply emits_existsb; [|exact Hr]);
      unfold deleteHPA, deleteScaledObject, deleteTriggerAuth; emits_tac; done. }
  destruct (autoscalingUsesKEDA a).
  - intros (h1 & h2 & r1 & -> & H1 & H2)%runs_bind.
    assert (existsb appliesHPA (reqs (h1 ++ h2)) = false) as Hh.
    { rewrite reqs_app, existsb_app. apply orb_false_iff. split.
      - eapply emits_existsb; [|exact H1]. unfold deleteHPA. by emits_tac.
      - eapply emits_existsb; [|exact H2]. destruct r1; [|done].
        unfold reconcileScaledObject, deleteTriggerAuth. emits_tac; done. }
    rewrite Hh. split_and!; [by intros [? _]|done|]. intros _.
    unfold deleteHPA, deleteIfExists in H1. cbn [send bind runs] in H1.
    destruct H1 as (x & h' & -> & _). eexists. done.
  - intros (h1 & h2 & r1 & -> & H1 & H2)%runs_bind.
    assert (existsb appliesScaledObject (reqs (h1 ++ h2)) = false) as Hh.
    { rewrite reqs_app, existsb_app. apply orb_false_iff. split.
      - eapply emits_existsb; [|exact H1]. unfold deleteScaledObject, deleteTriggerAuth.
        emits_tac; done.
      - eapply emits_existsb; [|exact H2]. destruct r1; [|done]. emits_tac; done. }
    rewrite Hh. split_and!; [by intros [_ ?]| |done]. intros _.
    unfold deleteScaledObject, deleteIfExists in H1. cbn [send bind tryBind runs] in H1.
    destruct H1 as (x & h' & -> & _). eexists. done.
Qed.
