(* ===== verification/Workloads.v ===== *)
(** * App and worker workloads: workloads.go, and the checksums of sensitive_detector.go

    The Deployments of app and worker with their budgets and autoscalers, suspension, and the
    checksum annotation that rolls their pods. *)
From S2P Require Export Autoscaling Migration.
Local Open Scope string_scope.
Local Open Scope Z_scope.
Local Open Scope list_scope.

(** ** The detector's SQL and its hash (sensitive_detector.go) *)

(** A column of the UPDATE with its value expression. *)
Definition sqlColumn (last : bool) (column value : string) : string :=
  "  " +:+ goQuote column +:+ " = " +:+ value +:+ (if last then "" else ",") +:+ nl.

Definition renderSensitiveDetectorConfigSQL (m : Misskey) : string :=
  let det := spec_SensitiveDetector (m_Spec m) in
  concat_str (
    ["-- Managed by cloudnative-misskey. Do not edit by hand."; nl;
     "\set ON_ERROR_STOP on"; nl] ++
    (match det with
     | Some _ => ["\getenv sensitive_detector_mode SENSITIVE_DETECTOR_MODE"; nl;
                  "\getenv sensitive_detector_sensitivity SENSITIVE_DETECTOR_SENSITIVITY"; nl;
                  "\getenv sensitive_detector_url SENSITIVE_DETECTOR_URL"; nl;
                  "\getenv sensitive_detector_key SENSITIVE_DETECTOR_API_KEY"; nl]
     | None => [] end) ++
    ["INSERT INTO meta (id) VALUES ('"; metaRowID; "') ON CONFLICT (id) DO NOTHING;"; nl;
     "UPDATE meta SET"; nl] ++
    (match det with
     | Some d =>
         [sqlColumn false "sensitiveMediaDetection" ":'sensitive_detector_mode'";
          sqlColumn false "sensitiveMediaDetectionSensitivity" ":'sensitive_detector_sensitivity'";
          sqlColumn false "setSensitiveFlagAutomatically"
            (formatBool (det_SetSensitiveFlagAutomatically d));
          sqlColumn false "enableSensitiveMediaDetectionForVideos" (formatBool (det_EnableForVideos d));
          sqlColumn false "sensitiveMediaDetectionApiUrl" ":'sensitive_detector_url'";
          sqlColumn false "sensitiveMediaDetectionApiKey" ":'sensitive_detector_key'";
          sqlColumn false "sensitiveMediaDetectionTimeout"
            (itoa (int32OrDefault (det_TimeoutMilliseconds d) 60000));
          sqlColumn true "sensitiveMediaDetectionMaxImagesPerRequest"
            (itoa (int32OrDefault (det_MaxImagesPerRequest d) 4))]
     | None =>
         [sqlColumn false "sensitiveMediaDetection" "'none'";
          sqlColumn false "sensitiveMediaDetectionSensitivity" "'medium'";
          sqlColumn false "setSensitiveFlagAutomatically" "false";
          sqlColumn false "enableSensitiveMediaDetectionForVideos" "false";
          sqlColumn false "sensitiveMediaDetectionApiUrl" "NULL";
          sqlColumn false "sensitiveMediaDetectionApiKey" "NULL";
          sqlColumn false "sensitiveMediaDetectionTimeout" "60000";
          sqlColumn true "sensitiveMediaDetectionMaxImagesPerRequest" "4"]
     end) ++
    ["WHERE id = '"; metaRowID; "';"; nl]).

Definition sensitiveDetectorConfigHash (m : Misskey) (p : plan) (sql : string) : rprog string :=
  let mp := migratePlan m p in
  let pull := spec_ImagePullSecrets (m_Spec m) in
  try dbPasswordVersion := secretVersion (m_Namespace m) (sel_Name (p_dbPassSel mp)) in
  let base :=
    [sql; p_dbHost mp; itoa (p_dbPort mp); p_dbName mp; p_dbUser mp;
     sel_Name (p_dbPassSel mp); sel_Key (p_dbPassSel mp); dbPasswordVersion;
     itoa (Z.of_nat (length pull))] ++ map ref_Name pull in
  match spec_SensitiveDetector (m_Spec m) with
  | None => ok (sha256hex (checksumInput base))
  | Some d =>
      try version := secretVersion (m_Namespace m) (sel_Name (p_sensitiveDetectorAPIKeySel p)) in
      ok (sha256hex (checksumInput (base ++
        [det_Mode d; stringOr (det_Sensitivity d) "medium"; p_sensitiveDetectorURL p;
         sel_Name (p_sensitiveDetectorAPIKeySel p); sel_Key (p_sensitiveDetectorAPIKeySel p);
         p_sensitiveDetectorConfigImage p; version])))
  end.

Definition misskeyChecksum (m : Misskey) (p : plan) : rprog (gmap string string) :=
  try versions := referencedSecretVersions m p in
  let! obj :=
    if p_objAutoConfigure p then
      match objectStorageAssignments p with
      | Ok assigns =>
          let! h := objectStorageHash m p (renderObjectStorageSQL assigns) assigns in Ret [h]
      | Err _ => Ret []
      end
    else Ret [] in
  try det :=
    if p_sensitiveDetectorEnabled p then
      try h := sensitiveDetectorConfigHash m p (renderSensitiveDetectorConfigSQL m) in ok [h]
    else ok [] in
  ok (checksumAnnotation ([renderDefaultYML m p] ++ versions ++ obj ++ det)).

(** ** Deployments *)

Definition rollingZeroDowntime : DeploymentStrategy :=
  mkStrategy "RollingUpdate" (Some (IOSInt 0)) (Some (IOSInt 1)).

Definition setDeployment (dep : Deployment) (m : Misskey) (component : string)
    (replicas : option Z) (pod : PodSpec) (annotations : gmap string string) : Deployment :=
  mkDeployment (set_Labels (labelsFor m component) (dep_Meta dep))
    (match replicas with Some _ => replicas | None => dep_Replicas dep end)
    rollingZeroDowntime (matchLabels (selectorFor m component))
    (mkTemplate (labelsFor m component) (annotations ∪ pt_Annotations (dep_Template dep)) pod)
    (dep_ObservedGeneration dep) (dep_UpdatedReplicas dep) (dep_AvailableReplicas dep).

Definition staticReplicas (comp : ComponentSpec) (a : option scaleConfig) : option Z :=
  if autoscalingEnabled a then None else replicasOr (comp_Replicas comp) 1.

Definition resumeReplicas (comp : ComponentSpec) (a : option scaleConfig) (dep : Deployment)
    : option Z :=
  match staticReplicas comp a with
  | Some r => Some r
  | None =>
      match dep_Replicas dep, a with
      | Some 0, Some a =>
          if String.eqb (om_ResourceVersion (dep_Meta dep)) "" then None
          else replicasOr (as_MinReplicas (sc_AutoscalingSpec a)) 1
      | _, _ => None
      end
  end.

Section Workloads.
Context `{KubeLib} `{QuantityLib}.

Definition reconcilePDB (m : Misskey) (component : string) : rprog unit :=
  applyOwned m KPDB (newPDB (m_Name m +:+ "-" +:+ component) (m_Namespace m)) (fun pdb =>
    ok (mkPDB (set_Labels (labelsFor m component) (pdb_Meta pdb)) (Some (IOSInt 1))
          (Some (matchLabels (selectorFor m component))))).

Definition reconcileAppService (m : Misskey) : rprog unit :=
  applyOwned m KService (newService (nameApp m) (m_Namespace m)) (fun svc =>
    ok (mkService (set_Labels (labelsFor m roleApp) (svc_Meta svc)) (svc_ClusterIP svc)
          (selectorFor m roleApp)
          [mkServicePort "http" misskeyPort (Some (IOSInt misskeyPort))])).

(** The Deployment of one role. *)
Definition applyRole (m : Misskey) (p : plan) (role name : string) (comp : ComponentSpec)
    (sc : option scaleConfig) : rprog unit :=
  applyOwned m KDeployment (newDeployment name (m_Namespace m)) (fun dep =>
    try cs := misskeyChecksum m p in
    ok (setDeployment dep m role (resumeReplicas comp sc dep)
          (buildMisskeyPodSpec m p role comp) cs)).

Definition reconcileApp (m : Misskey) (p : plan) : rprog unit :=
  let sc := appScaleConfig (app_Autoscaling (spec_App (m_Spec m))) in
  do applyRole m p roleApp (nameApp m) (app_ComponentSpec (spec_App (m_Spec m))) sc;
  do reconcilePDB m roleApp;
  reconcileAutoscaler m roleApp (nameApp m) sc p.

Definition reconcileWorker (m : Misskey) (p : plan) : rprog unit :=
  let sc := workerScaleConfig (worker_Autoscaling (spec_Worker (m_Spec m))) in
  do applyRole m p roleWorker (nameWorker m) (worker_ComponentSpec (spec_Worker (m_Spec m))) sc;
  do reconcilePDB m roleWorker;
  reconcileAutoscaler m roleWorker (nameWorker m) sc p.

(** [dep.Spec.Replicas = n] *)
Definition set_Replicas (n : option Z) (dep : Deployment) : Deployment :=
  mkDeployment (dep_Meta dep) n (dep_Strategy dep) (dep_Selector dep) (dep_Template dep)
    (dep_ObservedGeneration dep) (dep_UpdatedReplicas dep) (dep_AvailableReplicas dep).

Definition suspendNames (m : Misskey) (p : plan) : list string :=
  [nameApp m; nameWorker m] ++
  (if p_sensitiveDetectorManaged p then [nameSensitiveDetector m] else []).

Definition suspendOne (m : Misskey) (name : string) : rprog unit :=
  do deleteHPA m name;
  do deleteScaledObject m name;
  let! r := send (Get KDeployment name (m_Namespace m)) in
  match r with
  | Err e => if isNotFound e then ok tt else fail e
  | Ok dep =>
      if bool_decide (dep_Replicas dep = Some 0) then ok tt
      else
        do send (Update KDeployment (set_Replicas (Some 0) dep));
        let! _ := event_ "Normal" "Suspended" "Suspend" ("scaled " +:+ name +:+ " to 0 replicas") in
        ok tt
  end.
Definition suspendWorkloads (m : Misskey) (p : plan) : rprog unit :=
  forEach (suspendNames m p) (suspendOne m).
End Workloads.

(** ** Properties *)

(** A Deployment is at zero, or gone, after a suspension went through. *)
Definition suspended (m : Misskey) (name : string) (h : history) : Prop :=
  (∃ e, ev (Get KDeployment name (m_Namespace m)) (Err e) ∈ h ∧ isNotFound e = true)
  ∨ (∃ dep, ev (Get KDeployment name (m_Namespace m)) (Ok dep) ∈ h ∧ dep_Replicas dep = Some 0)
  ∨ (∃ dep dep', ev (Get KDeployment name (m_Namespace m)) (Ok dep) ∈ h
      ∧ ev (Update KDeployment (set_Replicas (Some 0) dep)) (Ok dep') ∈ h).

Lemma suspended_app m name h h' : suspended m name h → suspended m name (h ++ h').
Proof.
  intros [(e & He & Hk)|[(d & Hd & Hz)|(d & d' & Hd & Hu)]].
  - left. exists e. split; [set_solver|done].
  - right; left. exists d. split; [set_solver|done].
  - right; right. exists d, d'. split; set_solver.
Qed.

Lemma suspendOne_wp m name h :
  wp (suspendOne m name) (fun h r => r = Ok tt → suspended m name h) h.
Proof.
  unfold suspendOne. apply wp_tryBind, wp_any. intros h1 [[]|e]; [|done].
  apply wp_tryBind, wp_any. intros h2 [[]|e]; [|done].
  apply wp_bind, wp_send. intros [dep|e].
  - case_bool_decide as Hz.
    + intros _. right; left. exists dep. split; [set_solver|done].
    + apply wp_tryBind, wp_send. intros [dep'|e]; [|done].
      apply wp_bind, wp_any. intros h3 u _. right; right. exists dep, dep'. split; set_solver.
  - destruct (isNotFound e) eqn:E; [|done]. intros _. left. exists e. split; [set_solver|done].
Qed.

(** A suspension that reports success has brought every workload of the instance to zero. *)
Theorem suspend_complete m p h :
  runs (suspendWorkloads m p) h (Ok tt) → ∀ name, name ∈ suspendNames m p → suspended m name h.
Proof.
  apply (wp_result _ (fun h => ∀ name, name ∈ suspendNames m p → suspended m name h)).
  apply (wp_forEach_all (suspended m)); [apply suspended_app|]. intros name h' _.
  apply suspendOne_wp.
Qed.

(** Replicas belong to the autoscaler when there is one: the Deployment keeps the number it
    has, except that a workload suspended at zero is started again at the minimum. *)
Theorem resumeReplicas_spec comp a dep m component pod cs :
  dep_Replicas (setDeployment dep m component (resumeReplicas comp a dep) pod cs)
  = match a with
    | None => Some (deref 1 (comp_Replicas comp))
    | Some a =>
        if bool_decide (dep_Replicas dep = Some 0 ∧ om_ResourceVersion (dep_Meta dep) ≠ "")
        then Some (deref 1 (as_MinReplicas (sc_AutoscalingSpec a)))
        else dep_Replicas dep
    end.
Proof.
  unfold resumeReplicas, staticReplicas, replicasOr. destruct a as [a|]; cbn.
  - destruct (dep_Replicas dep) as [[|n|n]|]; cbn; try (rewrite bool_decide_eq_false_2; naive_solver).
    destruct (String.eqb_spec (om_ResourceVersion (dep_Meta dep)) "") as [E|E].
    + by rewrite bool_decide_eq_false_2 by naive_solver.
    + rewrite bool_decide_eq_true_2 by done. by destruct (as_MinReplicas _).
  - by destruct (comp_Replicas comp).
Qed.
