(* ===== verification/Backends.v ===== *)
(** * Search, proxy and ingress: meilisearch.go, proxy.go and ingress.go *)
From S2P Require Export Redis Postgres Workloads.
Local Open Scope string_scope.
Local Open Scope Z_scope.
Local Open Scope list_scope.

(** ** meilisearch.go *)

Definition meiliProbe (delay period : Z) : Probe :=
  mkProbe (HTTPGet "/health" (IOSInt meiliPort)) delay period 0 0.

Section Meilisearch.
Context `{KubeLib} `{QuantityLib}.

Definition meiliStatefulSet (m : Misskey) (p : plan) (checksum : gmap string string)
    (sts : StatefulSet) : StatefulSet :=
  let ms := search_Meilisearch (spec_Search (m_Spec m)) in
  let env := [secretEnv "MEILI_MASTER_KEY" (p_meiliKeySel p); envValue "MEILI_ENV" "production";
              envValue "MEILI_NO_ANALYTICS" "true"; envValue "MEILI_DB_PATH" "/meili_data"] ++
    (if monitoringEnabled m then [envValue "MEILI_EXPERIMENTAL_ENABLE_METRICS" "true"] else []) in
  let container :=
    mkContainer "meilisearch" (stringOr (meili_Image ms) "getmeili/meilisearch:v1") [] env
      [mkContainerPort "" meiliPort] (resourcesOr (meili_Resources ms) "100m" "256Mi" "1Gi")
      [mkMount "data" "/meili_data" "data" false; tmpMount]
      None (Some (meiliProbe 5 10)) (Some (meiliProbe 15 20))
      (Some restrictedContainerSecurityContext) in
  mkStatefulSet (set_Labels (labelsFor m "meilisearch") (sts_Meta sts)) (nameMeili m) (Some 1)
    (matchLabels (selectorFor m "meilisearch"))
    (mkTemplate (labelsFor m "meilisearch") checksum
       (mkPodSpec (Some false) "" [] (Some (nonRootPodSecurityContext genericNonRootUID)) [] ∅ [] []
          [container] [tmpVolume]))
    [mkPVC (newMeta "data" "") ["ReadWriteOnce"] (meili_StorageClassName ms)
       {["storage" := quantityOr (meili_Storage ms) "10Gi"]}]
    (sts_ReadyReplicas sts).

Definition reconcileMeilisearch (m : Misskey) (p : plan) : rprog unit :=
  do applyOwned m KService (newService (nameMeili m) (m_Namespace m)) (fun svc =>
       ok (mkService (set_Labels (labelsFor m "meilisearch") (svc_Meta svc)) (svc_ClusterIP svc)
             (selectorFor m "meilisearch")
             [mkServicePort "http" meiliPort (Some (IOSInt meiliPort))]));
  applyStatefulSet m (newStatefulSet (nameMeili m) (m_Namespace m)) (fun sts =>
    try ver := secretVersion (m_Namespace m) (sel_Name (p_meiliKeySel p)) in
    ok (meiliStatefulSet m p (checksumAnnotation [ver]) sts)).
End Meilisearch.

(** ** proxy.go *)

Definition proxyEnabled (m : Misskey) : bool := boolOr (proxy_Enabled (spec_Proxy (m_Spec m))) true.
Definition maintenanceEnabled (m : Misskey) : bool :=
  boolOr (maint_Enabled (proxy_Maintenance (spec_Proxy (m_Spec m)))) true.

Definition deleteLegacyMaintenanceWorkload (m : Misskey) : rprog unit :=
  do deleteIfExists KDeployment (nameMaintenance m) (m_Namespace m);
  do deleteIfExists KService (nameMaintenance m) (m_Namespace m);
  ok tt.
Definition deleteProxyResources (m : Misskey) : rprog unit :=
  do deleteIfExists KDeployment (nameProxy m) (m_Namespace m);
  do deleteIfExists KService (nameProxy m) (m_Namespace m);
  do deleteIfExists KPDB (nameProxy m) (m_Namespace m);
  ok tt.
Definition deleteMaintenanceHTMLConfigMap (m : Misskey) : rprog unit :=
  deleteIfExists KConfigMap (nameMaintenanceHTML m) (m_Namespace m).

Section Proxy.
Context `{KubeLib} `{QuantityLib}.

Definition buildCaddyPodSpec (m : Misskey) (withMaintenanceHTML : bool) : PodSpec :=
  let image := stringOr (proxy_Image (spec_Proxy (m_Spec m))) "caddy:2" in
  let volumes := [mkVolume "caddy-config" (VSConfigMap (nameConfig m));
                  mkVolume "caddy-data" VSEmptyDir; mkVolume "caddy-config-tmp" VSEmptyDir;
                  mkVolume "caddy-bin" VSEmptyDir; tmpVolume] ++
    (if withMaintenanceHTML
     then [mkVolume "maintenance-html" (VSConfigMap (nameMaintenanceHTML m))] else []) in
  let mounts := [mkMount "caddy-config" "/etc/caddy/Caddyfile" "Caddyfile" true;
                 mkMount "caddy-data" "/data" "" false; mkMount "caddy-config-tmp" "/config" "" false;
                 mkMount "caddy-bin" "/caddy-bin" "" false; tmpMount] ++
    (if withMaintenanceHTML then [mkMount "maintenance-html" "/usr/share/caddy" "" true] else []) in
  mkPodSpec (Some false) "" [] (Some (nonRootPodSecurityContext genericNonRootUID))
    (spreadConstraints (labelsFor m "proxy")) ∅ []
    [mkContainer "prepare-caddy" image ["sh"; "-c"; "cp /usr/bin/caddy /caddy-bin/caddy"] [] []
       noResources [mkMount "caddy-bin" "/caddy-bin" "" false] None None None
       (Some restrictedContainerSecurityContext)]
    [mkContainer "caddy" image
       ["/caddy-bin/caddy"; "run"; "--config"; "/etc/caddy/Caddyfile"; "--adapter"; "caddyfile"] []
       [mkContainerPort "" proxyPort; mkContainerPort "metrics" proxyMetricsPort]
       (resourcesOr (proxy_Resources (spec_Proxy (m_Spec m))) "10m" "32Mi" "128Mi") mounts
       None None None (Some restrictedContainerSecurityContext)]
    volumes.

Definition proxyServicePorts (m : Misskey) : list ServicePort :=
  [mkServicePort "http" 80 (Some (IOSInt proxyPort))] ++
  (if monitoringEnabled m
   then [mkServicePort "metrics" proxyMetricsPort (Some (IOSInt proxyMetricsPort))] else []).

(** The parts of the proxy's checksum: the page counts only while it is served. *)
Definition proxyChecksum (m : Misskey) (maint : bool) : gmap string string :=
  checksumAnnotation ([renderCaddyfile m] ++ if maint then [maintenanceHTMLContent m] else []).

Definition reconcileProxy (m : Misskey) : rprog unit :=
  do deleteLegacyMaintenanceWorkload m;
  if negb (proxyEnabled m) then
    do deleteProxyResources m;
    deleteMaintenanceHTMLConfigMap m
  else
    do applyOwned m KService (newService (nameProxy m) (m_Namespace m)) (fun svc =>
         ok (mkService (set_Labels (labelsFor m "proxy") (svc_Meta svc)) (svc_ClusterIP svc)
               (selectorFor m "proxy") (proxyServicePorts m)));
    let maint := maintenanceEnabled m in
    do applyOwned m KDeployment (newDeployment (nameProxy m) (m_Namespace m)) (fun dep =>
         ok (setDeployment dep m "proxy" (replicasOr (proxy_Replicas (spec_Proxy (m_Spec m))) 2)
               (buildCaddyPodSpec m maint) (proxyChecksum m maint)));
    do reconcilePDB m "proxy";
    if negb maint then deleteMaintenanceHTMLConfigMap m else ok tt.
End Proxy.

(** ** ingress.go *)

Definition dangerousPrefixes : list string := [
  "nginx.ingress.kubernetes.io/auth-url";
  "nginx.ingress.kubernetes.io/auth-tls-";
  "nginx.ingress.kubernetes.io/server-alias";
  "nginx.ingress.kubernetes.io/permanent-redirect";
  "nginx.ingress.kubernetes.io/lua-";
  "nginx.ingress.kubernetes.io/mirror-"].
(** Annotation keys are ASCII: the API server accepts no others. *)
Definition isDangerousIngressAnnotation (key : string) : bool :=
  let k := toLower key in
  hasSuffix k "-snippet" || existsb (hasPrefix k) dangerousPrefixes.

Definition proxyBodySizeKey : string := "nginx.ingress.kubernetes.io/proxy-body-size".
Definition issuerKey (ref : IngressIssuerRef) : string :=
  if String.eqb (issuer_Kind ref) "Issuer" then "cert-manager.io/issuer"
  else "cert-manager.io/cluster-issuer".
Definition ingressAnnotations (m : Misskey) (className : string) : gmap string string :=
  let out := filter (fun '(k, _) => isDangerousIngressAnnotation k = false)
               (ing_Annotations (spec_Ingress (m_Spec m))) in
  let out := if contains className "nginx" then <[proxyBodySizeKey := "0"]> out else out in
  match ing_IssuerRef (spec_Ingress (m_Spec m)) with
  | Some ref => <[issuerKey ref := issuer_Name ref]> out
  | None => out
  end.

Definition ingressEnabled (m : Misskey) : bool := boolOr (ing_Enabled (spec_Ingress (m_Spec m))) true.

Section Ingress.
Context `{KubeLib}.

Definition ingressRules (m : Misskey) (p : plan) : list IngressRule :=
  let '(backendName, backendPort) :=
    if proxyEnabled m then (nameProxy m, 80) else (nameApp m, misskeyPort) in
  [mkIngressRule (p_ingressHost p) [mkIngressPath "/" "Prefix" backendName backendPort]].
Definition ingressTLS (m : Misskey) (p : plan) : list IngressTLS :=
  let ing := spec_Ingress (m_Spec m) in
  if negb (String.eqb (ing_TLSSecretName ing) "")
     || match ing_IssuerRef ing with Some _ => true | None => false end
  then [mkIngressTLS [p_ingressHost p] (stringOr (ing_TLSSecretName ing) (m_Name m +:+ "-tls"))]
  else [].

Definition reconcileIngress (m : Misskey) (p : plan) : rprog unit :=
  if negb (ingressEnabled m) then deleteIfExists KIngress (m_Name m) (m_Namespace m)
  else
    let className := stringOr (ing_ClassName (spec_Ingress (m_Spec m))) "nginx" in
    applyOwned m KIngress (newIngress (m_Name m) (m_Namespace m)) (fun ing =>
      ok (mkIngressObj
            (set_Annotations (ingressAnnotations m className)
               (set_Labels (labelsFor m "ingress") (ing_Meta ing)))
            (Some className) (ingressRules m p) (ingressTLS m p))).
End Ingress.

(** ** Properties *)

(** *** What must not pass the filter, by the names ingress-nginx documents *)
Definition nginxKey (s : string) : string := "nginx.ingress.kubernetes.io/" +:+ s.
(** Text that goes into nginx.conf, authentication by another server or with client certificates,
    other host names, redirects, scripts and copies of the traffic. *)
Definition injectingKeys : list string := map nginxKey [
  "configuration-snippet"; "server-snippet"; "stream-snippet"; "auth-snippet";
  "modsecurity-snippet";
  "auth-url"; "auth-tls-secret"; "auth-tls-verify-client"; "auth-tls-verify-depth";
  "auth-tls-error-page"; "auth-tls-pass-certificate-to-upstream"; "auth-tls-match-cn";
  "server-alias"; "permanent-redirect"; "permanent-redirect-code"; "lua-resty-waf";
  "lua-resty-waf-extra-rules"; "mirror-target"; "mirror-host"; "mirror-request-body"].
(** Keys of the same families that do pass. *)
Definition passingKeys : list string := map nginxKey [
  "auth-type"; "auth-secret"; "auth-secret-type"; "auth-realm"; "auth-signin";
  "auth-signin-redirect-param"; "auth-method"; "auth-response-headers"; "auth-cache-key";
  "auth-request-redirect"; "auth-proxy-set-headers"; "temporal-redirect"; "app-root";
  "from-to-www-redirect"; "rewrite-target"; "canary"].
(** The families of keys that are kept from the Ingress; upper and lower case do not matter. *)
Definition blockedFamilies : list string :=
  map nginxKey ["auth-url"; "auth-tls-"; "server-alias"; "permanent-redirect"; "lua-"; "mirror-"].
Definition blocked (k : string) : Prop :=
  ∃ s, toLower k = s +:+ "-snippet" ∨ ∃ f, f ∈ blockedFamilies ∧ toLower k = f +:+ s.

Lemma blocked_spec k : blocked k ↔ isDangerousIngressAnnotation k = true.
Proof.
  unfold blocked, isDangerousIngressAnnotation. cbv zeta. generalize (toLower k). clear k. intros k.
  rewrite orb_true_iff, hasSuffix_spec, existsb_exists. split.
  - intros (s & [->|(f & Hf%list_elem_of_In & ->)]); [left; by exists s|right]. exists f.
    split; [exact Hf|]. apply prefix_spec. by exists s.
  - intros [[s ->]|(f & Hf & [s ->]%prefix_spec)]; exists s; [by left|right].
    exists f. split; [by apply list_elem_of_In|done].
Qed.

Lemma filter_safe_lookup (l : gmap string string) k :
  filter (fun '(k, _) => isDangerousIngressAnnotation k = false) l !! k
  = if isDangerousIngressAnnotation k then None else l !! k.
Proof.
  destruct (isDangerousIngressAnnotation k) eqn:E.
  - apply map_lookup_filter_None. right. intros v _. by rewrite E.
  - destruct (l !! k) as [v|] eqn:El.
    + by apply map_lookup_filter_Some.
    + apply map_lookup_filter_None. by left.
Qed.

(** A key that the operator does not set itself is the user's, unless it is blocked. *)
Lemma ingressAnnotations_user m className k :
  k ∉ [proxyBodySizeKey; "cert-manager.io/issuer"; "cert-manager.io/cluster-issuer"] →
  ingressAnnotations m className !! k
  = if isDangerousIngressAnnotation k then None else ing_Annotations (spec_Ingress (m_Spec m)) !! k.
Proof.
  rewrite !not_elem_of_cons. intros (Hp & Hi & Hc & _). unfold ingressAnnotations. cbv zeta.
  rewrite <- filter_safe_lookup. destruct (ing_IssuerRef _) as [ref|].
  - rewrite lookup_insert_ne by (unfold issuerKey; case_match; congruence).
    destruct (contains _ _); [|done]. by rewrite lookup_insert_ne.
  - destruct (contains _ _); [|done]. by rewrite lookup_insert_ne.
Qed.

(** C38. The annotations of the Ingress.  The operator's own keys win over the user's.  Of the
    user's keys, exactly those are dropped that end in -snippet or begin with one of six
    prefixes, in any upper/lower case spelling; every other one is kept with its value.  So the
    snippets of ingress-nginx, external authentication, client certificates, server aliases,
    permanent redirects, lua and mirroring cannot be set through the instance; the sign-in page,
    basic authentication and temporary redirects can. *)
Theorem ingressAnnotations_spec m className :
  let ing := spec_Ingress (m_Spec m) in
  let out := ingressAnnotations m className in
  (∀ ref, ing_IssuerRef ing = Some ref →
     out !! (if String.eqb (issuer_Kind ref) "Issuer" then "cert-manager.io/issuer"
             else "cert-manager.io/cluster-issuer") = Some (issuer_Name ref))
  ∧ (contains className "nginx" = true →
     out !! "nginx.ingress.kubernetes.io/proxy-body-size" = Some "0")
  ∧ (∀ k, blocked k → out !! k = None)
  ∧ (∀ k, ¬ blocked k →
       k ∉ ["nginx.ingress.kubernetes.io/proxy-body-size"; "cert-manager.io/issuer";
            "cert-manager.io/cluster-issuer"] →
       out !! k = ing_Annotations ing !! k)
  ∧ (∀ k, toLower k ∈ injectingKeys → out !! k = None)
  ∧ (∀ k, k ∈ passingKeys → out !! k = ing_Annotations ing !! k).
Proof.
  cbv zeta.
  assert (∀ k, isDangerousIngressAnnotation k = true → ingressAnnotations m className !! k = None) as Hd.
  { intros k Hk. rewrite ingressAnnotations_user, Hk; [done|].
    rewrite !elem_of_cons. intros Hin. by destruct_or! Hin; subst; try (by apply not_elem_of_nil in Hin). }
  split_and!.
  - intros ref E. unfold ingressAnnotations. cbv zeta. rewrite E. by rewrite lookup_insert_eq.
  - intros Hn. unfold ingressAnnotations. cbv zeta. rewrite Hn. fold proxyBodySizeKey.
    destruct (ing_IssuerRef _); [|by rewrite lookup_insert_eq].
    rewrite lookup_insert_ne by (unfold issuerKey; by case_match). by rewrite lookup_insert_eq.
  - intros k Hk%blocked_spec. by apply Hd.
  - intros k Hk Hn. rewrite ingressAnnotations_user by done.
    rewrite blocked_spec in Hk. by destruct (isDangerousIngressAnnotation k).
  - intros k Hk. apply Hd. unfold isDangerousIngressAnnotation. cbv zeta.
    revert Hk. generalize (toLower k). clear. intros k.
    assert (Forall (fun k => hasSuffix k "-snippet" || existsb (hasPrefix k) dangerousPrefixes = true)
      injectingKeys) as Hf by (apply (bool_decide_unpack _); vm_compute; exact I).
    rewrite Forall_forall in Hf. apply Hf.
  - intros k Hk.
    assert (Forall (fun k => negb (isDangerousIngressAnnotation k) && negb (bool_decide
      (k ∈ [proxyBodySizeKey; "cert-manager.io/issuer"; "cert-manager.io/cluster-issuer"])) = true)
      passingKeys) as Hf by (apply (bool_decide_unpack _); vm_compute; exact I).
    rewrite Forall_forall in Hf. specialize (Hf k Hk). apply andb_true_iff in Hf as [H1 H2].
    rewrite ingressAnnotations_user; [by apply negb_true_iff in H1 as ->|].
    apply negb_true_iff in H2. by apply bool_decide_eq_false in H2.
Qed.
