(* ===== verification/Tenancy.v ===== *)
(** * Tenancy: tenancy.go

    The network policies that close an instance off, the quota and the limits of a dedicated
    namespace; and what the policies mean for pods and addresses. *)
From S2P Require Export Redis.
Local Open Scope string_scope.
Local Open Scope Z_scope.
Local Open Scope list_scope.

Definition instanceLabel : string := "app.kubernetes.io/instance".
Definition componentLabel : string := "app.kubernetes.io/component".

(** The peer of a namespace, by its name label. *)
Definition namespacePeer (ns : string) : NetworkPolicyPeer :=
  PeerNamespaces (matchLabels {[nsNameLabel := ns]}).
(** The peer of the pods of the instance. *)
Definition instancePeer (m : Misskey) : NetworkPolicyPeer :=
  PeerPods (matchLabels {[instanceLabel := m_Name m]}).
(** A pod selector of the instance by component. *)
Definition componentSelector (m : Misskey) (op : SelectorOp) (values : list string) : LabelSelector :=
  mkSelector {[instanceLabel := m_Name m]} [mkReq componentLabel op values].

(** ** Ingress isolation *)

(** The component that stays open to the ingress controller. *)
Definition publicEntry (m : Misskey) : string :=
  if negb (boolOr (proxy_Enabled (spec_Proxy (m_Spec m))) true) then roleApp else "proxy".

Definition isolationPolicy (m : Misskey) (np : NetworkPolicy) : NetworkPolicy :=
  mkNetworkPolicy (set_Labels (labelsFor m "isolation") (np_Meta np))
    (componentSelector m OpNotIn [publicEntry m; "postgres"]) ["Ingress"]
    [mkNPRule (instancePeer m ::
       map namespacePeer (iso_AllowedNamespaces (net_Isolation (spec_Network (m_Spec m))))) []]
    (np_Egress np).

(** ** Egress isolation *)

Definition egressCommonRules (m : Misskey) : list NetworkPolicyRule :=
  let e := net_EgressIsolation (spec_Network (m_Spec m)) in
  let dnsNs := stringOr (egress_DNSNamespace e) "kube-system" in
  [mkNPRule [namespacePeer dnsNs] [mkNPPort (Some "UDP") 53; mkNPPort (Some "TCP") 53];
   mkNPRule [instancePeer m] []] ++
  map (fun ns => mkNPRule [namespacePeer ns] []) (egress_AllowedNamespaces e).

Definition dbEgressRule (m : Misskey) : NetworkPolicyRule :=
  mkNPRule [PeerPods (matchLabels {["cnpg.io/cluster" := nameDB m]})] [].

Definition redisHAPodApps `{QuantityLib} (m : Misskey) : list string :=
  concat (map (fun inst =>
    if ri_ha inst
    then [nameRedisHA m (ri_suffix inst); nameRedisSentinelService m (ri_suffix inst)] else [])
    (managedRedisInstances m)).
Definition redisEgressRule `{QuantityLib} (m : Misskey) : option NetworkPolicyRule :=
  match redisHAPodApps m with
  | [] => None
  | apps => Some (mkNPRule [PeerPods (mkSelector ∅ [mkReq "app" OpIn apps])] [])
  end.
Definition publicEgressRule : NetworkPolicyRule :=
  mkNPRule [PeerIPBlock "0.0.0.0/0"
    ["10.0.0.0/8"; "172.16.0.0/12"; "192.168.0.0/16"; "100.64.0.0/10"; "169.254.0.0/16"]] [].

Definition frontendPolicy `{QuantityLib} (m : Misskey) (np : NetworkPolicy) : NetworkPolicy :=
  mkNetworkPolicy (set_Labels (labelsFor m "egress") (np_Meta np))
    (componentSelector m OpIn [roleApp; roleWorker]) ["Egress"] (np_Ingress np)
    (egressCommonRules m ++ [dbEgressRule m] ++
     match redisEgressRule m with Some r => [r] | None => [] end ++ [publicEgressRule]).
Definition backendPolicy (m : Misskey) (np : NetworkPolicy) : NetworkPolicy :=
  mkNetworkPolicy (set_Labels (labelsFor m "egress") (np_Meta np))
    (componentSelector m OpNotIn [roleApp; roleWorker; "postgres"]) ["Egress"] (np_Ingress np)
    (egressCommonRules m).

(** ** The handlers *)

Section Tenancy.
Context `{KubeLib} `{QuantityLib}.

Definition reconcileNetworkIsolation (m : Misskey) : rprog unit :=
  let name := m_Name m +:+ "-isolation" in
  if negb (boolOr (iso_Enabled (net_Isolation (spec_Network (m_Spec m)))) true)
  then deleteIfExists KNetworkPolicy name (m_Namespace m)
  else applyOwned m KNetworkPolicy (newNetworkPolicy name (m_Namespace m))
         (fun np => ok (isolationPolicy m np)).

Definition reconcileEgressIsolation (m : Misskey) : rprog unit :=
  let frontend := m_Name m +:+ "-egress-frontend" in
  let backend := m_Name m +:+ "-egress-backend" in
  if negb (boolOr (egress_Enabled (net_EgressIsolation (spec_Network (m_Spec m)))) false) then
    do deleteIfExists KNetworkPolicy frontend (m_Namespace m);
    deleteIfExists KNetworkPolicy backend (m_Namespace m)
  else
    do applyOwned m KNetworkPolicy (newNetworkPolicy frontend (m_Namespace m))
         (fun np => ok (frontendPolicy m np));
    applyOwned m KNetworkPolicy (newNetworkPolicy backend (m_Namespace m))
      (fun np => ok (backendPolicy m np)).

Definition reconcileResourceQuota (m : Misskey) : rprog unit :=
  let name := m_Name m +:+ "-quota" in
  let t := spec_Tenancy (m_Spec m) in
  if negb (ten_Dedicated t) || (size (ten_Quota t) =? 0)%nat
  then deleteIfExists KResourceQuota name (m_Namespace m)
  else applyOwned m KResourceQuota (newQuota name (m_Namespace m)) (fun rq =>
         ok (mkQuota (set_Labels (labelsFor m "tenancy") (rq_Meta rq)) (ten_Quota t))).

Definition reconcileLimitRange (m : Misskey) : rprog unit :=
  let name := m_Name m +:+ "-limits" in
  let t := spec_Tenancy (m_Spec m) in
  match ten_Dedicated t, ten_LimitRange t with
  | true, Some spec =>
      applyOwned m KLimitRange (newLimitRange name (m_Namespace m)) (fun lr =>
        ok (mkLimitRangeObj (set_Labels (labelsFor m "tenancy") (lro_Meta lr))
              [mkLimitItem "Container" (lr_Default spec) (lr_DefaultRequest spec) (lr_Max spec)]))
  | _, _ => deleteIfExists KLimitRange name (m_Namespace m)
  end.

Definition reconcileTenancy (m : Misskey) : rprog unit :=
  do reconcileNetworkIsolation m;
  do reconcileEgressIsolation m;
  do reconcileResourceQuota m;
  reconcileLimitRange m.
End Tenancy.

(** ** What a policy means

    The documented semantics of selectors, peers and address blocks. *)

Definition requirementHolds (labels : gmap string string) (r : SelectorRequirement) : bool :=
  match lsr_Operator r, labels !! lsr_Key r with
  | OpIn, Some v => bool_decide (v ∈ lsr_Values r)
  | OpIn, None => false
  | OpNotIn, Some v => bool_decide (v ∉ lsr_Values r)
  | OpNotIn, None => true
  end.
Definition selectorMatches (sel : LabelSelector) (labels : gmap string string) : bool :=
  bool_decide (ls_MatchLabels sel ⊆ labels) && forallb (requirementHolds labels) (ls_MatchExpressions sel).

(** A pod on the other side: its labels, the labels of its namespace, and whether that is the
    namespace of the policy. *)
Record otherPod := mkOther {
  ot_labels : gmap string string; ot_nsLabels : gmap string string; ot_local : bool }.
Definition peerAdmits (o : otherPod) (p : NetworkPolicyPeer) : bool :=
  match p with
  | PeerPods sel => ot_local o && selectorMatches sel (ot_labels o)
  | PeerNamespaces sel => selectorMatches sel (ot_nsLabels o)
  | PeerIPBlock _ _ => false
  end.
Definition rulesAdmit (o : otherPod) (l : list NetworkPolicyRule) : bool :=
  existsb (fun r => existsb (peerAdmits o) (npr_Peers r)) l.

(** An address block [a.b.c.d/n]: its first address and its prefix length. *)
Definition parseCIDR (s : string) : option (Z * Z) :=
  match split s "/"%char with
  | [a; n] =>
      match map (fun d => Z.of_N (undigits 0 d)) (split a "."%char) with
      | [w; x; y; z] => Some (((w * 256 + x) * 256 + y) * 256 + z, Z.of_N (undigits 0 n))
      | _ => None
      end
  | _ => None
  end.
Definition cidrContains (cidr : string) (ip : Z) : bool :=
  match parseCIDR cidr with
  | Some (base, n) => Z.shiftr ip (32 - n) =? Z.shiftr base (32 - n)
  | None => false
  end.
Definition addressAdmitted (ip : Z) (l : list NetworkPolicyRule) : bool :=
  existsb (fun r => existsb (fun p =>
    match p with
    | PeerIPBlock cidr except => cidrContains cidr ip && negb (existsb (fun c => cidrContains c ip) except)
    | _ => false
    end) (npr_Peers r)) l.

(** ** Properties *)

Lemma labelsFor_instance m c : labelsFor m c !! instanceLabel = Some (m_Name m).
Proof. reflexivity. Qed.
Lemma labelsFor_component m c : labelsFor m c !! componentLabel = Some c.
Proof. reflexivity. Qed.
Lemma singleton_subseteq (k v : string) (l : gmap string string) :
  bool_decide ({[k := v]} ⊆ l) = bool_decide (l !! k = Some v).
Proof. apply bool_decide_ext. by rewrite map_singleton_subseteq_l. Qed.

Lemma componentSelector_matches m op values c :
  selectorMatches (componentSelector m op values) (labelsFor m c)
  = match op with OpIn => bool_decide (c ∈ values) | OpNotIn => bool_decide (c ∉ values) end.
Proof.
  unfold selectorMatches, componentSelector. cbn [ls_MatchLabels ls_MatchExpressions forallb].
  rewrite singleton_subseteq, labelsFor_instance, bool_decide_eq_true_2 by done.
  unfold requirementHolds. cbn [lsr_Operator lsr_Key lsr_Values].
  rewrite labelsFor_component. by destruct op; rewrite andb_true_r.
Qed.

Definition allowedNamespace (allowed : list string) (o : otherPod) : bool :=
  existsb (fun ns => bool_decide (ot_nsLabels o !! nsNameLabel = Some ns)) allowed.
Definition sameInstance (m : Misskey) (o : otherPod) : bool :=
  ot_local o && bool_decide (ot_labels o !! instanceLabel = Some (m_Name m)).

Lemma namespacePeer_admits o ns :
  peerAdmits o (namespacePeer ns) = bool_decide (ot_nsLabels o !! nsNameLabel = Some ns).
Proof.
  unfold peerAdmits, namespacePeer, instancePeer, selectorMatches, matchLabels.
  cbn [ls_MatchLabels ls_MatchExpressions forallb].
  by rewrite singleton_subseteq, andb_true_r.
Qed.
Lemma instancePeer_admits m o : peerAdmits o (instancePeer m) = sameInstance m o.
Proof.
  unfold peerAdmits, namespacePeer, instancePeer, selectorMatches, matchLabels.
  cbn [ls_MatchLabels ls_MatchExpressions forallb].
  unfold sameInstance. by rewrite singleton_subseteq, andb_true_r.
Qed.
Lemma namespacePeers_admit o allowed :
  existsb (peerAdmits o) (map namespacePeer allowed) = allowedNamespace allowed o.
Proof.
  unfold allowedNamespace. induction allowed as [|ns l IH]; [done|].
  cbn [map existsb]. by rewrite namespacePeer_admits, IH.
Qed.

(** C36. Ingress isolation: the policy covers every component of the instance but the public entry
    and PostgreSQL, and lets in exactly the pods of the instance and the allowed namespaces. *)
Theorem isolation_closed m np c o :
  selectorMatches (np_PodSelector (isolationPolicy m np)) (labelsFor m c)
    = negb (String.eqb c (publicEntry m)) && negb (String.eqb c "postgres")
  ∧ rulesAdmit o (np_Ingress (isolationPolicy m np))
    = sameInstance m o
      || allowedNamespace (iso_AllowedNamespaces (net_Isolation (spec_Network (m_Spec m)))) o.
Proof.
  split.
  - cbn [isolationPolicy np_PodSelector]. rewrite componentSelector_matches.
    destruct (String.eqb_spec c (publicEntry m)) as [->|H1]; cbn.
    { apply bool_decide_eq_false_2. intros Hn. apply Hn. left. }
    destruct (String.eqb_spec c "postgres") as [->|H2]; cbn.
    { apply bool_decide_eq_false_2. intros Hn. apply Hn. right. left. }
    apply bool_decide_eq_true_2. by rewrite !elem_of_cons, elem_of_nil; intros [|[|]].
  - cbn [isolationPolicy np_Ingress]. unfold rulesAdmit. cbn [existsb npr_Peers].
    by rewrite instancePeer_admits, namespacePeers_admit, orb_false_r.
Qed.

(** Egress isolation: the two policies share out the components; app and worker get the
    frontend policy, PostgreSQL none, everything else the backend policy. *)
Theorem egress_partition `{QuantityLib} m np c :
  let front := selectorMatches (np_PodSelector (frontendPolicy m np)) (labelsFor m c) in
  let back := selectorMatches (np_PodSelector (backendPolicy m np)) (labelsFor m c) in
  front = bool_decide (c = roleApp ∨ c = roleWorker)
  ∧ back = negb front && negb (String.eqb c "postgres").
Proof.
  cbn [frontendPolicy backendPolicy np_PodSelector]. rewrite !componentSelector_matches.
  assert (bool_decide (c ∈ [roleApp; roleWorker]) = bool_decide (c = roleApp ∨ c = roleWorker)) as ->.
  { apply bool_decide_ext. rewrite !elem_of_cons, elem_of_nil. tauto. }
  split; [done|]. rewrite <- bool_decide_not.
  assert (negb (String.eqb c "postgres") = bool_decide (c ≠ "postgres")) as ->.
  { destruct (String.eqb_spec c "postgres") as [->|]; cbn; [done|by rewrite bool_decide_eq_true_2]. }
  rewrite <- bool_decide_and. apply bool_decide_ext. rewrite !elem_of_cons, elem_of_nil. tauto.
Qed.

(** The private, shared and link-local ranges, as numbers. *)
Definition privateAddress (ip : Z) : bool :=
  ((167772160 <=? ip) && (ip <? 184549376))            (* 10.0.0.0 - 10.255.255.255 *)
  || ((2886729728 <=? ip) && (ip <? 2887778304))       (* 172.16.0.0 - 172.31.255.255 *)
  || ((3232235520 <=? ip) && (ip <? 3232301056))       (* 192.168.0.0 - 192.168.255.255 *)
  || ((1681915904 <=? ip) && (ip <? 1686110208))       (* 100.64.0.0 - 100.127.255.255 *)
  || ((2851995648 <=? ip) && (ip <? 2852061184)).      (* 169.254.0.0 - 169.254.255.255 *)

Lemma cidr_range cidr base n lo hi ip :
  parseCIDR cidr = Some (base, n) → 0 <= n <= 32 →
  lo = Z.shiftr base (32 - n) * 2 ^ (32 - n) → hi = lo + 2 ^ (32 - n) →
  cidrContains cidr ip = (lo <=? ip) && (ip <? hi).
Proof.
  intros Hp Hn -> ->. unfold cidrContains. rewrite Hp. set (b := Z.shiftr base (32 - n)).
  rewrite Z.shiftr_div_pow2 by lia.
  assert (0 < 2 ^ (32 - n)) as Hpos by (apply Z.pow_pos_nonneg; lia).
  set (s := 2 ^ (32 - n)) in *. pose proof (Z.div_mod ip s ltac:(lia)) as Hd.
  pose proof (Z.mod_pos_bound ip s Hpos) as Hm. apply eq_true_iff_eq.
  rewrite Z.eqb_eq, andb_true_iff, Z.leb_le, Z.ltb_lt. nia.
Qed.

Lemma common_no_address m ip : addressAdmitted ip (egressCommonRules m) = false.
Proof.
  unfold egressCommonRules. cbn [app addressAdmitted existsb npr_Peers namespacePeer instancePeer orb].
  induction (egress_AllowedNamespaces _) as [|ns l IH]; [done|]. exact IH.
Qed.
Lemma addressAdmitted_app ip l l' :
  addressAdmitted ip (l ++ l') = addressAdmitted ip l || addressAdmitted ip l'.
Proof. apply existsb_app. Qed.

(** C37. With egress isolation, app and worker reach exactly the public IPv4 addresses: no address
    of the private, shared and link-local ranges (the cloud metadata service among them); the
    backends reach no outside address at all. *)
Theorem egress_public_only `{QuantityLib} m np ip :
  0 <= ip < 2 ^ 32 →
  addressAdmitted ip (np_Egress (frontendPolicy m np)) = negb (privateAddress ip)
  ∧ addressAdmitted ip (np_Egress (backendPolicy m np)) = false.
Proof.
  intros Hip. cbn [frontendPolicy backendPolicy np_Egress].
  rewrite !addressAdmitted_app, common_no_address. split; [|done].
  assert (addressAdmitted ip [dbEgressRule m] = false) as -> by done.
  assert (addressAdmitted ip match redisEgressRule m with Some r => [r] | None => [] end = false) as ->
    by (unfold redisEgressRule; by destruct (redisHAPodApps m)).
  cbn [orb]. unfold publicEgressRule. cbn [addressAdmitted existsb npr_Peers].
  rewrite (cidr_range "0.0.0.0/0" 0 0 0 4294967296), (cidr_range "10.0.0.0/8" 167772160 8 167772160 184549376),
    (cidr_range "172.16.0.0/12" 2886729728 12 2886729728 2887778304),
    (cidr_range "192.168.0.0/16" 3232235520 16 3232235520 3232301056),
    (cidr_range "100.64.0.0/10" 1681915904 10 1681915904 1686110208),
    (cidr_range "169.254.0.0/16" 2851995648 16 2851995648 2852061184) by (vm_compute; done).
  unfold privateAddress. rewrite !orb_false_r, !orb_assoc.
  assert ((0 <=? ip) && (ip <? 4294967296) = true) as ->; [|done].
  change (2 ^ 32) with 4294967296 in Hip. lia.
Qed.
