(* ===== verification/Monitoring.v ===== *)
(** * Monitoring: monitoring.go

    The ServiceMonitors, PodMonitors and alert rules of an instance. *)
From S2P Require Export Redis Postgres.
Local Open Scope string_scope.
Local Open Scope Z_scope.
Local Open Scope list_scope.

Definition monitoringGroup : string := "monitoring.coreos.com".
Definition serviceMonitorGVK : GVK := mkGVK monitoringGroup "v1" "ServiceMonitor".
Definition podMonitorGVK : GVK := mkGVK monitoringGroup "v1" "PodMonitor".
Definition prometheusRuleGVK : GVK := mkGVK monitoringGroup "v1" "PrometheusRule".

Definition monitoringInterval (m : Misskey) : string :=
  stringOr (mon_Interval (spec_Monitoring (m_Spec m))) "30s".
(** User labels win over the operator's. *)
Definition monitorLabels (m : Misskey) (component : string) : gmap string string :=
  mon_Labels (spec_Monitoring (m_Spec m)) ∪ labelsFor m component.

(** [monitorObjRef] with labels and a spec. *)
Definition monitorObj (m : Misskey) (gvk : GVK) (name component : string) (spec : json) : Unstructured :=
  unstructuredWith gvk name (m_Namespace m) (monitorLabels m component) spec.
Definition deleteMonitor (m : Misskey) (gvk : GVK) (name : string) : rprog unit :=
  deleteIfExists (KU gvk) name (m_Namespace m).

Record metricsAuth := mkMetricsAuth { ma_name : string; ma_key : string }.
Definition authField (auth : option metricsAuth) : list (string * json) :=
  match auth with
  | Some a => [("authorization", JObj [("credentials",
                JObj [("name", JStr (ma_name a)); ("key", JStr (ma_key a))])])]
  | None => []
  end.
(** The selector part every monitor has. *)
Definition monitorSelector (m : Misskey) (sel : gmap string string) : list (string * json) :=
  [("selector", JObj [("matchLabels", jmap sel)]);
   ("namespaceSelector", JObj [("matchNames", JArr [JStr (m_Namespace m)])])].

Definition buildServiceMonitor (m : Misskey) (name component : string) (sel : gmap string string)
    (port path : string) (auth : option metricsAuth) : Unstructured :=
  monitorObj m serviceMonitorGVK name component (JObj (monitorSelector m sel ++
    [("endpoints", JArr [JObj ([("port", JStr port); ("path", JStr path);
        ("interval", JStr (monitoringInterval m))] ++ authField auth)])])).
Definition buildPodMonitor (m : Misskey) (name component : string) (sel : gmap string string)
    (port : string) (auth : option metricsAuth) : Unstructured :=
  monitorObj m podMonitorGVK name component (JObj (monitorSelector m sel ++
    [("podMetricsEndpoints", JArr [JObj ([("port", JStr port);
        ("interval", JStr (monitoringInterval m))] ++ authField auth)])])).
Definition buildPodMonitorPort (m : Misskey) (name component : string) (sel : gmap string string)
    (targetPort : Z) : Unstructured :=
  monitorObj m podMonitorGVK name component (JObj (monitorSelector m sel ++
    [("podMetricsEndpoints", JArr [JObj [("targetPort", JInt targetPort);
        ("interval", JStr (monitoringInterval m))]])])).

Definition monitoringRulesEnabled (m : Misskey) : bool :=
  match mon_Rules (spec_Monitoring (m_Spec m)) with
  | None => true
  | Some r => boolOr (rules_Enabled r) true
  end.

(** One alert. *)
Definition alertJSON (alert expr for_ summary : string) : json :=
  JObj [("alert", JStr alert); ("expr", JStr expr); ("for", JStr for_);
        ("labels", JObj [("severity", JStr "warning")]);
        ("annotations", JObj [("summary", JStr summary)])].

Definition proxyAlert (m : Misskey) : json :=
  let sel := "namespace=" +:+ goQuote (m_Namespace m) +:+ ",service=" +:+ goQuote (nameProxy m) in
  let count := "sum(rate(caddy_http_request_duration_seconds_count{" in
  alertJSON "MisskeyProxy5xxHigh"
    (count +:+ sel +:+ ",code=~" +:+ String "034" ("5.." +:+ String "034" "}[5m])) / ")
     +:+ count +:+ sel +:+ "}[5m])) > 0.05")
    "10m"
    ("Misskey " +:+ m_Namespace m +:+ "/" +:+ m_Name m +:+ ": proxy 5xx ratio above 5% for 10m").

(** The age after which backups count as stale. *)
Definition backupMaxAge (m : Misskey) : Z :=
  match mon_Rules (spec_Monitoring (m_Spec m)) with
  | Some r => if 0 <? rules_BackupMaxAge r then rules_BackupMaxAge r else 48 * Hour
  | None => 48 * Hour
  end.

Section Monitoring.
Context `{KubeLib} `{QuantityLib}.

(** [int64(maxAge.Seconds())]: the whole seconds (a [float64] shows them exactly; ages of more
    than 97 days with a fraction within a nanosecond of a second would round up). *)
Definition backupAlert (m : Misskey) : json :=
  let maxAge := backupMaxAge m in
  alertJSON "MisskeyBackupStale"
    ("time() - max(cnpg_collector_last_available_backup_timestamp{namespace="
     +:+ goQuote (m_Namespace m) +:+ ",pod=~" +:+ String "034" ("^" +:+ nameDB m +:+ "-[0-9]+$"
     +:+ String "034" "}) > ") +:+ itoa (Z.quot maxAge Second))
    "1h"
    ("Misskey " +:+ m_Namespace m +:+ "/" +:+ m_Name m +:+ ": no successful base backup within "
     +:+ durationString maxAge).

Definition alertRules (m : Misskey) : list json :=
  (if boolOr (proxy_Enabled (spec_Proxy (m_Spec m))) true then [proxyAlert m] else []) ++
  (match pg_External (spec_Postgres (m_Spec m)), pg_Backup (spec_Postgres (m_Spec m)) with
   | None, Some _ => [backupAlert m]
   | _, _ => []
   end).
Definition nameAlerts (m : Misskey) : string := m_Name m +:+ "-alerts".
Definition buildPrometheusRule (m : Misskey) : option Unstructured :=
  match alertRules m with
  | [] => None
  | rules =>
      Some (monitorObj m prometheusRuleGVK (nameAlerts m) "alerts"
        (JObj [("groups", JArr [JObj [("name", JStr ("cloudnative-misskey." +:+ m_Name m));
                                     ("rules", JArr rules)]])]))
  end.

(** ** The handler *)

Definition namePgMonitor (m : Misskey) : string := nameDB m +:+ "-metrics".
Definition nameMeiliMonitor (m : Misskey) : string := nameMeili m +:+ "-metrics".
Definition nameProxyMonitor (m : Misskey) : string := nameProxy m +:+ "-metrics".
Definition nameRedisMonitor (m : Misskey) (suffix : string) : string :=
  nameRedisInstance m suffix +:+ "-metrics".

(** The monitor of a redis instance. *)
Definition redisMonitor (m : Misskey) (inst : redisManagedInstance) : Unstructured :=
  let name := nameRedisMonitor m (ri_suffix inst) in
  let comp := redisComponent (ri_suffix inst) in
  if ri_ha inst
  then buildPodMonitorPort m name comp {["app" := nameRedisHA m (ri_suffix inst)]} redisExporterPort
  else buildServiceMonitor m name comp (selectorFor m comp) "metrics" "/metrics" None.

Definition monitoredInstances (m : Misskey) : list redisManagedInstance :=
  if monitoringEnabled m then managedRedisInstances m else [].

Definition cleanupRedisMonitors (m : Misskey) (suffix : string) : rprog unit :=
  let name := nameRedisMonitor m suffix in
  if existsb (fun i => String.eqb (nameRedisMonitor m (ri_suffix i)) name) (monitoredInstances m)
  then ok tt
  else
    do deleteMonitor m serviceMonitorGVK name;
    deleteMonitor m podMonitorGVK name.

Definition reconcileMonitoring (m : Misskey) (p : plan) : rprog unit :=
  let on := monitoringEnabled m in
  do (if on && p_dbManaged p
      then applySSA m (buildPodMonitor m (namePgMonitor m) "postgres"
                         {["cnpg.io/cluster" := nameDB m]} "metrics" None)
      else deleteMonitor m podMonitorGVK (namePgMonitor m));
  do (if on && p_meiliManaged p
      then applySSA m (buildServiceMonitor m (nameMeiliMonitor m) "meilisearch"
                         (selectorFor m "meilisearch") "http" "/metrics"
                         (Some (mkMetricsAuth (sel_Name (p_meiliKeySel p)) (sel_Key (p_meiliKeySel p)))))
      else deleteMonitor m serviceMonitorGVK (nameMeiliMonitor m));
  do (if on && boolOr (proxy_Enabled (spec_Proxy (m_Spec m))) true
      then applySSA m (buildServiceMonitor m (nameProxyMonitor m) "proxy"
                         (selectorFor m "proxy") "metrics" "/metrics" None)
      else deleteMonitor m serviceMonitorGVK (nameProxyMonitor m));
  do forEach (monitoredInstances m) (fun inst => applySSA m (redisMonitor m inst));
  do forEach allRedisSuffixes (cleanupRedisMonitors m);
  match buildPrometheusRule m with
  | Some rule =>
      if on && monitoringRulesEnabled m then applySSA m rule
      else deleteMonitor m prometheusRuleGVK (nameAlerts m)
  | None => deleteMonitor m prometheusRuleGVK (nameAlerts m)
  end.
End Monitoring.

(** ** Properties *)

(** Every monitor the operator can create, with its kind. *)
Definition allMonitors (m : Misskey) : list (GVK * string) :=
  [(podMonitorGVK, namePgMonitor m); (serviceMonitorGVK, nameMeiliMonitor m);
   (serviceMonitorGVK, nameProxyMonitor m); (prometheusRuleGVK, nameAlerts m)] ++
  concat (map (fun s => [(serviceMonitorGVK, nameRedisMonitor m s); (podMonitorGVK, nameRedisMonitor m s)])
    allRedisSuffixes).

Section Off.
Context `{KubeLib} `{QuantityLib} (m : Misskey) (Hoff : monitoringEnabled m = false).
Let gone_ (g : GVK) (n : string) (h : history) : Prop := removed (KU g) n (m_Namespace m) h.

Lemma cleanupRedisMonitors_off s h0 :
  wp (cleanupRedisMonitors m s) (fun h r => r = Ok tt →
    gone_ serviceMonitorGVK (nameRedisMonitor m s) h ∧ gone_ podMonitorGVK (nameRedisMonitor m s) h) h0.
Proof.
  unfold cleanupRedisMonitors, monitoredInstances. rewrite Hoff. cbn [existsb].
  apply wp_tryBind. eapply wp_mono, deleteIfExists_wp. intros h1 [[]|e] H1; [|done].
  apply wp_prefix. eapply wp_mono, deleteIfExists_wp. intros h2 r2 H2 [h2' ->] ->.
  split; [by apply removed_app, H1|by apply H2].
Qed.

(** With monitoring off, a completed run has removed every monitor and rule there can be. *)
Theorem monitoring_off_removes p h :
  runs (reconcileMonitoring m p) h (Ok tt) →
  Forall (fun '(g, n) => removed (KU g) n (m_Namespace m) h) (allMonitors m).
Proof.
  apply (wp_result _ (fun h => Forall (fun '(g, n) => gone_ g n h) (allMonitors m))).
  unfold reconcileMonitoring, monitoredInstances. rewrite Hoff. cbn [andb forEach].
  apply wp_tryBind. eapply wp_mono, deleteIfExists_wp. intros h1 [[]|e] H1; [|done].
  apply wp_tryBind, wp_prefix. eapply wp_mono, deleteIfExists_wp.
  intros h2 [[]|e] H2 [h2' ->]; [|done].
  apply wp_tryBind, wp_prefix. eapply wp_mono, deleteIfExists_wp.
  intros h3 [[]|e] H3 [h3' ->]; [|done].
  apply wp_tryBind. cbn [ok wp]. apply wp_tryBind, wp_prefix. eapply wp_mono.
  2:{ apply (wp_forEach_all (fun s h => gone_ serviceMonitorGVK (nameRedisMonitor m s) h
                                        ∧ gone_ podMonitorGVK (nameRedisMonitor m s) h)).
      - intros s g g' [? ?]. split; by apply removed_app.
      - intros s g _. apply cleanupRedisMonitors_off. }
  intros h4 [[]|e] H4 [h4' ->]; [|done]. specialize (H4 eq_refl).
  apply (wp_mono _ (fun h r => r = Ok tt → (((h1 ++ h2') ++ h3') ++ h4') `prefix_of` h
                               ∧ gone_ prometheusRuleGVK (nameAlerts m) h)).
  2:{ apply wp_prefix. destruct (buildPrometheusRule m); eapply wp_mono, deleteIfExists_wp;
        intros h5 r Hr Hpre ->; (split; [done|by apply Hr]). }
  intros h5 r Hr ->. destruct (Hr eq_refl) as [[h5' ->] H5].
  unfold allMonitors. apply Forall_app. split.
  { repeat apply Forall_cons_2; [| | |exact H5|apply Forall_nil_2].
    - do 4 apply removed_app. by apply H1.
    - do 3 apply removed_app. by apply H2.
    - do 2 apply removed_app. by apply H3. }
  apply Forall_concat_map. apply Forall_forall. intros s Hs. destruct (H4 s Hs) as [Ha Hb].
  repeat constructor; by apply removed_app.
Qed.
End Off.

Lemma redisMonitor_names m s :
  namePgMonitor m ≠ nameRedisMonitor m s ∧ nameMeiliMonitor m ≠ nameRedisMonitor m s
  ∧ nameProxyMonitor m ≠ nameRedisMonitor m s ∧ nameAlerts m ≠ nameRedisMonitor m s.
Proof.
  unfold namePgMonitor, nameMeiliMonitor, nameProxyMonitor, nameAlerts, nameRedisMonitor, nameDB,
    nameMeili, nameProxy, nameRedisInstance, nameRedis.
  split_and!; destruct (String.eqb s ""); rewrite ?sapp_assoc; intros H%sapp_inj_l; discriminate H.
Qed.

(** As the source is: a wanted redis instance shields its monitor name in both kinds, so the
    monitor of the mode it has left stays. *)
Theorem redis_monitor_kept `{KubeLib} `{QuantityLib} m p h r inst :
  monitoringEnabled m = true → inst ∈ managedRedisInstances m →
  runs (reconcileMonitoring m p) h r →
  Forall (fun r => match r with
                   | DeleteObj _ n _ _ => n ≠ nameRedisMonitor m (ri_suffix inst)
                   | _ => True end) (reqs h).
Proof.
  intros Hon Hin Hr. set (name := nameRedisMonitor m (ri_suffix inst)).
  destruct (redisMonitor_names m (ri_suffix inst)) as (N1 & N2 & N3 & N4). fold name in N1, N2, N3, N4.
  revert Hr. apply emits_runs. unfold reconcileMonitoring.
  assert (∀ g n, n ≠ name → emits (fun r => match r with DeleteObj _ n _ _ => n ≠ name | _ => True end)
    (deleteMonitor m g n)) as Hd by (intros g n Hn; by apply emits_deleteIfExists).
  assert (∀ u, emits (fun r => match r with DeleteObj _ n _ _ => n ≠ name | _ => True end)
    (applySSA m u)) as Ha by (intros u; by apply emits_applySSA).
  apply emits_tryBind; [destruct (_ && _); auto|]. intros _.
  apply emits_tryBind; [destruct (_ && _); auto|]. intros _.
  apply emits_tryBind; [destruct (_ && _); auto|]. intros _.
  apply emits_tryBind; [apply emits_forEach; auto|]. intros _.
  apply emits_tryBind; [apply emits_forEach; intros s _|].
  - unfold cleanupRedisMonitors. destruct (existsb _ _) eqn:E; [done|].
    assert (nameRedisMonitor m s ≠ name) as Hn.
    { intros Hn. apply not_true_iff_false in E. apply E, existsb_exists. exists inst.
      split; [|rewrite Hn; apply String.eqb_refl].
      unfold monitoredInstances. rewrite Hon. by apply list_elem_of_In. }
    apply emits_tryBind; auto.
  - intros _. destruct (buildPrometheusRule m); [|auto]. destruct (_ && _); auto.
Qed.
