(* ===== verification/Detector.v ===== *)
(** * The sensitive-media detector: sensitive_detector.go

    The detector's workload, the Job that writes its settings to the database, and the
    cleanup of what a changed or removed detector leaves behind.  The SQL and its hash are in
    [Workloads], which uses them for the pod checksum. *)
From S2P Require Export Backends.
Local Open Scope string_scope.
Local Open Scope Z_scope.
Local Open Scope list_scope.

Definition sensitiveDetectorComponent : string := "sensitive-detector".
Definition detectorConfigComponent : string := "sensitive-detector-config".

Definition renderSensitiveDetectorConfig : string :=
  "export default {" +:+ nl +:+ "  port: " +:+ itoa sensitiveDetectorPort +:+ "," +:+ nl
  +:+ "  host: '0.0.0.0'," +:+ nl +:+ "  modelDir: '/models'," +:+ nl
  +:+ "  apiKey: process.env.SENSITIVE_DETECTOR_API_KEY," +:+ nl +:+ "};" +:+ nl.

Definition detectorProbe (period failure : Z) : Probe :=
  mkProbe (HTTPGet "/health" (IOSString "http")) 0 period 3 failure.

(** ** The workload *)

Section Detector.
Context `{KubeLib} `{QuantityLib}.

Definition buildSensitiveDetectorPodSpec (m : Misskey) (p : plan) : PodSpec :=
  match spec_SensitiveDetector (m_Spec m) with
  | None => emptyPodSpec
  | Some d =>
      mkPodSpec (Some false) "" (spec_ImagePullSecrets (m_Spec m))
        (Some (nonRootPodSecurityContext genericNonRootUID)) [] (det_NodeSelector d)
        (det_Tolerations d) []
        [mkContainer sensitiveDetectorComponent
           (stringOr (det_Image d) "ghcr.io/misskey-dev/sensitive-detector:0.0.2") []
           [secretEnv sensitiveDetectorAPIKeyID (p_sensitiveDetectorAPIKeySel p)]
           [mkContainerPort "http" sensitiveDetectorPort]
           (resourcesOr (det_Resources d) "250m" "512Mi" "2Gi")
           [mkMount "config" "/config/config.mjs" "config.mjs" true; tmpMount]
           (Some (detectorProbe 5 12)) (Some (detectorProbe 10 3)) (Some (detectorProbe 20 3))
           (Some restrictedContainerSecurityContext)]
        [mkVolume "config" (VSConfigMap (nameSensitiveDetector m)); tmpVolume]
  end.

Definition reconcileSensitiveDetector (m : Misskey) (p : plan) : rprog unit :=
  match spec_SensitiveDetector (m_Spec m), p_sensitiveDetectorManaged p with
  | Some d, true =>
      let name := nameSensitiveDetector m in
      do applyOwned m KConfigMap (newConfigMap name (m_Namespace m))
           (setData m sensitiveDetectorComponent {["config.mjs" := renderSensitiveDetectorConfig]});
      do applyOwned m KService (newService name (m_Namespace m)) (fun svc =>
           ok (mkService (set_Labels (labelsFor m sensitiveDetectorComponent) (svc_Meta svc))
                 (svc_ClusterIP svc) (selectorFor m sensitiveDetectorComponent)
                 [mkServicePort "http" sensitiveDetectorPort (Some (IOSInt sensitiveDetectorPort))]));
      do applyOwned m KDeployment (newDeployment name (m_Namespace m)) (fun dep =>
           try ver := secretVersion (m_Namespace m) (sel_Name (p_sensitiveDetectorAPIKeySel p)) in
           ok (setDeployment dep m sensitiveDetectorComponent (replicasOr (det_Replicas d) 1)
                 (buildSensitiveDetectorPodSpec m p)
                 (checksumAnnotation [renderSensitiveDetectorConfig; ver])));
      reconcilePDB m sensitiveDetectorComponent
  | _, _ => ok tt
  end.

Definition cleanupSensitiveDetector (m : Misskey) : rprog unit :=
  let name := nameSensitiveDetector m in
  do deleteIfExists KDeployment name (m_Namespace m);
  do deleteIfExists KService name (m_Namespace m);
  do deleteIfExists KPDB name (m_Namespace m);
  do deleteIfExists KConfigMap name (m_Namespace m);
  ok tt.

Definition cleanupGeneratedSensitiveDetectorSecret (m : Misskey) : rprog unit :=
  let! r := send (Get KSecret (nameSensitiveDetector m) (m_Namespace m)) in
  match r with
  | Err e => if isNotFound e then ok tt else fail e
  | Ok s =>
      let managedBy := om_Labels (sec_Meta s) !! "app.kubernetes.io/managed-by" in
      if negb (String.eqb (deref "" managedBy) "cloudnative-misskey")
         || negb (isControlledBy (sec_Meta s) (m_Meta m))
      then ok tt
      else
        let! d := send (DeleteObj KSecret (om_Name (sec_Meta s)) (om_Namespace (sec_Meta s)) None) in
        lift (ignoreNotFound d)
  end.

(** ** The configuration Job *)

Definition sensitiveDetectorConfigJobEnv (m : Misskey) (p : plan) : list EnvVar :=
  match spec_SensitiveDetector (m_Spec m) with
  | None => []
  | Some d => [
      envValue "SENSITIVE_DETECTOR_MODE" (det_Mode d);
      envValue "SENSITIVE_DETECTOR_SENSITIVITY" (stringOr (det_Sensitivity d) "medium");
      envValue "SENSITIVE_DETECTOR_URL" (p_sensitiveDetectorURL p);
      secretEnv "SENSITIVE_DETECTOR_API_KEY" (p_sensitiveDetectorAPIKeySel p)]
  end.

Definition buildSensitiveDetectorConfigJob (m : Misskey) (p : plan) (name : string)
    (env : list EnvVar) : Job :=
  oneShotJob m name detectorConfigComponent ∅
    (psqlJobPod m "sensitive-detector-config" (stringOr (p_sensitiveDetectorConfigImage p) psqlImage)
       "/sql/sensitive-detector.sql" (nameSensitiveDetectorConfig m)
       (psqlEnv (migratePlan m p) ++ env)).

Definition cleanupSensitiveDetectorConfigJobs (m : Misskey) (keep : string) : rprog unit :=
  cleanupJobs m detectorConfigComponent keep.

(** [sensitiveDetectorConfigState]: whether the configuration ConfigMap is there. *)
Record dcState := mkDcState { dc_checked : bool; dc_exists : bool; dc_err : option error }.
Definition dcStart : dcState := mkDcState false false None.

Definition hasSensitiveDetectorConfigState (m : Misskey) : rprog bool :=
  let! r := send (Get KConfigMap (nameSensitiveDetectorConfig m) (m_Namespace m)) in
  match r with
  | Ok _ => ok true
  | Err e => if isNotFound e then ok false else fail e
  end.
Definition readSensitiveDetectorConfigState (m : Misskey) (st : dcState) : prog dcState :=
  if dc_checked st then Ret st
  else
    let! r := hasSensitiveDetectorConfigState m in
    Ret (match r with
         | Ok b => mkDcState true b None
         | Err e => mkDcState true false (Some e)
         end).

Definition detectorConfigData (m : Misskey) (sql hash : string) : gmap string string :=
  <["sensitive-detector.sql" := sql]> (<["desired-hash" := hash]>
    {["enabled" := formatBool (bool_decide (is_Some (spec_SensitiveDetector (m_Spec m))))]}).

(** The part of [reconcileSensitiveDetectorConfig] that looks at the Job. *)
Definition runDetectorConfigJob (m : Misskey) (p : plan) (jobName : string) : rprog bool :=
  let! r := send (Get KJob jobName (m_Namespace m)) in
  match r with
  | Err e =>
      if isNotFound e then
        try job := createControlled m KJob
          (buildSensitiveDetectorConfigJob m p jobName (sensitiveDetectorConfigJobEnv m p)) in
        let! _ := event_ "Normal" "SensitiveDetectorConfiguring" "Configure"
          ("created Sensitive Detector meta Job " +:+ om_Name (job_Meta job)) in
        ok false
      else fail e
  | Ok job =>
      let! _ :=
        if (job_Succeeded job =? 0) && (1 <=? job_Failed job) then
          event_ "Warning" "SensitiveDetectorConfigFailed" "Configure"
            ("Sensitive Detector meta Job " +:+ om_Name (job_Meta job) +:+ " failed ("
             +:+ itoa (job_Failed job) +:+ "); delete the Job to retry")
        else Ret tt in
      ok (1 <=? job_Succeeded job)
  end.

Definition reconcileSensitiveDetectorConfig (m : Misskey) (p : plan) (st : dcState)
    : prog (dcState * result error bool) :=
  let! st := readSensitiveDetectorConfigState m st in
  match dc_err st with
  | Some e => Ret (st, Err e)
  | None =>
      if bool_decide (spec_SensitiveDetector (m_Spec m) = None) && negb (dc_exists st)
      then Ret (st, Ok true)
      else
        let sql := renderSensitiveDetectorConfigSQL m in
        let! r :=
          (try hash := sensitiveDetectorConfigHash m p sql in
           let jobName := nameSensitiveDetectorConfigJob m hash in
           do cleanupSensitiveDetectorConfigJobs m jobName;
           do applyOwned m KConfigMap (newConfigMap (nameSensitiveDetectorConfig m) (m_Namespace m))
                (setData m detectorConfigComponent (detectorConfigData m sql hash));
           ok jobName) in
        match r with
        | Err e => Ret (st, Err e)
        | Ok jobName =>
            let! b := runDetectorConfigJob m p jobName in
            Ret (mkDcState (dc_checked st) true (dc_err st), b)
        end
  end.

Definition cleanupSensitiveDetectorConfigState (m : Misskey) : rprog unit :=
  do cleanupSensitiveDetectorConfigJobs m "";
  deleteIfExists KConfigMap (nameSensitiveDetectorConfig m) (m_Namespace m).

(** ** Convergence and cleanup *)

(** The replicas a Deployment asks for. *)
Definition wantedReplicas (dep : Deployment) : Z := deref 1 (dep_Replicas dep).
Definition updated (dep : Deployment) : bool :=
  (wantedReplicas dep <=? dep_UpdatedReplicas dep) && (wantedReplicas dep <=? dep_AvailableReplicas dep).
Definition observed (dep : Deployment) : bool :=
  om_Generation (dep_Meta dep) <=? dep_ObservedGeneration dep.

(** One round of the loop of [misskeyWorkloadsConverged]. *)
Definition workloadConverged (m : Misskey) (want name : string) : prog bool :=
  let! r := send (Get KDeployment name (m_Namespace m)) in
  match r with
  | Err _ => Ret false
  | Ok dep =>
      Ret (String.eqb (checksumOf (pt_Annotations (dep_Template dep))) want
           && observed dep && updated dep)
  end.
Definition misskeyWorkloadsConverged (m : Misskey) (p : plan) : prog bool :=
  let! c := misskeyChecksum m p in
  match c with
  | Err _ => Ret false
  | Ok checksum =>
      let want := checksumOf checksum in
      let! app := workloadConverged m want (nameApp m) in
      if app then workloadConverged m want (nameWorker m) else Ret false
  end.

Definition sensitiveDetectorConverged (m : Misskey) : rprog bool :=
  let! r := send (Get KDeployment (nameSensitiveDetector m) (m_Namespace m)) in
  match r with
  | Err e => if isNotFound e then ok false else fail e
  | Ok dep => ok (observed dep && updated dep)
  end.

(** Whether the managed detector has moved to a key Secret of the user's. *)
Definition usesForeignKey (m : Misskey) : bool :=
  match spec_SensitiveDetector (m_Spec m) with
  | Some d =>
      match det_APIKeySecret d with
      | Some sel => negb (String.eqb (sel_Name sel) (nameSensitiveDetector m))
      | None => false
      end
  | None => false
  end.

(** What the cleanup does once everything runs on the new configuration. *)
Definition finalizeManaged (m : Misskey) : rprog unit :=
  if negb (usesForeignKey m) then ok tt
  else
    try converged := sensitiveDetectorConverged m in
    if converged then cleanupGeneratedSensitiveDetectorSecret m else ok tt.

Definition finalizeSensitiveDetectorCleanup (m : Misskey) (p : plan) (configComplete : bool)
    (st : dcState) : prog (dcState * result error unit) :=
  if negb configComplete then Ret (st, Ok tt)
  else
    let! c := misskeyWorkloadsConverged m p in
    if negb c then Ret (st, Ok tt)
    else if p_sensitiveDetectorManaged p then
      let! r := finalizeManaged m in Ret (st, r)
    else
      let! r :=
        (do cleanupSensitiveDetector m;
         do cleanupGeneratedSensitiveDetectorSecret m;
         if negb (p_sensitiveDetectorEnabled p) then cleanupSensitiveDetectorConfigState m
         else ok tt) in
      match r with
      | Ok _ =>
          Ret (if negb (p_sensitiveDetectorEnabled p)
               then mkDcState (dc_checked st) false (dc_err st) else st, Ok tt)
      | Err e => Ret (st, Err e)
      end.

(** ** The condition *)

Definition sensitiveDetectorConfigComplete (m : Misskey) : prog bool :=
  let! r := send (Get KConfigMap (nameSensitiveDetectorConfig m) (m_Namespace m)) in
  match r with
  | Err _ => Ret false
  | Ok cm =>
      let hash := deref "" (cm_Data cm !! "desired-hash") in
      if (String.length hash <? 10)%nat then Ret false
      else
        let! j := send (Get KJob (nameSensitiveDetectorConfigJob m hash) (m_Namespace m)) in
        Ret (match j with Ok job => 1 <=? job_Succeeded job | Err _ => false end)
  end.
End Detector.

(** ** Properties *)

Section Properties.
Context `{KubeLib} `{QuantityLib}.

(** A completed configuration: there is nothing to configure, or a Job has succeeded. *)
Definition detectorConfigured (m : Misskey) (h : history) : Prop :=
  spec_SensitiveDetector (m_Spec m) = None
  ∨ ∃ hash, jobSucceeded m (nameSensitiveDetectorConfigJob m hash) h.

Lemma runDetectorConfigJob_wp m p jobName h0 :
  wp (runDetectorConfigJob m p jobName) (fun h r => r = Ok true → jobSucceeded m jobName h) h0.
Proof.
  unfold runDetectorConfigJob. apply wp_bind, wp_send. intros [job|e].
  - apply wp_bind, wp_any. intros h1 u. intros [= Hs%Z.leb_le]. exists job.
    split; [in_hist|done].
  - destruct (isNotFound e); [|done]. apply wp_tryBind, wp_any. intros h1 [job|e']; [|done].
    by apply wp_bind, wp_any.
Qed.
Lemma detectorConfig_wp m p st h0 :
  wp (reconcileSensitiveDetectorConfig m p st) (fun h x => x.2 = Ok true → detectorConfigured m h) h0.
Proof.
  unfold reconcileSensitiveDetectorConfig. apply wp_bind, wp_any. intros h1 st1.
  destruct (dc_err st1); [done|]. destruct (bool_decide _ && _) eqn:E.
  { cbn. intros _. left. bool_prop. by apply bool_decide_eq_true_1 in H1. }
  apply wp_bind. apply (wp_mono _ (fun h r => ∀ n, r = Ok n → ∃ hash, n = nameSensitiveDetectorConfigJob m hash)).
  2:{ apply wp_tryBind, wp_any. intros h2 [hash|e]; [|done].
      apply wp_tryBind, wp_any. intros h3 [[]|e]; [|done].
      apply wp_tryBind, wp_any. intros h4 [[]|e]; [|done].
      cbn. intros n [= <-]. by exists hash. }
  intros h2 [n|e] Hn; [|done]. destruct (Hn n eq_refl) as [hash ->].
  apply wp_bind. eapply wp_mono, runDetectorConfigJob_wp. intros h3 r Hr. cbn. intros ->.
  right. exists hash. by apply Hr.
Qed.

(** The server showed a Deployment that runs the configuration [want] everywhere. *)
Definition runsConfig (m : Misskey) (want name : string) (h : history) : Prop :=
  ∃ dep, ev (Get KDeployment name (m_Namespace m)) (Ok dep) ∈ h
    ∧ checksumOf (pt_Annotations (dep_Template dep)) = want
    ∧ om_Generation (dep_Meta dep) <= dep_ObservedGeneration dep
    ∧ wantedReplicas dep <= dep_UpdatedReplicas dep
    ∧ wantedReplicas dep <= dep_AvailableReplicas dep.
Lemma runsConfig_app m w n h h' : runsConfig m w n h → runsConfig m w n (h ++ h').
Proof. intros (d & Hd & Hr). exists d. split; [in_hist|done]. Qed.

Lemma workloadConverged_wp m want name h0 :
  wp (workloadConverged m want name) (fun h b => b = true → runsConfig m want name h) h0.
Proof.
  unfold workloadConverged. apply wp_bind, wp_send. intros [dep|e]; [|done]. cbn.
  intros Hb. unfold observed, updated in Hb. bool_prop. exists dep. split; [in_hist|done].
Qed.
(** App and worker run, on every replica, the configuration whose checksum was computed
    first. *)
Definition convergedOn (m : Misskey) (p : plan) (h : history) : Prop :=
  ∃ hc c h', h = hc ++ h' ∧ runs (misskeyChecksum m p) hc (Ok c)
    ∧ runsConfig m (checksumOf c) (nameApp m) h' ∧ runsConfig m (checksumOf c) (nameWorker m) h'.
Lemma convergedOn_app m p h h' : convergedOn m p h → convergedOn m p (h ++ h').
Proof.
  intros (hc & c & h1 & -> & Hc & Ha & Hw). exists hc, c, (h1 ++ h'). rewrite app_assoc.
  split_and!; [done..|by apply runsConfig_app|by apply runsConfig_app].
Qed.
Lemma misskeyWorkloadsConverged_runs m p h :
  runs (misskeyWorkloadsConverged m p) h true → convergedOn m p h.
Proof.
  unfold misskeyWorkloadsConverged. intros (hc & h' & [c|e] & -> & Hc & Hr)%runs_bind.
  2:{ by destruct Hr. }
  exists hc, c, h'. split; [done|]. split; [done|].
  assert (wp (bind (workloadConverged m (checksumOf c) (nameApp m))
    (fun app => if app then workloadConverged m (checksumOf c) (nameWorker m) else Ret false))
    (fun h b => b = true → runsConfig m (checksumOf c) (nameApp m) h
       ∧ runsConfig m (checksumOf c) (nameWorker m) h) []) as Hw.
  { apply wp_bind. eapply wp_mono, workloadConverged_wp. intros h2 [] H2; [|done].
    apply wp_prefix. eapply wp_mono, workloadConverged_wp. intros h3 b H3 [h3' ->] Hb.
    split; [by apply runsConfig_app, H2|by apply H3]. }
  rewrite wp_runs in Hw. by apply (Hw _ _ Hr).
Qed.

Lemma emits_misskeyChecksum P m p :
  (∀ name, P (Get KSecret name (m_Namespace m))) → emits P (misskeyChecksum m p).
Proof.
  intros HP. unfold misskeyChecksum.
  assert (∀ sql assigns, emits P (objectStorageHash m p sql assigns)) as Ho.
  { intros sql assigns. apply emits_bind; [|done]. apply emits_bind; [|done].
    apply emits_mapP. intros n _. apply emits_bind; [by split|done]. }
  assert (∀ sql, emits P (sensitiveDetectorConfigHash m p sql)) as Hd.
  { intros sql. apply emits_tryBind; [by apply emits_secretVersion|]. intros v.
    destruct (spec_SensitiveDetector _); [|done]. apply emits_tryBind; [by apply emits_secretVersion|done]. }
  apply emits_tryBind; [by apply emits_referencedSecretVersions|]. intros vs.
  apply emits_bind.
  - destruct (p_objAutoConfigure p); [|done]. destruct (objectStorageAssignments p); [|done].
    apply emits_bind; [apply Ho|done].
  - intros o. apply emits_tryBind; [|done]. destruct (p_sensitiveDetectorEnabled p); [|done].
    apply emits_tryBind; [apply Hd|done].
Qed.
Lemma emits_converged P m p :
  (∀ name, P (Get KSecret name (m_Namespace m))) →
  (∀ name, P (Get KDeployment name (m_Namespace m))) → emits P (misskeyWorkloadsConverged m p).
Proof.
  intros Hs Hd. unfold misskeyWorkloadsConverged.
  assert (∀ w n, emits P (workloadConverged m w n)) as Hw.
  { intros w n. apply emits_bind; [by split|]. by intros [dep|e]. }
  apply emits_bind; [by apply emits_misskeyChecksum|]. intros [c|e]; [|done].
  apply emits_bind; [apply Hw|]. intros []; [apply Hw|done].
Qed.

(** Only a Secret that the operator generated for this very instance is deleted: one that
    carries its label and is controlled by the instance. *)
Theorem generated_secret_only m h r :
  runs (cleanupGeneratedSensitiveDetectorSecret m) h r → Exists deletes (reqs h) →
  ∃ s, ev (Get KSecret (nameSensitiveDetector m) (m_Namespace m)) (Ok s) ∈ h
       ∧ isControlledBy (sec_Meta s) (m_Meta m) = true
       ∧ om_Labels (sec_Meta s) !! "app.kubernetes.io/managed-by" = Some "cloudnative-misskey".
Proof.
  set (Q := fun h : history => Exists deletes (reqs h) →
    ∃ s, ev (Get KSecret (nameSensitiveDetector m) (m_Namespace m)) (Ok s) ∈ h
       ∧ isControlledBy (sec_Meta s) (m_Meta m) = true
       ∧ om_Labels (sec_Meta s) !! "app.kubernetes.io/managed-by" = Some "cloudnative-misskey").
  apply (proj1 (wp_runs _ (fun h _ => Q h) [])).
  unfold cleanupGeneratedSensitiveDetectorSecret. apply wp_bind, wp_send.
  assert (∀ a, Q ([] ++ [ev (Get KSecret (nameSensitiveDetector m) (m_Namespace m)) a])) as Hno.
  { intros a He. exfalso. apply Exists_exists in He as (q & Hq & Hd).
    cbn in Hq. apply elem_of_cons in Hq as [->|Hq]; [done|by apply not_elem_of_nil in Hq]. }
  intros [s|e]; [|destruct (isNotFound e); apply Hno].
  destruct (_ || _) eqn:E; [apply Hno|]. bool_prop.
  apply (wp_mono _ (fun h _ => Q h)); [done|]. apply wp_any. intros h' y _. exists s.
  split_and!; [in_hist|done|]. destruct (om_Labels (sec_Meta s) !! _) as [v|]; [|done].
  cbn in *. by subst.
Qed.
End Properties.
