(* ===== verification/Status.v ===== *)
(** * Conditions and status: misskey_controller.go

    The conditions of the subsystems, their aggregation into Ready and the phase, and the
    status write. *)
From S2P Require Export Detector Monitoring Tenancy Channel.
Local Open Scope string_scope.
Local Open Scope Z_scope.
Local Open Scope list_scope.

(** ** Messages *)

Definition maxMessage : nat := 1024.
Definition truncatedSuffix : string := "…(truncated)".
(** Steps back from [cut] to the start of a rune. *)
Fixpoint runeCut (s : string) (cut : nat) : nat :=
  match cut with
  | O => O
  | S n =>
      match String.get cut s with
      | Some c => if runeStart c then cut else runeCut s n
      | None => cut
      end
  end.
Definition truncateMsg (s : string) : string :=
  if (String.length s <=? maxMessage)%nat then s
  else str_take (runeCut s (maxMessage - String.length truncatedSuffix)) s +:+ truncatedSuffix.

(** ** Conditions of the subsystems *)

(** A status, a reason and a message. *)
Definition verdict3 : Type := ConditionStatus * string * string.

Definition deploymentReady (m : Misskey) (name : string) : prog verdict3 :=
  let! r := send (Get KDeployment name (m_Namespace m)) in
  match r with
  | Err _ => Ret (ConditionFalse, "NotCreated", "Deployment not created")
  | Ok dep =>
      let desired := wantedReplicas dep in
      if desired =? 0 then Ret (ConditionFalse, "Stopped", "replicas=0")
      else
        let msg := itoa (dep_AvailableReplicas dep) +:+ "/" +:+ itoa desired +:+ " available" in
        if desired <=? dep_AvailableReplicas dep then Ret (ConditionTrue, "Available", msg)
        else Ret (ConditionFalse, "Progressing", msg)
  end.

Definition databaseCondition (m : Misskey) (p : plan) : prog verdict3 :=
  if negb (p_dbManaged p) then Ret (ConditionTrue, "External", "external database")
  else
    let! r := send (Get (KU cnpgClusterGVK) (nameDB m) (m_Namespace m)) in
    match r with
    | Err _ => Ret (ConditionFalse, "Pending", "CNPG Cluster not created")
    | Ok cluster =>
        let ready := nestedInt64 (u_Object cluster) ["status"; "readyInstances"] in
        let desired := int32OrDefault (pg_Instances (spec_Postgres (m_Spec m))) 1 in
        let msg := itoa ready +:+ "/" +:+ itoa desired +:+ " instances ready" in
        if (0 <? desired) && (desired <=? ready) then Ret (ConditionTrue, "Ready", msg)
        else Ret (ConditionFalse, "Progressing", msg)
    end.

Definition podReady (pod : Pod) : bool :=
  existsb (fun c => String.eqb (pc_Type c) "Ready" && bool_decide (pc_Status c = ConditionTrue))
    (pod_Conditions pod).
Definition readyPodsByAppLabel (ns app : string) : prog Z :=
  let! r := send (ListIn KPod (Some ns) {["app" := app]}) in
  match r with
  | Err _ => Ret 0
  | Ok pods => Ret (wrap32 (Z.of_nat (length (List.filter podReady pods))))
  end.

(** Ready and desired pods of one instance. *)
Definition instanceReady (m : Misskey) (inst : redisManagedInstance) : prog (Z * Z) :=
  if ri_ha inst then
    let! ready := readyPodsByAppLabel (m_Namespace m) (nameRedisHA m (ri_suffix inst)) in
    Ret (ready, ri_replicas inst)
  else
    let! r := send (Get KStatefulSet (nameRedisInstance m (ri_suffix inst)) (m_Namespace m)) in
    Ret (match r with Ok sts => sts_ReadyReplicas sts | Err _ => 0 end, 1).

Section Conditions.
Context `{QuantityLib}.

Definition redisCondition (m : Misskey) : prog verdict3 :=
  match managedRedisInstances m with
  | [] => Ret (ConditionTrue, "External", "external Redis")
  | instances =>
      let! counts := mapP instances (fun inst =>
        let! c := instanceReady m inst in Ret (inst, c)) in
      let msg := join (map (fun '(inst, (ready, desired)) =>
        nameRedisInstance m (ri_suffix inst) +:+ " " +:+ itoa ready +:+ "/" +:+ itoa desired)
        counts) ", " in
      if forallb (fun '(_, (ready, desired)) => desired <=? ready) counts
      then Ret (ConditionTrue, "Ready", msg)
      else Ret (ConditionFalse, "Progressing", msg)
  end.
End Conditions.

Definition searchCondition (m : Misskey) (p : plan) : prog verdict3 :=
  if negb (p_meiliManaged p) then Ret (ConditionTrue, "External", "external MeiliSearch")
  else
    let! r := send (Get KStatefulSet (nameMeili m) (m_Namespace m)) in
    match r with
    | Err _ => Ret (ConditionFalse, "Pending", "MeiliSearch StatefulSet not created")
    | Ok sts =>
        if 1 <=? sts_ReadyReplicas sts then Ret (ConditionTrue, "Ready", "1/1 ready")
        else Ret (ConditionFalse, "Progressing", "0/1 ready")
    end.

Definition objectStorageCondition (m : Misskey) (p : plan) : prog verdict3 :=
  if negb (p_objAutoConfigure p)
  then Ret (ConditionTrue, "Unmanaged",
            "autoConfigure=false; apply object storage settings to the meta table yourself")
  else
    match objectStorageAssignments p with
    | Err e => Ret (ConditionFalse, "InvalidSpec", err_Text e)
    | Ok assigns =>
        let! hash := objectStorageHash m p (renderObjectStorageSQL assigns) assigns in
        let! r := send (Get KJob (nameObjectStorage m hash) (m_Namespace m)) in
        match r with
        | Err _ => Ret (ConditionFalse, "Pending", "meta Job not created")
        | Ok job =>
            if 1 <=? job_Succeeded job
            then Ret (ConditionTrue, "Configured", "object storage written to the meta table")
            else if 1 <=? job_Failed job then Ret (ConditionFalse, "Failed", "meta Job failed")
            else Ret (ConditionFalse, "Progressing", "meta Job running")
        end
    end.

Definition migrationCondition (m : Misskey) : prog verdict3 :=
  let! r := send (Get KJob (nameMigrate m) (m_Namespace m)) in
  match r with
  | Err _ => Ret (ConditionFalse, "Pending", "migration Job not created")
  | Ok job =>
      if 1 <=? job_Succeeded job then Ret (ConditionTrue, "Complete", "migration complete")
      else if 1 <=? job_Failed job
      then Ret (ConditionFalse, "Failed", "migration Job failed (" +:+ itoa (job_Failed job) +:+ ")")
      else Ret (ConditionFalse, "Running", "migration running")
  end.

Definition ingressCondition (m : Misskey) : prog verdict3 :=
  let! r := send (Get KIngress (m_Name m) (m_Namespace m)) in
  match r with
  | Err _ => Ret (ConditionFalse, "Pending", "Ingress not created")
  | Ok _ => Ret (ConditionTrue, "Created", "Ingress created")
  end.

Definition sensitiveDetectorCondition (m : Misskey) (p : plan) : prog verdict3 :=
  if negb (p_sensitiveDetectorEnabled p)
  then Ret (ConditionFalse, "Disabling", "Sensitive Detector cleanup is in progress")
  else
    let! complete := sensitiveDetectorConfigComplete m in
    if negb complete
    then Ret (ConditionFalse, "Configuring", "waiting for Sensitive Detector meta configuration")
    else if negb (p_sensitiveDetectorManaged p)
    then Ret (ConditionTrue, "Configured", "external Sensitive Detector configured")
    else deploymentReady m (nameSensitiveDetector m).

(** The gates of [reconcileAll]. *)
Definition isTrue3 (v : verdict3) : bool := bool_decide (v.1.1 = ConditionTrue).
Definition databaseReady (m : Misskey) (p : plan) : prog bool :=
  let! v := databaseCondition m p in Ret (isTrue3 v).
Definition redisReady `{QuantityLib} (m : Misskey) : prog bool :=
  let! v := redisCondition m in Ret (isTrue3 v).

(** ** The status *)

(** A condition to set, or to remove. *)
Inductive cnd :=
  | SetC (typ : string) (v : verdict3)
  | RemoveC (typ : string).

(** [if enabled { set } else { remove }] *)
Definition condIf (b : bool) (typ : string) (p : prog verdict3) : prog cnd :=
  if b then let! v := p in Ret (SetC typ v) else Ret (RemoveC typ).

Section Status.
Context `{KubeLib} `{QuantityLib}.

Definition detectorCnd (m : Misskey) (p : plan) (st : dcState) : prog cnd :=
  let typ := "SensitiveDetectorReady" in
  match dc_err st with
  | Some e => Ret (SetC typ (ConditionFalse, "StatusUnknown", truncateMsg (err_Text e)))
  | None =>
      condIf (p_sensitiveDetectorEnabled p || dc_exists st) typ (sensitiveDetectorCondition m p)
  end.

(** The conditions of all subsystems, in the order of the source. *)
Definition conditions (m : Misskey) (p : plan) (st : dcState) : prog (list cnd) :=
  let! db := databaseCondition m p in
  let! redis := redisCondition m in
  let! search := condIf (p_meiliEnabled p) "SearchReady" (searchCondition m p) in
  let! mig := migrationCondition m in
  let! obj := condIf (p_objEnabled p) "ObjectStorageConfigured" (objectStorageCondition m p) in
  let! det := detectorCnd m p st in
  let! app := deploymentReady m (nameApp m) in
  let! worker := deploymentReady m (nameWorker m) in
  let! proxy := condIf (proxyEnabled m) "ProxyReady" (deploymentReady m (nameProxy m)) in
  let! ing := condIf (ingressEnabled m) "IngressReady" (ingressCondition m) in
  Ret [SetC "DatabaseReady" db; SetC "RedisReady" redis; search; SetC "MigrationComplete" mig; obj;
       det; SetC "AppReady" app; SetC "WorkerReady" worker; proxy; ing].

Definition cndReady (c : cnd) : bool := match c with SetC _ v => isTrue3 v | RemoveC _ => true end.

(** Ready, its status, reason and message, and the phase. *)
Definition aggregate (m : Misskey) (reconcileErr : option error) (cs : list cnd)
    : bool * verdict3 * string :=
  match reconcileErr with
  | Some e => (false, (ConditionFalse, "ReconcileError", truncateMsg (err_Text e)), "Error")
  | None =>
      if spec_Suspend (m_Spec m)
      then (false, (ConditionFalse, "Suspended", "suspended by spec.suspend"), "Suspended")
      else if forallb cndReady cs
      then (true, (ConditionTrue, "Ready", "all subsystems ready"), "Running")
      else (false, (ConditionFalse, "Progressing", "waiting for subsystems"), "Progressing")
  end.

Definition setCond (generation now : Z) (l : list Condition) (typ : string) (v : verdict3)
    : list Condition :=
  let '(st, reason, msg) := v in
  setStatusCondition l (mkCondition typ st generation now reason msg).
(** All set conditions first, then Ready, then the removals. *)
Definition newConditions (generation now : Z) (cs : list cnd) (ready : verdict3)
    (l : list Condition) : list Condition :=
  let l := foldl (fun l c => match c with SetC t v => setCond generation now l t v | RemoveC _ => l end)
             l cs in
  let l := setCond generation now l "Ready" ready in
  foldl (fun l c => match c with RemoveC t => removeStatusCondition l t | SetC _ _ => l end) l cs.

(** A time field of the Cluster's status; the zero time when it is empty or malformed. *)
Definition backupTime (cluster : Unstructured) (field : string) : Z :=
  let s := nestedString (u_Object cluster) ["status"; field] in
  if String.eqb s "" then zeroTime else deref zeroTime (parseRFC3339 s).
Definition readBackupStatus (m : Misskey) (p : plan) : prog (option BackupStatus) :=
  if negb (p_dbManaged p) || bool_decide (pg_Backup (spec_Postgres (m_Spec m)) = None)
  then Ret None
  else
    let! r := send (Get (KU cnpgClusterGVK) (nameDB m) (m_Namespace m)) in
    match r with
    | Err _ => Ret None
    | Ok cluster =>
        let last := backupTime cluster "lastSuccessfulBackup" in
        let first := backupTime cluster "firstRecoverabilityPoint" in
        Ret (if time_IsZero last && time_IsZero first then None else Some (mkBackupStatus last first))
    end.

(** The status that is written over the status of [cur]. *)
Definition newStatus (m : Misskey) (p : plan) (cs : list cnd) (ready : verdict3) (phase : string)
    (now : Z) (backup : option BackupStatus) (cur : Misskey) : MisskeyStatus :=
  mkMisskeyStatus
    (newConditions (om_Generation (m_Meta cur)) now cs ready (st_Conditions (m_Status cur)))
    phase (om_Generation (m_Meta cur)) (p_dbHost p) (re_host (p_redisDefault p))
    (if p_meiliEnabled p then p_meiliIndex p else "")
    (st_BackupVerification (m_Status cur)) backup (spec_Image (m_Spec m)).

Definition updateStatus (m : Misskey) (reconcileErr : option error) (st : dcState)
    : prog (bool * result error unit) :=
  let p := resolve m in
  let! cs := conditions m p st in
  let '(ready, verdict, phase) := aggregate m reconcileErr cs in
  let! r := retryOnConflict (
    try cur := send (Get KMisskey (m_Name m) (m_Namespace m)) in
    let! now := send Now in
    let! backup := readBackupStatus m p in
    do send (StatusUpdate KMisskey (set_m_Status (newStatus m p cs verdict phase now backup cur) cur));
    ok tt) in
  Ret (ready, ignoreNotFound r).
End Status.

(** ** What the conditions show *)

(** The server showed the managed database with all its instances ready. *)
Definition databaseShown (m : Misskey) (p : plan) (h : history) : Prop :=
  p_dbManaged p = true →
  ∃ cluster, ev (Get (KU cnpgClusterGVK) (nameDB m) (m_Namespace m)) (Ok cluster) ∈ h
    ∧ 0 < int32OrDefault (pg_Instances (spec_Postgres (m_Spec m))) 1
      <= nestedInt64 (u_Object cluster) ["status"; "readyInstances"].

(** The server showed a managed redis instance with all its replicas ready. *)
Definition instanceShown (m : Misskey) (inst : redisManagedInstance) (h : history) : Prop :=
  if ri_ha inst then
    ri_replicas inst <= 0
    ∨ ∃ pods, ev (ListIn KPod (Some (m_Namespace m)) {["app" := nameRedisHA m (ri_suffix inst)]})
                 (Ok pods) ∈ h
        ∧ ri_replicas inst <= wrap32 (Z.of_nat (length (List.filter podReady pods)))
  else
    ∃ sts, ev (Get KStatefulSet (nameRedisInstance m (ri_suffix inst)) (m_Namespace m)) (Ok sts) ∈ h
      ∧ 1 <= sts_ReadyReplicas sts.

Section Shown.
Context `{QuantityLib}.

Lemma databaseShown_app m p h h' : databaseShown m p h → databaseShown m p (h ++ h').
Proof. intros Hd (c & Hc & Hr)%Hd. exists c. split; [in_hist|done]. Qed.
Lemma instanceShown_app m i h h' : instanceShown m i h → instanceShown m i (h ++ h').
Proof.
  unfold instanceShown. destruct (ri_ha i).
  - intros [Hr|(pods & Hp & Hr)]; [by left|]. right. exists pods. split; [in_hist|done].
  - intros (s & Hs & Hr). exists s. split; [in_hist|done].
Qed.
Lemma databaseCondition_wp m p h0 :
  wp (databaseCondition m p) (fun h v => isTrue3 v = true → databaseShown m p h) h0.
Proof.
  unfold databaseCondition. destruct (p_dbManaged p) eqn:E; cbn [negb].
  - apply wp_bind, wp_send. intros [cluster|e]; [|done]. cbv zeta.
    destruct (_ && _) eqn:Er; [|done]. cbn. intros _ _. exists cluster.
    bool_prop. split; [in_hist|lia].
  - intros _ Hd. congruence.
Qed.
Lemma instanceReady_wp m i h0 :
  wp (instanceReady m i) (fun h c => (c.2 <=? c.1) = true → instanceShown m i h) h0.
Proof.
  unfold instanceReady, instanceShown. destruct (ri_ha i).
  - unfold readyPodsByAppLabel. apply wp_bind, wp_bind, wp_send. intros [pods|e]; cbn.
    + intros Hr%Z.leb_le. right. exists pods. split; [in_hist|done].
    + intros Hr%Z.leb_le. by left.
  - apply wp_bind, wp_send. intros [sts|e]; [|done]. cbn. intros Hr%Z.leb_le.
    exists sts. split; [in_hist|done].
Qed.
Lemma redisCondition_wp m h0 :
  wp (redisCondition m) (fun h v => isTrue3 v = true →
    ∀ i, i ∈ managedRedisInstances m → instanceShown m i h) h0.
Proof.
  unfold redisCondition.
  destruct (managedRedisInstances m) as [|i0 l0]; [intros _ i Hi; by apply not_elem_of_nil in Hi|].
  apply wp_bind. eapply wp_mono.
  2:{ apply (wp_mapP (fun i c h => (c.2.2 <=? c.2.1) = true → c.1 = i ∧ instanceShown m i h)).
      - intros x y h h' Hx Hc. destruct (Hx Hc). split; [done|]. by apply instanceShown_app.
      - intros x h. apply wp_bind. eapply wp_mono, instanceReady_wp. cbn. auto. }
  cbv beta. intros h counts Hall. cbv zeta. destruct (forallb _ counts) eqn:E; [|done].
  cbn. intros _ i Hi. rewrite forallb_forall in E.
  apply list_elem_of_lookup in Hi as [k Hk].
  destruct (Forall2_lookup_l _ _ _ _ _ Hall Hk) as ([i' [r d]] & Hc & Hs).
  apply Hs. apply (E (i', (r, d))), list_elem_of_In, list_elem_of_lookup. by exists k.
Qed.
Lemma databaseReady_wp m p h0 :
  wp (databaseReady m p) (fun h b => b = true → databaseShown m p h) h0.
Proof. apply wp_bind, databaseCondition_wp. Qed.
Lemma redisReady_wp m h0 :
  wp (redisReady m) (fun h b => b = true →
    ∀ i, i ∈ managedRedisInstances m → instanceShown m i h) h0.
Proof. apply wp_bind, redisCondition_wp. Qed.
End Shown.

(** ** Properties of the status *)

(** The server showed a Deployment with all the replicas it wants, and at least one. *)
Definition available (m : Misskey) (name : string) (h : history) : Prop :=
  ∃ dep, ev (Get KDeployment name (m_Namespace m)) (Ok dep) ∈ h
    ∧ wantedReplicas dep ≠ 0 ∧ wantedReplicas dep <= dep_AvailableReplicas dep.

Section Healthy.
Context `{KubeLib} `{QuantityLib}.

(** What the server has shown of an instance that is called ready. *)
Record healthy (m : Misskey) (p : plan) (st : dcState) (h : history) : Prop := mkHealthy {
  hl_database : databaseShown m p h;
  hl_redis : ∀ i, i ∈ managedRedisInstances m → instanceShown m i h;
  hl_search : p_meiliEnabled p = true → p_meiliManaged p = true →
    ∃ sts, ev (Get KStatefulSet (nameMeili m) (m_Namespace m)) (Ok sts) ∈ h
      ∧ 1 <= sts_ReadyReplicas sts;
  hl_migrated : jobSucceeded m (nameMigrate m) h;
  hl_storage : p_objEnabled p = true → p_objAutoConfigure p = true →
    ∃ hash, jobSucceeded m (nameObjectStorage m hash) h;
  hl_detectorRead : dc_err st = None;
  hl_detectorGone : p_sensitiveDetectorEnabled p = false → dc_exists st = false;
  hl_detectorSet : p_sensitiveDetectorEnabled p = true →
    ∃ hash, jobSucceeded m (nameSensitiveDetectorConfigJob m hash) h;
  hl_detector : p_sensitiveDetectorEnabled p = true → p_sensitiveDetectorManaged p = true →
    available m (nameSensitiveDetector m) h;
  hl_app : available m (nameApp m) h;
  hl_worker : available m (nameWorker m) h;
  hl_proxy : proxyEnabled m = true → available m (nameProxy m) h;
  hl_ingress : ingressEnabled m = true →
    ∃ ing, ev (Get KIngress (m_Name m) (m_Namespace m)) (Ok ing) ∈ h }.

Lemma available_app m n h h' : available m n h → available m n (h ++ h').
Proof. intros (d & Hd & Hr). exists d. split; [in_hist|done]. Qed.
Lemma healthy_app m p st h h' : healthy m p st h → healthy m p st (h ++ h').
Proof.
  intros []. constructor; try done; try (intros; by apply available_app; auto).
  - by apply databaseShown_app.
  - intros i Hi. apply instanceShown_app. auto.
  - intros H1' H2'. destruct hl_search0 as (sts & Hs & Hr); [done..|]. exists sts. split; [in_hist|done].
  - by apply jobSucceeded_app_l.
  - intros H1' H2'. destruct hl_storage0 as (hash & Hj); [done..|]. exists hash.
    by apply jobSucceeded_app_l.
  - intros H1'. destruct hl_detectorSet0 as (hash & Hj); [done|]. exists hash.
    by apply jobSucceeded_app_l.
  - intros H1'. destruct hl_ingress0 as (ing & Hi); [done|]. exists ing. in_hist.
Qed.

(** What a step shows is still there at the end. *)
Lemma wp_bind_keep {A B} (p : prog A) (f : A → prog B) (c : A → bool) (E : history → Prop) Q h :
  (∀ h h', E h → E (h ++ h')) → wp p (fun h a => c a = true → E h) h →
  (∀ h' a, wp (f a) (fun h b => (c a = true → E h) → Q h b) h') → wp (bind p f) Q h.
Proof.
  intros HE Hp Hf. apply wp_bind. eapply wp_mono, Hp. intros h1 a Ha. apply wp_prefix.
  eapply wp_mono, Hf. intros h2 b HQ [h' ->]. apply HQ. auto.
Qed.
Lemma wp_condIf b typ (p : prog verdict3) (E : history → Prop) h0 :
  wp p (fun h v => isTrue3 v = true → E h) h0 →
  wp (condIf b typ p) (fun h c => cndReady c = true → b = true → E h) h0.
Proof.
  intros Hp. unfold condIf. destruct b; [|done]. apply wp_bind. eapply wp_mono, Hp.
  intros h v Hv. cbn. auto.
Qed.
Lemma deploymentReady_wp m n h0 :
  wp (deploymentReady m n) (fun h v => isTrue3 v = true → available m n h) h0.
Proof.
  unfold deploymentReady. apply wp_bind, wp_send. intros [dep|e]; [|done]. cbv zeta.
  destruct (Z.eqb_spec (wantedReplicas dep) 0) as [?|Hz]; [done|].
  destruct (Z.leb_spec (wantedReplicas dep) (dep_AvailableReplicas dep)) as [Hl|Hl]; [|done].
  intros _. exists dep. split; [in_hist|done].
Qed.
Lemma migrationCondition_wp m h0 :
  wp (migrationCondition m) (fun h v => isTrue3 v = true → jobSucceeded m (nameMigrate m) h) h0.
Proof.
  unfold migrationCondition. apply wp_bind, wp_send. intros [job|e]; [|done].
  destruct (Z.leb_spec 1 (job_Succeeded job)) as [Hl|Hl].
  - intros _. exists job. split; [in_hist|done].
  - by destruct (1 <=? job_Failed job).
Qed.
Lemma searchCondition_wp m p h0 :
  wp (searchCondition m p) (fun h v => isTrue3 v = true → p_meiliManaged p = true →
    ∃ sts, ev (Get KStatefulSet (nameMeili m) (m_Namespace m)) (Ok sts) ∈ h
      ∧ 1 <= sts_ReadyReplicas sts) h0.
Proof.
  unfold searchCondition. destruct (p_meiliManaged p); [|done]. apply wp_bind, wp_send.
  intros [sts|e]; [|done]. destruct (Z.leb_spec 1 (sts_ReadyReplicas sts)) as [Hl|Hl]; [|done].
  intros _ _. exists sts. split; [in_hist|done].
Qed.
Lemma objectStorageCondition_wp m p h0 :
  wp (objectStorageCondition m p) (fun h v => isTrue3 v = true → p_objAutoConfigure p = true →
    ∃ hash, jobSucceeded m (nameObjectStorage m hash) h) h0.
Proof.
  unfold objectStorageCondition. destruct (p_objAutoConfigure p); [|done].
  destruct (objectStorageAssignments p) as [l|e]; [|done].
  apply wp_bind, wp_any. intros h1 hash. apply wp_bind, wp_send. intros [job|e]; [|done].
  destruct (Z.leb_spec 1 (job_Succeeded job)) as [Hl|Hl].
  - intros _ _. exists hash, job. split; [in_hist|done].
  - by destruct (1 <=? job_Failed job).
Qed.
Lemma ingressCondition_wp m h0 :
  wp (ingressCondition m) (fun h v => isTrue3 v = true →
    ∃ ing, ev (Get KIngress (m_Name m) (m_Namespace m)) (Ok ing) ∈ h) h0.
Proof.
  unfold ingressCondition. apply wp_bind, wp_send. intros [ing|e]; [|done].
  intros _. exists ing. in_hist.
Qed.
(** The detector as the conditions see it. *)
Definition detectorShown (m : Misskey) (p : plan) (st : dcState) (h : history) : Prop :=
  dc_err st = None
  ∧ (p_sensitiveDetectorEnabled p = false → dc_exists st = false)
  ∧ (p_sensitiveDetectorEnabled p = true →
      (∃ hash, jobSucceeded m (nameSensitiveDetectorConfigJob m hash) h)
      ∧ (p_sensitiveDetectorManaged p = true → available m (nameSensitiveDetector m) h)).
Lemma detectorShown_app m p st h h' : detectorShown m p st h → detectorShown m p st (h ++ h').
Proof.
  intros (He & Hg & Hs). split_and!; [done..|]. intros Hp. destruct (Hs Hp) as [[hash Hj] Ha].
  split; [exists hash; by apply jobSucceeded_app_l|]. intros Hm. by apply available_app, Ha.
Qed.
Lemma configComplete_wp m h0 :
  wp (sensitiveDetectorConfigComplete m) (fun h b => b = true →
    ∃ hash, jobSucceeded m (nameSensitiveDetectorConfigJob m hash) h) h0.
Proof.
  unfold sensitiveDetectorConfigComplete. apply wp_bind, wp_send. intros [cm|e]; [|done].
  cbv zeta. destruct (_ <? _)%nat; [done|]. apply wp_bind, wp_send. intros [job|e]; [|done].
  intros Hl%Z.leb_le. eexists _, job. split; [in_hist|done].
Qed.
Lemma detectorCondition_wp m p h0 :
  wp (sensitiveDetectorCondition m p) (fun h v => isTrue3 v = true →
    p_sensitiveDetectorEnabled p = true
    ∧ (∃ hash, jobSucceeded m (nameSensitiveDetectorConfigJob m hash) h)
    ∧ (p_sensitiveDetectorManaged p = true → available m (nameSensitiveDetector m) h)) h0.
Proof.
  unfold sensitiveDetectorCondition. destruct (p_sensitiveDetectorEnabled p); [|done].
  apply wp_bind. eapply wp_mono, configComplete_wp. intros h1 [] H1; [|done].
  destruct (H1 eq_refl) as [hash Hj]. cbn [negb].
  destruct (p_sensitiveDetectorManaged p); cbn [negb]; [|intros _; split_and!; eauto; done].
  apply wp_prefix. eapply wp_mono, deploymentReady_wp. intros h v Hv [h' ->] Ht.
  split_and!; [done| |auto]. exists hash. by apply jobSucceeded_app_l.
Qed.
Lemma detectorCnd_wp m p st h0 :
  wp (detectorCnd m p st) (fun h c => cndReady c = true → detectorShown m p st h) h0.
Proof.
  unfold detectorCnd, detectorShown. destruct (dc_err st); [done|]. unfold condIf.
  destruct (p_sensitiveDetectorEnabled p || dc_exists st) eqn:E.
  - apply wp_bind. eapply wp_mono, detectorCondition_wp. intros h v Hv. cbn. intros Ht.
    destruct (Hv Ht) as (He & Hc & Hm). rewrite He. by split_and!.
  - apply orb_false_iff in E as [-> ->]. done.
Qed.

Lemma conditions_wp m p st h0 :
  wp (conditions m p st) (fun h cs => forallb cndReady cs = true → healthy m p st h) h0.
Proof.
  unfold conditions.
  eapply (wp_bind_keep _ _ isTrue3); [apply databaseShown_app|apply databaseCondition_wp|].
  intros h1 db. eapply (wp_bind_keep _ _ isTrue3 (fun h => ∀ i, i ∈ managedRedisInstances m →
    instanceShown m i h)); [intros ?? Hi i Hm; by apply instanceShown_app, Hi|apply redisCondition_wp|].
  intros h2 redis. eapply (wp_bind_keep _ _ cndReady); [|apply wp_condIf, searchCondition_wp|].
  { intros h h' Hs H1' H2'. destruct (Hs H1' H2') as (sts & Hin & Hr). exists sts. split; [in_hist|done]. }
  intros h3 search. eapply (wp_bind_keep _ _ isTrue3 (jobSucceeded m (nameMigrate m)));
    [intros ??; apply jobSucceeded_app_l|apply migrationCondition_wp|].
  intros h4 mig. eapply (wp_bind_keep _ _ cndReady); [|apply wp_condIf, objectStorageCondition_wp|].
  { intros h h' Hs H1' H2'. destruct (Hs H1' H2') as (hash & Hj). exists hash.
    by apply jobSucceeded_app_l. }
  intros h5 obj. eapply (wp_bind_keep _ _ cndReady); [apply detectorShown_app|apply detectorCnd_wp|].
  intros h6 det. eapply (wp_bind_keep _ _ isTrue3); [apply available_app|apply deploymentReady_wp|].
  intros h7 app. eapply (wp_bind_keep _ _ isTrue3); [apply available_app|apply deploymentReady_wp|].
  intros h8 worker. eapply (wp_bind_keep _ _ cndReady); [|apply wp_condIf, deploymentReady_wp|].
  { intros h h' Hs Hp. by apply available_app, Hs. }
  intros h9 proxy. eapply (wp_bind_keep _ _ cndReady); [|apply wp_condIf, ingressCondition_wp|].
  { intros h h' Hs Hp. destruct (Hs Hp) as [ing Hi]. exists ing. in_hist. }
  intros h10 ing. cbn [wp forallb cndReady]. intros Hing Hproxy Hworker Happ Hdet Hobj Hmig Hsearch
    Hredis Hdb Hall. repeat rewrite andb_true_iff in Hall.
  destruct Hall as (E1 & E2 & E3 & E4 & E5 & E6 & E7 & E8 & E9 & E10 & _).
  destruct (Hdet E6) as (D1 & D2 & D3).
  constructor; auto; intros Hd; destruct (D3 Hd) as [D4 D5]; auto.
Qed.

(** C17. The reconciler calls an instance ready only after a pass without an error over an
    instance that is not suspended, and only when, while it wrote the status, the API server
    showed every subsystem in order: database, redis, search, migration, object storage,
    detector, app, worker, proxy and Ingress. *)
Theorem ready_sound m e st h r :
  runs (updateStatus m e st) h (true, r) →
  e = None ∧ spec_Suspend (m_Spec m) = false ∧ healthy m (resolve m) st h.
Proof.
  intros Hr. unfold updateStatus in Hr. cbv zeta in Hr.
  apply runs_bind in Hr as (h1 & h2 & cs & -> & Hc & Hrest).
  pose proof (conditions_wp m (resolve m) st []) as Hw. rewrite wp_runs in Hw.
  specialize (Hw _ _ Hc). cbn in Hw.
  destruct (aggregate m e cs) as [[ready v] phase] eqn:Ea.
  apply runs_bind in Hrest as (h3 & h4 & x & -> & _ & Hx). destruct Hx as [-> [= <- _]].
  unfold aggregate in Ea. destruct e; [done|]. destruct (spec_Suspend _); [done|].
  destruct (forallb cndReady cs); [|done]. split_and!; [done..|]. by apply healthy_app, Hw.
Qed.
End Healthy.

(** ** Messages *)

Lemma runeCut_le s n : (runeCut s n <= n)%nat.
Proof.
  induction n as [|n IH]; cbn [runeCut]; [lia|]. destruct (String.get (S n) s) as [c|]; [|lia].
  destruct (runeStart c); lia.
Qed.
Lemma get_none s n : String.get n s = None → (String.length s <= n)%nat.
Proof. revert n. induction s as [|c s IH]; intros [|n] Hg; simpl in *; [lia..|done|]. apply le_n_S, IH, Hg. Qed.
Lemma runeCut_boundary s n : (n < String.length s)%nat → boundary (runeCut s n) s.
Proof.
  induction n as [|n IH]; intros Hn; cbn [runeCut]; [by left|].
  destruct (String.get (S n) s) as [c|] eqn:E.
  - destruct (runeStart c) eqn:Ec; [right; left; by exists c|]. apply IH. lia.
  - apply get_none in E. lia.
Qed.

(** C40. Messages fit into 1024 bytes, short ones are unchanged, and a long one is cut at the
    start of a rune, as late as possible: valid UTF-8 stays valid UTF-8. *)
Theorem truncateMsg_ok s :
  (String.length (truncateMsg s) <= 1024)%nat
  ∧ ((String.length s <= 1024)%nat → truncateMsg s = s)
  ∧ (utf8_valid s = true → utf8_valid (truncateMsg s) = true)
  ∧ ((1024 < String.length s)%nat → ∃ cut, (cut <= 1010)%nat
      ∧ truncateMsg s = str_take cut s +:+ truncatedSuffix
      ∧ ∀ n c, (cut < n <= 1010)%nat → String.get n s = Some c → runeStart c = false).
Proof.
  unfold truncateMsg, maxMessage. destruct (Nat.leb_spec (String.length s) 1024) as [Hl|Hl].
  { split_and!; [done..|lia]. }
  change (1024 - String.length truncatedSuffix)%nat with 1010%nat.
  pose proof (runeCut_le s 1010) as Hc.
  split_and!; [|lia| |].
  - rewrite slen_app, str_take_length by lia. change (String.length truncatedSuffix) with 14%nat. lia.
  - intros Hv. apply utf8_valid_cut; [done|reflexivity|]. apply runeCut_boundary. lia.
  - intros _. exists (runeCut s 1010). split_and!; [done..|].
    clear Hc Hl. generalize 1010%nat as z. intros z. induction z as [|n IH]; intros k c Hk Hg; cbn [runeCut] in Hk; [lia|].
    destruct (String.get (S n) s) as [x|] eqn:E; [|lia].
    destruct (runeStart x) eqn:Ex; [lia|]. destruct (decide (k = S n)) as [->|]; [congruence|].
    apply (IH k c); [lia|done].
Qed.
