(* ===== verification/Reconcile.v ===== *)
(** * The reconciler of an instance: misskey_controller.go

    [reconcileAll] runs the handlers of all components in the order of dependency;
    [Reconcile] is one pass of the control loop. *)
From S2P Require Export Status Deletion.
Local Open Scope string_scope.
Local Open Scope Z_scope.
Local Open Scope list_scope.

Section Reconcile.
Context `{KubeLib} `{QuantityLib}.

(** [r.DriftResyncInterval], set by [main] from a flag. *)
Definition driftInterval (DriftResyncInterval : Z) : Z :=
  if 0 <? DriftResyncInterval then DriftResyncInterval else 3 * Minute.

(** [if b { if err := f(); err != nil { return err } }] *)
Definition when (b : bool) (f : rprog unit) : rprog unit := if b then f else ok tt.

(** Secrets, ConfigMaps, tenancy and the detector: everything pods need before they start. *)
Definition reconcilePrerequisites (m : Misskey) (p : plan) : rprog unit :=
  do when (p_meiliManaged p) (reconcileMeiliSecret m);
  do when (p_setupManaged p) (reconcileSetupSecret m);
  do when (p_sensitiveDetectorManaged p) (reconcileSensitiveDetectorSecret m);
  do reconcileConfigMaps m p;
  do reconcileTenancy m;
  when (p_sensitiveDetectorManaged p && negb (spec_Suspend (m_Spec m)))
    (reconcileSensitiveDetector m p).

(** The database; the restore test records its result on the instance. *)
Definition reconcileDatabase (m : Misskey) (p : plan) : prog (Misskey * result error unit) :=
  if p_dbManaged p then
    let! r := (do reconcilePostgres m; reconcilePoolers m) in
    match r with
    | Err e => Ret (m, Err e)
    | Ok _ => reconcileBackupVerify m
    end
  else Ret (m, Ok tt).

Definition reconcileBackends (m : Misskey) (p : plan) : rprog unit :=
  do reconcileRedis m;
  do when (p_meiliManaged p) (reconcileMeilisearch m p);
  do reconcileAppService m;
  when (negb (p_objAutoConfigure p)) (cleanupObjectStorage m).

(** The part of the gates that has to report completion before a rollout: the object
    storage and the detector configuration.  The result is [objReady] and
    [sensitiveDetectorConfigDone]. *)
Definition configureInstance (m : Misskey) (p : plan) (done : bool) (st : dcState)
    : prog (dcState * result error (bool * bool)) :=
  let! o := (if p_objAutoConfigure p then reconcileObjectStorage m p else ok true) in
  match o with
  | Err e => Ret (st, Err e)
  | Ok objReady =>
      if p_sensitiveDetectorEnabled p || dc_exists st then
        let! x := reconcileSensitiveDetectorConfig m p st in
        Ret (x.1, match x.2 with Ok done => Ok (objReady, done) | Err e => Err e end)
      else Ret (st, Ok (objReady, done))
  end.

(** The migration behind the pre-migration backup. *)
Definition migrate (m : Misskey) (p : plan) : rprog bool :=
  try backupDone := reconcilePreMigrationBackup m p in
  if backupDone then reconcileMigration m p else ok false.

(** Suspension, or the gates and the rollout; the result is [sensitiveDetectorConfigDone]. *)
Definition reconcileRollout (m : Misskey) (p : plan) (st : dcState)
    : prog (dcState * result error bool) :=
  let done := negb (p_sensitiveDetectorEnabled p) && negb (dc_exists st) in
  if spec_Suspend (m_Spec m) then
    let! r := suspendWorkloads m p in
    Ret (st, match r with Ok _ => Ok done | Err e => Err e end)
  else
    let! db := databaseReady m p in
    if negb db then Ret (st, Ok done)
    else
      let! c := migrate m p in
      match c with
      | Err e => Ret (st, Err e)
      | Ok false => Ret (st, Ok done)
      | Ok true =>
          let! x := configureInstance m p done st in
          match x with
          | (st, Err e) => Ret (st, Err e)
          | (st, Ok (objReady, done)) =>
              let! redis := (if objReady && done then redisReady m else Ret false) in
              let! r := when redis (do reconcileApp m p; reconcileWorker m p) in
              Ret (st, match r with Ok _ => Ok done | Err e => Err e end)
          end
      end.

(** Proxy, Ingress and monitoring. *)
Definition reconcileEdge (m : Misskey) (p : plan) : rprog unit :=
  do reconcileProxy m;
  do reconcileIngress m p;
  reconcileMonitoring m p.

(** The instance and the detector state as the caller sees them afterwards. *)
Definition reconcileAll (m : Misskey) (st : dcState)
    : prog (Misskey * dcState * result error unit) :=
  let p := resolve m in
  let! r := reconcilePrerequisites m p in
  match r with
  | Err e => Ret (m, st, Err e)
  | Ok _ =>
  let! d := reconcileDatabase m p in
  match d with
  | (m, Err e) => Ret (m, st, Err e)
  | (m, Ok _) =>
  let! r := reconcileBackends m p in
  match r with
  | Err e => Ret (m, st, Err e)
  | Ok _ =>
  let! st := readSensitiveDetectorConfigState m st in
  match dc_err st with
  | Some e => Ret (m, st, Err e)
  | None =>
  let! x := reconcileRollout m p st in
  match x with
  | (st, Err e) => Ret (m, st, Err e)
  | (st, Ok done) =>
  let! r := reconcileEdge m p in
  match r with
  | Err e => Ret (m, st, Err e)
  | Ok _ =>
  let! y := finalizeSensitiveDetectorCleanup m p done st in
  Ret (m, y.1, y.2)
  end end end end end end.

(** The end of [Reconcile]: what the pass did is announced and written to the status, and
    decides when to come back. *)
Definition concludePass (drift : Z) (x : Misskey * dcState * result error unit) : rprog Result :=
  let '(m, st, r) := x in
  let! st := readSensitiveDetectorConfigState m st in
  let! _ := (match r with
             | Err e => event_ "Warning" "ReconcileError" "Reconcile" (truncateMsg (err_Text e))
             | Ok _ => Ret tt
             end) in
  let! u := updateStatus m (match r with Err e => Some e | Ok _ => None end) st in
  match r with
  | Err e => fail e
  | Ok _ =>
      ok (mkResult (if u.1 then driftInterval drift
                    else if spec_Suspend (m_Spec m) then driftInterval drift else 15 * Second))
  end.

(** The part of [Reconcile] behind the finalizer. *)
Definition reconcileLive (drift : Z) (m : Misskey) : rprog Result :=
  let! i := resolveImage m in
  let! x := (match i with
             | (m, Ok _) => reconcileAll m dcStart
             | (m, Err e) => Ret (m, dcStart, Err e)
             end) in
  concludePass drift x.

(** [!m.DeletionTimestamp.IsZero()] *)
Definition deleting (m : Misskey) : bool :=
  match om_DeletionTimestamp (m_Meta m) with Some t => negb (time_IsZero t) | None => false end.

(** [Reconcile]; an error of the status write is logged only. *)
Definition Reconcile (drift : Z) (name ns : string) : rprog Result :=
  let! r := send (Get KMisskey name ns) in
  match r with
  | Err e => if isNotFound e then ok (mkResult 0) else fail e
  | Ok m =>
      if deleting m then reconcileDelete m
      else
        let (om, added) := addFinalizer (m_Meta m) misskeyFinalizer in
        if added then
          try m := send (Update KMisskey (set_m_Meta om m)) in reconcileLive drift m
        else reconcileLive drift m
  end.
End Reconcile.
