(* ===== verification/Access.v ===== *)
(** * What the reconciler touches: permissions, data objects, workloads

    One pass over every handler establishes three footprints at once: the API permissions its
    requests need, the data objects it creates, and the workloads it starts. *)
From S2P Require Export Reconcile.
Local Open Scope string_scope.
Local Open Scope Z_scope.
Local Open Scope list_scope.

(** ** Permissions: the kubebuilder markers of misskey_controller.go *)

Inductive verb := VGet | VList | VWatch | VCreate | VUpdate | VPatch | VDelete.
#[global] Instance verb_eq_dec : EqDecision verb.
Proof. solve_decision. Defined.

Record rule := mkRule { rl_group : string; rl_resources : list string; rl_verbs : list verb }.

Definition allVerbs : list verb := [VGet; VList; VWatch; VCreate; VUpdate; VPatch; VDelete].
Definition crdGroup : string := "cloudnative-misskey.dev".
Definition managerRules : list rule :=
  [mkRule crdGroup ["misskeys"] allVerbs;
   mkRule crdGroup ["misskeys/status"] [VGet; VUpdate; VPatch];
   mkRule crdGroup ["misskeys/finalizers"] [VUpdate];
   mkRule "" ["events"] [VCreate; VPatch];
   mkRule "apps" ["deployments"; "statefulsets"] allVerbs;
   mkRule "batch" ["jobs"] allVerbs;
   mkRule "" ["services"; "configmaps"; "persistentvolumeclaims"; "resourcequotas"; "limitranges"]
     allVerbs;
   mkRule "" ["secrets"] [VGet; VCreate; VUpdate; VPatch; VDelete];
   mkRule "" ["pods"] [VGet; VList; VWatch];
   mkRule "networking.k8s.io" ["ingresses"; "networkpolicies"] allVerbs;
   mkRule "policy" ["poddisruptionbudgets"] allVerbs;
   mkRule crdGroup ["misskeychannels"] [VGet; VList; VWatch];
   mkRule "postgresql.cnpg.io" ["clusters"; "scheduledbackups"; "backups"; "poolers"] allVerbs;
   mkRule "redis.redis.opstreelabs.in" ["redisreplications"; "redissentinels"] allVerbs;
   mkRule "autoscaling" ["horizontalpodautoscalers"] allVerbs;
   mkRule "keda.sh" ["scaledobjects"; "triggerauthentications"] allVerbs;
   mkRule "monitoring.coreos.com" ["servicemonitors"; "podmonitors"; "prometheusrules"] allVerbs].

Definition granted (group resource : string) (v : verb) : bool :=
  existsb (fun rl => String.eqb (rl_group rl) group
                     && existsb (String.eqb resource) (rl_resources rl)
                     && bool_decide (v ∈ rl_verbs rl)) managerRules.

(** The resource names of the kinds used through unstructured objects. *)
Definition unstructuredResources : list (string * string) :=
  [("Cluster", "clusters"); ("ScheduledBackup", "scheduledbackups"); ("Backup", "backups");
   ("Pooler", "poolers"); ("RedisReplication", "redisreplications");
   ("RedisSentinel", "redissentinels"); ("ScaledObject", "scaledobjects");
   ("TriggerAuthentication", "triggerauthentications"); ("ServiceMonitor", "servicemonitors");
   ("PodMonitor", "podmonitors"); ("PrometheusRule", "prometheusrules");
   ("Secret", "secrets"); ("StatefulSet", "statefulsets")].
Definition lookupResource (kind : string) : string :=
  match List.find (fun x => String.eqb x.1 kind) unstructuredResources with
  | Some x => x.2
  | None => ""
  end.
Definition resourceOf (k : kind) : string * string :=
  match k with
  | KMisskey => (crdGroup, "misskeys")
  | KChannel => (crdGroup, "misskeychannels")
  | KSecret => ("", "secrets")
  | KConfigMap => ("", "configmaps")
  | KService => ("", "services")
  | KDeployment => ("apps", "deployments")
  | KStatefulSet => ("apps", "statefulsets")
  | KJob => ("batch", "jobs")
  | KIngress => ("networking.k8s.io", "ingresses")
  | KNetworkPolicy => ("networking.k8s.io", "networkpolicies")
  | KPDB => ("policy", "poddisruptionbudgets")
  | KHPA => ("autoscaling", "horizontalpodautoscalers")
  | KResourceQuota => ("", "resourcequotas")
  | KLimitRange => ("", "limitranges")
  | KPVC => ("", "persistentvolumeclaims")
  | KPod => ("", "pods")
  | KU g => (gvk_Group g, lookupResource (gvk_Kind g))
  end.

(** The client reads structured objects from a cache that lists and watches the kind, except
    Secrets ([DisableFor] in main.go); unstructured objects are read from the server. *)
Definition readVerbs (k : kind) (v : verb) : list verb :=
  match k with KSecret | KU _ => [v] | _ => [v; VList; VWatch] end.

(** A resource, its group, and the verbs a request needs on it.  An event goes through the
    recorder of the manager, which creates the event or patches the one it repeats; [events] is
    the API group the recorder writes to, [""] or [events.k8s.io].  The other requests do not
    reach the API server. *)
Definition needs (events : string) (r : req) : option (string * string * list verb) :=
  match r with
  | Event _ _ _ _ => Some ((events, "events"), [VCreate; VPatch])
  | Get k _ _ => Some (resourceOf k, readVerbs k VGet)
  | ListIn k _ _ => Some (resourceOf k, readVerbs k VList)
  | Create k _ => Some (resourceOf k, [VCreate])
  | Update k _ => Some (resourceOf k, [VUpdate])
  | StatusUpdate k _ => Some (let '(g, res) := resourceOf k in (g, res +:+ "/status"), [VUpdate])
  | DeleteObj k _ _ _ => Some (resourceOf k, [VDelete])
  | Apply u => Some (resourceOf (KU (u_GVK u)), [VPatch; VCreate])
  | UpsertBegin k _ => Some (resourceOf k, readVerbs k VGet)
  | UpsertCommit k _ => Some (resourceOf k, [VCreate; VUpdate])
  | _ => None
  end.
Definition permitted (events : string) (r : req) : bool :=
  match needs events r with
  | None => true
  | Some (g, res, verbs) => forallb (granted g res) verbs
  end.

(** ** Data objects *)

(** [retainTargets] knows the object. *)
Definition retained (m : Misskey) (gvk : GVK) (name : string) : Prop :=
  mkTarget gvk name ∈ retainTargets m.
Definition dataGVK (g : GVK) : bool :=
  bool_decide (g ∈ [cnpgClusterGVK; redisReplicationGVK; redisSentinelGVK]).

(** An object with data is known to [retainTargets]; the restore test's Cluster is a copy. *)
Definition covered (m : Misskey) (r : req) : Prop :=
  match r with
  | UpsertBegin KSecret o => retained m secretGVK (om_Name (sec_Meta o))
  | UpsertBegin KStatefulSet o => retained m statefulSetGVK (om_Name (sts_Meta o))
  | Apply u =>
      dataGVK (u_GVK u) = true →
      retained m (u_GVK u) (om_Name (u_Meta u)) ∨ om_Name (u_Meta u) = nameDBVerify m
  | Create k _ =>
      match k with
      | KSecret | KStatefulSet | KPVC => False
      | KU g => dataGVK g = false
      | _ => True
      end
  | _ => True
  end.

(** ** Workloads *)

(** The rollout of the application. *)
Definition rolls (m : Misskey) (r : req) : Prop :=
  match r with
  | UpsertBegin KDeployment o => om_Name (dep_Meta o) ∈ [nameApp m; nameWorker m]
  | Create KDeployment _ => True
  | _ => False
  end.
(** What a suspended instance keeps running: the proxy, which shows the maintenance page, the
    redis instances, the search engine and the database, with their backups and monitors. *)
Definition keptSets (m : Misskey) : list string :=
  nameMeili m :: map (nameRedisInstance m) allRedisSuffixes.
Definition keptGVKs : list GVK :=
  [cnpgClusterGVK; cnpgScheduledBackupGVK; cnpgPoolerGVK; redisReplicationGVK; redisSentinelGVK;
   serviceMonitorGVK; podMonitorGVK; prometheusRuleGVK].
(** Anything else that starts pods, or lets an autoscaler start them. *)
Definition wakes (m : Misskey) (r : req) : Prop :=
  match r with
  | UpsertBegin KDeployment o => om_Name (dep_Meta o) ≠ nameProxy m
  | UpsertBegin KStatefulSet o => om_Name (sts_Meta o) ∉ keptSets m
  | UpsertBegin KJob _ | UpsertBegin KPod _ | UpsertBegin KHPA _ | UpsertBegin (KU _) _ => True
  | Create _ _ => True
  | Update KDeployment o => dep_Replicas o ≠ Some 0
  | Update KStatefulSet _ | Update KJob _ | Update KPod _ | Update KHPA _ | Update (KU _) _ => True
  | Apply u => bool_decide (u_GVK u ∈ keptGVKs) = false
  | _ => False
  end.

Definition base (m : Misskey) (r : req) : Prop := permitted "" r = true ∧ covered m r.
Definition gated (m : Misskey) (r : req) : Prop := base m r ∧ ¬ rolls m r.
Definition quiet (m : Misskey) (r : req) : Prop := base m r ∧ ¬ wakes m r.

Lemma rolls_wakes m r : rolls m r → wakes m r.
Proof.
  destruct r as [k|k|k o|k|k|k|u|k o|k| | | | | | |]; try done; destruct k; try done; simpl.
  rewrite !elem_of_cons. intros [->|[->|[]%not_elem_of_nil]] E; by apply sapp_inj_l in E.
Qed.
Lemma quiet_gated m r : quiet m r → gated m r.
Proof. intros [? Hw]. split; [done|]. intros Hr%rolls_wakes. done. Qed.
Lemma gated_base m r : gated m r → base m r.
Proof. by intros []. Qed.

(** ** The footprints of the handlers *)

Ltac close_perm := solve [vm_compute; reflexivity].
Ltac close_cov :=
  solve [exact I | reflexivity
        | let Hd := fresh in intros Hd; vm_compute in Hd; discriminate Hd].
Ltac close_wake :=
  let E := fresh in intros E; lazy in E; solve [discriminate E | destruct (E eq_refl) | destruct E].
(** A Deployment of another name. *)
Ltac close_name :=
  let E := fresh in intros E;
  cbn [wakes rolls] in E; rewrite !elem_of_cons in E;
  destruct_or! E; [apply sapp_inj_l in E; discriminate E..|by apply not_elem_of_nil in E].
(** The kind of an applied object has to be known. *)
Ltac known_kind :=
  lazymatch goal with
  | |- _ (Apply ?u) => let g := eval hnf in (u_GVK u) in lazymatch g with mkGVK _ _ _ => idtac end
  | |- _ _ => idtac
  end.
Ltac leaf :=
  known_kind;
  match goal with
  | |- quiet _ _ => split; [split; [close_perm|try close_cov]|try close_wake]
  | |- gated _ _ => split; [split; [close_perm|try close_cov]|try close_wake]
  | |- base _ _ => split; [close_perm|try close_cov]
  end.
(** Walks through a handler and closes the requests that are free. *)
Create HintDb footprint.
Ltac foot := repeat (solve [auto with footprint nocore] || emits_step); try leaf.

Section Footprints.
Context `{OwnerLaws} `{QuantityLib}.

Lemma quiet_secretVersion m ns name : emits (quiet m) (secretVersion ns name).
Proof. apply emits_secretVersion. leaf. Qed.
Lemma quiet_versions m p : emits (quiet m) (referencedSecretVersions m p).
Proof. apply emits_referencedSecretVersions. intros n. leaf. Qed.
Lemma quiet_generated m name c k n :
  retained m secretGVK name → emits (quiet m) (generatedSecret m name c k n).
Proof.
  intros Hr. unfold generatedSecret, secretMutate, randomHex. foot. done.
Qed.
#[local] Hint Resolve quiet_secretVersion quiet_versions : footprint.

Lemma retained_head m t : t ∈ firstn 6 (retainTargets m) → t ∈ retainTargets m.
Proof. intros Ht. rewrite <- (firstn_skipn 6 (retainTargets m)). apply elem_of_app. by left. Qed.

Lemma quiet_cleanupJobs m c keep : emits (quiet m) (cleanupJobs m c keep).
Proof. unfold cleanupJobs. foot. Qed.
Lemma quiet_cleanupOS m : emits (quiet m) (cleanupObjectStorage m).
Proof. unfold cleanupObjectStorage, cleanupObjectStorageJobs. foot. apply quiet_cleanupJobs. Qed.
Lemma quiet_configmaps m p : emits (quiet m) (reconcileConfigMaps m p).
Proof. unfold reconcileConfigMaps, setData. foot. Qed.
Lemma quiet_tenancy m : emits (quiet m) (reconcileTenancy m).
Proof.
  unfold reconcileTenancy, reconcileNetworkIsolation, reconcileEgressIsolation,
    reconcileResourceQuota, reconcileLimitRange. foot.
Qed.
Lemma rule_kind m u : buildPrometheusRule m = Some u → u_GVK u = prometheusRuleGVK.
Proof. unfold buildPrometheusRule. case_match; [done|]. by intros [= <-]. Qed.
Lemma quiet_rule m u om : buildPrometheusRule m = Some u →
  quiet m (Apply (mkUnstructured (u_GVK u) om (u_Object u))).
Proof. intros ->%rule_kind. leaf. Qed.
Lemma quiet_deleteMonitor m g n :
  permitted "" (DeleteObj (KU g) n (m_Namespace m) None) = true → emits (quiet m) (deleteMonitor m g n).
Proof. intros Hp. apply emits_deleteIfExists. split; [split|]; [done|exact I|by intros []]. Qed.
Lemma quiet_monitoring m p : emits (quiet m) (reconcileMonitoring m p).
Proof.
  unfold reconcileMonitoring, cleanupRedisMonitors.
  destruct (buildPrometheusRule m) as [u|] eqn:E; foot;
    try (by apply quiet_deleteMonitor); try (by apply quiet_rule);
    unfold redisMonitor; destruct (ri_ha _); leaf.
Qed.
Lemma quiet_proxy m : emits (quiet m) (reconcileProxy m).
Proof.
  unfold reconcileProxy, deleteProxyResources, deleteLegacyMaintenanceWorkload,
    deleteMaintenanceHTMLConfigMap, reconcilePDB. foot.
Qed.
Lemma quiet_ingress m p : emits (quiet m) (reconcileIngress m p).
Proof. unfold reconcileIngress. foot. Qed.
Lemma quiet_suspend m p : emits (quiet m) (suspendWorkloads m p).
Proof. unfold suspendWorkloads, suspendOne, deleteHPA, deleteScaledObject, deleteTriggerAuth. foot.
Qed.

(** A data object is applied under a name that [retainTargets] knows. *)
Lemma quiet_applyData m u :
  dataGVK (u_GVK u) = true →
  retained m (u_GVK u) (om_Name (u_Meta u)) ∨ om_Name (u_Meta u) = nameDBVerify m →
  emits (quiet m) (applySSA m u).
Proof.
  intros Hg Hn. apply emits_applySSA_owned. intros om [Hname _]%scr_keeps.
  unfold dataGVK in Hg. apply bool_decide_eq_true_1 in Hg. rewrite !elem_of_cons in Hg.
  split; [split|].
  - destruct_or! Hg; unfold permitted, needs, resourceOf; cbn [u_GVK]; try rewrite Hg;
      [vm_compute; reflexivity..|by apply not_elem_of_nil in Hg].
  - intros _. cbn [u_GVK u_Meta]. by rewrite Hname.
  - cbn [wakes u_GVK]. rewrite bool_decide_eq_true_2; [done|].
    unfold keptGVKs. rewrite !elem_of_cons. tauto.
Qed.
Lemma retained_suffix m suffix t :
  suffix ∈ allRedisSuffixes →
  t ∈ [mkTarget statefulSetGVK (nameRedisInstance m suffix);
       mkTarget redisReplicationGVK (nameRedisHA m suffix);
       mkTarget redisSentinelGVK (nameRedisHA m suffix)] → t ∈ retainTargets m.
Proof.
  intros Hs Ht. apply elem_of_app. right. apply list_elem_of_In, in_concat.
  eexists. split; [|by apply list_elem_of_In, Ht]. apply in_map_iff. exists suffix.
  by rewrite <- list_elem_of_In.
Qed.

Lemma quiet_postgres m : emits (quiet m) (reconcilePostgres m).
Proof.
  unfold reconcilePostgres. apply emits_tryBind; [|intros _; foot].
  apply quiet_applyData; [reflexivity|]. left. left.
Qed.
Lemma quiet_poolers m : emits (quiet m) (reconcilePoolers m).
Proof. unfold reconcilePoolers, deletePooler. foot. Qed.
Lemma quiet_record m v : emits (quiet m) (recordBackupVerification m v).
Proof. apply emits_record; intros; leaf. Qed.
Lemma quiet_verifyCluster m b : emits (quiet m) (applySSA m (buildDBVerifyCluster m b)).
Proof. apply quiet_applyData; [reflexivity|by right]. Qed.
#[local] Hint Resolve quiet_record quiet_verifyCluster : footprint.
Lemma quiet_verify m : emits (quiet m) (reconcileBackupVerify m).
Proof. unfold reconcileBackupVerify, finishVerify, deleteVerifyCluster. foot. Qed.

(** StatefulSets. *)
Lemma quiet_sts m name f (cs : rprog string) ns :
  retained m statefulSetGVK name → name ∈ keptSets m →
  (∀ ver s, om_Name (sts_Meta (f ver s)) = om_Name (sts_Meta s)) →
  emits (quiet m) cs →
  emits (quiet m) (applyStatefulSet m (newStatefulSet name ns) (fun sts =>
    try ver := cs in ok (f ver sts))).
Proof.
  intros Hn Hk Hf Hcs.
  apply (applyStatefulSet_footprint (fun s => retained m statefulSetGVK (om_Name (sts_Meta s))
    ∧ om_Name (sts_Meta s) ∈ keptSets m)).
  - intros h s (h1 & h2 & [v|e] & _ & _ & Hr)%runs_bind; cbn in Hr; [|by destruct Hr].
    destruct Hr as [_ [= ->]]. by rewrite Hf.
  - intros r Hr. destruct r as [k|k|k o|k o|k o|k n ns' pol|u|k o|k o| | | | | | |]; try done;
      try leaf; destruct k; try done; leaf; [exact (proj1 Hr)|]. intros Hn'. exact (Hn' (proj2 Hr)).
  - intros s. foot.
Qed.
Lemma quiet_meili m p : emits (quiet m) (reconcileMeilisearch m p).
Proof.
  unfold reconcileMeilisearch. foot. apply (quiet_sts m (nameMeili m)); [|left|done|foot].
  apply retained_head. vm_compute. set_solver.
Qed.
Lemma suffix_in m inst : inst ∈ managedRedisInstances m → ri_suffix inst ∈ allRedisSuffixes.
Proof.
  intros Hi. eapply sublist_subseteq; [apply suffixes_sublist|].
  by apply (list_elem_of_fmap_2 ri_suffix).
Qed.
Lemma quiet_standalone m inst :
  ri_suffix inst ∈ allRedisSuffixes → emits (quiet m) (reconcileRedisStandalone m inst).
Proof.
  intros Hs. unfold reconcileRedisStandalone. foot.
  apply (quiet_sts m (nameRedisInstance m (ri_suffix inst))); [| |done|foot].
  - eapply retained_suffix; [done|left].
  - right. by apply (list_elem_of_fmap_2 (nameRedisInstance m)).
Qed.
Lemma quiet_HA m inst :
  ri_suffix inst ∈ allRedisSuffixes → emits (quiet m) (reconcileRedisHA m inst).
Proof.
  intros Hs. unfold reconcileRedisHA. apply emits_tryBind; [|intros _].
  all: apply quiet_applyData; [reflexivity|left; eapply retained_suffix; [done|]].
  - right; left.
  - right; right; left.
Qed.
Lemma quiet_deleteHA m suffix : emits (quiet m) (deleteRedisHA m suffix).
Proof. unfold deleteRedisHA, forEach. foot. Qed.
#[local] Hint Resolve quiet_deleteHA quiet_HA quiet_standalone : footprint.
Lemma quiet_redis m : emits (quiet m) (reconcileRedis m).
Proof.
  unfold reconcileRedis. apply emits_tryBind; [|intros _; apply emits_tryBind; [|intros _]].
  - case_match; [|done]. apply quiet_generated, retained_head. do 4 right; left.
  - apply emits_forEach. intros inst Hi%suffix_in. unfold reconcileInstance, deleteRedisStandalone,
      reconcileRedisHANetworkPolicy, deleteRedisHANetworkPolicy. foot.
  - unfold cleanupSuffix, deleteRedisStandalone, deleteRedisHANetworkPolicy. foot.
Qed.

(** The detector. *)
Lemma quiet_checksum m p : emits (quiet m) (misskeyChecksum m p).
Proof. apply emits_misskeyChecksum. intros n. leaf. Qed.
Lemma quiet_read m st : emits (quiet m) (readSensitiveDetectorConfigState m st).
Proof. unfold readSensitiveDetectorConfigState, hasSensitiveDetectorConfigState. foot. Qed.
#[local] Hint Resolve quiet_checksum quiet_read quiet_cleanupJobs : footprint.
Lemma quiet_finalize m p b st : emits (quiet m) (finalizeSensitiveDetectorCleanup m p b st).
Proof.
  assert (∀ q, emits (quiet m) (misskeyWorkloadsConverged m q)) as Hc.
  { intros q. apply emits_converged; intros n; leaf. }
  unfold finalizeSensitiveDetectorCleanup, finalizeManaged, sensitiveDetectorConverged,
    cleanupSensitiveDetector, cleanupGeneratedSensitiveDetectorSecret,
    cleanupSensitiveDetectorConfigState, cleanupSensitiveDetectorConfigJobs. foot.
Qed.
Lemma quiet_objHash m p sql l : emits (quiet m) (objectStorageHash m p sql l).
Proof. unfold objectStorageHash, credentialSecretVersions. foot. Qed.
#[local] Hint Resolve quiet_objHash : footprint.

(** Handlers that start Jobs or the detector, but not the application. *)
Lemma emits_quiet_gated {A} m (p : prog A) : emits (quiet m) p → emits (gated m) p.
Proof. apply emits_mono, quiet_gated. Qed.
Lemma emits_gated_base {A} m (p : prog A) : emits (gated m) p → emits (base m) p.
Proof. apply emits_mono, gated_base. Qed.
#[local] Hint Extern 5 (emits (gated _) _) => apply emits_quiet_gated : footprint.
Lemma gated_detector m p : emits (gated m) (reconcileSensitiveDetector m p).
Proof. unfold reconcileSensitiveDetector, setData, reconcilePDB. foot. close_name. Qed.
Lemma gated_migrate m p : emits (gated m) (migrate m p).
Proof.
  unfold migrate, reconcilePreMigrationBackup, reconcileMigration, cleanupOldMigrationJobs,
    migrationChecksum, cleanupOldPreMigrationBackups, createControlled. foot.
Qed.
Lemma gated_objectStorage m p : emits (gated m) (reconcileObjectStorage m p).
Proof.
  unfold reconcileObjectStorage, cleanupObjectStorageJobs, createControlled. foot.
Qed.
Lemma gated_detectorConfig m p st : emits (gated m) (reconcileSensitiveDetectorConfig m p st).
Proof.
  unfold reconcileSensitiveDetectorConfig, cleanupSensitiveDetectorConfigJobs,
    sensitiveDetectorConfigHash, runDetectorConfigJob, createControlled, setData. foot.
Qed.

(** The rollout. *)
Lemma base_autoscaler m c n a p : emits (base m) (reconcileAutoscaler m c n a p).
Proof.
  unfold reconcileAutoscaler, reconcileScaledObject, deleteHPA, deleteScaledObject,
    deleteTriggerAuth. foot.
Qed.
Lemma base_rollout m p : emits (base m) (do reconcileApp m p; reconcileWorker m p).
Proof.
  pose proof (base_autoscaler m).
  assert (emits (base m) (misskeyChecksum m p)) by (by apply emits_gated_base, emits_quiet_gated, quiet_checksum).
  unfold reconcileApp, reconcileWorker, applyRole, reconcilePDB. foot.
Qed.
End Footprints.
