(* ===== verification/Safety.v ===== *)
(** * What a whole pass of the reconciler guarantees

    The footprints of [Access], put together along [reconcileAll] and [Reconcile]: the gates in
    front of a rollout, a suspended instance that stays asleep, data objects that deletion
    knows, and permissions that suffice. *)
From S2P Require Export Access.
Local Open Scope string_scope.
Local Open Scope Z_scope.
Local Open Scope list_scope.

Section Stages.
Context `{OwnerLaws} `{QuantityLib}.

#[local] Hint Resolve quiet_secretVersion quiet_versions quiet_record quiet_verifyCluster
  quiet_checksum quiet_read quiet_cleanupJobs quiet_objHash quiet_configmaps quiet_tenancy
  quiet_postgres quiet_poolers quiet_verify quiet_redis quiet_meili quiet_cleanupOS
  quiet_proxy quiet_ingress quiet_monitoring quiet_suspend quiet_finalize : footprint.
#[local] Hint Extern 5 (emits (gated _) _) => apply emits_quiet_gated : footprint.
#[local] Hint Resolve gated_detector gated_migrate gated_objectStorage gated_detectorConfig
  : footprint.
#[local] Hint Extern 9 (emits (base _) _) => apply emits_gated_base : footprint.

(** The Secrets, ConfigMaps and policies; the detector unless suspended. *)
Lemma quiet_secrets m :
  emits (quiet m) (reconcileMeiliSecret m) ∧ emits (quiet m) (reconcileSetupSecret m)
  ∧ emits (quiet m) (reconcileSensitiveDetectorSecret m).
Proof.
  unfold reconcileMeiliSecret, reconcileSetupSecret, reconcileSensitiveDetectorSecret.
  split_and!; foot; apply quiet_generated, retained_head.
  - do 2 right; left.
  - do 3 right; left.
  - do 5 right; left.
Qed.
Lemma gated_prerequisites m p : emits (gated m) (reconcilePrerequisites m p).
Proof.
  destruct (quiet_secrets m) as (H1' & H2' & H3').
  unfold reconcilePrerequisites, when. foot.
Qed.
Lemma quiet_database m p : emits (quiet m) (reconcileDatabase m p).
Proof. unfold reconcileDatabase. foot. Qed.
Lemma quiet_appService m : emits (quiet m) (reconcileAppService m).
Proof. unfold reconcileAppService. foot. Qed.
Lemma quiet_backends m p : emits (quiet m) (reconcileBackends m p).
Proof. pose proof (quiet_appService m). unfold reconcileBackends, when. foot. Qed.
Lemma quiet_edge m p : emits (quiet m) (reconcileEdge m p).
Proof. unfold reconcileEdge. foot. Qed.
Lemma quiet_dbReady m p : emits (quiet m) (databaseReady m p).
Proof. unfold databaseReady, databaseCondition. foot. Qed.
Lemma quiet_redisReady m : emits (quiet m) (redisReady m).
Proof. unfold redisReady, redisCondition, instanceReady, readyPodsByAppLabel. foot. Qed.
#[local] Hint Resolve gated_prerequisites quiet_database quiet_backends quiet_edge quiet_dbReady
  quiet_redisReady base_rollout : footprint.
Lemma gated_configure m p b st : emits (gated m) (configureInstance m p b st).
Proof. unfold configureInstance. foot. Qed.
#[local] Hint Resolve gated_configure : footprint.
Lemma base_rolloutStage m p st : emits (base m) (reconcileRollout m p st).
Proof. unfold reconcileRollout, when. foot. Qed.
End Stages.

(** ** The gates in front of a rollout *)

Section Gates.
Context `{OwnerLaws} `{QuantityLib}.

Record rolloutGate (m : Misskey) (h : history) : Prop := mkGate {
  rg_awake : spec_Suspend (m_Spec m) = false;
  rg_database : databaseShown m (resolve m) h;
  rg_backup : preBackupRequired m (resolve m) → backupEvidence m h;
  rg_migrated : jobSucceeded m (nameMigrate m) h;
  rg_storage : p_objAutoConfigure (resolve m) = true →
    ∃ hash, jobSucceeded m (nameObjectStorage m hash) h;
  rg_detector : detectorConfigured m h;
  rg_redis : ∀ inst, inst ∈ managedRedisInstances m → instanceShown m inst h }.

(** Every rollout in [h] came after its gates. *)
Definition rolledAfter (m : Misskey) : history → Prop := onlyAfter (rolls m) (rolloutGate m).

(** *** Evidence stays *)
Lemma backupEvidence_app m h h' : backupEvidence m h → backupEvidence m (h ++ h').
Proof.
  intros [(j & Hj)|(b & Hb & Hp)]; [left; exists j; in_hist|right; exists b; split; [in_hist|done]].
Qed.
Lemma detectorConfigured_app m h h' : detectorConfigured m h → detectorConfigured m (h ++ h').
Proof. intros [Hn|(hash & Hj)]; [by left|]. right. exists hash. by apply jobSucceeded_app_l. Qed.
Lemma rolloutGate_app m h h' : rolloutGate m h → rolloutGate m (h ++ h').
Proof.
  intros [Ha Hd Hb Hm Hs Hdet Hr]. constructor; [done| | | | | |].
  - by apply databaseShown_app.
  - intros Hp. by apply backupEvidence_app, Hb.
  - by apply jobSucceeded_app_l.
  - intros Ho. destruct (Hs Ho) as [hash Hj]. exists hash. by apply jobSucceeded_app_l.
  - by apply detectorConfigured_app.
  - intros i Hi. by apply instanceShown_app, Hr.
Qed.

(** *** The invariant *)
Lemma keeps_gated {A} m (p : prog A) : emits (gated m) p → keeps (rolledAfter m) p.
Proof. intros Hp. apply keeps_onlyAfter. eapply emits_mono, Hp. by intros r []. Qed.
(** A stage in front of the gates: the invariant, what was shown so far, and its result. *)
Lemma wp_stage {A} m (p : prog A) (E : history → A → Prop) (K : history → Prop) h :
  emits (gated m) p → (∀ h h', K h → K (h ++ h')) →
  wp p E h → rolledAfter m h → K h →
  wp p (fun h' a => rolledAfter m h' ∧ K h' ∧ E h' a) h.
Proof.
  intros Hp HK HE Hh Hk. apply wp_and; [by apply keeps_gated|]. apply wp_and; [|done].
  apply wp_prefix, wp_any. intros h' a _. by apply HK.
Qed.

(** *** What the stages show *)
Lemma migrate_wp m p h0 :
  wp (migrate m p) (fun h r => r = Ok true →
    (preBackupRequired m p → backupEvidence m h) ∧ jobSucceeded m (nameMigrate m) h) h0.
Proof.
  unfold migrate. apply wp_tryBind.
  apply (wp_mono _ (fun h r => r = Ok true → preBackupRequired m p → backupEvidence m h)).
  2:{ apply wp_runs. intros h r Hr He Hreq.
      pose proof (reconcilePreMigrationBackup_wp m p h0 Hreq) as Hw.
      rewrite wp_runs in Hw. by eapply Hw. }
  intros h1 [[]|e] Hb; [|done..]. apply wp_prefix. eapply wp_mono, reconcileMigration_wp.
  intros h2 r Hm [h' ->] Hr. split; [|by apply Hm].
  intros Hreq. by apply backupEvidence_app, Hb.
Qed.
Lemma configure_wp m p done st h0 :
  (done = true → spec_SensitiveDetector (m_Spec m) = None) →
  wp (configureInstance m p done st) (fun h x => ∀ o, x.2 = Ok (o, true) →
    detectorConfigured m h ∧ (o = true → p_objAutoConfigure p = true →
      ∃ hash, jobSucceeded m (nameObjectStorage m hash) h)) h0.
Proof.
  intros Hd. unfold configureInstance. apply wp_bind.
  apply (wp_mono _ (fun h r => r = Ok true → p_objAutoConfigure p = true →
    ∃ hash, jobSucceeded m (nameObjectStorage m hash) h)).
  2:{ destruct (p_objAutoConfigure p); [|done]. eapply wp_mono, objectStorage_wp. auto. }
  intros h1 [o|e] Ho; [|done]. destruct (_ || _).
  - apply wp_bind, wp_prefix. eapply wp_mono, detectorConfig_wp.
    intros h2 [st2 [d|e]] H2 [h' ->]; cbn; [|done]. intros o' [= -> ->].
    split; [by apply H2|]. intros -> Ha. destruct (Ho eq_refl Ha) as [hash Hj].
    exists hash. by apply jobSucceeded_app_l.
  - cbn. intros o' [= -> ->]. split; [left; by apply Hd|]. intros -> Ha. by apply Ho.
Qed.
End Gates.

Section Passes.
Context `{OwnerLaws} `{QuantityLib}.

Lemma gated_suspend m p : emits (gated m) (suspendWorkloads m p).
Proof. apply emits_quiet_gated, quiet_suspend. Qed.
Lemma detector_off m : p_sensitiveDetectorEnabled (resolve m) = false →
  spec_SensitiveDetector (m_Spec m) = None.
Proof.
  unfold resolve, resolveDetector. cbv zeta. repeat case_match; simplify_eq/=; done.
Qed.

Lemma rollout_rolls m st h :
  rolledAfter m h → wp (reconcileRollout m (resolve m) st) (fun h' _ => rolledAfter m h') h.
Proof.
  intros Hh. unfold reconcileRollout. cbv zeta. destruct (spec_Suspend (m_Spec m)) eqn:Hs.
  { apply wp_bind. eapply wp_mono; [|apply (keeps_gated m); [apply gated_suspend|exact Hh]]. done. }
  apply wp_bind. eapply wp_mono.
  2:{ eapply (wp_stage m _ _ (fun _ => True) h); [|done|apply databaseReady_wp|done..].
      apply emits_quiet_gated, quiet_dbReady. }
  intros h1 b (Hh1 & _ & Hdb). destruct b; [|done]. cbn [negb]. specialize (Hdb eq_refl).
  apply wp_bind. eapply wp_mono.
  2:{ eapply (wp_stage m _ _ (databaseShown m (resolve m)) h1);
        [apply gated_migrate|apply databaseShown_app|apply migrate_wp|done..]. }
  intros h2 c (Hh2 & Hdb2 & Hm). destruct c as [[]|e]; [|done..]. specialize (Hm eq_refl).
  apply wp_bind. eapply wp_mono.
  2:{ eapply (wp_stage m _ _ (fun h => databaseShown m (resolve m) h
        ∧ (preBackupRequired m (resolve m) → backupEvidence m h)
        ∧ jobSucceeded m (nameMigrate m) h) h2); [apply gated_configure| |apply configure_wp|done..].
      - intros h' h'' (Hd & Hb & Hj). split_and!.
        + by apply databaseShown_app.
        + intros Hr. by apply backupEvidence_app, Hb.
        + by apply jobSucceeded_app_l.
      - intros Hd. apply detector_off. by bool_prop. }
  intros h3 [st' [[o d]|e]] (Hh3 & (Hd3 & Hb3 & Hj3) & Hc); [|done].
  apply wp_bind. destruct (o && d) eqn:Eod; [|done].
  apply andb_true_iff in Eod as [-> ->]. destruct (Hc true eq_refl) as [Hdet Hobj].
  eapply wp_mono.
  2:{ eapply (wp_stage m _ _ (fun h => rolloutGate m h ∨ h3 `prefix_of` h) h3).
      - apply emits_quiet_gated, quiet_redisReady.
      - intros h' h'' [Hg|Hp]; [left; by apply rolloutGate_app|right]. by apply prefix_app_r.
      - apply redisReady_wp.
      - done.
      - by right. }
  intros h4 b (Hh4 & Hg & Hr). destruct b; [|by apply wp_bind].
  apply wp_bind, keeps_open; [apply rolloutGate_app| |done]. destruct Hg as [Hg|[h' ->]]; [done|].
  constructor; [done| | | | | |].
  - by apply databaseShown_app.
  - intros Hq. by apply backupEvidence_app, Hb3.
  - by apply jobSucceeded_app_l.
  - intros Ha. destruct (Hobj eq_refl Ha) as [hash Hj]. exists hash. by apply jobSucceeded_app_l.
  - by apply detectorConfigured_app.
  - intros i Hi. by apply Hr.
Qed.

(** The restore test changes nothing of the instance but its status. *)
Lemma database_status m p h0 :
  wp (reconcileDatabase m p) (fun _ x => ∃ s, x.1 = set_m_Status s m) h0.
Proof.
  assert (∀ x : Misskey, x = m → ∃ s, x = set_m_Status s m) as Hsame.
  { intros x ->. exists (m_Status m). by destruct m. }
  assert (∀ v h, wp (recordBackupVerification m v) (fun _ x => ∃ s, x.1 = set_m_Status s m) h)
    as Hrec.
  { intros v h. unfold recordBackupVerification. apply wp_bind, wp_any.
    intros h' [cur|e]; cbn; [by eexists|by apply Hsame]. }
  assert (∀ v a b c h, wp (finishVerify m v a b c) (fun _ x => ∃ s, x.1 = set_m_Status s m) h)
    as Hfin.
  { intros v a b c h. unfold finishVerify. apply wp_bind. eapply wp_mono, Hrec.
    intros h' [m' [u|e]] Hs; [|done]. apply wp_bind, wp_any. intros h2 _.
    apply wp_bind, wp_any. done. }
  unfold reconcileDatabase. destruct (p_dbManaged p); [|by apply Hsame].
  apply wp_bind, wp_any. intros h1 [u|e]; [|by apply Hsame].
  unfold reconcileBackupVerify. repeat case_match;
    try (apply wp_bind, wp_any; intros ? d; by apply Hsame).
  apply wp_bind, wp_send. intros [cl|e].
  - apply wp_bind, wp_send. intros now. cbv zeta. repeat case_match; [apply Hfin..|by apply Hsame].
  - destruct (negb (isNotFound e)); [by apply Hsame|]. apply wp_bind, wp_send. intros now.
    destruct (negb _); [by apply Hsame|]. apply wp_bind, wp_any. intros h2 [a|e']; [|by apply Hsame].
    apply wp_bind, wp_any. intros h3 _. by apply Hsame.
Qed.

(** A footprint of [reconcileAll] from the footprints of its stages. *)
Lemma emits_all (P : req → Prop) m st :
  (∀ r, quiet m r → P r) →
  emits P (reconcilePrerequisites m (resolve m)) →
  (∀ s st, emits P (reconcileRollout (set_m_Status s m) (resolve m) st)) →
  emits P (reconcileAll m st).
Proof.
  intros HP Hpre Hroll. unfold reconcileAll.
  assert (∀ s A (p : prog A), emits (quiet (set_m_Status s m)) p → emits P p) as Hq.
  { intros s A p. apply emits_mono, HP. }
  apply emits_bind; [done|]. intros [u|e]; [|done].
  apply emits_bind_runs; [by apply (emits_mono _ _ _ HP), quiet_database|].
  intros h d Hd. pose proof (database_status m (resolve m) []) as Hs. rewrite wp_runs in Hs.
  specialize (Hs _ _ Hd). destruct d as [m' [u'|e]]; [|done]. destruct Hs as [s Hs]. cbn in Hs.
  subst m'. apply emits_bind; [apply (Hq s), quiet_backends|]. intros [u2|e]; [|done].
  apply emits_bind; [apply (Hq s), quiet_read|]. intros st1. destruct (dc_err st1); [done|].
  apply emits_bind; [apply Hroll|]. intros [st2 [fin|e]]; [|done].
  apply emits_bind; [apply (Hq s), quiet_edge|]. intros [u3|e]; [|done].
  apply emits_bind; [apply (Hq s), quiet_finalize|done].
Qed.

Lemma base_all m st : emits (base m) (reconcileAll m st).
Proof.
  apply emits_all.
  - intros r Hr. apply gated_base, quiet_gated, Hr.
  - apply emits_gated_base, gated_prerequisites.
  - intros s st'. apply (base_rolloutStage (set_m_Status s m)).
Qed.

(** The gates do not depend on the status. *)
Lemma gate_status s m h : rolloutGate (set_m_Status s m) h ↔ rolloutGate m h.
Proof.
  split; intros [Ha Hd Hb Hm Hs Hdet Hr];
    (constructor; [exact Ha|exact Hd|exact Hb|exact Hm|exact Hs|exact Hdet|exact Hr]).
Qed.
Lemma rolledAfter_status s m h : rolledAfter (set_m_Status s m) h ↔ rolledAfter m h.
Proof.
  unfold rolledAfter. change (rolls (set_m_Status s m)) with (rolls m).
  split; intros Hh h1 e h2 He Hr; apply (gate_status s m); eauto.
Qed.

Lemma all_rolls m st :
  wp (reconcileAll m st) (fun h _ => rolledAfter m h) [].
Proof.
  assert (∀ s A (p : prog A) h, emits (gated (set_m_Status s m)) p → rolledAfter m h →
    wp p (fun h' _ => rolledAfter m h') h) as Hk.
  { intros s A p h Hp Hh. by apply (keeps_gated m p Hp). }
  assert (∀ A (p : prog A) h, emits (gated m) p → rolledAfter m h →
    wp p (fun h' _ => rolledAfter m h') h) as Hk0.
  { intros A p h Hp Hh. by apply (keeps_gated m p Hp). }
  unfold reconcileAll. cbv zeta. apply wp_bind. eapply wp_mono.
  2:{ apply Hk0; [apply gated_prerequisites|apply onlyAfter_nil]. }
  intros h1 [u|e] Hh1; [|done]. apply wp_bind. eapply wp_mono.
  2:{ apply wp_and; [apply Hk0, Hh1; apply emits_quiet_gated, quiet_database|apply database_status]. }
  intros h2 [m' [u'|e]] [Hh2 [s Hs]]; cbn in Hs; subst m'; [|done].
  apply wp_bind. eapply wp_mono; [|apply (Hk s), Hh2; apply emits_quiet_gated, quiet_backends].
  intros h3 [u2|e] Hh3; [|done].
  apply wp_bind. eapply wp_mono; [|apply (Hk s), Hh3; apply emits_quiet_gated, quiet_read].
  intros h4 st1 Hh4. destruct (dc_err st1); [done|].
  apply wp_bind. eapply wp_mono; [|apply (rollout_rolls (set_m_Status s m)), rolledAfter_status, Hh4].
  intros h5 [st2 [fin|e]] Hh5%rolledAfter_status; [|done].
  apply wp_bind. eapply wp_mono; [|apply (Hk s), Hh5; apply emits_quiet_gated, quiet_edge].
  intros h6 [u3|e] Hh6; [|done].
  apply wp_bind. eapply wp_mono; [|apply (Hk s), Hh6; apply emits_quiet_gated, quiet_finalize].
  done.
Qed.


(** A migration Job is not created before its backup. *)
Definition createsJob (r : req) : Prop := match r with Create KJob _ => True | _ => False end.
Lemma preBackup_noJob m p : emits (fun r => ¬ createsJob r) (reconcilePreMigrationBackup m p).
Proof.
  unfold reconcilePreMigrationBackup, cleanupOldPreMigrationBackups, createControlled.
  emits_tac; by intros [].
Qed.
Lemma migrate_backup m p :
  preBackupRequired m p → wp (migrate m p) (fun h _ => onlyAfter createsJob (backupEvidence m) h) [].
Proof.
  intros Hreq. unfold migrate. apply wp_tryBind. eapply wp_mono.
  2:{ apply wp_and; [|by apply reconcilePreMigrationBackup_wp].
      apply (keeps_onlyAfter createsJob (backupEvidence m)); [apply preBackup_noJob|apply onlyAfter_nil]. }
  intros h [[]|e] [Hh He]; [|done..]. apply keeps_open; [apply backupEvidence_app|by apply He|done].
Qed.

Definition isEvent (r : req) : bool := match r with Event _ _ _ _ => true | _ => false end.
(** The parts of [Reconcile] around [reconcileAll]. *)
Lemma permitted_delete m : emits (fun r => permitted "" r = true) (reconcileDelete m).
Proof.
  unfold reconcileDelete, retainData. destruct (negb _); [done|].
  apply emits_tryBind; [|intros _; emits_tac; reflexivity].
  destruct (String.eqb _ _); [|done]. apply emits_tryBind; [|intros _; emits_tac; reflexivity].
  apply emits_forEach. intros t Ht. apply list_elem_of_In in Ht. unfold orphan.
  cbv [retainTargets concat map app allRedisSuffixes redisRoleDescs In] in Ht.
  repeat destruct Ht as [<-|Ht]; [emits_tac; reflexivity..|done].
Qed.
Lemma permitted_resolveImage m : emits (fun r => permitted "" r = true) (resolveImage m).
Proof.
  unfold resolveImage, pinImage, pullSecretKeychain.
  emits_tac; try reflexivity; by apply emits_Pinned.
Qed.
Lemma permitted_status m e st : emits (fun r => permitted "" r = true) (updateStatus m e st).
Proof.
  assert (∀ sql l, emits (fun r => permitted "" r = true) (objectStorageHash m (resolve m) sql l)) as Hh.
  { intros sql l. apply (emits_mono (quiet m)); [by intros r [[]]|apply quiet_objHash]. }
  unfold updateStatus, conditions, databaseCondition, redisCondition, instanceReady,
    readyPodsByAppLabel, condIf, searchCondition, migrationCondition, objectStorageCondition,
    detectorCnd, condIf, sensitiveDetectorCondition, sensitiveDetectorConfigComplete,
    deploymentReady, ingressCondition, readBackupStatus.
  emits_tac; try reflexivity; apply Hh.
Qed.
Lemma permitted_reconcile drift name ns :
  emits (fun r => permitted "" r = true) (Reconcile drift name ns).
Proof.
  assert (∀ m, emits (fun r => permitted "" r = true) (reconcileLive drift m)) as Hl.
  { intros m. unfold reconcileLive, concludePass. apply emits_bind; [apply permitted_resolveImage|].
    intros i. apply emits_bind.
    - destruct i as [m' [u|e]]; [|done]. apply (emits_mono (base m')); [by intros r []|apply base_all].
    - intros [[m' st] r]. apply emits_bind; [|intros st'; apply emits_bind; [by destruct r|intros u]].
      + apply (emits_mono (quiet m')); [by intros q [[]]|apply quiet_read].
      + apply emits_bind; [apply permitted_status|]. intros v. by destruct r. }
  unfold Reconcile. apply emits_bind; [by split|]. intros [m|e]; [|by destruct (isNotFound e)].
  destruct (deleting m); [apply permitted_delete|]. destruct (addFinalizer _ _) as [om []]; [|apply Hl].
  apply emits_tryBind; [by split|]. apply Hl.
Qed.

(** ** Properties *)

(** C2. A pass creates or updates the Deployments of app and worker only after, in this very pass,
    the API server has shown everything the rollout depends on: the instance is not suspended,
    the managed database has all its instances ready, a required pre-migration backup is
    complete (or the migration already exists), the migration Job of the current image
    has succeeded, the Jobs that write the object storage and the detector settings have
    succeeded, and every managed redis instance has its replicas ready. *)
Theorem rollout_gated m st h r :
  runs (reconcileAll m st) h r →
  ∀ h1 o x h2, h = h1 ++ ev (UpsertBegin KDeployment o) x :: h2 →
    om_Name (dep_Meta o) ∈ [nameApp m; nameWorker m] → rolloutGate m h1.
Proof.
  intros Hr. pose proof (all_rolls m st) as Ha. rewrite wp_runs in Ha. specialize (Ha _ _ Hr).
  intros h1 o x h2 He Ho. by apply (Ha h1 _ h2 He).
Qed.

(** C14. With a pre-migration backup required, a migration Job is created only after the API server
    has shown a completed backup of this migration, or the migration Job itself. *)
Theorem backup_before_migration m p h r :
  preBackupRequired m p → runs (migrate m p) h r →
  ∀ h1 job x h2, h = h1 ++ ev (Create KJob job) x :: h2 → backupEvidence m h1.
Proof.
  intros Hreq Hr h1 job x h2 He. pose proof (migrate_backup m p Hreq) as Hw.
  rewrite wp_runs in Hw. exact (Hw _ _ Hr h1 _ h2 He I).
Qed.

(** C20. A reconcile that goes well comes back: after 15 seconds, or after the drift interval, and
    always later than now.  Only an object that is gone or being deleted is left alone. *)
Theorem reconcile_comes_back drift name ns h res :
  runs (Reconcile drift name ns) h (Ok res) →
  (0 < RequeueAfter res ∧ (RequeueAfter res = 15 * Second ∨ RequeueAfter res = driftInterval drift))
  ∨ (RequeueAfter res = 0
     ∧ ∃ x, ev (Get KMisskey name ns) x ∈ h
            ∧ match x with Ok m => deleting m = true | Err e => isNotFound e = true end).
Proof.
  assert (0 < driftInterval drift) as Hpos.
  { unfold driftInterval. destruct (Z.ltb_spec 0 drift); [done|]. unfold Minute, Second. lia. }
  assert (∀ m h, wp (reconcileLive drift m) (fun _ r => ∀ res, r = Ok res → 0 < RequeueAfter res
    ∧ (RequeueAfter res = 15 * Second ∨ RequeueAfter res = driftInterval drift)) h) as Hlive.
  { intros m h0. unfold reconcileLive, concludePass. apply wp_bind, wp_any. intros h1 i.
    apply wp_bind, wp_any. intros h2 [[m' st] r]. apply wp_bind, wp_any. intros h3 st'.
    apply wp_bind, wp_any. intros h4 _. apply wp_bind, wp_any. intros h5 u.
    destruct r as [v|e]; [|done]. cbn. intros res' [= <-]. cbn.
    repeat case_match; split; auto; unfold Second; lia. }
  assert (∀ m h, wp (reconcileDelete m) (fun _ r => ∀ res, r = Ok res → RequeueAfter res = 0) h) as Hdel.
  { intros m h0. unfold reconcileDelete. destruct (negb _); [cbn; by intros res' [= <-]|].
    apply wp_tryBind, wp_any. intros h1 [v|e]; [|done]. apply wp_tryBind, wp_any.
    intros h2 [v2|e]; [|done]. cbn. by intros res' [= <-]. }
  intros Hr. revert Hr. unfold Reconcile. intros (x & h' & -> & Hr). destruct x as [m|e]; cbn [bind] in Hr.
  - destruct (deleting m) eqn:Ed.
    + right. specialize (Hdel m []). rewrite wp_runs in Hdel. split; [exact (Hdel _ _ Hr _ eq_refl)|].
      exists (Ok m). split; [left|done].
    + left. destruct (addFinalizer _ _) as [om []].
      * destruct Hr as (y & h2 & -> & Hr).
        destruct y as [m'|e]; [cbn [bind] in Hr|by destruct Hr].
        specialize (Hlive m' []). rewrite wp_runs in Hlive. exact (Hlive _ _ Hr _ eq_refl).
      * specialize (Hlive m []). rewrite wp_runs in Hlive. exact (Hlive _ _ Hr _ eq_refl).
  - right. destruct (isNotFound e) eqn:E; cbn in Hr; destruct Hr as [-> [= ->]].
    split; [done|]. exists (Err e). split; [left|done].
Qed.


(** C13. Every StatefulSet, Secret, database Cluster and redis resource that a pass can bring
    into being is in the list that deletion with [Retain] detaches; the only exception is the
    throw-away Cluster of the restore test. *)
Theorem retain_covers m st h r :
  runs (reconcileAll m st) h r → Forall (covered m) (reqs h).
Proof.
  intros Hr. eapply Forall_impl; [eapply emits_runs, Hr; apply base_all|]. by intros q [].
Qed.

(** C19. The role in the kubebuilder markers grants everything any run of [Reconcile] asks of the
    API server: reads with the list and watch of the cache behind them, writes, status
    writes, server-side applies and deletions; and the events, as long as the recorder writes
    them to the core group.  A recorder that writes to [events.k8s.io], as the one of
    [mgr.GetEventRecorder] does, is refused every one of them, and nothing but them. *)
Theorem rbac_sufficient drift name ns h r :
  runs (Reconcile drift name ns) h r →
  Forall (fun q => permitted "" q = true ∧ permitted "events.k8s.io" q = negb (isEvent q)) (reqs h).
Proof.
  intros Hr. eapply Forall_impl; [eapply emits_runs, Hr; apply permitted_reconcile|].
  intros q Hq. split; [done|]. destruct q; first [exact Hq|reflexivity].
Qed.
End Passes.
