(* ===== verification/Cleanup.v ===== *)
(** * What a changed or removed detector leaves behind

    The clean-up at the end of a pass deletes the workload, the generated Secret and the
    settings of a detector that is no longer managed.  Over a whole pass, nothing of it goes
    before the new settings are stored and the application runs on them. *)
From S2P Require Export Safety.
Local Open Scope string_scope.
Local Open Scope Z_scope.
Local Open Scope list_scope.

(** The objects of a detector: its workload, its ConfigMap and generated Secret, and the
    ConfigMap that records its settings.  No other Secret is deleted by a pass. *)
Definition leftover (m : Misskey) (r : req) : Prop :=
  match r with
  | DeleteObj KDeployment n _ _ | DeleteObj KService n _ _ | DeleteObj KPDB n _ _ =>
      n = m_Name m +:+ "-sensitive-detector"
  | DeleteObj KConfigMap n _ _ =>
      n = m_Name m +:+ "-sensitive-detector" ∨ n = m_Name m +:+ "-sensitive-detector-config"
  | DeleteObj KSecret _ _ _ => True
  | _ => False
  end.

Section Gate.
Context `{KubeLib} `{QuantityLib} (m : Misskey).

(** In this order: the hash of the settings as they are now was computed, the ConfigMap with
    the SQL and the hash was written, and the Job named after the hash was shown to have
    succeeded. *)
Definition settingsStored (h : history) : Prop :=
  let sql := renderSensitiveDetectorConfigSQL m in
  ∃ ha hb hc hd hash cm x,
    h = ha ++ hb ++ hc ++ ev (UpsertCommit KConfigMap cm) (Ok x) :: hd
    ∧ runs (sensitiveDetectorConfigHash m (resolve m) sql) hb (Ok hash)
    ∧ cm_Data cm = detectorConfigData m sql hash
    ∧ jobSucceeded m (nameSensitiveDetectorConfigJob m hash) hd.
(** No detector is configured, and the server knows no settings of an earlier one. *)
Definition nothingStored (h : history) : Prop :=
  spec_SensitiveDetector (m_Spec m) = None
  ∧ ∃ e, isNotFound e = true
         ∧ ev (Get KConfigMap (nameSensitiveDetectorConfig m) (m_Namespace m)) (Err e) ∈ h.
Definition settingsShown (h : history) : Prop := nothingStored h ∨ settingsStored h.
Definition cleanupGate (h : history) : Prop :=
  ∃ ha hb, h = ha ++ hb ∧ settingsShown ha ∧ convergedOn m (resolve m) hb.

Lemma settingsStored_app h h' : settingsStored h → settingsStored (h ++ h').
Proof.
  intros (ha & hb & hc & hd & hash & cm & x & -> & Hr & Hd & Hj).
  exists ha, hb, hc, (hd ++ h'), hash, cm, x. rewrite <- !app_assoc.
  split_and!; [done..|by apply jobSucceeded_app_l].
Qed.
Lemma settingsStored_pre h h' : settingsStored h → settingsStored (h' ++ h).
Proof.
  intros (ha & hb & hc & hd & hash & cm & x & -> & Hr & Hd & Hj).
  exists (h' ++ ha), hb, hc, hd, hash, cm, x. by rewrite <- !app_assoc.
Qed.
Lemma settingsShown_app h h' : settingsShown h → settingsShown (h ++ h').
Proof.
  intros [(Hn & e & He & Hin)|Hs]; [left|right; by apply settingsStored_app].
  split; [done|]. exists e. split; [done|]. in_hist.
Qed.
Lemma cleanupGate_app h h' : cleanupGate h → cleanupGate (h ++ h').
Proof.
  intros (ha & hb & -> & Hs & Hc). exists ha, (hb ++ h'). rewrite app_assoc.
  split_and!; [done|done|by apply convergedOn_app].
Qed.
End Gate.

(** ** Requests that delete nothing of a detector *)
Lemma redis_other m suffix : nameRedisInstance m suffix ≠ m_Name m +:+ "-sensitive-detector".
Proof.
  unfold nameRedisInstance, nameRedis. destruct (String.eqb suffix ""); rewrite ?sapp_assoc;
    by intros E%sapp_inj_l.
Qed.
Create HintDb spare.
Ltac spare_leaf :=
  try solve [exact I|intros []];
  try (let E := fresh in intros E; cbn [leftover] in E; destruct_or? E;
       first [by apply redis_other in E|by apply sapp_inj_l in E]).
Ltac spare := repeat (solve [auto with spare nocore] || emits_step); spare_leaf.

Section Handlers.
Context `{KubeLib} `{QuantityLib} (m : Misskey).
Local Notation "'spares' p" := (emits (fun r => ¬ leftover m r) p) (at level 10, p at level 9).

Lemma spare_secretVersion ns name : spares (secretVersion ns name).
Proof. unfold secretVersion. spare. Qed.
#[local] Hint Resolve spare_secretVersion : spare.
Lemma spare_versions p : spares (referencedSecretVersions m p).
Proof. unfold referencedSecretVersions. spare. Qed.
Lemma spare_generated name c k n : spares (generatedSecret m name c k n).
Proof. unfold generatedSecret, secretMutate, randomHex. spare. Qed.
Lemma spare_cleanupJobs c keep : spares (cleanupJobs m c keep).
Proof. unfold cleanupJobs. spare. Qed.
#[local] Hint Resolve spare_versions spare_generated spare_cleanupJobs : spare.
Lemma spare_prerequisites p : spares (reconcilePrerequisites m p).
Proof.
  unfold reconcilePrerequisites, when, reconcileMeiliSecret, reconcileSetupSecret,
    reconcileSensitiveDetectorSecret, reconcileConfigMaps, setData, reconcileTenancy,
    reconcileNetworkIsolation, reconcileEgressIsolation, reconcileResourceQuota,
    reconcileLimitRange, reconcileSensitiveDetector, reconcilePDB. spare.
Qed.
Lemma spare_sts sts f : (∀ live, spares (f live)) → spares (applyStatefulSet m sts f).
Proof.
  intros Hf. unfold applyStatefulSet, recreate, expandStatefulSetPVCs, expandPVC. spare.
  apply emits_waitGone; intros [].
Qed.
Lemma spare_redis : spares (reconcileRedis m).
Proof.
  unfold reconcileRedis, reconcileRedisAuthSecret, reconcileInstance, cleanupSuffix,
    deleteRedisStandalone, deleteRedisHA, deleteRedisHANetworkPolicy, reconcileRedisHA,
    reconcileRedisHANetworkPolicy, reconcileRedisStandalone. spare; apply spare_sts; intros ?; spare.
Qed.
Lemma spare_database p : spares (reconcileDatabase m p).
Proof.
  unfold reconcileDatabase, reconcilePostgres, reconcilePoolers, deletePooler,
    reconcileBackupVerify, finishVerify, recordBackupVerification, deleteVerifyCluster. spare.
Qed.
Lemma spare_backends p : spares (reconcileBackends m p).
Proof.
  pose proof spare_redis.
  unfold reconcileBackends, when, reconcileMeilisearch, reconcileAppService, cleanupObjectStorage,
    cleanupObjectStorageJobs. spare; apply spare_sts; intros ?; spare.
Qed.
Lemma spare_read st : spares (readSensitiveDetectorConfigState m st).
Proof. unfold readSensitiveDetectorConfigState, hasSensitiveDetectorConfigState. spare. Qed.
Lemma spare_objHash p sql l : spares (objectStorageHash m p sql l).
Proof. unfold objectStorageHash, credentialSecretVersions. spare. Qed.
Lemma spare_detectorHash p sql : spares (sensitiveDetectorConfigHash m p sql).
Proof. unfold sensitiveDetectorConfigHash. spare. Qed.
#[local] Hint Resolve spare_redis spare_read spare_objHash spare_detectorHash : spare.
Lemma spare_checksum p : spares (misskeyChecksum m p).
Proof. unfold misskeyChecksum. spare. Qed.
Lemma spare_autoscaler c n a p : spares (reconcileAutoscaler m c n a p).
Proof.
  unfold reconcileAutoscaler, reconcileScaledObject, deleteScaledObject, deleteHPA,
    deleteTriggerAuth. spare.
Qed.
#[local] Hint Resolve spare_checksum spare_autoscaler : spare.
Lemma spare_migrate p : spares (migrate m p).
Proof.
  unfold migrate, reconcilePreMigrationBackup, cleanupOldPreMigrationBackups, reconcileMigration,
    cleanupOldMigrationJobs, migrationChecksum, createControlled. spare.
Qed.
Lemma spare_detectorConfig p st : spares (reconcileSensitiveDetectorConfig m p st).
Proof.
  unfold reconcileSensitiveDetectorConfig, cleanupSensitiveDetectorConfigJobs, setData,
    runDetectorConfigJob, createControlled. spare.
Qed.
#[local] Hint Resolve spare_migrate spare_detectorConfig : spare.
Lemma spare_rollout p st : spares (reconcileRollout m p st).
Proof.
  unfold reconcileRollout, configureInstance, reconcileObjectStorage, cleanupObjectStorageJobs,
    createControlled, suspendWorkloads, suspendOne, deleteHPA, deleteScaledObject, deleteTriggerAuth,
    databaseReady, databaseCondition, redisReady, redisCondition, instanceReady, readyPodsByAppLabel,
    when, reconcileApp, reconcileWorker, applyRole, reconcilePDB. spare.
Qed.
Lemma spare_edge p : spares (reconcileEdge m p).
Proof.
  unfold reconcileEdge, reconcileProxy, reconcilePDB, deleteLegacyMaintenanceWorkload,
    deleteProxyResources, deleteMaintenanceHTMLConfigMap, reconcileIngress, reconcileMonitoring,
    cleanupRedisMonitors, deleteMonitor. spare.
Qed.
End Handlers.

(** ** What completes the settings *)
Section Settings.
Context `{KubeLib} `{QuantityLib} (m : Misskey).

(** A state that was read, and what it rests on. *)
Definition stateShown (st : dcState) (h : history) : Prop :=
  dc_checked st = true ∧
  (dc_exists st = false → ∃ e, isNotFound e = true
     ∧ ev (Get KConfigMap (nameSensitiveDetectorConfig m) (m_Namespace m)) (Err e) ∈ h).
Lemma stateShown_app st h h' : stateShown st h → stateShown st (h ++ h').
Proof.
  intros [Hc Hs]. split; [done|]. intros Hx. destruct (Hs Hx) as (e & He & Hin). exists e.
  split; [done|in_hist].
Qed.
Lemma read_shown h0 :
  wp (readSensitiveDetectorConfigState m dcStart) (fun h st => dc_err st = None → stateShown st h) h0.
Proof.
  unfold readSensitiveDetectorConfigState, hasSensitiveDetectorConfigState. cbn [dcStart dc_checked].
  apply wp_bind, wp_bind, wp_send. intros [cm|e]; [by cbn|].
  destruct (isNotFound e) eqn:E; cbn; [|done]. intros _. split; [done|]. intros _. exists e.
  split; [done|in_hist].
Qed.

Lemma applyOwned_data c data o h0 :
  wp (applyOwned m KConfigMap o (setData m c data)) (fun h r => r = Ok tt →
    ∃ h' cm x, h = h0 ++ h' ++ [ev (UpsertCommit KConfigMap cm) (Ok x)] ∧ cm_Data cm = data) h0.
Proof.
  unfold applyOwned. apply wp_tryBind, wp_send. intros [live|e]; [|done].
  apply wp_tryBind. cbn [setData ok wp]. apply wp_tryBind.
  destruct (setControllerReference m _) as [om|e]; cbn [lift wp]; [|done].
  apply wp_tryBind, wp_send. intros [x|e]; [|done]. intros _.
  eexists [_], _, x. split; [by rewrite <- app_assoc|reflexivity].
Qed.
Lemma detectorConfig_stored st h0 :
  dc_checked st = true → spec_SensitiveDetector (m_Spec m) ≠ None ∨ dc_exists st = true →
  wp (reconcileSensitiveDetectorConfig m (resolve m) st)
     (fun h x => x.2 = Ok true → settingsStored m h) h0.
Proof.
  intros Hc Hx. unfold reconcileSensitiveDetectorConfig, readSensitiveDetectorConfigState. rewrite Hc.
  cbn [bind]. destruct (dc_err st); [done|].
  destruct (bool_decide _ && _) eqn:E.
  { bool_prop. apply bool_decide_eq_true_1 in H1. destruct Hx as [Hx|Hx]; [done|congruence]. }
  cbv zeta. apply wp_bind, wp_tryBind, wp_runs. intros hb [hash|e] Hb; [|done].
  apply wp_tryBind, wp_any. intros hc [u|e]; [|done]. apply wp_tryBind.
  eapply wp_mono, applyOwned_data. intros h3 [[]|e] H3; [|done].
  destruct (H3 eq_refl) as (hd & cm & x & -> & Hd). cbn [ok wp].
  apply wp_bind, wp_runs. intros h4 r Hr. cbn. intros ->.
  pose proof (runDetectorConfigJob_wp m (resolve m) (nameSensitiveDetectorConfigJob m hash) []) as Hj.
  rewrite wp_runs in Hj. specialize (Hj _ _ Hr eq_refl).
  exists h0, hb, (hc ++ hd), h4, hash, cm, x. split_and!; [|done..|exact Hj].
  by rewrite <- !app_assoc.
Qed.
Lemma detector_given : p_sensitiveDetectorEnabled (resolve m) = true →
  spec_SensitiveDetector (m_Spec m) ≠ None.
Proof.
  intros He E. revert He. unfold resolve, resolveDetector. cbv zeta. rewrite E.
  repeat case_match; simplify_eq/=; done.
Qed.
(** What the rollout starts from: nothing to configure. *)
Definition doneBefore (st : dcState) : bool :=
  negb (p_sensitiveDetectorEnabled (resolve m)) && negb (dc_exists st).
Lemma doneBefore_shown st h :
  stateShown st h → doneBefore st = true → settingsShown m h.
Proof.
  intros [_ Hs] Hd. unfold doneBefore in Hd. apply andb_true_iff in Hd as [He%negb_true_iff Hx%negb_true_iff].
  left. split; [by apply detector_off|by apply Hs].
Qed.
Lemma configure_shown st h0 :
  stateShown st h0 →
  wp (configureInstance m (resolve m) (doneBefore st) st)
     (fun h x => ∀ o, x.2 = Ok (o, true) → settingsShown m h) h0.
Proof.
  intros Hst. unfold configureInstance. apply wp_bind, wp_any. intros h1 [o|e]; [|done].
  destruct (_ || _) eqn:E.
  - apply wp_bind. eapply wp_mono; [|apply detectorConfig_stored].
    + intros h2 [st2 [d|e]] H2; cbn; [|done]. intros o' [= -> ->]. right. by apply H2.
    + apply Hst.
    + apply orb_true_iff in E as [E|E]; [left; by apply detector_given|by right].
  - cbn. intros o' [= -> Hd]. apply settingsShown_app. by eapply doneBefore_shown.
Qed.
Lemma rollout_shown st h0 :
  stateShown st h0 →
  wp (reconcileRollout m (resolve m) st) (fun h x => x.2 = Ok true → settingsShown m h) h0.
Proof.
  intros Hst. unfold reconcileRollout. cbv zeta. fold (doneBefore st).
  assert (∀ h, (Ok (doneBefore st) : result error bool) = Ok true → settingsShown m (h0 ++ h)) as Hd.
  { intros h [= Hd]. apply settingsShown_app. by eapply doneBefore_shown. }
  destruct (spec_Suspend (m_Spec m)).
  { apply wp_bind, wp_any. intros h1 [u|e]; [|done]. cbn. apply Hd. }
  apply wp_bind, wp_any. intros h1 []; cbn [negb]; [|cbn; apply Hd].
  apply wp_bind, wp_any. intros h2 [[]|e]; [|cbn; rewrite <- app_assoc; apply Hd|done].
  apply wp_bind. eapply wp_mono; [|by apply configure_shown, stateShown_app, stateShown_app].
  intros h3 [st3 [[o d]|e]] H3; [|done]. apply wp_bind, wp_any. intros h4 redis.
  apply wp_bind, wp_any. intros h5 [u|e]; [|done]. cbn. intros [= ->].
  do 2 apply settingsShown_app. by eapply H3.
Qed.
Lemma finalize_waits st b h0 :
  (b = true → settingsShown m h0) → onlyAfter (leftover m) (cleanupGate m) h0 →
  wp (finalizeSensitiveDetectorCleanup m (resolve m) b st)
     (fun h _ => onlyAfter (leftover m) (cleanupGate m) h) h0.
Proof.
  intros Hb Hh. unfold finalizeSensitiveDetectorCleanup. destruct b; cbn [negb]; [|done].
  apply wp_bind, wp_runs. intros h1 c Hc.
  assert (onlyAfter (leftover m) (cleanupGate m) (h0 ++ h1)) as Hh1.
  { eapply runs_keeps; [apply keeps_onlyAfter|exact Hh|exact Hc].
    apply emits_converged; intros n []. }
  destruct c; cbn [negb]; [|done].
  assert (cleanupGate m (h0 ++ h1)) as Hg.
  { exists h0, h1. split; [done|]. split; [by apply Hb|by apply misskeyWorkloadsConverged_runs]. }
  match goal with |- wp ?p _ _ => apply (keeps_open _ _ p) end;
    [intros h h'; apply cleanupGate_app|done|done].
Qed.
End Settings.

Section Pass.
Context `{OwnerLaws} `{QuantityLib}.

Lemma all_waits m :
  wp (reconcileAll m dcStart) (fun h _ => onlyAfter (leftover m) (cleanupGate m) h) [].
Proof.
  set (I := onlyAfter (leftover m) (cleanupGate m)).
  assert (∀ A (p : prog A) h, emits (fun r => ¬ leftover m r) p → I h → wp p (fun h' _ => I h') h) as Hk.
  { intros A p h Hp Hh. by apply keeps_onlyAfter. }
  unfold reconcileAll. cbv zeta. apply wp_bind. eapply wp_mono.
  2:{ apply Hk; [apply spare_prerequisites|apply onlyAfter_nil]. }
  intros h1 [u|e] Hh1; [|done]. apply wp_bind. eapply wp_mono.
  2:{ apply wp_and; [apply Hk, Hh1; apply spare_database|apply database_status]. }
  intros h2 [m' [u'|e]] [Hh2 [s Hs]]; cbn in Hs; subst m'; [|done].
  apply wp_bind. eapply wp_mono; [|apply Hk, Hh2; apply (spare_backends (set_m_Status s m))].
  intros h3 [u2|e] Hh3; [|done]. apply wp_bind. eapply wp_mono.
  2:{ apply wp_and; [apply Hk, Hh3; apply (spare_read (set_m_Status s m))|apply (read_shown m)]. }
  intros h4 st1 [Hh4 Hst]. destruct (dc_err st1) eqn:E; [done|]. apply wp_bind. eapply wp_mono.
  2:{ apply wp_and; [apply Hk, Hh4; apply (spare_rollout (set_m_Status s m))
                    |apply (rollout_shown (set_m_Status s m)); exact (Hst eq_refl)]. }
  intros h5 [st2 [fin|e]] [Hh5 Hs5]; [|done]. apply wp_bind, wp_runs. intros h6 r Hr.
  assert (I (h5 ++ h6)) as Hh6.
  { eapply runs_keeps; [apply keeps_onlyAfter, (spare_edge (set_m_Status s m))|exact Hh5|exact Hr]. }
  destruct r as [u3|e]; [|done]. apply wp_bind. eapply wp_mono; [|apply (finalize_waits m)]; [done| |done].
  intros ->. apply settingsShown_app. exact (Hs5 eq_refl).
Qed.

(** ** Properties *)

(** C34. Clean-up waits, over a whole pass: the workload of a detector, its ConfigMap, its generated
    Secret and the ConfigMap with its settings are deleted only after two things happened in
    this very pass.  First, either no detector is configured and the server knows no settings
    of an earlier one; or the hash of the settings as they are now was computed, the ConfigMap
    with their SQL was written, and then the Job named after the hash was shown to have
    succeeded.  And after that the server has shown app and worker running, on every replica,
    the configuration whose checksum this pass computed.  (The Jobs of older settings are not
    waited for: they are deleted before the new one starts.) *)
Theorem detector_cleanup_waits m h x :
  runs (reconcileAll m dcStart) h x →
  ∀ h1 q y h2, h = h1 ++ ev q y :: h2 → leftover m q → cleanupGate m h1.
Proof.
  intros Hr h1 q y h2 He Hq. pose proof (all_waits m) as Hw. rewrite wp_runs in Hw.
  exact (Hw _ _ Hr h1 _ h2 He Hq).
Qed.
End Pass.
