(* ===== verification/Ownership.v ===== *)
(** * Whose objects these are

    The objects an instance may write or delete, by the kind the API server files them under
    and by name; and what keeps the objects of two instances of one namespace apart. *)
From S2P Require Export Safety.
Local Open Scope string_scope.
Local Open Scope Z_scope.
Local Open Scope list_scope.

(** ** Kinds as the API server files them *)

(** The registered kind of each type of the client; an unstructured object brings its own, so
    that a Secret is the same object in both forms. *)
Definition misskeyGVK : GVK := mkGVK "cloudnative-misskey.dev" "v1beta1" "Misskey".
Definition configMapGVK : GVK := mkGVK "" "v1" "ConfigMap".
Definition gvkOf (k : kind) : GVK :=
  match k with
  | KMisskey => misskeyGVK
  | KChannel => mkGVK "cloudnative-misskey.dev" "v1beta1" "MisskeyChannel"
  | KSecret => secretGVK
  | KConfigMap => configMapGVK
  | KService => mkGVK "" "v1" "Service"
  | KDeployment => mkGVK "apps" "v1" "Deployment"
  | KStatefulSet => statefulSetGVK
  | KJob => mkGVK "batch" "v1" "Job"
  | KIngress => mkGVK "networking.k8s.io" "v1" "Ingress"
  | KNetworkPolicy => mkGVK "networking.k8s.io" "v1" "NetworkPolicy"
  | KPDB => mkGVK "policy" "v1" "PodDisruptionBudget"
  | KHPA => mkGVK "autoscaling" "v2" "HorizontalPodAutoscaler"
  | KResourceQuota => mkGVK "" "v1" "ResourceQuota"
  | KLimitRange => mkGVK "" "v1" "LimitRange"
  | KPVC => mkGVK "" "v1" "PersistentVolumeClaim"
  | KPod => mkGVK "" "v1" "Pod"
  | KU g => g
  end.

(** ** The names of an instance *)

Definition redisName (suffix : string) : string :=
  if String.eqb suffix "" then "-redis" else "-redis-" +:+ suffix.
Definition redisNames (e : string) : list string := map (fun s => redisName s +:+ e) allRedisSuffixes.
(** What follows the name of the instance in the names of its objects. *)
Definition childNames : list (GVK * list string) := [
  (misskeyGVK, [""]);
  (secretGVK, ["-meilisearch"; "-setup"; "-redis-auth"; "-sensitive-detector"]);
  (configMapGVK, ["-config"; "-migrate-config"; "-maintenance-html"; "-objstorage-sql";
                  "-sensitive-detector"; "-sensitive-detector-config"]);
  (gvkOf KService, ["-app"; "-proxy"; "-maintenance"; "-meilisearch"; "-sensitive-detector"]
                   ++ redisNames "");
  (gvkOf KDeployment, ["-app"; "-worker"; "-proxy"; "-maintenance"; "-sensitive-detector"]);
  (statefulSetGVK, ["-meilisearch"] ++ redisNames "");
  (gvkOf KIngress, [""]);
  (gvkOf KNetworkPolicy, ["-isolation"; "-egress-frontend"; "-egress-backend"]
                         ++ redisNames "" ++ redisNames "-ha");
  (gvkOf KPDB, ["-app"; "-worker"; "-proxy"; "-sensitive-detector"]);
  (gvkOf KHPA, ["-app"; "-worker"; "-sensitive-detector"]);
  (gvkOf KResourceQuota, ["-quota"]);
  (gvkOf KLimitRange, ["-limits"]);
  (cnpgClusterGVK, ["-db"; "-db-verify"]);
  (cnpgScheduledBackupGVK, ["-db"]);
  (cnpgPoolerGVK, ["-db-pooler-rw"; "-db-pooler-ro"]);
  (redisReplicationGVK, redisNames "-ha");
  (redisSentinelGVK, redisNames "-ha");
  (scaledObjectGVK, ["-app"; "-worker"; "-sensitive-detector"]);
  (triggerAuthGVK, ["-app-redis-auth"; "-worker-redis-auth"; "-sensitive-detector-redis-auth"]);
  (serviceMonitorGVK, ["-meilisearch-metrics"; "-proxy-metrics"] ++ redisNames "-metrics");
  (podMonitorGVK, ["-db-metrics"] ++ redisNames "-metrics");
  (prometheusRuleGVK, ["-alerts"])].
(** The same for objects whose name ends in ten digits of a hash. *)
Definition hashedNames : list (GVK * list string) := [
  (gvkOf KJob, ["-migrate-"; "-objstorage-"; "-sensitive-detector-config-"]);
  (cnpgBackupGVK, ["-premigrate-"])].

Definition inTable (t : list (GVK * list string)) (g : GVK) (s : string) : bool :=
  existsb (fun e => bool_decide (e.1 = g) && bool_decide (s ∈ e.2)) t.

Definition hashDigits (d : string) : Prop :=
  String.length d = 10%nat ∧ str_forall hexChar d = true.

(** An object of the instance [a]: a child, a hashed child, or the claim of a child that is a
    StatefulSet. *)
Definition ownName (a : string) (g : GVK) (n : string) : Prop :=
  (∃ s, inTable childNames g s = true ∧ n = a +:+ s)
  ∨ (∃ s d, inTable hashedNames g s = true ∧ hashDigits d ∧ n = a +:+ (s +:+ d))
  ∨ (g = gvkOf KPVC ∧ ∃ s i, inTable childNames statefulSetGVK s = true ∧ 0 <= i
       ∧ n = claimName "data" (a +:+ s) i).

(** An object the API server has listed under the label of the instance. *)
Definition listedUnder (a : string) (k : kind) (n : string) (h : history) : Prop :=
  ∃ ns sel l o, ev (ListIn k (Some ns) sel) (Ok l) ∈ h ∧ o ∈ l ∧ om_Name (metaOf k o) = n
    ∧ sel !! instanceLabel = Some a.

(** The kinds the operator sweeps: it deletes what a list by label shows and is out of date. *)
Definition swept (k : kind) : Prop := k = KJob ∨ k = KU cnpgBackupGVK.

(** The request writes or deletes an object of the instance, or nothing. *)
Definition owns (a : string) (r : req) (h : history) : Prop :=
  match r with
  | Create k o | Update k o | StatusUpdate k o | UpsertCommit k o =>
      ownName a (gvkOf k) (om_Name (metaOf k o))
  | DeleteObj k n _ _ => ownName a (gvkOf k) n ∨ swept k ∧ listedUnder a k n h
  | Apply u => ownName a (u_GVK u) (om_Name (u_Meta u))
  | _ => True
  end.

(** The object a request writes or deletes. *)
Definition touches (r : req) : option (GVK * string) :=
  match r with
  | Create k o | Update k o | StatusUpdate k o | UpsertCommit k o =>
      Some (gvkOf k, om_Name (metaOf k o))
  | DeleteObj k n _ _ => Some (gvkOf k, n)
  | Apply u => Some (u_GVK u, om_Name (u_Meta u))
  | _ => None
  end.
Lemma owns_touches a r h g n :
  owns a r h → touches r = Some (g, n) →
  ownName a g n ∨ ∃ k, gvkOf k = g ∧ swept k ∧ listedUnder a k n h.
Proof.
  destruct r; cbn; try done; intros Ho [= <- <-]; auto. destruct Ho as [Ho|[Hs Ho]]; eauto.
Qed.

(** ** Telling instances apart *)

(** The instance names that extend another one such that the two share an object. *)
Definition sharingSuffixes : list string := ["-migrate"; "-sensitive-detector"].
(** [a] and [b] are one instance, or one is named like the other with such a suffix, and the
    object is a ConfigMap. *)
Definition sharing (a b : string) (g : GVK) : Prop :=
  g = configMapGVK ∧ ∃ u, u ∈ sharingSuffixes ∧ (a = b +:+ u ∨ b = a +:+ u).

(** The front part of [s] before [s'], when [s] ends in [s']. *)
Definition front (s s' : string) : string := str_take (String.length s - String.length s') s.
Definition tableNames (t : list (GVK * list string)) : list (GVK * string) :=
  concat (map (fun e => map (pair e.1) e.2) t).
(** One name of the table ends in another of the same kind only as [sharing] says. *)
Definition frontsFine (t : list (GVK * list string)) : bool :=
  forallb (fun x => forallb (fun y =>
    negb (bool_decide (x.1 = y.1)) || negb (hasSuffix x.2 y.2)
    || String.eqb (front x.2 y.2) ""
    || bool_decide (x.1 = configMapGVK) && bool_decide (front x.2 y.2 ∈ sharingSuffixes))
    (tableNames t)) (tableNames t).
Lemma childNames_fine : frontsFine childNames = true.
Proof. vm_compute. reflexivity. Qed.
Lemma hashedNames_fine : frontsFine hashedNames = true.
Proof. vm_compute. reflexivity. Qed.

Lemma inTable_elem t g s : inTable t g s = true ↔ (g, s) ∈ tableNames t.
Proof.
  unfold inTable, tableNames. rewrite existsb_exists. split.
  - intros ([g' l] & Hin & Hb). bool_prop. apply bool_decide_eq_true_1 in H, H0. cbn in *. subst.
    apply list_elem_of_In, in_concat. exists (map (pair g) l). split.
    + apply in_map_iff. by exists (g, l).
    + by apply in_map, list_elem_of_In.
  - intros (l & (e & <- & He)%in_map_iff & (s' & [= <- <-] & Hs)%in_map_iff)%list_elem_of_In%in_concat.
    exists e. split; [done|]. rewrite !bool_decide_eq_true_2; [done|by apply list_elem_of_In|done].
Qed.
Lemma front_app u s : front (u +:+ s) s = u.
Proof.
  unfold front. rewrite slen_app, Nat.add_sub.
  apply (sapp_inj_r _ _ (str_drop (String.length u) (u +:+ s))).
  by rewrite str_take_drop, str_drop_app.
Qed.
Lemma fronts t g u s :
  frontsFine t = true → inTable t g (u +:+ s) = true → inTable t g s = true →
  u = "" ∨ g = configMapGVK ∧ u ∈ sharingSuffixes.
Proof.
  rewrite !inTable_elem. unfold frontsFine. rewrite forallb_forall. intros Hf H1 H2.
  apply list_elem_of_In, Hf in H1. rewrite forallb_forall in H1.
  apply list_elem_of_In, H1 in H2. cbn [fst snd] in H2. rewrite front_app in H2.
  rewrite bool_decide_eq_true_2 in H2 by done.
  assert (hasSuffix (u +:+ s) s = true) as E by (apply hasSuffix_spec; eauto).
  rewrite E in H2. cbn in H2. apply orb_true_iff in H2 as [Hu|Hs]; bool_prop; [by left|right].
  by apply bool_decide_eq_true_1 in H, H0.
Qed.
(** Names of one table. *)
Lemma table_apart t a b g s s' :
  frontsFine t = true → inTable t g s = true → inTable t g s' = true →
  a +:+ s = b +:+ s' → a = b ∨ sharing a b g.
Proof.
  intros Ht Hs Hs' H. apply sapp_split in H as (u & [[-> ->]|[-> ->]]).
  - destruct (fronts t g u s Ht Hs' Hs) as [->|[-> Hu]]; [left; apply sapp_nil_r|].
    right. split; [done|]. exists u. auto.
  - destruct (fronts t g u s' Ht Hs Hs') as [->|[-> Hu]]; [left; by rewrite sapp_nil_r|].
    right. split; [done|]. exists u. auto.
Qed.

Lemma itoa_nodash i : 0 <= i → str_forall (fun y => negb (Ascii.eqb y "-")) (itoa i) = true.
Proof.
  intros Hi. apply (str_forall_impl is_digit).
  - intros c Hc. destruct (Ascii.eqb_spec c "-") as [->|]; [discriminate Hc|done].
  - unfold itoa. destruct (Z.ltb_spec i 0); [lia|]. by apply digits_all.
Qed.
Lemma claimName_inj t a b i j :
  (0 <= i) → (0 <= j) → claimName t a i = claimName t b j → a = b.
Proof.
  unfold claimName. intros Hi Hj H%sapp_inj_l%sapp_inj_l.
  apply (sapp_last_inj "-"%char a (itoa i) b (itoa j)); [| |exact H]; by apply itoa_nodash.
Qed.

(** No kind is in two tables. *)
Definition kindsOf (t : list (GVK * list string)) : list GVK := map fst t.
Lemma inTable_kind t g s : inTable t g s = true → g ∈ kindsOf t.
Proof.
  unfold inTable, kindsOf. rewrite existsb_exists. intros (e & He & Hb). bool_prop.
  apply bool_decide_eq_true_1 in H as <-. by apply list_elem_of_In, in_map.
Qed.
Lemma kinds_apart g s s' : inTable childNames g s = true → inTable hashedNames g s' = true → False.
Proof.
  intros H1%inTable_kind H2%inTable_kind.
  assert (Forall (fun g => g ∉ kindsOf hashedNames) (kindsOf childNames)) as Hf
    by (apply (bool_decide_unpack _); vm_compute; exact I).
  rewrite Forall_forall in Hf. by apply (Hf g).
Qed.
Lemma claims_apart t g s : (gvkOf KPVC ∉ kindsOf t) → inTable t g s = true → g ≠ gvkOf KPVC.
Proof. by intros Ht Hs%inTable_kind ->. Qed.

(** An object that belongs to two instances: they are one, or they share it. *)
Lemma own_apart a b g n : ownName a g n → ownName b g n → a = b ∨ sharing a b g.
Proof.
  assert (∀ g s, inTable childNames g s = true → g ≠ gvkOf KPVC) as Hc
    by (intros g' s'; apply claims_apart, (bool_decide_unpack _); vm_compute; exact I).
  assert (∀ g s, inTable hashedNames g s = true → g ≠ gvkOf KPVC) as Hh
    by (intros g' s'; apply claims_apart, (bool_decide_unpack _); vm_compute; exact I).
  intros [(s & Hs & ->)|[(s & d & Hs & Hd & ->)|(E & s & i & Hs & Hi & ->)]]
         [(s' & Hs' & H)|[(s' & d' & Hs' & Hd' & H)|(E' & s' & j & Hs' & Hj & H)]].
  - by apply (table_apart childNames a b g s s' childNames_fine).
  - by destruct (kinds_apart g s s').
  - by destruct (Hc g s).
  - by destruct (kinds_apart g s' s).
  - apply (table_apart hashedNames a b g s s' hashedNames_fine); [done..|].
    rewrite <- !sapp_assoc in H. destruct Hd as [Hd _], Hd' as [Hd' _].
    apply sapp_inj_len_r in H as [H _]; [done|congruence].
  - by destruct (Hh g s).
  - by destruct (Hc g s').
  - by destruct (Hh g s').
  - apply claimName_inj in H; [|done..].
    destruct (table_apart childNames a b statefulSetGVK s s' childNames_fine Hs Hs' H) as [|[E2 _]];
      [by left|discriminate E2].
Qed.

(** ** The names of common.go are names of the instance *)

Lemma own_child a g n s : n = a +:+ s → inTable childNames g s = true → ownName a g n.
Proof. intros -> Hs. left. eauto. Qed.
Lemma own_grandchild a g n s t :
  n = (a +:+ s) +:+ t → inTable childNames g (s +:+ t) = true → ownName a g n.
Proof. intros -> Hs. rewrite sapp_assoc. left. eauto. Qed.
Lemma own_hashed a g n s d :
  n = a +:+ (s +:+ d) → inTable hashedNames g s = true → hashDigits d → ownName a g n.
Proof. intros -> Hs Hd. right; left. eauto. Qed.
Lemma hash_digits x : hashDigits (str_take 10 (sha256hex x)).
Proof.
  split; [apply str_take_length; rewrite sha256hex_length; lia|].
  pose proof (sha256hex_hex x) as Hx. rewrite <- (str_take_drop 10 (sha256hex x)), str_forall_app in Hx.
  by apply andb_true_iff in Hx as [Hx _].
Qed.

(** The redis names: all suffixes are in the table or none is. *)
Definition redisTable (g : GVK) (e : string) : bool :=
  forallb (fun s => inTable childNames g (redisName s +:+ e)) allRedisSuffixes.
Lemma redis_child m s : nameRedisInstance m s = m_Name m +:+ redisName s.
Proof.
  unfold nameRedisInstance, nameRedis, redisName. destruct (String.eqb s ""); by rewrite ?sapp_assoc.
Qed.
Lemma own_redis m g s e :
  s ∈ allRedisSuffixes → redisTable g e = true → ownName (m_Name m) g (nameRedisInstance m s +:+ e).
Proof.
  unfold redisTable. rewrite forallb_forall. intros Hs%list_elem_of_In Ht.
  apply (own_child _ _ _ (redisName s +:+ e)); [by rewrite redis_child, sapp_assoc|by apply Ht].
Qed.
Lemma own_redis_bare m g s :
  s ∈ allRedisSuffixes → redisTable g "" = true → ownName (m_Name m) g (nameRedisInstance m s).
Proof. intros Hs Ht. rewrite <- (sapp_nil_r (nameRedisInstance m s)). by apply own_redis. Qed.
Lemma managed_suffix `{QuantityLib} m i :
  i ∈ managedRedisInstances m → ri_suffix i ∈ allRedisSuffixes.
Proof.
  intros Hi. eapply elem_of_sublist; [|apply suffixes_sublist].
  by apply list_elem_of_In, in_map, list_elem_of_In.
Qed.
Lemma monitored_suffix `{QuantityLib} m i :
  i ∈ monitoredInstances m → ri_suffix i ∈ allRedisSuffixes.
Proof.
  unfold monitoredInstances. destruct (monitoringEnabled m); [apply managed_suffix|].
  by intros ?%not_elem_of_nil.
Qed.

(** Finds the name in the table. *)
Ltac own_name :=
  first
    [ assumption
    | eapply own_child; [reflexivity|reflexivity]
    | eapply own_grandchild; [reflexivity|reflexivity]
    | eapply own_child; [symmetry; apply sapp_nil_r|reflexivity]
    | eapply own_hashed; [reflexivity|reflexivity|apply hash_digits]
    | apply own_redis; [solve [eauto using managed_suffix, monitored_suffix]|reflexivity]
    | apply own_redis_bare; [solve [eauto using managed_suffix, monitored_suffix]|reflexivity] ].
Ltac owned := first [exact I | left; own_name | own_name].

(** The objects that a deletion detaches. *)
Lemma retain_own m :
  Forall (fun t => ownName (m_Name m) (rt_gvk t) (rt_name t)) (retainTargets m).
Proof.
  unfold retainTargets. apply Forall_app. split; [repeat apply Forall_cons_2; [..|apply Forall_nil_2]; cbn [rt_gvk rt_name]; own_name|].
  apply Forall_concat_map, Forall_forall. intros s Hs.
  repeat apply Forall_cons_2; [..|apply Forall_nil_2]; cbn [rt_gvk rt_name]; own_name.
Qed.

(** The names clash for good: an instance called like another one with such a suffix claims a
    ConfigMap of that other instance as its own configuration. *)
Theorem configmap_shared m m' :
  (m_Name m' = m_Name m +:+ "-migrate" → nameConfig m' = nameMigrateConfig m)
  ∧ (m_Name m' = m_Name m +:+ "-sensitive-detector" →
     nameConfig m' = nameSensitiveDetectorConfig m).
Proof. unfold nameConfig. split; intros ->; by rewrite sapp_assoc. Qed.
