(* ===== verification/Confinement.v ===== *)
(** * What a reconcile leaves alone

    Every request of a run is justified by what the run has read before: it stays in the
    namespace of the instance, it writes back a spec only as it was read, and it deletes
    nothing that holds data.  One walk over all handlers establishes the three together. *)
From S2P Require Export Ownership.
Local Open Scope string_scope.
Local Open Scope Z_scope.
Local Open Scope list_scope.

(** ** Namespaces *)

(** Whether an answer names the object that was asked for.  The API server answers so. *)
Definition named (name ns : string) (om : ObjectMeta) : bool :=
  String.eqb (om_Name om) name && String.eqb (om_Namespace om) ns.
Definition honest (e : event) : bool :=
  let 'existT r x := e in
  match r return resp r → bool with
  | Get k name ns => fun x => match x with Ok o => named name ns (metaOf k o) | Err _ => true end
  | ListIn k (Some ns) _ => fun x =>
      match x with
      | Ok l => forallb (fun o => String.eqb (om_Namespace (metaOf k o)) ns) l
      | Err _ => true
      end
  | Update k o => fun x =>
      match x with
      | Ok o' => named (om_Name (metaOf k o)) (om_Namespace (metaOf k o)) (metaOf k o')
      | Err _ => true
      end
  | UpsertBegin k o => fun x =>
      match x with
      | Ok o' => named (om_Name (metaOf k o)) (om_Namespace (metaOf k o)) (metaOf k o')
      | Err _ => true
      end
  | _ => fun _ => true
  end x.
Definition honestRun (h : history) : bool := forallb honest h.

(** A request that stays in the namespace; channels have none. *)
Definition atHome (ns : string) (r : req) : Prop :=
  match r with
  | Get KChannel _ n => n = ""
  | Get _ _ n | DeleteObj _ _ n _ => n = ns
  | ListIn _ n _ => n = Some ns
  | Create k o | Update k o | StatusUpdate k o | UpsertBegin k o | UpsertCommit k o =>
      om_Namespace (metaOf k o) = ns
  | Apply u => om_Namespace (u_Meta u) = ns
  | _ => True
  end.

(** ** Writes of the instance *)

(** The object that is written was read from the server before, and the write changes nothing
    of it but the finalizers, the result of the restore test, or the rest of the status; in
    particular it carries the spec and the resource version that were read. *)
Definition sameButStatus (o m : Misskey) : Prop :=
  m_Meta o = m_Meta m ∧ m_Spec o = m_Spec m
  ∧ (st_BackupVerification (m_Status o) = st_BackupVerification (m_Status m)
     ∨ ∃ v, m_Status o = set_st_BackupVerification (Some v) (m_Status m)).
Definition sameButFinalizers (o m : Misskey) : Prop :=
  ∃ l, o = set_m_Meta (set_Finalizers l (m_Meta m)) m.
Definition writtenAsRead (r : req) (h : history) : Prop :=
  match r with
  | Update KMisskey o =>
      ∃ name ns m, ev (Get KMisskey name ns) (Ok m) ∈ h ∧ sameButFinalizers o m
  | StatusUpdate KMisskey o =>
      ∃ name ns m, ev (Get KMisskey name ns) (Ok m) ∈ h ∧ sameButStatus o m
  | _ => True
  end.

(** ** Data *)

(** A Secret that the operator generated for the detector of the instance. *)
Definition generatedDetectorKey `{KubeLib} (m : Misskey) (name : string) (h : history) : Prop :=
  ∃ s, ev (Get KSecret (nameSensitiveDetector m) (m_Namespace m)) (Ok s) ∈ h
       ∧ name = om_Name (sec_Meta s) ∧ isControlledBy (sec_Meta s) (m_Meta m) = true
       ∧ om_Labels (sec_Meta s) !! "app.kubernetes.io/managed-by" = Some "cloudnative-misskey".
(** What may be deleted: never an instance, a channel or a claim; a Secret only when the
    operator generated it for the detector; a StatefulSet without its pods and claims, or
    when it belongs to a redis instance that is not wanted standalone; of the Clusters only
    the restore test; of the redis resources those of instances not wanted in HA. *)
Definition sparing `{KubeLib} `{QuantityLib} (m : Misskey) (r : req) (h : history) : Prop :=
  match r with
  | DeleteObj k n _ pol =>
      match k with
      | KMisskey | KChannel | KPVC => False
      | KSecret => generatedDetectorKey m n h
      | KStatefulSet =>
          pol = Some Orphan
          ∨ ∃ s, n = nameRedisInstance m s ∧ seen false (managedRedisInstances m) s = false
      | KU g =>
          (g = cnpgClusterGVK → n = nameDBVerify m)
          ∧ (g = redisReplicationGVK ∨ g = redisSentinelGVK →
             ∃ s, n = nameRedisHA m s ∧ seen true (managedRedisInstances m) s = false)
      | _ => True
      end
  | _ => True
  end.

Definition proper `{KubeLib} `{QuantityLib} (m : Misskey) (r : req) (h : history) : Prop :=
  (honestRun h = true → atHome (m_Namespace m) r ∧ owns (m_Name m) r h)
  ∧ writtenAsRead r h ∧ sparing m r h.

(** ** The walk *)

Lemma honest_in h e : honestRun h = true → e ∈ h → honest e = true.
Proof. unfold honestRun. rewrite forallb_forall. intros Hh He. by apply Hh, list_elem_of_In. Qed.
Lemma named_ns name ns om : named name ns om = true → om_Namespace om = ns.
Proof. unfold named. intros H. by bool_prop. Qed.
Lemma named_name name ns om : named name ns om = true → om_Name om = name.
Proof. unfold named. intros H. by bool_prop. Qed.
Lemma metaOf_setMeta k om o : metaOf k (setMeta k om o) = om.
Proof. by destruct k. Qed.

(** The mutation of an object keeps its name and namespace. *)
Definition sameKey (a b : ObjectMeta) : Prop :=
  om_Name b = om_Name a ∧ om_Namespace b = om_Namespace a.
Definition staysAt {A} (f : A → ObjectMeta) (a : A) (p : rprog A) : Prop :=
  ∀ h b, runs p h (Ok b) → sameKey (f a) (f b).
Lemma stays_ok {A} (f : A → ObjectMeta) a b : sameKey (f a) (f b) → staysAt f a (ok b).
Proof. by intros H h c [_ [= ->]]. Qed.
Lemma stays_try {A B} (f : A → ObjectMeta) a (p : rprog B) (q : B → rprog A) :
  (∀ b, staysAt f a (q b)) → staysAt f a (tryBind p q).
Proof. intros Hq h c (h1 & h2 & [b|e] & _ & _ & Hr)%runs_bind; [by apply (Hq b h2)|by destruct Hr]. Qed.
Ltac stays := intros; repeat (apply stays_try; intros ?); first [apply stays_ok; split; reflexivity | case_match; stays].

(** The obligations of a free request. *)
Ltac spare :=
  first [exact I|split; [intros E; first [discriminate E|reflexivity]|
                         intros [E|E]; discriminate E]].
Ltac free :=
  intros ? _; split; [intros _; split; [first [reflexivity|exact I]|owned]|split; [exact I|spare]].

Create HintDb proper.
Ltac proper_step :=
  lazymatch goal with
  | |- keeps _ (Ret _) => by intros ? ?
  | |- keeps _ (ok _) => by intros ? ?
  | |- keeps _ (fail _) => by intros ? ?
  | |- keeps _ (lift _) => by intros ? ?
  | |- keeps _ (bind (send _) _) => apply keeps_read; [|intros ?]
  | |- keeps _ (bind (event_ _ _ _ _) _) => apply keeps_read; [|intros ?]
  | |- keeps _ (tryBind (send _) _) => unfold tryBind at 1; apply keeps_read; [|intros [?|?]]
  | |- keeps _ (send _) => apply keeps_send
  | |- keeps _ (event_ _ _ _ _) => apply keeps_send
  | |- keeps _ (bind _ _) => apply keeps_bind; [|intros ?]
  | |- keeps _ (tryBind _ _) => apply keeps_tryBind; [|intros ?]
  | |- keeps _ (forEach _ _) => apply keeps_forEach; intros ? ?
  | |- keeps _ (collect _ _) => apply keeps_collect; intros ? ?
  | |- keeps _ (mapP _ _) => apply keeps_mapP; intros ? ?
  | |- keeps _ (retryOnConflict _) => apply keeps_retry
  | |- keeps _ (match ?x with _ => _ end) => destruct x
  | |- keeps _ _ => fail
  end.
Ltac proper0 := repeat (solve [auto with proper nocore] || proper_step); try free.

Section Proper.
Context `{OwnerLaws} `{QuantityLib}.

Lemma proper_deleteIfExists m k n W :
  (∀ h, warranted (proper m) W h → proper m (DeleteObj k n (m_Namespace m) None) h) →
  keeps (warranted (proper m) W) (deleteIfExists k n (m_Namespace m)).
Proof. intros HJ. unfold deleteIfExists. apply keeps_read; [done|]. intros [u|e]; proper0. Qed.
Lemma proper_apply m k o f W :
  om_Namespace (metaOf k o) = m_Namespace m → ownName (m_Name m) (gvkOf k) (om_Name (metaOf k o)) →
  k ≠ KMisskey →
  (∀ live W, keeps (warranted (proper m) W) (f live)) →
  (∀ live, staysAt (metaOf k) live (f live)) → keeps (warranted (proper m) W) (applyOwned m k o f).
Proof.
  intros Ho Hn Hk Hf Hs. unfold applyOwned. unfold tryBind at 1. apply keeps_read.
  { intros h _. split; [done|]. split; [|done]. by destruct k. }
  intros [live|e]; [|proper0]. intros h Hh. apply wp_bind, wp_runs. intros h1 [o'|e] Hr; cbn -[runs].
  2:{ pose proof (Hf live _ h Hh) as Hw. rewrite wp_runs in Hw.
      eapply warranted_drop, (Hw _ _ Hr). set_solver. }
  pose proof (Hf live _ h Hh) as Hw. rewrite wp_runs in Hw. specialize (Hw _ _ Hr).
  apply Hs in Hr. revert Hw. generalize (h ++ h1). clear h h1 Hh. intros h Hh.
  destruct (setControllerReference m (metaOf k o')) as [om|e] eqn:E; cbn -[runs setMeta].
  2:{ eapply warranted_drop, Hh. set_solver. }
  intros x. pose proof (proj2 Hh _ (list_elem_of_here _ _)) as Hin.
  assert (warranted (proper m) (ev (UpsertBegin k o) (Ok live) :: W)
            (h ++ [ev (UpsertCommit k (setMeta k om o')) x])) as Hend.
  { eapply warranted_drop, warranted_snoc; [|exact Hh|]; [intros w Hw; by right|].
    split; [|split; [|done]]; [|by destruct k]. intros Hon. cbn. rewrite metaOf_setMeta.
    apply scr_keeps in E as [-> ->]. destruct Hr as [-> ->].
    pose proof (honest_in _ _ Hon Hin) as Hl. cbn in Hl.
    by rewrite (named_ns _ _ _ Hl), (named_name _ _ _ Hl). }
  destruct x; exact Hend.
Qed.
Lemma proper_applySSA m u W :
  om_Namespace (u_Meta u) = m_Namespace m → ownName (m_Name m) (u_GVK u) (om_Name (u_Meta u)) →
  keeps (warranted (proper m) W) (applySSA m u).
Proof.
  intros Hu Hn. unfold applySSA. destruct (setControllerReference m (u_Meta u)) as [om|e] eqn:E; [|by intros h Hh].
  apply scr_keeps in E as [Hnm Hns]. apply keeps_send. intros h _.
  split; [|split; exact I]. intros _. cbn. by rewrite Hns, Hnm.
Qed.
Lemma proper_createControlled m k o W :
  om_Namespace (metaOf k o) = m_Namespace m → ownName (m_Name m) (gvkOf k) (om_Name (metaOf k o)) →
  keeps (warranted (proper m) W) (createControlled m k o).
Proof.
  intros Ho Hn. unfold createControlled.
  destruct (setControllerReference m (metaOf k o)) as [om|e] eqn:E; [|by intros h Hh].
  apply scr_keeps in E as [Hnm Hns]. apply keeps_send. intros h _.
  split; [|split; exact I]. intros _. cbn. by rewrite metaOf_setMeta, Hns, Hnm.
Qed.

(** What the answers in hand say of the objects in them. *)
Lemma read_home m W h k name ns o :
  warranted (proper m) W h → honestRun h = true → ev (Get k name ns) (Ok o) ∈ W →
  om_Namespace (metaOf k o) = ns.
Proof. intros [_ HW] Hon Hin%HW. by apply (honest_in _ _ Hon), named_ns in Hin. Qed.
Lemma read_name m W h k name ns o :
  warranted (proper m) W h → honestRun h = true → ev (Get k name ns) (Ok o) ∈ W →
  om_Name (metaOf k o) = name.
Proof. intros [_ HW] Hon Hin%HW. by apply (honest_in _ _ Hon), named_name in Hin. Qed.
Lemma listed_home m W h k ns sel l o :
  warranted (proper m) W h → honestRun h = true → ev (ListIn k (Some ns) sel) (Ok l) ∈ W →
  o ∈ l → om_Namespace (metaOf k o) = ns.
Proof.
  intros [_ HW] Hon Hin%HW Ho. apply (honest_in _ _ Hon) in Hin. cbn in Hin.
  rewrite forallb_forall in Hin. apply list_elem_of_In, Hin in Ho. by apply String.eqb_eq.
Qed.
Lemma listed_own m W h k ns sel l o :
  warranted (proper m) W h → ev (ListIn k (Some ns) sel) (Ok l) ∈ W → o ∈ l →
  sel !! instanceLabel = Some (m_Name m) → listedUnder (m_Name m) k (om_Name (metaOf k o)) h.
Proof. intros [_ HW] Hin%HW Ho Hs. exists ns, sel, l, o. by split_and!. Qed.
End Proper.

Ltac in_list :=
  solve [repeat first [exact (list_elem_of_here _ _)|apply list_elem_of_further]].
(** An object that was read, or listed, is at home and of the instance. *)
Ltac home :=
  let Hh := fresh in let Hon := fresh in
  intros ? Hh; split; [intros Hon; cbn|split; [exact I|spare]];
  match type of Hh with
  | context [ev (Get ?k ?n ?ns) (Ok ?o)] =>
      split; [exact (read_home _ _ _ k n ns o Hh Hon ltac:(in_list))|];
      let E := fresh in
      pose proof (read_name _ _ _ k n ns o Hh Hon ltac:(in_list)) as E; cbn in E;
      first [exact I|rewrite E; owned]
  | context [ev (ListIn ?k (Some ?ns) ?sel) (Ok ?l)] =>
      match goal with
      | Ho : ?o ∈ l |- _ =>
          split; [exact (listed_home _ _ _ k ns sel l o Hh Hon ltac:(in_list) Ho)|];
          right; split; [first [by left|by right]|];
          exact (listed_own _ _ _ k ns sel l o Hh ltac:(in_list) Ho eq_refl)
      end
  end.
Ltac proper_step' :=
  lazymatch goal with
  | |- keeps _ (deleteIfExists _ _ _) => apply proper_deleteIfExists; try free
  | |- keeps _ (applyOwned _ _ _ _) =>
      apply proper_apply; [reflexivity|try own_name|discriminate|intros ? ?|try stays]
  | |- keeps _ (applySSA _ _) => apply proper_applySSA; [try reflexivity|try own_name]
  | |- keeps _ (createControlled _ _ _) => apply proper_createControlled; [reflexivity|try own_name]
  | |- _ => proper_step
  end.
Ltac proper := repeat (solve [auto with proper nocore] || proper_step'); try free; try home.

Section Walk.
Context `{OwnerLaws} `{QuantityLib}.

Lemma proper_secretVersion m name W :
  keeps (warranted (proper m) W) (secretVersion (m_Namespace m) name).
Proof. unfold secretVersion. proper. Qed.
#[local] Hint Resolve proper_secretVersion : proper.
Lemma proper_versions m p W : keeps (warranted (proper m) W) (referencedSecretVersions m p).
Proof. unfold referencedSecretVersions. proper. Qed.
#[local] Hint Resolve proper_versions : proper.
Lemma proper_generated m name c k n W :
  ownName (m_Name m) secretGVK name → keeps (warranted (proper m) W) (generatedSecret m name c k n).
Proof. intros Hn. unfold generatedSecret, secretMutate, randomHex, markRotation. proper. Qed.
Lemma proper_cleanupJobs m c keep W : keeps (warranted (proper m) W) (cleanupJobs m c keep).
Proof. unfold cleanupJobs. proper. Qed.
#[local] Hint Extern 1 (keeps _ (generatedSecret _ _ _ _ _)) => apply proper_generated; own_name : proper.
#[local] Hint Resolve proper_cleanupJobs : proper.
Lemma proper_secrets m W :
  keeps (warranted (proper m) W) (reconcileMeiliSecret m)
  ∧ keeps (warranted (proper m) W) (reconcileSetupSecret m)
  ∧ keeps (warranted (proper m) W) (reconcileSensitiveDetectorSecret m).
Proof.
  unfold reconcileMeiliSecret, reconcileSetupSecret, reconcileSensitiveDetectorSecret.
  split_and!; proper.
Qed.
Lemma proper_cleanupOS m W : keeps (warranted (proper m) W) (cleanupObjectStorage m).
Proof. unfold cleanupObjectStorage, cleanupObjectStorageJobs. proper. Qed.
Lemma proper_configmaps m p W : keeps (warranted (proper m) W) (reconcileConfigMaps m p).
Proof. unfold reconcileConfigMaps, setData. proper. Qed.
Lemma proper_tenancy m W : keeps (warranted (proper m) W) (reconcileTenancy m).
Proof.
  unfold reconcileTenancy, reconcileNetworkIsolation, reconcileEgressIsolation,
    reconcileResourceQuota, reconcileLimitRange. proper.
Qed.
Lemma proper_deleteMonitor m g n W :
  g ∈ [serviceMonitorGVK; podMonitorGVK; prometheusRuleGVK] → ownName (m_Name m) g n →
  keeps (warranted (proper m) W) (deleteMonitor m g n).
Proof.
  rewrite !elem_of_cons, elem_of_nil. intros Hg Hn. unfold deleteMonitor.
  destruct_or! Hg; try done; subst g; proper.
Qed.
Lemma proper_monitoring m p W : keeps (warranted (proper m) W) (reconcileMonitoring m p).
Proof.
  assert (∀ g n W', g ∈ [serviceMonitorGVK; podMonitorGVK; prometheusRuleGVK] →
    ownName (m_Name m) g n → keeps (warranted (proper m) W') (deleteMonitor m g n)) as Hd
    by apply proper_deleteMonitor.
  assert (∀ u, buildPrometheusRule m = Some u → om_Namespace (u_Meta u) = m_Namespace m
    ∧ ownName (m_Name m) (u_GVK u) (om_Name (u_Meta u))) as Hr.
  { unfold buildPrometheusRule. intros u. case_match; [done|]. intros [= <-].
    split; [done|own_name]. }
  unfold reconcileMonitoring, cleanupRedisMonitors.
  destruct (buildPrometheusRule m) as [u|] eqn:E; proper;
    first [apply Hd; [in_list|unfold nameRedisMonitor; own_name] | by apply Hr
          | unfold redisMonitor; by destruct (ri_ha _)
          | unfold redisMonitor, nameRedisMonitor; destruct (ri_ha _); own_name].
Qed.
Lemma proper_proxy m W : keeps (warranted (proper m) W) (reconcileProxy m).
Proof.
  unfold reconcileProxy, deleteProxyResources, deleteLegacyMaintenanceWorkload,
    deleteMaintenanceHTMLConfigMap, reconcilePDB. proper.
Qed.
Lemma proper_ingress m p W : keeps (warranted (proper m) W) (reconcileIngress m p).
Proof. unfold reconcileIngress. proper. Qed.
Lemma proper_appService m W : keeps (warranted (proper m) W) (reconcileAppService m).
Proof. unfold reconcileAppService. proper. Qed.
Lemma proper_suspendOne m s W :
  s ∈ ["-app"; "-worker"; "-sensitive-detector"] →
  keeps (warranted (proper m) W) (suspendOne m (m_Name m +:+ s)).
Proof.
  rewrite !elem_of_cons, elem_of_nil. unfold suspendOne, deleteHPA, deleteScaledObject, deleteTriggerAuth.
  intros Hs. destruct_or! Hs; try done; subst s; proper.
Qed.
Lemma proper_suspend m p W : keeps (warranted (proper m) W) (suspendWorkloads m p).
Proof.
  unfold suspendWorkloads. apply keeps_forEach. intros n Hn.
  assert (∃ s, n = m_Name m +:+ s ∧ s ∈ ["-app"; "-worker"; "-sensitive-detector"])
    as (s & -> & Hs); [|by apply proper_suspendOne].
  revert Hn. unfold suspendNames. destruct (p_sensitiveDetectorManaged p); cbn [app];
    rewrite !elem_of_cons, elem_of_nil; intros Hn; destruct_or! Hn; try done; subst n;
    eexists; (split; [reflexivity|in_list]).
Qed.
Lemma proper_postgres m W : keeps (warranted (proper m) W) (reconcilePostgres m).
Proof. unfold reconcilePostgres. proper. Qed.
Lemma proper_poolers m W : keeps (warranted (proper m) W) (reconcilePoolers m).
Proof. unfold reconcilePoolers, deletePooler. proper. Qed.

(** *** The restore test *)
Lemma proper_statusWrite m name ns s cur W h :
  ev (Get KMisskey name ns) (Ok cur) ∈ W → name = m_Name m → ns = m_Namespace m → warranted (proper m) W h →
  (st_BackupVerification s = st_BackupVerification (m_Status cur)
   ∨ ∃ v, s = set_st_BackupVerification (Some v) (m_Status cur)) →
  proper m (StatusUpdate KMisskey (set_m_Status s cur)) h.
Proof.
  intros Hin -> -> Hh Hs. split; [|split; [|exact I]].
  - intros Hon. split; [exact (read_home _ _ _ KMisskey _ _ cur Hh Hon Hin)|].
    pose proof (read_name _ _ _ KMisskey _ _ cur Hh Hon Hin) as E. cbn in *. rewrite E. own_name.
  - exists (m_Name m), (m_Namespace m), cur. split; [by apply Hh|]. by split_and!.
Qed.
Lemma proper_record m v W : keeps (warranted (proper m) W) (recordBackupVerification m v).
Proof.
  unfold recordBackupVerification, withVerification. proper.
  intros h Hh. eapply (proper_statusWrite m (m_Name m) (m_Namespace m)); [|done|done|exact Hh|];
    [in_list|right; by eexists].
Qed.
#[local] Hint Resolve proper_record : proper.
Lemma proper_deleteVerify m W : keeps (warranted (proper m) W) (deleteVerifyCluster m).
Proof.
  unfold deleteVerifyCluster. apply proper_deleteIfExists. intros h _.
  split; [split; [done|left; own_name]|]. split; [done|]. split; [done|]. intros [E|E]; discriminate E.
Qed.
#[local] Hint Resolve proper_deleteVerify : proper.
Lemma proper_verify m W : keeps (warranted (proper m) W) (reconcileBackupVerify m).
Proof. unfold reconcileBackupVerify, finishVerify. proper. Qed.

(** *** StatefulSets *)
Lemma proper_waitGone m n name W : keeps (warranted (proper m) W) (waitGone n name (m_Namespace m)).
Proof.
  revert W. induction n as [|n IH]; intros W; cbn [waitGone]; proper; try apply IH.
Qed.
(** The claim templates of the operator. *)
Definition dataClaims (l : list PersistentVolumeClaim) : Prop :=
  Forall (fun c => pvc_Name c = "data") l.
Lemma proper_recreate m ex desired s W :
  inTable childNames statefulSetGVK s = true → dataClaims desired →
  keeps (warranted (proper m)
           (ev (Get KStatefulSet (m_Name m +:+ s) (m_Namespace m)) (Ok ex) :: W))
    (recreate ex desired (m_Name m +:+ s) (m_Namespace m)).
Proof.
  intros Hs Hd. unfold recreate, expandStatefulSetPVCs, expandPVC. proper; try apply proper_waitGone.
  all: intros h Hh; (split; [intros Hon|split; [exact I|first [exact I|by left]]]);
    pose proof (read_home _ _ _ KStatefulSet _ _ ex Hh Hon ltac:(in_list)) as Hns;
    pose proof (read_name _ _ _ KStatefulSet _ _ ex Hh Hon ltac:(in_list)) as Hn; cbn in Hns, Hn.
  - match type of Hh with context [ev (Get KPVC ?x ?y) (Ok ?o)] =>
      pose proof (read_home _ _ _ KPVC x y o Hh Hon ltac:(in_list)) as Hpn;
      pose proof (read_name _ _ _ KPVC x y o Hh Hon ltac:(in_list)) as Hpx end. cbn in Hpn, Hpx.
    split; cbn; [congruence|]. rewrite Hpx, Hn. unfold dataClaims in Hd. rewrite Forall_forall in Hd.
    right; right. split; [done|].
    match goal with Ht : ?t ∈ desired, Hi : ?i ∈ ordinals _ |- _ =>
      rewrite (Hd t Ht); exists s, i; split_and!; [done| |done]; revert Hi end.
    unfold ordinals. intros (j & <- & _)%list_elem_of_In%in_map_iff. lia.
  - split; [done|left]. cbn. rewrite Hn. by eapply own_child.
Qed.
Lemma keeps_bind_runs {A B} I (p : prog A) (f : A → prog B) :
  keeps I p → (∀ h a, runs p h a → keeps I (f a)) → keeps I (bind p f).
Proof.
  intros Hp Hf h Hh. apply wp_bind. pose proof (Hp h Hh) as Hw. rewrite wp_runs in Hw.
  apply wp_runs. intros h' a Hr. eapply Hf; [done|]. by apply (Hw h' a).
Qed.
Lemma keeps_tryBind_runs {A B} I (p : rprog A) (f : A → rprog B) :
  keeps I p → (∀ h a, runs p h (Ok a) → keeps I (f a)) → keeps I (tryBind p f).
Proof.
  intros Hp Hf. apply keeps_bind_runs; [done|]. intros h [a|e] Hr; [by eapply Hf|].
  by intros h' Hh'.
Qed.
Lemma proper_applySts m sts mutate n W :
  om_Namespace (sts_Meta sts) = m_Namespace m → om_Name (sts_Meta sts) = m_Name m +:+ n →
  inTable childNames statefulSetGVK n = true →
  (∀ s, staysAt sts_Meta s (mutate s)) → (∀ s W, keeps (warranted (proper m) W) (mutate s)) →
  (∀ s h s', runs (mutate s) h (Ok s') → dataClaims (sts_VolumeClaimTemplates s')) →
  keeps (warranted (proper m) W) (applyStatefulSet m sts mutate).
Proof.
  intros Hns Hn Ht Hs Hm Hd. unfold applyStatefulSet. apply keeps_tryBind_runs; [apply Hm|].
  intros h sts' Hr. apply Hd in Hr as Hc. apply Hs in Hr as [Hn' Hns'].
  rewrite Hns in Hns'. rewrite Hn in Hn'. rewrite Hns', Hn'.
  assert (ownName (m_Name m) (gvkOf KStatefulSet) (om_Name (sts_Meta sts'))) as Hown
    by (rewrite Hn'; by eapply own_child).
  apply keeps_read; [free|]. intros [ex|e].
  - apply keeps_tryBind; [|intros _; apply proper_apply; [done|done|done|auto|auto]].
    destruct (om_DeletionTimestamp _); [proper|]. destruct (volumeClaimTemplatesChanged _ _); [|proper].
    by apply proper_recreate.
  - apply keeps_tryBind; [proper|]. intros _. by apply proper_apply.
Qed.
Lemma runs_ok_last {A B} (P : B → Prop) (p : rprog A) (g : A → B) h b :
  (∀ a, P (g a)) → runs (try a := p in ok (g a)) h (Ok b) → P b.
Proof.
  intros Hg (h1 & h2 & [a|e] & _ & _ & Hr)%runs_bind; destruct Hr as [_ [= ->]]. apply Hg.
Qed.
Lemma proper_meili m p W : keeps (warranted (proper m) W) (reconcileMeilisearch m p).
Proof.
  unfold reconcileMeilisearch. proper.
  apply (proper_applySts m _ _ "-meilisearch"); [done..|intros s; stays|intros s W'; proper|].
  intros s h s'. apply (runs_ok_last (fun s => dataClaims (sts_VolumeClaimTemplates s))).
  by repeat constructor.
Qed.

(** *** Redis *)
Lemma unwanted_seen m inst (ha : bool) :
  inst ∈ managedRedisInstances m → ri_ha inst = negb ha →
  seen ha (managedRedisInstances m) (ri_suffix inst) = false.
Proof.
  intros Hi Hha. apply existsb_false_In. intros j Hj%list_elem_of_In.
  destruct (String.eqb_spec (ri_suffix j) (ri_suffix inst)) as [E|]; [|by rewrite andb_false_r].
  rewrite (instance_unique m j inst Hj Hi E), Hha. by destruct ha.
Qed.
Lemma proper_deleteStandalone m s W :
  s ∈ allRedisSuffixes → seen false (managedRedisInstances m) s = false →
  keeps (warranted (proper m) W) (deleteRedisStandalone m s).
Proof.
  intros Hin Hs. unfold deleteRedisStandalone. proper.
  intros h _. split; [split; [done|left; own_name]|]. split; [done|]. right. by exists s.
Qed.
Lemma proper_deleteHA m s W :
  s ∈ allRedisSuffixes → seen true (managedRedisInstances m) s = false →
  keeps (warranted (proper m) W) (deleteRedisHA m s).
Proof.
  intros Hin Hs. unfold deleteRedisHA. cbn [forEach]. proper.
  all: intros h _; split; [split; [done|left; own_name]|]; split; [done|]; split; [discriminate|];
    intros _; by exists s.
Qed.
Lemma proper_HA m inst W :
  ri_suffix inst ∈ allRedisSuffixes → keeps (warranted (proper m) W) (reconcileRedisHA m inst).
Proof. intros Hin. unfold reconcileRedisHA. proper. Qed.
Lemma proper_standalone m inst W :
  ri_suffix inst ∈ allRedisSuffixes → keeps (warranted (proper m) W) (reconcileRedisStandalone m inst).
Proof.
  intros Hin. unfold reconcileRedisStandalone. proper.
  apply (proper_applySts m _ _ (redisName (ri_suffix inst)));
    [done|apply redis_child| |intros s; stays|intros s W'; proper|].
  - assert (redisTable statefulSetGVK "" = true) as Ht by reflexivity.
    unfold redisTable in Ht. rewrite forallb_forall in Ht.
    rewrite <- (sapp_nil_r (redisName _)). by apply Ht, list_elem_of_In.
  - intros s h s'. apply (runs_ok_last (fun s => dataClaims (sts_VolumeClaimTemplates s))).
    by repeat constructor.
Qed.
#[local] Hint Resolve proper_HA proper_standalone proper_deleteStandalone proper_deleteHA : proper.
Lemma proper_redis m W : keeps (warranted (proper m) W) (reconcileRedis m).
Proof.
  unfold reconcileRedis, reconcileRedisAuthSecret. apply keeps_tryBind; [proper|].
  intros _. apply keeps_tryBind; [|intros _]; apply keeps_forEach.
  - intros inst Hi. pose proof (managed_suffix m inst Hi) as Hs.
    unfold reconcileInstance, reconcileRedisHANetworkPolicy, deleteRedisHANetworkPolicy.
    destruct (ri_ha inst) eqn:E; proper.
    + apply proper_deleteStandalone; [done|by apply unwanted_seen].
    + apply proper_deleteHA; [done|by apply unwanted_seen].
  - intros s Hs. unfold cleanupSuffix, deleteRedisHANetworkPolicy.
    destruct (seen false _ s) eqn:E1, (seen true _ s) eqn:E2; proper.
Qed.

(** *** The detector and the Jobs *)
Lemma proper_read m st W : keeps (warranted (proper m) W) (readSensitiveDetectorConfigState m st).
Proof. unfold readSensitiveDetectorConfigState, hasSensitiveDetectorConfigState. proper. Qed.
Lemma proper_objHash m p sql l W : keeps (warranted (proper m) W) (objectStorageHash m p sql l).
Proof. unfold objectStorageHash, credentialSecretVersions. proper. Qed.
Lemma proper_detHash m p sql W : keeps (warranted (proper m) W) (sensitiveDetectorConfigHash m p sql).
Proof. unfold sensitiveDetectorConfigHash. proper. Qed.
#[local] Hint Resolve proper_read proper_objHash proper_detHash : proper.
Lemma proper_checksum m p W : keeps (warranted (proper m) W) (misskeyChecksum m p).
Proof. unfold misskeyChecksum. proper. Qed.
#[local] Hint Resolve proper_checksum : proper.
Lemma proper_detector m p W : keeps (warranted (proper m) W) (reconcileSensitiveDetector m p).
Proof. unfold reconcileSensitiveDetector, setData, reconcilePDB. proper. Qed.
Lemma proper_migrate m p W : keeps (warranted (proper m) W) (migrate m p).
Proof.
  unfold migrate, reconcilePreMigrationBackup, reconcileMigration, cleanupOldMigrationJobs,
    migrationChecksum, cleanupOldPreMigrationBackups. proper.
Qed.
Lemma objectStorageHash_hex m p sql l h r :
  runs (objectStorageHash m p sql l) h r → ∃ x, r = sha256hex x.
Proof. intros (h1 & h2 & v & _ & _ & Hr)%runs_bind. destruct Hr as [_ ->]. eauto. Qed.
Lemma detectorHash_hex m p sql h r :
  runs (sensitiveDetectorConfigHash m p sql) h (Ok r) → ∃ x, r = sha256hex x.
Proof.
  intros (h1 & h2 & [v|e] & _ & _ & Hr)%runs_bind; [|by destruct Hr]. cbv zeta in Hr.
  destruct (spec_SensitiveDetector _) as [d|]; [|destruct Hr as [_ [= ->]]; eauto].
  apply runs_bind in Hr as (h3 & h4 & [w|e] & _ & _ & Hr); destruct Hr as [_ [= ->]]. eauto.
Qed.
Lemma proper_objectStorage m p W : keeps (warranted (proper m) W) (reconcileObjectStorage m p).
Proof.
  unfold reconcileObjectStorage, cleanupObjectStorageJobs. apply keeps_tryBind; [proper|].
  intros assigns. cbv zeta. apply keeps_bind_runs; [proper|].
  intros h hash [x ->]%objectStorageHash_hex. proper.
Qed.
Lemma proper_runDetectorJob m p x W :
  keeps (warranted (proper m) W)
    (runDetectorConfigJob m p (nameSensitiveDetectorConfigJob m (sha256hex x))).
Proof. unfold runDetectorConfigJob. proper. Qed.
Lemma proper_detectorConfig m p st W :
  keeps (warranted (proper m) W) (reconcileSensitiveDetectorConfig m p st).
Proof.
  unfold reconcileSensitiveDetectorConfig, cleanupSensitiveDetectorConfigJobs, setData.
  apply keeps_bind; [proper|]. intros st1. destruct (dc_err st1); [proper|].
  destruct (_ && _); [proper|]. cbv zeta. apply keeps_bind_runs; [proper|].
  intros h [n|e] Hr; [|proper].
  apply runs_bind in Hr as (h1 & h2 & [hash|e] & _ & Hx & Hr); [|by destruct Hr].
  apply detectorHash_hex in Hx as [x ->].
  apply runs_bind in Hr as (h3 & h4 & [u|e] & _ & _ & Hr); [|by destruct Hr].
  apply runs_bind in Hr as (h5 & h6 & [u'|e] & _ & _ & Hr); [|by destruct Hr].
  destruct Hr as [_ [= ->]]. pose proof (proper_runDetectorJob m p x). proper.
Qed.
Lemma proper_generatedDetectorKey m W :
  keeps (warranted (proper m) W) (cleanupGeneratedSensitiveDetectorSecret m).
Proof.
  unfold cleanupGeneratedSensitiveDetectorSecret. apply keeps_read; [free|]. intros [s|e]; [|proper].
  cbv zeta. destruct (_ || _) eqn:E; [proper|]. bool_prop. proper.
  intros h Hh. split; [|split; [done|]].
  - intros Hon. pose proof (read_name _ _ _ KSecret _ _ s Hh Hon ltac:(in_list)) as E. cbn in E.
    split; [exact (read_home _ _ _ KSecret _ _ s Hh Hon ltac:(in_list))|left; cbn].
    rewrite E. own_name.
  - exists s. split_and!; [by apply Hh; in_list|done|done|].
    by destruct (om_Labels _ !! _); cbn in *; subst.
Qed.
#[local] Hint Resolve proper_generatedDetectorKey : proper.
Lemma proper_finalize m p b st W :
  keeps (warranted (proper m) W) (finalizeSensitiveDetectorCleanup m p b st).
Proof.
  unfold finalizeSensitiveDetectorCleanup, finalizeManaged, sensitiveDetectorConverged,
    misskeyWorkloadsConverged, workloadConverged, cleanupSensitiveDetector,
    cleanupSensitiveDetectorConfigState, cleanupSensitiveDetectorConfigJobs. proper.
Qed.

(** *** The rollout *)
Lemma proper_autoscaler m c n a p W :
  n = nameApp m ∨ n = nameWorker m →
  keeps (warranted (proper m) W) (reconcileAutoscaler m c n a p).
Proof.
  intros [-> | ->]; unfold reconcileAutoscaler, reconcileScaledObject, deleteHPA, deleteScaledObject,
    deleteTriggerAuth; proper.
Qed.
#[local] Hint Extern 1 (keeps _ (reconcileAutoscaler _ _ _ _ _)) =>
  apply proper_autoscaler; first [by left|by right] : proper.
Lemma proper_rollout m p W : keeps (warranted (proper m) W) (do reconcileApp m p; reconcileWorker m p).
Proof. unfold reconcileApp, reconcileWorker, applyRole, reconcilePDB. proper. Qed.

(** *** The stages *)
#[local] Hint Resolve proper_cleanupOS proper_configmaps proper_tenancy proper_monitoring proper_proxy
  proper_ingress proper_appService proper_suspend proper_postgres proper_poolers proper_verify
  proper_meili proper_redis proper_detector proper_migrate proper_objectStorage
  proper_detectorConfig proper_finalize proper_rollout : proper.
Lemma proper_prerequisites m p W : keeps (warranted (proper m) W) (reconcilePrerequisites m p).
Proof.
  destruct (proper_secrets m W) as (Hs1 & Hs2 & Hs3). unfold reconcilePrerequisites, when. proper.
Qed.
Lemma proper_database m p W : keeps (warranted (proper m) W) (reconcileDatabase m p).
Proof. unfold reconcileDatabase. proper. Qed.
Lemma proper_backends m p W : keeps (warranted (proper m) W) (reconcileBackends m p).
Proof. unfold reconcileBackends, when. proper. Qed.
Lemma proper_edge m p W : keeps (warranted (proper m) W) (reconcileEdge m p).
Proof. unfold reconcileEdge. proper. Qed.
Lemma proper_dbCondition m p W : keeps (warranted (proper m) W) (databaseCondition m p).
Proof. unfold databaseCondition. proper. Qed.
Lemma proper_redisCondition m W : keeps (warranted (proper m) W) (redisCondition m).
Proof. unfold redisCondition, instanceReady, readyPodsByAppLabel. proper. Qed.
#[local] Hint Resolve proper_dbCondition proper_redisCondition : proper.
Lemma proper_rolloutStage m p st W : keeps (warranted (proper m) W) (reconcileRollout m p st).
Proof. unfold reconcileRollout, configureInstance, databaseReady, redisReady, when. proper. Qed.
#[local] Hint Resolve proper_prerequisites proper_database proper_backends proper_edge
  proper_rolloutStage : proper.

Lemma proper_all m st W : keeps (warranted (proper m) W) (reconcileAll m st).
Proof.
  unfold reconcileAll. cbv zeta. apply keeps_bind; [proper|]. intros [u|e]; [|proper].
  intros h Hh. apply wp_bind. eapply wp_mono.
  2:{ apply wp_and; [by apply proper_database|apply database_status]. }
  intros h2 [m' [u'|e]] [Hh2 [s Hs]]; cbn in Hs; subst m'; [|exact Hh2].
  revert h2 Hh2. change (proper m) with (proper (set_m_Status s m)).
  generalize (set_m_Status s m), (resolve m). clear - H0. intros m p h.
  match goal with |- _ → wp ?q _ _ => enough (keeps (warranted (proper m) W) q) as Hq by apply Hq end.
  proper.
Qed.

(** *** Around [reconcileAll] *)
Lemma proper_status m e st W : keeps (warranted (proper m) W) (updateStatus m e st).
Proof.
  unfold updateStatus, conditions, condIf, searchCondition, migrationCondition,
    objectStorageCondition, detectorCnd, condIf, sensitiveDetectorCondition,
    sensitiveDetectorConfigComplete, deploymentReady, ingressCondition, readBackupStatus.
  proper.
  intros h Hh. eapply (proper_statusWrite m (m_Name m) (m_Namespace m)); [|done|done|exact Hh|];
    [in_list|by left].
Qed.
Lemma proper_Pinned m image kc id W : keeps (warranted (proper m) W) (Pinned image kc id).
Proof.
  apply (keeps_weaken _ W []); [intros w Hw; by apply not_elem_of_nil in Hw|].
  intros h [Hj _]. eapply wp_mono; [|apply (keeps_justified (proper m)), Hj].
  { intros h' a Hh'. split; [done|]. intros w Hw. by apply not_elem_of_nil in Hw. }
  apply emits_Pinned; intros; by split.
Qed.
Lemma proper_resolveImage m W : keeps (warranted (proper m) W) (resolveImage m).
Proof.
  pose proof (proper_Pinned m) as Hp.
  unfold resolveImage, pinImage, pullSecretKeychain. proper; apply Hp.
Qed.
(** Resolving the image changes nothing of the instance but the image. *)
Lemma resolveImage_image m h0 :
  wp (resolveImage m) (fun _ x => ∃ i, x.1 = set_spec_Image i m) h0.
Proof.
  assert (∀ i h, wp (pinImage (set_spec_Image i m)) (fun _ x => ∃ i, x.1 = set_spec_Image i m) h) as Hp.
  { intros i h. unfold pinImage. destruct (_ || _); [by exists i|]. apply wp_bind, wp_any.
    intros h1 [kc|e]; [|by exists i]. apply wp_bind, wp_any. intros h2 [pin|e]; cbn; [by exists pin|].
    destruct (hasPrefix _ _); [by eexists|by exists i]. }
  assert (m = set_spec_Image (spec_Image (m_Spec m)) m) as Hm by by destruct m as [? [] ?].
  unfold resolveImage. destruct (spec_ImageFrom (m_Spec m)); [|rewrite Hm at 1; apply Hp].
  apply wp_bind, wp_send. intros [ch|e]; [|by eexists]. apply wp_bind, wp_send. intros now. apply Hp.
Qed.
Lemma all_status m st h0 :
  wp (reconcileAll m st) (fun _ x => ∃ s, x.1.1 = set_m_Status s m) h0.
Proof.
  assert (m = set_m_Status (m_Status m) m) as Hm by by destruct m.
  unfold reconcileAll. cbv zeta. apply wp_bind, wp_any. intros h1 [u|e]; [|by eexists].
  apply wp_bind. eapply wp_mono, database_status.
  intros h2 [m' [u'|e]] [s Hs]; cbn in Hs; subst m'; [|by eexists].
  apply wp_bind, wp_any. intros h3 [u2|e]; [|by eexists].
  apply wp_bind, wp_any. intros h4 st1. destruct (dc_err st1); [by eexists|].
  apply wp_bind, wp_any. intros h5 [st2 [fin|e]]; [|by eexists].
  apply wp_bind, wp_any. intros h6 [u3|e]; [|by eexists].
  apply wp_bind, wp_any. intros h7 y. by eexists.
Qed.
Lemma proper_live drift m W : keeps (warranted (proper m) W) (reconcileLive drift m).
Proof.
  intros h Hh. unfold reconcileLive, concludePass. apply wp_bind. eapply wp_mono.
  2:{ apply wp_and; [by apply proper_resolveImage|apply resolveImage_image]. }
  intros h1 [m1 r1] [Hh1 [i Hi]]; cbn in Hi; subst m1. revert h1 Hh1.
  change (proper m) with (proper (set_spec_Image i m)). generalize (set_spec_Image i m).
  clear - H0. intros m h Hh. apply wp_bind. eapply wp_mono.
  2:{ apply (wp_and _ (fun h' _ => warranted (proper m) W h') (fun _ x => ∃ s, x.1.1 = set_m_Status s m)).
      - destruct r1; [by apply proper_all|done].
      - destruct r1; [apply all_status|exists (m_Status m); by destruct m]. }
  intros h2 [[m2 st] r] [Hh2 [s Hs]]; cbn in Hs; subst m2. revert h2 Hh2.
  change (proper m) with (proper (set_m_Status s m)). generalize (set_m_Status s m).
  clear - H0. intros m h.
  match goal with |- _ → wp ?q _ _ => enough (keeps (warranted (proper m) W) q) as Hq by apply Hq end.
  pose proof (proper_status m). proper.
Qed.
Lemma proper_retain m W : keeps (warranted (proper m) W) (retainData m).
Proof.
  unfold retainData. apply keeps_forEach. intros t Ht.
  pose proof (retain_own m) as Ho. rewrite Forall_forall in Ho. specialize (Ho t Ht).
  unfold orphan. proper.
Qed.
End Walk.

(** ** A whole reconcile *)

(** The finalizer helpers change only the finalizers. *)
Class FinalizerLaws `{KubeLib} := {
  add_keeps : ∀ om f, ∃ l, (addFinalizer om f).1 = set_Finalizers l om;
  remove_keeps : ∀ om f, ∃ l, removeFinalizer om f = set_Finalizers l om }.

(** What a request of [Reconcile] for the object [name] of [ns] may be. *)
Definition confined (name ns : string) (r : req) (h : history) : Prop :=
  (honestRun h = true → atHome ns r ∧ owns name r h) ∧ writtenAsRead r h.
(** The object at hand is the one that was asked for. *)
Definition asked (name ns : string) (m : Misskey) (h : history) : Prop :=
  honestRun h = true → named name ns (m_Meta m) = true.

Section Whole.
Context `{OwnerLaws} `{!FinalizerLaws} `{QuantityLib}.

Lemma writtenAsRead_app r h h' : writtenAsRead r h' → writtenAsRead r (h ++ h').
Proof.
  destruct r as [| | |k o|k o| | | | | | | | | | |]; try done; destruct k; try done;
    intros (n & ns & m & Hin & Hs); exists n, ns, m; (split; [in_hist|done]).
Qed.
Lemma owns_app a r h h' : owns a r h' → owns a r (h ++ h').
Proof.
  destruct r as [| | | | |k n ns pol| | | | | | | | | |]; try done.
  intros [Hn|(Hk & ns' & sel & l & o & Hin & Ho)]; [by left|right; split; [done|]].
  exists ns', sel, l, o. split; [in_hist|done].
Qed.
Lemma honestRun_app h h' : honestRun (h ++ h') = honestRun h && honestRun h'.
Proof. apply forallb_app. Qed.
Lemma asked_app name ns m h h' : asked name ns m h → asked name ns m (h ++ h').
Proof. unfold asked. rewrite honestRun_app, andb_true_iff. intros Hn [Hh _]. by apply Hn. Qed.

(** What is proper for the object that was asked for is confined. *)
Lemma confined_wp {A} name ns m (p : prog A) h :
  justified (confined name ns) h → asked name ns m h →
  keeps (warranted (proper m) []) p → wp p (fun h' _ => justified (confined name ns) h') h.
Proof.
  intros Hh Hns Hp. apply wp_runs. intros h' a Hr.
  assert (justified (proper m) h') as Hj.
  { pose proof (Hp [] (warranted_nil _)) as Hw.
    rewrite wp_runs in Hw. by apply (Hw h' a). }
  intros h1 e h2 He. apply app_eq_inv in He as [(l & Hl1 & Hl)|(l & -> & Hl)].
  - destruct l as [|e' l]; [|injection Hl as -> ->; by eapply (Hh h1 _ l)].
    cbn in Hl. rewrite app_nil_r in Hl1. subst h h'. destruct (Hj [] e h2 eq_refl) as (Ha & Hs & _).
    split; [|rewrite <- (app_nil_r h1); by apply writtenAsRead_app]. intros Hon.
    specialize (Hns Hon). rewrite <- (named_ns _ _ _ Hns), <- (named_name _ _ _ Hns).
    destruct Ha as [Ha Ho]; [done|]. split; [done|].
    rewrite <- (app_nil_r h1). by apply owns_app.
  - destruct (Hj l e h2 Hl) as (Ha & Hs & _). split; [|by apply writtenAsRead_app].
    rewrite honestRun_app, andb_true_iff. intros [H1' H2']. specialize (Hns H1').
    rewrite <- (named_ns _ _ _ Hns), <- (named_name _ _ _ Hns).
    destruct (Ha H2') as [Ha' Ho]. split; [done|]. by apply owns_app.
Qed.

(** A write of the instance itself. *)
Lemma confined_self name ns m l h :
  asked name ns m h → ev (Get KMisskey name ns) (Ok m) ∈ h →
  confined name ns (Update KMisskey (set_m_Meta (set_Finalizers l (m_Meta m)) m)) h.
Proof.
  intros Hns Hin. split.
  - intros Hon%Hns. cbn. split; [by apply named_ns in Hon|].
    apply named_name in Hon. change (ownName name misskeyGVK (om_Name (m_Meta m))).
    rewrite Hon. own_name.
  - exists name, ns, m. split; [done|]. by exists l.
Qed.
Lemma delete_confined name ns m h :
  justified (confined name ns) h → asked name ns m h → ev (Get KMisskey name ns) (Ok m) ∈ h →
  wp (reconcileDelete m) (fun h' _ => justified (confined name ns) h') h.
Proof.
  intros Hh Hns Hin. unfold reconcileDelete. destruct (negb _); [done|]. apply wp_tryBind, wp_prefix.
  eapply wp_mono; [|apply (confined_wp name ns m _ h Hh Hns)].
  2:{ pose proof (proper_retain m []). proper. }
  intros h1 a H1' [h' ->]. destruct a as [u|e]; [|done]. apply wp_tryBind, wp_send. intros x.
  destruct (remove_keeps (m_Meta m) misskeyFinalizer) as [l Hl].
  assert (justified (confined name ns)
    ((h ++ h') ++ [ev (Update KMisskey (set_m_Meta (removeFinalizer (m_Meta m) misskeyFinalizer) m)) x])).
  { rewrite Hl. apply justified_snoc; [done|]. apply confined_self; [by apply asked_app|in_hist]. }
  by destruct x.
Qed.
Lemma reconcile_confined drift name ns h r :
  runs (Reconcile drift name ns) h r → justified (confined name ns) h.
Proof.
  apply (proj1 (wp_runs _ (fun h _ => justified (confined name ns) h) [])).
  unfold Reconcile. apply wp_bind, wp_send. intros x.
  assert (justified (confined name ns) ([] ++ [ev (Get KMisskey name ns) x])) as Hh.
  { apply justified_snoc; [apply justified_nil|]. by split. }
  destruct x as [m|e]; [|destruct (isNotFound e); exact Hh]. cbn [app] in *.
  assert (asked name ns m [ev (Get KMisskey name ns) (Ok m)]) as Hns.
  { unfold asked. cbn. by rewrite andb_true_r. }
  destruct (deleting m); [by apply (delete_confined name ns m _ Hh Hns); left|].
  destruct (addFinalizer (m_Meta m) misskeyFinalizer) as [om added] eqn:Ea.
  destruct added; [|apply (confined_wp name ns m _ _ Hh Hns), proper_live].
  destruct (add_keeps (m_Meta m) misskeyFinalizer) as [l Hl]. rewrite Ea in Hl. cbn in Hl. subst om.
  apply wp_tryBind, wp_send. intros x.
  assert (justified (confined name ns) ([ev (Get KMisskey name ns) (Ok m)]
    ++ [ev (Update KMisskey (set_m_Meta (set_Finalizers l (m_Meta m)) m)) x])) as Hh'.
  { apply justified_snoc; [done|]. apply confined_self; [done|left]. }
  destruct x as [m'|e]; [|done]. apply (confined_wp name ns m'); [done| |apply proper_live].
  unfold asked. cbn. rewrite andb_true_r, andb_true_iff. unfold named. cbn. intros [Hm Hm'].
  bool_prop. unfold m_Namespace, m_Name in *. apply andb_true_iff.
  split; apply String.eqb_eq; congruence.
Qed.

(** Whatever a run touches is of the instance. *)
Lemma reconcile_owns drift name ns h r h1 q x h2 :
  runs (Reconcile drift name ns) h r → honestRun h = true → h = h1 ++ ev q x :: h2 → owns name q h1.
Proof.
  intros Hj%reconcile_confined Hon ->. apply (Hj h1 _ h2 eq_refl).
  rewrite honestRun_app, andb_true_iff in Hon. by destruct Hon.
Qed.
Lemma touched_own drift name ns h r q g n :
  runs (Reconcile drift name ns) h r → honestRun h = true → q ∈ reqs h → touches q = Some (g, n) →
  ownName name g n ∨ ∃ k, gvkOf k = g ∧ swept k ∧ listedUnder name k n h.
Proof.
  intros Hr Hon Hq Ht. apply list_elem_of_fmap in Hq as ([q' x] & -> & (h1 & h2 & ->)%list_elem_of_split).
  pose proof (reconcile_owns _ _ _ _ _ h1 q' x h2 Hr Hon eq_refl) as Ho.
  destruct (owns_touches _ _ _ _ _ Ho Ht) as [?|(k & Hk & Hs & ns' & sel & l & o & Hin & Hl)]; [by left|right].
  exists k. split_and!; [done..|]. exists ns', sel, l, o. split; [in_hist|done].
Qed.

(** ** Properties *)

(** C11. A reconcile touches its own objects only: as long as the API server answers with the objects
    that were asked for, whatever a run of [Reconcile] for the object [name] writes or deletes is
    an object of the table of names of that instance, or a Job or Backup that the run has listed
    under the label of the instance. *)
Theorem objects_named drift name ns h r :
  runs (Reconcile drift name ns) h r → honestRun h = true →
  ∀ h1 q x h2, h = h1 ++ ev q x :: h2 → owns name q h1.
Proof. intros Hr Hon h1 q x h2 Hh. by eapply reconcile_owns. Qed.

(** C10. Two instances of a namespace stay apart: whatever reconciles of two different instances both
    write or delete is a ConfigMap, and one instance is named like the other with [-migrate] or
    [-sensitive-detector] behind it; or a Job or a Backup that the API server itself has listed
    under the label of an instance. *)
Theorem instances_apart drift drift' a b ns ns' ha hb ra rb :
  runs (Reconcile drift a ns) ha ra → runs (Reconcile drift' b ns') hb rb →
  honestRun ha = true → honestRun hb = true → a ≠ b →
  ∀ qa qb g n, qa ∈ reqs ha → qb ∈ reqs hb →
    touches qa = Some (g, n) → touches qb = Some (g, n) →
    sharing a b g
    ∨ ∃ k, gvkOf k = g ∧ swept k ∧ (listedUnder a k n ha ∨ listedUnder b k n hb).
Proof.
  intros Ha Hb Hoa Hob Hne qa qb g n Hqa Hqb Hta Htb.
  apply (touched_own _ _ _ _ _ _ _ _ Ha Hoa Hqa) in Hta as [Hta|(k & Hk & Hs & Hl)]; [|right; eauto].
  apply (touched_own _ _ _ _ _ _ _ _ Hb Hob Hqb) in Htb as [Htb|(k & Hk & Hs & Hl)]; [|right; eauto].
  destruct (own_apart a b g n Hta Htb) as [|Hsh]; [done|by left].
Qed.

(** C9. A reconcile stays at home: as long as the API server answers with the objects that were
    asked for, every object that a run of [Reconcile] reads, lists, writes or deletes lies
    in the namespace of the instance; only channels have no namespace. *)
Theorem namespace_confined drift name ns h r :
  runs (Reconcile drift name ns) h r → honestRun h = true → Forall (atHome ns) (reqs h).
Proof.
  intros Hj%reconcile_confined Hon. apply Forall_forall. intros q Hq.
  apply list_elem_of_fmap in Hq as (e & -> & (h1 & h2 & ->)%list_elem_of_split).
  apply (Hj h1 e h2 eq_refl). rewrite honestRun_app, andb_true_iff in Hon. by destruct Hon.
Qed.

(** C7. The instance is written back as it was read: whenever a run of [Reconcile] updates the
    instance or its status, the object in the write is one the API server has shown in this very
    run, with its spec and resource version.  An update changes only the finalizers; a status
    write either keeps the result of the restore test or changes nothing else, so the two
    status writers do not overwrite each other.  The image that [resolveImage] puts into the
    spec at hand, from a channel or pinned by digest, never reaches the server. *)
Theorem instance_written_as_read drift name ns h r :
  runs (Reconcile drift name ns) h r →
  ∀ h1 q x h2, h = h1 ++ ev q x :: h2 → writtenAsRead q h1.
Proof. intros Hj%reconcile_confined h1 q x h2 ->. by apply (Hj h1 _ h2 eq_refl). Qed.

(** C6. A pass never deletes what holds data: no instance, no claim and not the database Cluster;
    a StatefulSet only when its pods and claims are kept or when it is a redis instance that is
    no longer wanted standalone; redis resources only of instances that are not wanted in HA;
    and a Secret only when the run has read it as the detector's key, generated by the operator
    and controlled by this very instance. *)
Theorem data_spared m st h r :
  runs (reconcileAll m st) h r →
  ∀ h1 q x h2, h = h1 ++ ev q x :: h2 → sparing m q h1.
Proof.
  pose proof (proper_all m st [] [] (warranted_nil _)) as Hw.
  rewrite wp_runs in Hw. intros Hr h1 q x h2 ->. by apply (proj1 (Hw _ _ Hr) h1 _ h2 eq_refl).
Qed.
End Whole.
