(* ===== verification/Names.v ===== *)
(** * Names the API server accepts

    A name of an instance is short and plain enough that the names of all its objects are. *)
From S2P Require Export Confinement.
Local Open Scope string_scope.
Local Open Scope Z_scope.
Local Open Scope list_scope.

(** ** Labels *)

Definition between (a b : N) (c : ascii) : bool :=
  ((a <=? Ascii.N_of_ascii c) && (Ascii.N_of_ascii c <=? b))%N.
Definition lower (c : ascii) : bool := between 97 122 c.
Definition alnum (c : ascii) : bool := lower c || is_digit c.
Definition labelChar (c : ascii) : bool := alnum c || Ascii.eqb c "-".
Definition startsWith (f : ascii → bool) (s : string) : bool :=
  match s with EmptyString => false | String c _ => f c end.
Fixpoint endsWith (f : ascii → bool) (s : string) : bool :=
  match s with
  | EmptyString => false
  | String c EmptyString => f c
  | String _ s => endsWith f s
  end.
(** An RFC 1035 label, but for its length: lower-case letters, digits and dashes, with a letter
    in front and no dash at the end. *)
Definition plainName (s : string) : bool :=
  str_forall labelChar s && startsWith lower s && endsWith alnum s.

(** The longest name the API server takes: Services are labels, the name of a Job is a label
    of its pods, and the name of a StatefulSet, with a hash of ten digits behind it, of its
    pods; other names have the length of a domain name. *)
Definition nameLimit (g : GVK) : nat :=
  if bool_decide (g = gvkOf KService) || bool_decide (g = gvkOf KJob) then 63
  else if bool_decide (g = statefulSetGVK) then 52 else 253.
(** The longest name of an instance. *)
Definition instanceLimit : nat := 26.

(** The API server takes an object of this name; the claims of a StatefulSet are its own. *)
Definition fits (g : GVK) (n : string) : Prop :=
  plainName n = true ∧ (g ≠ gvkOf KPVC → (String.length n ≤ nameLimit g)%nat).

(** ** The tables *)

Lemma endsWith_app f a b : endsWith f b = true → endsWith f (a +:+ b) = true.
Proof.
  intros Hb. induction a as [|c a IH]; [done|]. cbn. by destruct (a +:+ b).
Qed.
Lemma startsWith_app f a b : startsWith f a = true → startsWith f (a +:+ b) = true.
Proof. by destruct a. Qed.
Lemma plainName_app a b :
  plainName a = true → str_forall labelChar b = true → endsWith alnum b = true →
  plainName (a +:+ b) = true.
Proof.
  unfold plainName. rewrite !andb_true_iff, str_forall_app, andb_true_iff.
  intros [[Hc Hs] _] Hb He. split_and!; [done..|by apply startsWith_app|by apply endsWith_app].
Qed.

(** What follows the name of an instance keeps it plain and within the limit, with [room] more
    characters behind it. *)
Definition tailFits (room : nat) (g : GVK) (s : string) : bool :=
  str_forall labelChar s && (instanceLimit + String.length s + room <=? nameLimit g)%nat.
Lemma childNames_fit :
  forallb (fun x => tailFits 0 x.1 x.2 && (String.eqb x.2 "" || endsWith alnum x.2))
    (tableNames childNames) = true.
Proof. vm_compute. reflexivity. Qed.
Lemma hashedNames_fit : forallb (fun x => tailFits 10 x.1 x.2) (tableNames hashedNames) = true.
Proof. vm_compute. reflexivity. Qed.

Lemma hexChar_label c : hexChar c = true → alnum c = true ∧ labelChar c = true.
Proof. by destruct c as [[] [] [] [] [] [] [] []]. Qed.
Lemma is_digit_label c : is_digit c = true → alnum c = true ∧ labelChar c = true.
Proof. by destruct c as [[] [] [] [] [] [] [] []]. Qed.
Lemma endsWith_all f s : str_forall f s = true → s ≠ "" → endsWith f s = true.
Proof.
  induction s as [|c s IH]; [done|]. cbn. intros [Hc Hs]%andb_true_iff _. destruct s; [done|by apply IH].
Qed.

Lemma table_fits f t g s :
  forallb f (tableNames t) = true → inTable t g s = true → f (g, s) = true.
Proof. rewrite inTable_elem, forallb_forall. intros Hf Hs. by apply Hf, list_elem_of_In. Qed.
Lemma itoa_digits i : 0 <= i → str_forall is_digit (itoa i) = true ∧ itoa i ≠ "".
Proof.
  intros Hi. unfold itoa. destruct (Z.ltb_spec i 0); [lia|]. split; [by apply digits_all|].
  destruct (digits_head (Z.to_N i)) as (c & s & -> & _). done.
Qed.

Lemma own_fits a g n :
  plainName a = true → (String.length a ≤ instanceLimit)%nat → ownName a g n → fits g n.
Proof.
  intros Hp Ha [(s & Hs & ->)|[(s & d & Hs & [Hd Hx] & ->)|(-> & s & i & Hs & Hi & ->)]].
  - apply (table_fits _ _ _ _ childNames_fit) in Hs. cbn [fst snd] in Hs.
    apply andb_true_iff in Hs as [[Hc Hl%Nat.leb_le]%andb_true_iff He]. split.
    + apply orb_true_iff in He as [->%String.eqb_eq|He]; [by rewrite sapp_nil_r|].
      by apply plainName_app.
    + intros _. rewrite slen_app. lia.
  - apply (table_fits _ _ _ _ hashedNames_fit) in Hs. cbn [fst snd] in Hs.
    apply andb_true_iff in Hs as [Hc Hl%Nat.leb_le]. split.
    + apply plainName_app; [done|rewrite str_forall_app, Hc|apply endsWith_app, endsWith_all].
      * eapply str_forall_impl, Hx. intros c Hh. by apply hexChar_label.
      * eapply str_forall_impl, Hx. intros c Hh. by apply hexChar_label.
      * by intros ->.
    + intros _. rewrite !slen_app. lia.
  - split; [|done]. apply (table_fits _ _ _ _ childNames_fit) in Hs. cbn [fst snd] in Hs.
    apply andb_true_iff in Hs as [[Hc _]%andb_true_iff _].
    destruct (itoa_digits i Hi) as [Hx Hn]. unfold plainName in Hp. bool_prop.
    unfold claimName. apply plainName_app; [done| |].
    + rewrite !str_forall_app. rewrite Hc. rewrite !andb_true_iff. split_and!; [done..|].
      eapply str_forall_impl, Hx. intros c Hh. by apply is_digit_label.
    + do 3 apply endsWith_app. apply endsWith_all; [|done].
      eapply str_forall_impl, Hx. intros c Hh. by apply is_digit_label.
Qed.

(** ** Properties *)

Section Whole.
Context `{OwnerLaws} `{!FinalizerLaws} `{QuantityLib}.

(** C12. Every name fits.  For an instance whose name is a plain label of at most [instanceLimit]
    characters, every object that a reconcile writes or deletes has a name the API server
    takes: lower-case letters, digits and dashes with a letter in front and no dash at the end, within
    the limit of its kind; or the server has itself listed the object under the label of
    the instance. *)
Theorem names_fit drift name ns h r :
  runs (Reconcile drift name ns) h r → honestRun h = true →
  plainName name = true → (String.length name ≤ instanceLimit)%nat →
  ∀ q g n, q ∈ reqs h → touches q = Some (g, n) →
    fits g n ∨ ∃ k, gvkOf k = g ∧ swept k ∧ listedUnder name k n h.
Proof.
  intros Hr Hon Hp Hl q g n Hq Ht. destruct (touched_own _ _ _ _ _ _ _ _ Hr Hon Hq Ht) as [Ho|Ho];
    [left; by apply (own_fits name)|by right].
Qed.
End Whole.

(** The limit is sharp: with one more character the name of the settings Job of the detector is
    refused, and nothing bounds the name of an instance. *)
Theorem names_limit_sharp m x :
  String.length (m_Name m) = S instanceLimit →
  ¬ fits (gvkOf KJob) (nameSensitiveDetectorConfigJob m (sha256hex x)).
Proof.
  intros Hm [_ Hl]. specialize (Hl ltac:(discriminate)). revert Hl.
  unfold nameSensitiveDetectorConfigJob. rewrite !slen_app, (proj1 (hash_digits x)), Hm.
  apply Nat.lt_nge. by vm_compute.
Qed.
