(* ===== verification/Hardening.v ===== *)
(** * What runs in the pods

    The pod templates, the custom resources behind which other operators start pods, and the
    image references that a pass writes: the pods are restricted in the sense of the Pod
    Security Standards as far as the resource decides it, and every image is one the operator
    brings along or one the instance names in a field that the webhook checks. *)
From S2P Require Export Webhook Confinement.
Local Open Scope string_scope.
Local Open Scope Z_scope.
Local Open Scope list_scope.

(** ** Pods in requests *)

(** The pod template that a request writes.  A Deployment that is scaled to zero runs none. *)
Definition podOf (r : req) : option PodSpec :=
  match r with
  | UpsertCommit KDeployment o | Create KDeployment o => Some (pt_Spec (dep_Template o))
  | Update KDeployment o =>
      if bool_decide (dep_Replicas o = Some 0) then None else Some (pt_Spec (dep_Template o))
  | UpsertCommit KStatefulSet o | Create KStatefulSet o | Update KStatefulSet o =>
      Some (pt_Spec (sts_Template o))
  | UpsertCommit KJob o | Create KJob o | Update KJob o => Some (pt_Spec (job_Template o))
  | _ => None
  end.
Definition restrictedContainer (c : Container) : bool :=
  match c_SecurityContext c with
  | Some s =>
      bool_decide (sc_AllowPrivilegeEscalation s = Some false)
      && bool_decide (sc_ReadOnlyRootFilesystem s = Some true)
      && bool_decide (sc_CapabilitiesDrop s = ["ALL"])
  | None => false
  end.
Definition restrictedPod (ps : PodSpec) : bool :=
  bool_decide (ps_AutomountServiceAccountToken ps = Some false)
  && match ps_SecurityContext ps with
     | Some s => bool_decide (psc_RunAsNonRoot s = Some true)
                 && String.eqb (psc_SeccompProfile s) "RuntimeDefault"
     | None => false
     end
  && forallb restrictedContainer (ps_InitContainers ps ++ ps_Containers ps).
(** Custom resources whose controllers start no pods for them: a backup is taken by the running
    database, and the rest configure autoscaling and monitoring. *)
Definition podlessGVKs : list GVK :=
  [cnpgBackupGVK; cnpgScheduledBackupGVK; scaledObjectGVK; triggerAuthGVK; serviceMonitorGVK;
   podMonitorGVK; prometheusRuleGVK].
(** The redis operator copies [spec.podSecurityContext] to the pods it starts. *)
Definition restrictedRedis (j : json) : bool :=
  match nested j ["spec"; "podSecurityContext"; "runAsNonRoot"] with
  | Some (JBool true) => true
  | _ => false
  end
  && String.eqb (nestedString j ["spec"; "podSecurityContext"; "seccompProfile"; "type"])
       "RuntimeDefault".
(** CNPG builds the pods of a Cluster or a Pooler itself; the resource can only override what
    it does.  No such override, neither in the spec nor in a pod template. *)
Definition securityFields : list string :=
  ["securityContext"; "podSecurityContext"; "seccompProfile"; "hostNetwork"; "hostPID"; "hostIPC"].
Definition overridesNone (j : json) : bool :=
  forallb (fun k => match nested j [k] with None => true | Some _ => false end) securityFields.
Definition leftToCNPG (j : json) : bool :=
  match nested j ["spec"] with
  | None => false
  | Some spec =>
      overridesNone spec
      && match nested spec ["template"; "spec"] with
         | None => true
         | Some ps =>
             overridesNone ps
             && match nested ps ["containers"] with
                | Some (JArr cs) => forallb overridesNone cs
                | _ => true
                end
         end
  end.
(** What an applied custom resource makes its operator run; no other kind may be applied. *)
Definition hardenedCustom (u : Unstructured) : bool :=
  if bool_decide (u_GVK u ∈ podlessGVKs) then true
  else if bool_decide (u_GVK u ∈ [redisReplicationGVK; redisSentinelGVK])
  then restrictedRedis (u_Object u)
  else bool_decide (u_GVK u ∈ [cnpgClusterGVK; cnpgPoolerGVK]) && leftToCNPG (u_Object u).
(** No bare pods, no custom resources outside these, and restricted pod templates. *)
Definition hardened (r : req) : bool :=
  match r with
  | Create KPod _ | Update KPod _ | UpsertCommit KPod _ => false
  | Create (KU g) _ | Update (KU g) _ | UpsertCommit (KU g) _ => bool_decide (g ∈ podlessGVKs)
  | Apply u => hardenedCustom u
  | _ => match podOf r with Some ps => restrictedPod ps | None => true end
  end.

(** ** Images in requests *)

Definition podImages (ps : PodSpec) : list string :=
  map c_Image (ps_InitContainers ps ++ ps_Containers ps).
(** The images in the resources of the operators for PostgreSQL and redis. *)
Definition appliedImages (u : Unstructured) : list string :=
  if bool_decide (u_GVK u = cnpgClusterGVK) then [nestedString (u_Object u) ["spec"; "imageName"]]
  else if bool_decide (u_GVK u ∈ [redisReplicationGVK; redisSentinelGVK])
  then [nestedString (u_Object u) ["spec"; "kubernetesConfig"; "image"]]
  else [].
Definition imagesOf (r : req) : list string :=
  match r with
  | Apply u => appliedImages u
  | _ => match podOf r with Some ps => podImages ps | None => [] end
  end.

(** The images of the source itself, used when the instance names none. *)
Definition operatorImages : list string := [
  "caddy:2"; "getmeili/meilisearch:v1"; "redis:8-alpine"; "quay.io/opstree/redis:v8.2.5";
  "quay.io/opstree/redis-sentinel:v8.2.5"; "oliver006/redis_exporter:v1.62.0-alpine";
  "ghcr.io/cloudnative-pg/postgresql:17"; "ghcr.io/misskey-dev/sensitive-detector:0.0.2"].
(** An image of the source, or of a field of the instance that [specImages] collects. *)
Definition known (m : Misskey) (img : string) : Prop :=
  img ∈ operatorImages ∨ ∃ path, (path, img) ∈ imageFields m.

Definition sealed (m : Misskey) (r : req) : Prop :=
  hardened r = true ∧ Forall (known m) (imagesOf r).

(** ** Fields and defaults *)

Lemma known_or m path img d :
  (path, img) ∈ imageFields m → d ∈ operatorImages → known m (stringOr img d).
Proof.
  intros Hi Hd. unfold stringOr. destruct (String.eqb img ""); [by left|right]. eauto.
Qed.
Lemma known_main m : known m (spec_Image (m_Spec m)).
Proof. right. exists "spec.image". apply list_elem_of_here. Qed.

(** The optional parts of [imageFields]. *)
Lemma elem_tail {A} (x : A) l1 l2 : x ∈ l2 → x ∈ l1 ++ l2.
Proof. intros Hx. apply elem_of_app. by right. Qed.
Lemma elem_front {A} (x : A) l1 l2 : x ∈ l1 → x ∈ l1 ++ l2.
Proof. intros Hx. apply elem_of_app. by left. Qed.

Ltac default_image := apply (bool_decide_unpack _); vm_compute; exact I.

Lemma known_proxy m : known m (stringOr (proxy_Image (spec_Proxy (m_Spec m))) "caddy:2").
Proof.
  apply (known_or m "spec.proxy.image"); [|default_image].
  apply list_elem_of_further, list_elem_of_here.
Qed.
Lemma known_postgres m :
  known m (stringOr (pg_Image (spec_Postgres (m_Spec m))) defaultPostgresImage).
Proof.
  apply (known_or m "spec.postgres.image"); [|default_image].
  do 2 apply list_elem_of_further. apply list_elem_of_here.
Qed.
Lemma known_redis m : known m (stringOr (redis_Image (spec_Redis (m_Spec m))) "redis:8-alpine").
Proof.
  apply (known_or m "spec.redis.image"); [|default_image].
  do 3 apply list_elem_of_further. apply list_elem_of_here.
Qed.
Lemma known_meili m :
  known m (stringOr (meili_Image (search_Meilisearch (spec_Search (m_Spec m)))) "getmeili/meilisearch:v1").
Proof.
  apply (known_or m "spec.search.meilisearch.image"); [|default_image].
  do 3 apply elem_tail. apply elem_front. left.
Qed.
Lemma known_objStorage m os :
  spec_ObjectStorage (m_Spec m) = Some os → known m (stringOr (os_Image os) psqlImage).
Proof.
  intros E. apply (known_or m "spec.objectStorage.image"); [|default_image].
  unfold imageFields. rewrite E. do 4 apply elem_tail. apply elem_front. left.
Qed.
Lemma known_detector m d :
  spec_SensitiveDetector (m_Spec m) = Some d →
  (det_External d = None →
     known m (stringOr (det_Image d) "ghcr.io/misskey-dev/sensitive-detector:0.0.2"))
  ∧ known m (stringOr (det_ConfigJobImage d) psqlImage).
Proof.
  intros E. split.
  - intros Ee. apply (known_or m "spec.sensitiveDetector.image"); [|default_image].
    unfold imageFields. rewrite E, Ee. do 5 apply elem_tail. apply elem_front. left.
  - apply (known_or m "spec.sensitiveDetector.configJobImage"); [|default_image].
    unfold imageFields. rewrite E. do 5 apply elem_tail. apply elem_front, elem_tail. left.
Qed.
Lemma known_exporter m :
  known m (stringOr (mon_RedisExporterImage (spec_Monitoring (m_Spec m)))
             "oliver006/redis_exporter:v1.62.0-alpine").
Proof.
  apply (known_or m "spec.monitoring.redisExporterImage"); [|default_image].
  do 6 apply elem_tail. left.
Qed.

Lemma known_HA m ha :
  (redis_HA (spec_Redis (m_Spec m)) = Some ha
   ∨ ∃ roles rd role, redis_Roles (spec_Redis (m_Spec m)) = Some roles ∧ rd ∈ redisRoleDescs
       ∧ rd_get rd roles = Some role ∧ role_HA role = Some ha) →
  known m (stringOr (ha_Image ha) "quay.io/opstree/redis:v8.2.5")
  ∧ known m (stringOr (ha_SentinelImage ha) "quay.io/opstree/redis-sentinel:v8.2.5").
Proof.
  intros Hha.
  assert (∃ p1 p2, (p1, ha_Image ha) ∈ imageFields m ∧ (p2, ha_SentinelImage ha) ∈ imageFields m)
    as (p1 & p2 & H1 & H2).
  { unfold imageFields. destruct Hha as [E|(roles & rd & role & Er & Hrd & Eg & E)].
    - rewrite E. eexists _, _. split; apply elem_tail, elem_front; [left|right; left].
    - assert (∃ name, roleImages name (Some role) ⊆ imageFields m) as [name Hsub].
      { unfold redisRoleDescs in Hrd. rewrite !elem_of_cons in Hrd. rewrite <- Eg.
        unfold imageFields. rewrite Er.
        destruct_or! Hrd; try (by apply not_elem_of_nil in Hrd); subst rd; cbn [rd_get];
          [exists "jobQueue"|exists "pubsub"|exists "timelines"|exists "reactions"];
          intros x Hx; do 2 apply elem_tail; apply elem_front; rewrite !elem_of_app; tauto. }
      unfold roleImages in Hsub. rewrite E in Hsub.
      eexists _, _. split; apply Hsub; [left|right; left]. }
  split; [apply (known_or m p1)|apply (known_or m p2)]; try done; default_image.
Qed.

Lemma known_instance `{QuantityLib} m inst :
  inst ∈ managedRedisInstances m →
  known m (ri_image inst)
  ∧ (ri_ha inst = true → known m (ri_haImage inst) ∧ known m (ri_haSentinelImage inst)).
Proof.
  intros Hi. pose proof (known_redis m) as Hred.
  assert (∃ suffix role ha, inst = buildManagedInstance m suffix role ha
    ∧ (ha = None ∨ ∃ h, ha = Some h ∧ known m (stringOr (ha_Image h) "quay.io/opstree/redis:v8.2.5")
                    ∧ known m (stringOr (ha_SentinelImage h) "quay.io/opstree/redis-sentinel:v8.2.5")))
    as (suffix & role & ha & -> & Hha).
  2:{ destruct Hha as [->|(h & -> & Hk)]; [by split|by split]. }
  unfold managedRedisInstances in Hi. apply elem_of_app in Hi as [Hi|Hi].
  - destruct (redis_External _); [by apply not_elem_of_nil in Hi|].
    apply list_elem_of_singleton in Hi as ->. exists "", None, (redis_HA (spec_Redis (m_Spec m))).
    split; [done|]. destruct (redis_HA _) as [h|] eqn:E; [right|by left]. exists h. split; [done|].
    apply known_HA. by left.
  - destruct (redis_Roles _) as [roles|] eqn:Er; [|by apply not_elem_of_nil in Hi].
    apply list_elem_of_In, in_concat in Hi as (l & (rd & <- & Hrd)%in_map_iff & Hi).
    apply list_elem_of_In in Hrd. destruct (rd_get rd roles) as [role|] eqn:Eg; [|destruct Hi].
    destruct (role_External role); [destruct Hi|]. destruct Hi as [<-|[]].
    exists (rd_nameSuffix rd), (Some role), (role_HA role). split; [done|].
    destruct (role_HA role) as [h|] eqn:E; [right|by left]. exists h. split; [done|].
    apply known_HA. right. by exists roles, rd, role.
Qed.

(** ** The walk *)

Section Walk.
Context `{OwnerLaws} `{QuantityLib}.

(** An owned object is written as its mutation returned it. *)
Lemma emits_apply_runs P m k o mutate :
  P (UpsertBegin k o) → (∀ live, emits P (mutate live)) →
  (∀ live h o' om, runs (mutate live) h (Ok o') → P (UpsertCommit k (setMeta k om o'))) →
  emits P (applyOwned m k o mutate).
Proof.
  intros Hb Hm Hc. apply emits_tryBind; [by split|]. intros live.
  apply emits_tryBind_runs; [done|]. intros h o' Hr. apply emits_tryBind; [done|]. intros om.
  apply emits_tryBind; [split; [by eapply Hc|done]|done].
Qed.
Lemma runs_lift {A} (p : rprog A) {B} (f : A → B) h b :
  runs (tryBind p (fun a => ok (f a))) h (Ok b) → ∃ a, b = f a.
Proof.
  intros (h1 & h2 & [a|e] & _ & _ & Hr)%runs_bind; destruct Hr as [_ [= ->]]. by exists a.
Qed.
End Walk.

(** Requests that write no pod and no image. *)
Ltac idle := split; [reflexivity|exact (Forall_nil_2 _)].
Ltac seal_step :=
  lazymatch goal with
  | |- emits _ (applyOwned _ KDeployment _ _) => fail
  | |- emits _ (applyOwned _ KStatefulSet _ _) => fail
  | |- emits _ (createControlled _ KJob _) => fail
  | |- emits _ _ => emits_step
  end.
Create HintDb sealed.
Ltac seal := repeat (solve [auto with sealed nocore] || seal_step); try (known_kind; idle).

Section Sealed.
Context `{OwnerLaws} `{QuantityLib}.

Lemma sealed_deployment m o mutate :
  (∀ live, emits (sealed m) (mutate live)) →
  (∀ live h o', runs (mutate live) h (Ok o') →
     restrictedPod (pt_Spec (dep_Template o')) = true
     ∧ Forall (known m) (podImages (pt_Spec (dep_Template o')))) →
  emits (sealed m) (applyOwned m KDeployment o mutate).
Proof.
  intros Hm Hr. apply emits_apply_runs; [idle|done|]. intros live h o' om Ho.
  destruct (Hr _ _ _ Ho) as [Hp Hi]. split; [exact Hp|exact Hi].
Qed.
Lemma sealed_statefulset m sts f (cs : rprog string) :
  (∀ ver s, restrictedPod (pt_Spec (sts_Template (f ver s))) = true
     ∧ Forall (known m) (podImages (pt_Spec (sts_Template (f ver s))))) →
  emits (sealed m) cs →
  emits (sealed m) (applyStatefulSet m sts (fun s => try ver := cs in ok (f ver s))).
Proof.
  intros Hf Hcs. unfold applyStatefulSet.
  assert (∀ s, emits (sealed m) (try ver := cs in ok (f ver s))) as Hm by (intros s; seal).
  apply emits_tryBind; [done|]. intros s'. apply emits_bind; [split; [idle|done]|]. intros r.
  apply emits_tryBind; [|intros _].
  - unfold recreate, expandStatefulSetPVCs, expandPVC. seal. apply emits_waitGone; idle.
  - apply emits_apply_runs; [idle|done|]. intros live h o' om [ver ->]%runs_lift.
    destruct (Hf ver live) as [Hp Hi]. split; [exact Hp|exact Hi].
Qed.
Lemma sealed_job m j :
  restrictedPod (pt_Spec (job_Template j)) = true →
  Forall (known m) (podImages (pt_Spec (job_Template j))) →
  emits (sealed m) (createControlled m KJob j).
Proof. intros Hp Hi. unfold createControlled. seal. split; [exact Hp|exact Hi]. Qed.
#[local] Hint Resolve sealed_deployment sealed_job : sealed.

Lemma sealed_secretVersion m ns name : emits (sealed m) (secretVersion ns name).
Proof. apply emits_secretVersion. idle. Qed.
Lemma sealed_versions m p : emits (sealed m) (referencedSecretVersions m p).
Proof. apply emits_referencedSecretVersions. intros n. idle. Qed.
Lemma sealed_generated m name c k n : emits (sealed m) (generatedSecret m name c k n).
Proof. unfold generatedSecret, secretMutate, randomHex. seal. Qed.
Lemma sealed_cleanupJobs m c keep : emits (sealed m) (cleanupJobs m c keep).
Proof. unfold cleanupJobs. seal. Qed.
#[local] Hint Resolve sealed_secretVersion sealed_versions sealed_generated sealed_cleanupJobs : sealed.
Lemma sealed_prereq m p :
  emits (sealed m) (reconcileMeiliSecret m) ∧ emits (sealed m) (reconcileSetupSecret m)
  ∧ emits (sealed m) (reconcileSensitiveDetectorSecret m)
  ∧ emits (sealed m) (reconcileConfigMaps m p) ∧ emits (sealed m) (reconcileTenancy m).
Proof.
  unfold reconcileMeiliSecret, reconcileSetupSecret, reconcileSensitiveDetectorSecret,
    reconcileConfigMaps, setData, reconcileTenancy, reconcileNetworkIsolation,
    reconcileEgressIsolation, reconcileResourceQuota, reconcileLimitRange.
  split_and!; seal.
Qed.
(** *** Resources of the operators for PostgreSQL and redis *)
Lemma jfield_app k l1 l2 :
  jfield k (l1 ++ l2) = match jfield k l1 with Some v => Some v | None => jfield k l2 end.
Proof. induction l1 as [|[k' v] l1 IH]; cbn; [done|]. by destruct (String.eqb k k'). Qed.
Lemma overridesNone_fields l :
  overridesNone (JObj l) = forallb (fun k => match jfield k l with None => true | Some _ => false end)
    securityFields.
Proof.
  unfold overridesNone. induction securityFields as [|k ks IH]; [done|].
  cbn [forallb]. rewrite IH. f_equal. cbn [nested]. by destruct (jfield k l).
Qed.
Lemma overridesNone_app l1 l2 :
  overridesNone (JObj (l1 ++ l2)) = overridesNone (JObj l1) && overridesNone (JObj l2).
Proof.
  rewrite !overridesNone_fields. induction securityFields as [|k ks IH]; [done|].
  cbn [forallb]. rewrite IH, jfield_app.
  destruct (jfield k l1), (jfield k l2); cbn; by rewrite ?andb_false_r.
Qed.
(** Fields that leave the pods to CNPG. *)
Definition plain (l : list (string * json)) : Prop :=
  overridesNone (JObj l) = true ∧ jfield "template" l = None.
Lemma plain_app l1 l2 : plain l1 → plain l2 → plain (l1 ++ l2).
Proof. intros [H1' T1] [H2' T2]. split; [by rewrite overridesNone_app, H1', H2'|by rewrite jfield_app, T1]. Qed.
Lemma plain_left l : plain l → leftToCNPG (JObj [("spec", JObj l)]) = true.
Proof. intros [Ho Ht]. unfold leftToCNPG. cbn -[overridesNone]. by rewrite Ho, Ht. Qed.
Lemma left_cluster m : leftToCNPG (u_Object (buildDBCluster m)) = true.
Proof.
  apply plain_left. repeat apply plain_app.
  - by split.
  - destruct (pg_Recovery _); [by split|]. unfold initdbFields.
    destruct (pg_Import (spec_Postgres (m_Spec m))); by split.
  - destruct (0 <? _)%nat; by split.
  - destruct (resourceFields _); by split.
  - destruct (pg_Backup _); by split.
Qed.
Lemma left_pooler m pc name t : leftToCNPG (u_Object (buildPooler m pc name t)) = true.
Proof.
  unfold buildPooler, leftToCNPG. cbn. by destruct (resourceFields _).
Qed.
Lemma left_verify m b : leftToCNPG (u_Object (buildDBVerifyCluster m b)) = true.
Proof. reflexivity. Qed.
Lemma hardened_pooler m pc name t om :
  let u := buildPooler m pc name t in hardened (Apply (mkUnstructured (u_GVK u) om (u_Object u))) = true.
Proof. cbv zeta. unfold hardened, hardenedCustom. cbn [u_Object]. rewrite left_pooler. reflexivity. Qed.

Lemma sealed_monitoring m p : emits (sealed m) (reconcileMonitoring m p).
Proof.
  unfold reconcileMonitoring, cleanupRedisMonitors, deleteMonitor.
  destruct (buildPrometheusRule m) as [u|] eqn:E; seal;
    try (unfold redisMonitor; destruct (ri_ha _); idle).
  apply rule_kind in E. split; [|cbn; unfold appliedImages; cbn [u_GVK]; rewrite E; constructor].
  unfold hardened, hardenedCustom. cbn [u_GVK]. by rewrite E.
Qed.
Lemma sealed_edge m p :
  emits (sealed m) (reconcileIngress m p) ∧ emits (sealed m) (reconcileAppService m)
  ∧ emits (sealed m) (cleanupObjectStorage m) ∧ emits (sealed m) (reconcilePoolers m).
Proof.
  unfold reconcileIngress, reconcileAppService, cleanupObjectStorage, cleanupObjectStorageJobs,
    reconcilePoolers, deletePooler.
  split_and!; seal; (split; [apply hardened_pooler|constructor]).
Qed.

(** *** Workloads *)
Ltac images := repeat (first [apply Forall_cons_2|apply Forall_nil_2]).
Lemma sealed_pdb m c : emits (sealed m) (reconcilePDB m c).
Proof. unfold reconcilePDB. seal. Qed.
#[local] Hint Resolve sealed_pdb : sealed.
Lemma sealed_proxy m : emits (sealed m) (reconcileProxy m).
Proof.
  unfold reconcileProxy, deleteProxyResources, deleteLegacyMaintenanceWorkload,
    deleteMaintenanceHTMLConfigMap. seal.
  apply sealed_deployment; [done|]. intros live h o' [_ [= ->]].
  split; [reflexivity|]. pose proof (known_proxy m) as Hk. cbn. by images.
Qed.
Lemma sealed_suspend m p : emits (sealed m) (suspendWorkloads m p).
Proof. unfold suspendWorkloads, suspendOne, deleteHPA, deleteScaledObject, deleteTriggerAuth. seal. Qed.
Lemma sealed_applyCluster m u img :
  u_GVK u = cnpgClusterGVK → leftToCNPG (u_Object u) = true →
  nestedString (u_Object u) ["spec"; "imageName"] = img → known m img →
  emits (sealed m) (applySSA m u).
Proof.
  intros Hg Hl Hn Hk. apply emits_applySSA. intros om. split.
  - unfold hardened, hardenedCustom. cbn [u_GVK u_Object]. rewrite Hg, Hl. reflexivity.
  - cbn. unfold appliedImages. cbn [u_GVK u_Object]. rewrite Hg, Hn. by images.
Qed.
Lemma sealed_postgres m : emits (sealed m) (reconcilePostgres m).
Proof.
  unfold reconcilePostgres. apply emits_tryBind; [|intros _; seal].
  eapply sealed_applyCluster; [reflexivity|apply left_cluster|reflexivity|apply known_postgres].
Qed.
Lemma sealed_record m v : emits (sealed m) (recordBackupVerification m v).
Proof. apply emits_record; intros; idle. Qed.
Lemma sealed_verifyCluster m b : emits (sealed m) (applySSA m (buildDBVerifyCluster m b)).
Proof.
  eapply sealed_applyCluster; [reflexivity|apply left_verify|reflexivity|apply known_postgres].
Qed.
#[local] Hint Resolve sealed_record sealed_verifyCluster : sealed.
Lemma sealed_verify m : emits (sealed m) (reconcileBackupVerify m).
Proof. unfold reconcileBackupVerify, finishVerify, deleteVerifyCluster. seal. Qed.
Lemma sealed_meili m p : emits (sealed m) (reconcileMeilisearch m p).
Proof.
  unfold reconcileMeilisearch. seal.
  apply (sealed_statefulset m _ (fun ver s => meiliStatefulSet m p (checksumAnnotation [ver]) s));
    [|apply sealed_secretVersion].
  intros ver s. split; [reflexivity|]. cbn. images. apply known_meili.
Qed.

(** *** Redis *)
Lemma sealed_HA m inst :
  known m (ri_haImage inst) ∧ known m (ri_haSentinelImage inst) →
  emits (sealed m) (reconcileRedisHA m inst).
Proof.
  intros [H1' H2']. unfold reconcileRedisHA. seal; (split; [reflexivity|]); cbn; by images.
Qed.
Lemma sealed_standalone m inst :
  known m (ri_image inst) → emits (sealed m) (reconcileRedisStandalone m inst).
Proof.
  intros Hk. unfold reconcileRedisStandalone. seal.
  apply (sealed_statefulset m _ (fun ver s => redisStatefulSet m inst (checksumAnnotation [ver]) s));
    [|apply sealed_secretVersion].
  intros ver s. unfold redisStatefulSet, redisContainers. cbn [sts_Template pt_Spec].
  destruct (monitoringEnabled m); (split; [reflexivity|]); cbn; images; try done.
  apply known_exporter.
Qed.
Lemma sealed_redis m : emits (sealed m) (reconcileRedis m).
Proof.
  unfold reconcileRedis, reconcileRedisAuthSecret. apply emits_tryBind; [seal|intros _].
  apply emits_tryBind; [|intros _].
  - apply emits_forEach. intros inst Hi%known_instance. destruct Hi as [Hk Hha].
    pose proof (sealed_standalone m inst Hk) as Hst. unfold reconcileInstance.
    destruct (ri_ha inst); [pose proof (sealed_HA m inst (Hha eq_refl))|];
      unfold deleteRedisStandalone, reconcileRedisHANetworkPolicy, deleteRedisHANetworkPolicy,
        deleteRedisHA; seal.
  - unfold cleanupSuffix, deleteRedisStandalone, deleteRedisHANetworkPolicy, deleteRedisHA. seal.
Qed.

(** *** The detector and the Jobs *)
Lemma sealed_checksum m p : emits (sealed m) (misskeyChecksum m p).
Proof. apply emits_misskeyChecksum. intros n. idle. Qed.
Lemma sealed_read m st : emits (sealed m) (readSensitiveDetectorConfigState m st).
Proof. unfold readSensitiveDetectorConfigState, hasSensitiveDetectorConfigState. seal. Qed.
Lemma sealed_objHash m p sql l : emits (sealed m) (objectStorageHash m p sql l).
Proof. unfold objectStorageHash, credentialSecretVersions. seal. Qed.
Lemma sealed_detHash m p sql : emits (sealed m) (sensitiveDetectorConfigHash m p sql).
Proof. unfold sensitiveDetectorConfigHash. seal. Qed.
#[local] Hint Resolve sealed_checksum sealed_read sealed_objHash sealed_detHash : sealed.

(** What the plan says of images. *)
Lemma plan_detector m :
  p_sensitiveDetectorManaged (resolve m) = true →
  ∃ d, spec_SensitiveDetector (m_Spec m) = Some d ∧ det_External d = None.
Proof.
  unfold resolve. destruct (resolveDB m) as [[[[[[[]]]]]]], (resolveSearch m) as [[[[[[[]]]]]]],
    (resolveSetup m) as [[]]. unfold resolveDetector.
  destruct (spec_SensitiveDetector (m_Spec m)) as [d|]; [|done].
  destruct (det_External d) eqn:E; [done|]. intros _. by exists d.
Qed.
Lemma plan_detectorImage m :
  known m (stringOr (p_sensitiveDetectorConfigImage (resolve m)) psqlImage).
Proof.
  unfold resolve. destruct (resolveDB m) as [[[[[[[]]]]]]], (resolveSearch m) as [[[[[[[]]]]]]],
    (resolveSetup m) as [[]]. unfold resolveDetector.
  destruct (spec_SensitiveDetector (m_Spec m)) as [d|] eqn:E; [|left; default_image].
  pose proof (proj2 (known_detector m d E)) as Hk. unfold stringOr at 1.
  destruct (det_External d); cbn [p_sensitiveDetectorConfigImage];
    (destruct (String.eqb _ ""); [left; default_image|exact Hk]).
Qed.
Lemma plan_objImage m :
  p_objAutoConfigure (resolve m) = true → known m (p_objImage (resolve m)).
Proof.
  unfold resolve. destruct (resolveDB m) as [[[[[[[]]]]]]], (resolveSearch m) as [[[[[[[]]]]]]],
    (resolveSetup m) as [[]], (resolveDetector m) as [[[[]]]]. cbn.
  destruct (spec_ObjectStorage (m_Spec m)) as [os|] eqn:E; [|done]. intros _. by apply known_objStorage.
Qed.
Lemma known_inits m p : Forall (known m) (map c_Image (misskeyInitContainers m p))
  ∧ forallb restrictedContainer (misskeyInitContainers m p) = true.
Proof.
  pose proof (known_main m). unfold misskeyInitContainers.
  destruct (String.eqb (runtimeBuiltPath m) ""); (split; [cbn; by images|reflexivity]).
Qed.
Lemma sealed_detector m : emits (sealed m) (reconcileSensitiveDetector m (resolve m)).
Proof.
  unfold reconcileSensitiveDetector, setData.
  destruct (spec_SensitiveDetector (m_Spec m)) as [d|] eqn:E; [|done].
  destruct (p_sensitiveDetectorManaged (resolve m)) eqn:Em; [|done]. seal.
  apply sealed_deployment; [intros live; seal|]. intros live h o' Hr.
  apply runs_lift in Hr as [ver ->]. cbn [setDeployment dep_Template pt_Spec].
  unfold buildSensitiveDetectorPodSpec. rewrite E. split; [reflexivity|]. cbn. images.
  apply plan_detector in Em as (d' & Ed & Ee). rewrite E in Ed. injection Ed as <-.
  by apply known_detector.
Qed.
Lemma sealed_migrate m p : emits (sealed m) (migrate m p).
Proof.
  unfold migrate, reconcilePreMigrationBackup, reconcileMigration, cleanupOldMigrationJobs,
    migrationChecksum, cleanupOldPreMigrationBackups. seal.
  - unfold createControlled. seal.
  - pose proof (known_inits m p) as [Hi Hc]. apply sealed_job.
    + unfold restrictedPod. cbn -[misskeyInitContainers]. rewrite forallb_app, Hc. reflexivity.
    + unfold podImages. cbn -[misskeyInitContainers]. rewrite map_app. apply Forall_app.
      split; [done|]. cbn. images. apply known_main.
Qed.
Lemma sealed_objectStorage m :
  p_objAutoConfigure (resolve m) = true → emits (sealed m) (reconcileObjectStorage m (resolve m)).
Proof.
  intros Ha%plan_objImage. unfold reconcileObjectStorage, cleanupObjectStorageJobs. seal.
  apply sealed_job; [reflexivity|]. cbn -[resolve]. by images.
Qed.
Lemma sealed_detectorConfig m st : emits (sealed m) (reconcileSensitiveDetectorConfig m (resolve m) st).
Proof.
  unfold reconcileSensitiveDetectorConfig, cleanupSensitiveDetectorConfigJobs, runDetectorConfigJob,
    setData. seal.
  apply sealed_job; [reflexivity|]. cbn -[resolve]. images. apply plan_detectorImage.
Qed.
Lemma sealed_finalize m p b st : emits (sealed m) (finalizeSensitiveDetectorCleanup m p b st).
Proof.
  unfold finalizeSensitiveDetectorCleanup, finalizeManaged, sensitiveDetectorConverged,
    misskeyWorkloadsConverged, workloadConverged, cleanupSensitiveDetector,
    cleanupGeneratedSensitiveDetectorSecret, cleanupSensitiveDetectorConfigState,
    cleanupSensitiveDetectorConfigJobs. seal.
Qed.

(** *** The rollout *)
Lemma sealed_autoscaler m c n a p : emits (sealed m) (reconcileAutoscaler m c n a p).
Proof.
  unfold reconcileAutoscaler, reconcileScaledObject, deleteHPA, deleteScaledObject,
    deleteTriggerAuth. seal.
Qed.
Lemma sealed_role m p role name comp sc : emits (sealed m) (applyRole m p role name comp sc).
Proof.
  unfold applyRole. apply sealed_deployment; [intros live; seal|]. intros live h o' [cs ->]%runs_lift.
  pose proof (known_inits m p) as [Hi Hc]. cbn [setDeployment dep_Template pt_Spec].
  unfold buildMisskeyPodSpec, restrictedPod, podImages.
  cbn -[misskeyInitContainers]. rewrite forallb_app, map_app, Hc. split; [reflexivity|].
  apply Forall_app. split; [done|]. cbn. images. apply known_main.
Qed.
#[local] Hint Resolve sealed_detector sealed_migrate sealed_objectStorage sealed_detectorConfig
  sealed_finalize sealed_autoscaler sealed_role sealed_proxy sealed_suspend sealed_postgres
  sealed_verify sealed_meili sealed_redis sealed_monitoring : sealed.
Lemma sealed_ready m p : emits (sealed m) (databaseReady m p) ∧ emits (sealed m) (redisReady m).
Proof.
  unfold databaseReady, databaseCondition, redisReady, redisCondition, instanceReady,
    readyPodsByAppLabel. split; seal.
Qed.
Lemma sealed_rollout m st : emits (sealed m) (reconcileRollout m (resolve m) st).
Proof.
  pose proof (sealed_ready m (resolve m)) as [Hd Hr].
  assert (emits (sealed m) (if p_objAutoConfigure (resolve m)
            then reconcileObjectStorage m (resolve m) else ok true)) as Ho.
  { destruct (p_objAutoConfigure (resolve m)) eqn:E; [by apply sealed_objectStorage|done]. }
  unfold reconcileRollout, configureInstance, when, reconcileApp, reconcileWorker. seal.
Qed.
Lemma sealed_all m st : emits (sealed m) (reconcileAll m st).
Proof.
  pose proof (sealed_prereq m (resolve m)) as (Hs1 & Hs2 & Hs3 & Hs4 & Hs5).
  unfold reconcileAll. cbv zeta. apply emits_bind; [unfold reconcilePrerequisites, when; seal|].
  intros [u|e]; [|done]. apply emits_bind_runs.
  { pose proof (sealed_edge m (resolve m)) as (_ & _ & _ & Hp). unfold reconcileDatabase. seal. }
  intros h d Hd. pose proof (database_status m (resolve m) []) as Hs. rewrite wp_runs in Hs.
  specialize (Hs _ _ Hd). destruct d as [m' [u'|e]]; [|done]. destruct Hs as [s Hs]. cbn in Hs.
  subst m'. change (sealed m) with (sealed (set_m_Status s m)).
  change (resolve m) with (resolve (set_m_Status s m)). clear Hd. generalize (set_m_Status s m).
  clear - H0. intros m. pose proof (sealed_edge m (resolve m)) as (He1 & He2 & He3 & He4).
  unfold reconcileBackends, reconcileEdge, when.
  apply emits_bind; [seal|]. intros [u2|e]; [|done]. apply emits_bind; [seal|]. intros st1.
  destruct (dc_err st1); [done|]. apply emits_bind; [apply sealed_rollout|].
  intros [st2 [fin|e]]; [|done]. apply emits_bind; [seal|]. intros [u3|e]; [|done]. seal.
Qed.
End Sealed.

(** ** From the webhook to the pods *)

(** The image starts with an allowed prefix, or the list is empty, or the image is. *)
Definition allowedImage (v : MisskeyCustomValidator) (img : string) : Prop :=
  imageAllowed img (AllowedImageRegistries v) = true.
(** An instance as the API server holds it behind the webhook: validated, with an image or a
    channel (the CRD asks for exactly one). *)
Definition admitted (v : MisskeyCustomValidator) (m : Misskey) : Prop :=
  validate v m = [] ∧ (spec_ImageFrom (m_Spec m) = None → spec_Image (m_Spec m) ≠ "").
(** A channel all of whose images are allowed; the CRD asks for an image. *)
Definition channelAdmitted (v : MisskeyCustomValidator) (ch : MisskeyChannel) : Prop :=
  chs_Image (ch_Spec ch) ≠ "" ∧ allowedImage v (chs_Image (ch_Spec ch))
  ∧ allowedImage v (cht_Image (ch_Status ch)) ∧ allowedImage v (cht_PreviousImage (ch_Status ch)).
(** The instances and channels among the answers of a history are admitted. *)
Definition shownAdmitted (v : MisskeyCustomValidator) (h : history) : Prop :=
  (∀ n ns m, ev (Get KMisskey n ns) (Ok m) ∈ h → admitted v m)
  ∧ (∀ o m, ev (Update KMisskey o) (Ok m) ∈ h → admitted v m)
  ∧ (∀ n ns ch, ev (Get KChannel n ns) (Ok ch) ∈ h → channelAdmitted v ch).

Lemma shownAdmitted_app v h h' : shownAdmitted v (h ++ h') → shownAdmitted v h ∧ shownAdmitted v h'.
Proof.
  intros (Hg & Hu & Hc). split; (split; [|split]); intros;
    (eapply Hg + eapply Hu + eapply Hc); apply elem_of_app; by eauto.
Qed.

(** A digest behind an allowed image is allowed. *)
Lemma allowed_append v img s : img ≠ "" → allowedImage v img → allowedImage v (img +:+ s).
Proof.
  unfold allowedImage. rewrite !imageAllowed_spec. unfold image_ok.
  intros Hn [?|[?|(a & Ha & Hp)]]; [done|by right; left|]. right; right. exists a. split; [done|].
  apply prefix_spec in Hp as [t ->]. unfold hasPrefix. rewrite sapp_assoc. apply prefix_app.
Qed.

Section Images.
Context `{OwnerLaws} `{QuantityLib}.

Lemma Pinned_image image kc id h0 :
  wp (Pinned image kc id) (fun _ r => ∀ p, r = Ok p → ∃ s, p = image +:+ s) h0.
Proof.
  assert (image = image +:+ "") as Hnil by by rewrite sapp_nil_r.
  unfold Pinned. destruct (contains image "@").
  { cbn. intros p [= <-]. by exists "". }
  apply wp_bind, wp_send. intros entry. apply wp_bind, wp_any. intros h1 fresh.
  assert (∀ h, wp (let! r := registryHead image kc in
    match r with
    | Err err => match entry with Some e => ok (image +:+ "@" +:+ d_digest e) | None => fail err end
    | Ok digest => let! _ := send (CacheStore (cacheKey image id) digest) in ok (image +:+ "@" +:+ digest)
    end) (fun _ r => ∀ p, r = Ok p → ∃ s, p = image +:+ s) h) as Hhead.
  { intros h. apply wp_bind, wp_any. intros h2 [d|e].
    - apply wp_bind, wp_send. intros u. cbn. intros p [= <-]. by eexists.
    - destruct entry; cbn; [|done]. intros p [= <-]. by eexists. }
  destruct entry as [e|], fresh; try apply Hhead. cbn. intros p [= <-]. by eexists.
Qed.

Lemma pinImage_allowed v i m h0 :
  i ≠ "" → allowedImage v i →
  wp (pinImage (set_spec_Image i m)) (fun _ x => x.2 = Ok tt →
    ∃ j, x.1 = set_spec_Image j m ∧ allowedImage v j) h0.
Proof.
  intros Hne Hi. unfold pinImage. cbv zeta. cbn [set_spec_Image m_Spec spec_Image m_Status].
  destruct (_ || _); [intros _; by exists i|]. apply wp_bind, wp_any. intros h1 [kc|e]; [|done].
  apply wp_bind. eapply wp_mono, Pinned_image. intros h2 [pin|e] Hp; cbn.
  - intros _. destruct (Hp pin eq_refl) as [s ->]. eexists. split; [done|]. by apply allowed_append.
  - destruct (hasPrefix _ _) eqn:E; [|done]. intros _. eexists. split; [done|].
    apply prefix_spec in E as [t ->]. rewrite sapp_assoc. by apply allowed_append.
Qed.
Lemma channelImage_allowed v ch b now :
  channelAdmitted v ch →
  channelImageFor ch b now ≠ "" ∧ allowedImage v (channelImageFor ch b now).
Proof.
  intros (Hne & Hs & Hi & Hp). unfold channelImageFor.
  destruct (String.eqb_spec (cht_Image (ch_Status ch)) ""); [done|]. destruct (chs_Rollout _); [|done].
  destruct (String.eqb_spec (cht_PreviousImage (ch_Status ch)) ""); [done|]. cbn [orb].
  destruct (_ || _); [done|]. by destruct (_ <? _).
Qed.
Lemma resolveImage_allowed v m :
  admitted v m →
  wp (resolveImage m) (fun h x => shownAdmitted v h → x.2 = Ok tt →
    ∃ j, x.1 = set_spec_Image j m ∧ allowedImage v j) [].
Proof.
  intros [Hv Hne]. apply validate_images in Hv.
  assert (m = set_spec_Image (spec_Image (m_Spec m)) m) as Hm by by destruct m as [? [] ?].
  unfold resolveImage. destruct (spec_ImageFrom (m_Spec m)) as [src|].
  - apply wp_bind, wp_send. intros [ch|e]; [|done]. apply wp_bind, wp_send. intros now.
    apply wp_prefix, wp_runs. intros h r Hr [h' Hh] (_ & _ & Hc).
    assert (channelAdmitted v ch) as Hch.
    { eapply Hc. rewrite Hh. apply elem_of_app. left. left. }
    destruct (channelImage_allowed v ch (channelBucket (m_Namespace m) (m_Name m)) now Hch) as [H1' H2'].
    pose proof (pinImage_allowed v _ m [] H1' H2') as Hw. rewrite wp_runs in Hw.
    exact (Hw _ _ Hr).
  - rewrite Hm at 1. eapply wp_mono; [|apply (pinImage_allowed v)].
    + by intros h x Hx _.
    + by apply Hne.
    + apply imageAllowed_spec. rewrite Forall_forall in Hv.
      by apply (Hv ("spec.image", spec_Image (m_Spec m))), list_elem_of_here.
Qed.

(** The images of a pass over an instance with a resolved image. *)
Lemma known_allowed v m j img :
  validate v m = [] → allowedImage v j → known (set_spec_Image j m) img →
  allowedImage v img ∨ img ∈ operatorImages.
Proof.
  intros Hv%validate_images Hj [Hop|(path & Hin)]; [by right|left].
  apply elem_of_cons in Hin as [[= _ ->]|Hin]; [done|].
  rewrite Forall_forall in Hv. apply imageAllowed_spec.
  apply (Hv (path, img)), list_elem_of_further, Hin.
Qed.
End Images.

(** ** A whole reconcile *)

(** Requests without images. *)
Definition imageless (r : req) : Prop := imagesOf r = [].

Section Whole.
Context `{OwnerLaws} `{QuantityLib}.

Lemma imageless_resolve m : emits imageless (resolveImage m).
Proof.
  unfold resolveImage, pinImage, pullSecretKeychain. emits_tac; try reflexivity; by apply emits_Pinned.
Qed.
Lemma imageless_status m e st : emits imageless (updateStatus m e st).
Proof.
  unfold updateStatus, conditions, databaseCondition, redisCondition, instanceReady,
    readyPodsByAppLabel, condIf, searchCondition, migrationCondition, objectStorageCondition,
    detectorCnd, condIf, sensitiveDetectorCondition, sensitiveDetectorConfigComplete,
    deploymentReady, ingressCondition, readBackupStatus, objectStorageHash, credentialSecretVersions.
  emits_tac; reflexivity.
Qed.
Lemma imageless_read m st : emits imageless (readSensitiveDetectorConfigState m st).
Proof. unfold readSensitiveDetectorConfigState, hasSensitiveDetectorConfigState. emits_tac; reflexivity. Qed.
Lemma imageless_delete m : emits imageless (reconcileDelete m).
Proof. unfold reconcileDelete, retainData, orphan. emits_tac; reflexivity. Qed.

(** What a request may run. *)
Definition imagesAllowed (v : MisskeyCustomValidator) (r : req) : Prop :=
  Forall (fun img => allowedImage v img ∨ img ∈ operatorImages) (imagesOf r).
Lemma imageless_allowed v r : imageless r → imagesAllowed v r.
Proof. unfold imageless, imagesAllowed. by intros ->. Qed.
Lemma live_allowed v drift m h r :
  admitted v m → runs (reconcileLive drift m) h r → shownAdmitted v h →
  Forall (imagesAllowed v) (reqs h).
Proof.
  intros Hm Hr Hs. unfold reconcileLive, concludePass in Hr.
  apply runs_bind in Hr as (h1 & h2 & i & -> & Hi & Hr). rewrite reqs_app. apply Forall_app.
  apply shownAdmitted_app in Hs as [Hs1 Hs2]. split.
  { eapply Forall_impl; [eapply emits_runs, Hi; apply imageless_resolve|]. intros q. apply imageless_allowed. }
  pose proof (resolveImage_allowed v m Hm) as Hw. rewrite wp_runs in Hw.
  specialize (Hw _ _ Hi Hs1). clear Hi Hs1 h1.
  assert (emits (imagesAllowed v) (match i with
            | (m, Ok _) => reconcileAll m dcStart
            | (m, Err e) => Ret (m, dcStart, Err e) end)) as Hall.
  { destruct i as [m1 [[]|e]]; [|done]. destruct (Hw eq_refl) as (j & Hj & Hja). cbn in Hj. subst m1.
    apply (emits_mono (sealed (set_spec_Image j m))); [|apply sealed_all].
    intros q [_ Hq]. eapply Forall_impl; [exact Hq|]. intros img.
    apply known_allowed; [by destruct Hm|done]. }
  eapply emits_runs, Hr. apply emits_bind; [exact Hall|]. intros [[m' st] x].
  assert (∀ A (p : prog A), emits imageless p → emits (imagesAllowed v) p) as Himp.
  { intros A p. apply emits_mono, imageless_allowed. }
  apply emits_bind; [apply Himp, imageless_read|]. intros st'.
  apply emits_bind; [apply Himp; by destruct x|]. intros u.
  apply emits_bind; [apply Himp, imageless_status|]. intros y. by destruct x.
Qed.

(** The status writes of the channel controller. *)
Definition channelWrite (v : MisskeyCustomValidator) (r : req) (h : history) : Prop :=
  match r with StatusUpdate KChannel o => shownAdmitted v h → channelAdmitted v o | _ => True end.
Lemma channelTarget_allowed v ch h0 :
  wp (channelTarget ch) (fun _ t => channelAdmitted v ch → allowedImage v t.1) h0.
Proof.
  unfold channelTarget. destruct (chs_TrackImageDigest _); [|cbn; by intros (_ & Hs & _)].
  apply wp_bind. eapply wp_mono, Pinned_image. intros h1 [pin|e] Hp; cbn; intros (Hne & Hs & Hi & _).
  - destruct (Hp pin eq_refl) as [s ->]. by apply allowed_append.
  - done.
Qed.
Lemma channelStatus_admitted v target i u now cur :
  allowedImage v target → channelAdmitted v cur →
  channelAdmitted v (mkChannel (ch_Meta cur) (ch_Spec cur) (channelStatus target i u now cur)).
Proof.
  intros Ht (Hne & Hs & Hi & Hp). split_and!; [done|done|..]; cbn; by destruct (_ && _).
Qed.
Lemma channel_justified v name : wp (reconcileChannel name) (fun h _ => justified (channelWrite v) h) [].
Proof.
  set (J := channelWrite v). unfold reconcileChannel. apply wp_bind, wp_send. intros [ch|e].
  2:{ assert (justified J ([] ++ [ev (Get KChannel name "") (Err e)])) as Hj
        by by apply justified_snoc, I; apply justified_nil.
      by destruct (isNotFound e). }
  assert (warranted J [ev (Get KChannel name "") (Ok ch)] ([] ++ [ev (Get KChannel name "") (Ok ch)])) as Hh
    by by apply warranted_snoc; [apply warranted_nil|].
  revert Hh. generalize ([] ++ [ev (Get KChannel name "") (Ok ch)]). intros h Hh.
  assert (∀ W, keeps (warranted J W) (channelTarget ch)) as Hk.
  { intros W h1 [Hj HW]. apply wp_prefix. eapply wp_mono; [|apply (keeps_justified J), Hj].
    - intros h2 a Hj2 [h3 ->]. split; [done|]. intros w Hw. apply elem_of_app. left. auto.
    - unfold channelTarget. emits_tac; try done; by apply emits_Pinned. }
  apply wp_bind. eapply wp_mono; [|apply wp_and; [by apply Hk|apply channelTarget_allowed]].
  clear h Hh Hk. intros h [target err] [Hh Ht]. cbn in Ht.
  eapply (wp_mono _ (fun h _ => warranted J [ev (Get KChannel name "") (Ok ch)] h));
    [by intros h' a []|].
  revert h Hh.
  match goal with |- ∀ h, _ → wp ?p _ h => enough (keeps (warranted J [ev (Get KChannel name "") (Ok ch)]) p)
    as Hq by exact Hq end.
  apply keeps_tryBind; [by apply keeps_send|]. intros l. cbv zeta. apply keeps_tryBind; [|intros u].
  - apply keeps_retry. apply keeps_read; [done|]. intros [cur|e]; [|by intros h' Hh'].
    set (W := _ :: _). apply keeps_bind; [destruct (_ && _); [by apply keeps_send|by intros h' Hh']|].
    intros now. apply keeps_tryBind; [|by intros u h' Hh']. apply keeps_send. intros h' [_ HW] Hs.
    apply channelStatus_admitted.
    + apply Ht. eapply (proj2 (proj2 Hs)), HW. right. left.
    + eapply (proj2 (proj2 Hs)), HW. left.
  - destruct err; by intros h' Hh'.
Qed.

(** ** Properties *)

(** C8. Whatever a pass writes, the pods it leads to are restricted.  Those of Deployments,
    StatefulSets and Jobs have no service account token, do not run as root, have the default
    seccomp profile, and in every container, init containers included, no privilege escalation,
    a read-only root file system and no capabilities.  Those that the redis operator starts do
    not run as root and have the default seccomp profile.  Those of a Cluster or a Pooler are
    built by CNPG, whose security settings the resource does not override.  A pass writes no
    bare pod and no other custom resource that makes an operator start pods. *)
Theorem pods_restricted m st h r :
  runs (reconcileAll m st) h r → Forall (fun q => hardened q = true) (reqs h).
Proof.
  intros Hr. eapply Forall_impl; [eapply emits_runs, Hr; apply sealed_all|]. by intros q [].
Qed.

(** C5. The image allow list holds in the cluster: when the instances and channels that the API
    server shows have passed the webhooks, every image that a run of [Reconcile] puts into a
    Deployment, a StatefulSet, a Job, a database Cluster or a redis resource starts with an
    allowed prefix or is one of the operator's own defaults.  Channels, digest pinning and the
    digest kept in the status do not get around the list. *)
Theorem images_allowed v drift name ns h r :
  runs (Reconcile drift name ns) h r → shownAdmitted v h → Forall (imagesAllowed v) (reqs h).
Proof.
  intros Hr Hs. unfold Reconcile in Hr. destruct Hr as (x & h' & -> & Hr).
  change (ev ?q x :: h') with ([ev q x] ++ h') in *. apply shownAdmitted_app in Hs as [Hs1 Hs2].
  constructor; [apply Forall_nil_2|]. destruct x as [m|e]; cbn [bind] in Hr.
  2:{ destruct (isNotFound e); destruct Hr as [-> _]; constructor. }
  assert (admitted v m) as Hm by (eapply (proj1 Hs1); left).
  destruct (deleting m).
  { eapply Forall_impl; [eapply emits_runs, Hr; apply imageless_delete|]. intros q. apply imageless_allowed. }
  destruct (addFinalizer _ _) as [om []]; [|by eapply live_allowed].
  destruct Hr as (y & h2 & -> & Hr). change (ev ?q y :: h2) with ([ev q y] ++ h2) in *.
  apply shownAdmitted_app in Hs2 as [Hs2 Hs3]. constructor; [apply Forall_nil_2|].
  destruct y as [m'|e]; cbn [bind] in Hr; [|destruct Hr as [-> _]; constructor].
  eapply live_allowed; [|exact Hr|exact Hs3]. eapply (proj1 (proj2 Hs2)). left.
Qed.

(** C31. The channel controller keeps the images of a channel allowed: with channels admitted, the
    status it writes names, now and as the previous image, only allowed images. *)
Theorem channel_stays_admitted v name h r :
  runs (reconcileChannel name) h r → shownAdmitted v h →
  ∀ o x, ev (StatusUpdate KChannel o) x ∈ h → channelAdmitted v o.
Proof.
  pose proof (channel_justified v name) as Hw. rewrite wp_runs in Hw. intros Hr Hs o x Hin.
  specialize (Hw _ _ Hr). apply list_elem_of_split in Hin as (h1 & h2 & ->).
  apply (Hw h1 _ h2 eq_refl). by apply shownAdmitted_app in Hs as [Hs _].
Qed.
End Whole.
