(* ===== verification/Progress.v ===== *)
(** * What a pass over a settled instance achieves

    The gates of [Safety] say when a rollout may start; here it is shown that it does start.
    [settled m] says what the answers of an API server look like that refuses nothing and has
    the backends of the instance up and its Jobs completed.  [yields] and [hits] walk over the
    runs with such answers: the result that all of them have, and an event that none of them
    lacks. *)
From S2P Require Export Hardening.
Local Open Scope string_scope.
Local Open Scope Z_scope.
Local Open Scope list_scope.

(** ** Runs with good answers *)

(** Every run whose events satisfy [G] ends with a result that satisfies [Q]. *)
Fixpoint yields {A} (G : event → bool) (Q : A → Prop) (p : prog A) : Prop :=
  match p with
  | Ret a => Q a
  | Do r k => ∀ x, G (ev r x) = true → yields G Q (k x)
  end.
(** Every run whose events satisfy [G] has an event that satisfies [B]. *)
Fixpoint hits {A} (G : event → bool) (B : event → Prop) (p : prog A) : Prop :=
  match p with
  | Ret _ => False
  | Do r k => ∀ x, G (ev r x) = true → B (ev r x) ∨ hits G B (k x)
  end.

Section Walk.
Context (G : event → bool).

Lemma yields_runs {A} (Q : A → Prop) (p : prog A) :
  yields G Q p → ∀ h a, runs p h a → forallb G h = true → Q a.
Proof.
  induction p as [a|r k IH]; simpl; intros Hp h b.
  - by intros [-> ->] _.
  - intros (x & h' & -> & Hr). cbn. intros [Hx Hh]%andb_true_iff. exact (IH x (Hp x Hx) _ _ Hr Hh).
Qed.
Lemma hits_runs {A} B (p : prog A) :
  hits G B p → ∀ h a, runs p h a → forallb G h = true → ∃ e, e ∈ h ∧ B e.
Proof.
  induction p as [a|r k IH]; simpl; intros Hp h b; [done|].
  intros (x & h' & -> & Hr). cbn. intros [Hx Hh]%andb_true_iff.
  destruct (Hp x Hx) as [HB|Hk]; [exists (ev r x); split; [left|done]|].
  destruct (IH x Hk _ _ Hr Hh) as (e & He & HB). exists e. split; [by right|done].
Qed.

Lemma yields_mono {A} (Q Q' : A → Prop) (p : prog A) :
  (∀ a, Q a → Q' a) → yields G Q p → yields G Q' p.
Proof. intros HQ. induction p as [a|r k IH]; simpl; eauto. Qed.
Lemma yields_any {A} (Q : A → Prop) (p : prog A) : (∀ a, Q a) → yields G Q p.
Proof. intros HQ. induction p as [a|r k IH]; simpl; eauto. Qed.
Lemma yields_and {A} (Q Q' : A → Prop) (p : prog A) :
  yields G Q p → yields G Q' p → yields G (fun a => Q a ∧ Q' a) p.
Proof. induction p as [a|r k IH]; simpl; auto. Qed.
Lemma yields_wp {A} (Q : A → Prop) (p : prog A) h : wp p (fun _ a => Q a) h → yields G Q p.
Proof. revert h. induction p as [a|r k IH]; simpl; [done|]. intros h Hw x _. by eapply IH. Qed.
Lemma yields_send {A} r (Q : A → Prop) (f : resp r → prog A) :
  (∀ x, G (ev r x) = true → yields G Q (f x)) → yields G Q (bind (send r) f).
Proof. done. Qed.
Lemma yields_bind {A B} (R : A → Prop) (Q : B → Prop) (p : prog A) (f : A → prog B) :
  yields G R p → (∀ a, R a → yields G Q (f a)) → yields G Q (bind p f).
Proof. intros Hp Hf. induction p as [a|r k IH]; simpl in *; [by apply Hf|]. eauto. Qed.
Lemma hits_l {A C} B (p : prog A) (f : A → prog C) : hits G B p → hits G B (bind p f).
Proof.
  induction p as [a|r k IH]; simpl; [done|]. intros Hp x Hx. destruct (Hp x Hx); eauto.
Qed.
Lemma hits_r {A C} (R : A → Prop) B (p : prog A) (f : A → prog C) :
  yields G R p → (∀ a, R a → hits G B (f a)) → hits G B (bind p f).
Proof.
  intros Hp Hf. induction p as [a|r k IH]; simpl in *; [by apply Hf|]. eauto.
Qed.
(** Fewer runs. *)
Lemma yields_strict (G' : event → bool) {A} (Q : A → Prop) (p : prog A) :
  (∀ e, G' e = true → G e = true) → yields G Q p → yields G' Q p.
Proof. intros HG. induction p as [a|r k IH]; simpl; eauto. Qed.
Lemma hits_strict (G' : event → bool) {A} B (p : prog A) :
  (∀ e, G' e = true → G e = true) → hits G B p → hits G' B p.
Proof.
  intros HG. induction p as [a|r k IH]; simpl; [done|]. intros Hp x Hx.
  destruct (Hp x (HG _ Hx)); eauto.
Qed.
End Walk.

(** A result without an error, with a condition on its value. *)
Definition okWith {A} (R : A → Prop) (r : result error A) : Prop :=
  match r with Ok a => R a | Err _ => False end.
Definition succeeded {A} (r : result error A) : Prop := okWith (λ _, True) r.

Section Results.
Context (G : event → bool).

Lemma yields_try {A B} (R : A → Prop) (Q : result error B → Prop) (p : rprog A) (f : A → rprog B) :
  yields G (okWith R) p → (∀ a, R a → yields G Q (f a)) → yields G Q (tryBind p f).
Proof. intros Hp Hf. eapply yields_bind; [exact Hp|]. intros [a|e]; [apply Hf|done]. Qed.
Lemma yields_forEach {A} (l : list A) (f : A → rprog unit) :
  (∀ a, a ∈ l → yields G succeeded (f a)) → yields G succeeded (forEach l f).
Proof.
  induction l as [|x l IH]; intros Hf; simpl; [exact I|].
  eapply yields_try; [apply Hf; left|]. intros _ _. apply IH. intros a Ha. apply Hf. by right.
Qed.
Lemma yields_collect {A B} (l : list A) (f : A → rprog B) :
  (∀ a, a ∈ l → yields G succeeded (f a)) → yields G succeeded (collect l f).
Proof.
  induction l as [|x l IH]; intros Hf; simpl; [exact I|].
  eapply yields_try; [apply Hf; left|]. intros y _.
  eapply yields_try; [apply IH; intros a Ha; apply Hf; by right|]. done.
Qed.
Lemma yields_mapP {A B} (R : A → B → Prop) (l : list A) (f : A → prog B) :
  (∀ a, a ∈ l → yields G (R a) (f a)) → yields G (Forall2 R l) (mapP l f).
Proof.
  induction l as [|x l IH]; intros Hf; simpl; [constructor|].
  eapply yields_bind; [apply Hf; left|]. intros y Hy.
  eapply yields_bind; [apply IH; intros a Ha; apply Hf; by right|].
  intros ys Hys. by constructor.
Qed.
(** The first attempt succeeds. *)
Lemma yields_retry `{KubeLib} {A} (R : A → Prop) (f : rprog A) :
  yields G (okWith R) f → yields G (okWith R) (retryOnConflict f).
Proof.
  intros Hf. unfold retryOnConflict. destruct (pred retrySteps) as [|n]; [done|].
  cbn [retryLoop]. eapply yields_bind; [exact Hf|]. by intros [a|e].
Qed.
Lemma hits_retry `{KubeLib} {A} B (f : rprog A) : hits G B f → hits G B (retryOnConflict f).
Proof.
  intros Hf. unfold retryOnConflict. destruct (pred retrySteps) as [|n]; [done|]. by apply hits_l.
Qed.
Lemma hits_try_l {A C} B (p : rprog A) (f : A → rprog C) : hits G B p → hits G B (tryBind p f).
Proof. apply hits_l. Qed.
Lemma hits_try_r {A C} (R : A → Prop) B (p : rprog A) (f : A → rprog C) :
  yields G (okWith R) p → (∀ a, R a → hits G B (f a)) → hits G B (tryBind p f).
Proof. intros Hp Hf. eapply hits_r; [exact Hp|]. intros [a|e]; [apply Hf|done]. Qed.
End Results.

(** ** A settled cluster *)

Definition shows {A} (x : result error A) (f : A → bool) : bool :=
  match x with Ok a => f a | Err _ => false end.
Definition showsOrMisses {A} (x : result error A) (f : A → bool) : bool :=
  match x with Ok a => f a | Err e => isNotFound e end.
Definition accepted {A} (x : result error A) : bool := shows x (fun _ => true).

(** An object in the namespace of the instance that no other controller has. *)
Definition adoptable (m : Misskey) (om : ObjectMeta) : bool :=
  String.eqb (om_Namespace om) (m_Namespace m)
  && forallb (fun r => negb (own_Controller r) || refersTo m r) (om_OwnerReferences om).
(** [SetControllerReference] refuses only objects of another namespace or controller. *)
Class AdoptLaws `{KubeLib} :=
  adopts : ∀ m om, adoptable m om = true → ∃ om', setControllerReference m om = Ok om'.

Section Settled.
Context `{QuantityLib}.

(** The claims that the StatefulSets of the instance are to have. *)
Definition wantedClaims (m : Misskey) : list (string * list PersistentVolumeClaim) :=
  map (fun i => (nameRedisInstance m (ri_suffix i),
                 sts_VolumeClaimTemplates (redisStatefulSet m i ∅ (newStatefulSet "" ""))))
    (managedRedisInstances m) ++
  [(nameMeili m, sts_VolumeClaimTemplates (meiliStatefulSet m (resolve m) ∅ (newStatefulSet "" "")))].
Definition claimsAsWanted (m : Misskey) (name : string) (s : StatefulSet) : bool :=
  forallb (fun '(n, desired) => negb (String.eqb n name)
             || negb (volumeClaimTemplatesChanged (sts_VolumeClaimTemplates s) desired))
    (wantedClaims m).

(** The pods of every redis instance in HA among the pods with these labels. *)
Definition podsReady (m : Misskey) (sel : gmap string string) (pods : list Pod) : bool :=
  forallb (fun i => negb (bool_decide (sel = {["app" := nameRedisHA m (ri_suffix i)]}))
             || (ri_replicas i <=? wrap32 (Z.of_nat (length (List.filter podReady pods)))))
    (managedRedisInstances m).

(** An answer of a server that refuses nothing and has the backends of [m] up: Jobs are
    completed, StatefulSets ready and with the claims they are to have, the Cluster has its
    instances; other objects may be there or not. *)
Definition settled (m : Misskey) (e : event) : bool :=
  let 'existT r x := e in
  match r return resp r → bool with
  | Get k name _ =>
      match k return result error (objT k) → bool with
      | KJob => fun x => shows x (fun j => 1 <=? job_Succeeded j)
      | KStatefulSet => fun x => shows x (fun s =>
          (1 <=? sts_ReadyReplicas s) && bool_decide (om_DeletionTimestamp (sts_Meta s) = None)
          && claimsAsWanted m name s)
      | KMisskey => fun x => accepted x
      | KU g => fun x =>
          if bool_decide (g = cnpgClusterGVK) && String.eqb name (nameDB m)
          then shows x (fun c => int32OrDefault (pg_Instances (spec_Postgres (m_Spec m))) 1
                                 <=? nestedInt64 (u_Object c) ["status"; "readyInstances"])
          else showsOrMisses x (fun _ => true)
      | _ => fun x => showsOrMisses x (fun _ => true)
      end
  | ListIn k _ sel =>
      match k return result error (list (objT k)) → bool with
      | KPod => fun x => shows x (podsReady m sel)
      | _ => fun x => accepted x
      end
  | UpsertBegin k o => fun x => shows x (fun o' =>
      named (om_Name (metaOf k o)) (om_Namespace (metaOf k o)) (metaOf k o')
      && adoptable m (metaOf k o'))
  | Create _ _ | Update _ _ | StatusUpdate _ _ | UpsertCommit _ _ => fun x => accepted x
  | Apply _ | RandRead _ => fun x => accepted x
  | DeleteObj _ _ _ _ => fun x => showsOrMisses x (fun _ => true)
  | _ => fun _ => true
  end x.

Lemma settled_status m s : settled (set_m_Status s m) = settled m.
Proof. reflexivity. Qed.
End Settled.

(** *** The client operations *)

(** The mutation of an object keeps its name, namespace and owners. *)
Definition sameOwner (a b : ObjectMeta) : Prop :=
  om_Name b = om_Name a ∧ om_Namespace b = om_Namespace a
  ∧ om_OwnerReferences b = om_OwnerReferences a.

Section Client.
Context `{OwnerLaws} {AL : AdoptLaws} `{QuantityLib}.

Lemma adoptable_same m a b : sameOwner a b → adoptable m a = true → adoptable m b = true.
Proof. intros (_ & Hns & Ho). unfold adoptable. by rewrite Hns, Ho. Qed.
Lemma adoptable_fresh m om :
  om_Namespace om = m_Namespace m → om_OwnerReferences om = [] → adoptable m om = true.
Proof. intros Hns Ho. unfold adoptable. by rewrite Hns, Ho, String.eqb_refl. Qed.

Lemma yields_deleteIfExists m k n ns :
  yields (settled m) succeeded (deleteIfExists k n ns).
Proof. apply yields_send. intros [u|e] Hx; [exact I|]. cbn in Hx. by rewrite Hx. Qed.
Lemma yields_applySSA m u :
  om_Namespace (u_Meta u) = m_Namespace m → om_OwnerReferences (u_Meta u) = [] →
  yields (settled m) succeeded (applySSA m u).
Proof.
  intros Hns Ho. unfold applySSA. destruct (adopts m (u_Meta u)) as [om ->].
  { by apply adoptable_fresh. }
  intros [[]|e] Hx; [exact I|done].
Qed.
Lemma yields_apply m k o f :
  (∀ live, yields (settled m) (okWith (fun b => sameOwner (metaOf k live) (metaOf k b))) (f live)) →
  yields (settled m) succeeded (applyOwned m k o f).
Proof.
  intros Hf. unfold applyOwned. unfold tryBind at 1. apply yields_send. intros [live|e] Hx; [|done].
  cbn in Hx. apply andb_true_iff in Hx as [_ Ha].
  eapply yields_try; [apply Hf|]. intros o' Hs. destruct (adopts m (metaOf k o')) as [om ->].
  { exact (adoptable_same _ _ _ Hs Ha). }
  intros [o2|e] Hx'; [exact I|done].
Qed.
(** The write that [applyOwned] ends with. *)
Definition wrote (k : kind) (name ns : string) (R : objT k → Prop) (e : event) : Prop :=
  ∃ b om x, e = ev (UpsertCommit k (setMeta k om b)) (Ok x)
            ∧ om_Name om = name ∧ om_Namespace om = ns ∧ R b.
Lemma hits_apply m k o f (R : objT k → Prop) :
  (∀ live, yields (settled m)
     (okWith (fun b => sameOwner (metaOf k live) (metaOf k b) ∧ R b)) (f live)) →
  hits (settled m) (wrote k (om_Name (metaOf k o)) (om_Namespace (metaOf k o)) R)
    (applyOwned m k o f).
Proof.
  intros Hf. unfold applyOwned. cbn -[settled setMeta runs tryBind]. intros [live|e] Hx; [|done].
  right. cbn in Hx. apply andb_true_iff in Hx as [Hn Ha].
  eapply hits_try_r; [apply Hf|]. intros o' [Hs HR].
  destruct (adopts m (metaOf k o')) as [om Eom]; [exact (adoptable_same _ _ _ Hs Ha)|]. rewrite Eom.
  cbn. intros [o2|e] Hc; [|done]. left. exists o', om, o2.
  apply scr_keeps in Eom as [-> ->]. destruct Hs as (-> & -> & _).
  by rewrite (named_name _ _ _ Hn), (named_ns _ _ _ Hn).
Qed.
End Client.

Create HintDb progress.
(** Walks over a handler whose requests are answered well. *)
Ltac answer :=
  let Hx := fresh "Hx" in
  first [intros [?|?] Hx | intros ? Hx]; cbn in Hx;
  first [discriminate Hx | try rewrite Hx].
Ltac progress_step :=
  lazymatch goal with
  | |- yields _ _ (ok _) => first [exact I|solve [cbn; unfold sameOwner; repeat case_match; split_and!; reflexivity]]
  | |- yields _ _ (Ret _) => first [exact I|assumption|done]
  | Hx : isNotFound ?e = true |- yields _ _ (lift (ignoreNotFound (Err ?e))) =>
      cbn; rewrite Hx; exact I
  | |- yields _ _ (lift _) => first [exact I|assumption|done]
  | |- yields _ _ (bind (send _) _) => apply yields_send; answer
  | |- yields _ _ (bind (event_ _ _ _ _) _) => apply yields_send; intros ? _
  | |- yields _ _ (event_ _ _ _ _) => intros ? _
  | |- yields _ _ (tryBind (send _) _) => unfold tryBind at 1; apply yields_send; answer
  | |- yields _ _ (send _) => answer; exact I
  | |- yields _ _ (deleteIfExists _ _ _) => apply yields_deleteIfExists
  | |- yields _ _ (applyOwned _ _ _ _) => apply yields_apply; intros ?
  | |- yields _ _ (applySSA _ _) => apply yields_applySSA; [try solve [repeat case_match; reflexivity]..]
  | |- yields _ _ (forEach _ _) => apply yields_forEach; intros ? ?
  | |- yields _ _ (collect _ _) => apply yields_collect; intros ? ?
  | |- yields _ _ (tryBind _ _) =>
      eapply (yields_try _ (fun _ => True)); [|intros ? _]
  | |- yields _ _ (match ?x with _ => _ end) => destruct x
  | |- yields _ _ (bind _ _) =>
      eapply (yields_bind _ (fun _ => True)); [apply yields_any; exact (fun _ => I)|intros ? _]
  end.
Ltac progress_tac := repeat (solve [auto with progress nocore] || progress_step).

Section Handlers.
Context `{OwnerLaws} {AL : AdoptLaws} `{QuantityLib} (m : Misskey).

Local Notation "⊩ p" := (yields (settled m) succeeded p) (at level 70).

Lemma yields_secretVersion ns name : ⊩ (secretVersion ns name).
Proof. unfold secretVersion. progress_tac. Qed.
#[local] Hint Resolve yields_secretVersion : progress.
Lemma yields_versions p : ⊩ (referencedSecretVersions m p).
Proof. unfold referencedSecretVersions. progress_tac. Qed.
#[local] Hint Resolve yields_versions : progress.
Lemma yields_generated name c k n : ⊩ (generatedSecret m name c k n).
Proof. unfold generatedSecret, secretMutate, randomHex, markRotation. progress_tac. Qed.
#[local] Hint Resolve yields_generated : progress.
Lemma yields_cleanupJobs c keep : ⊩ (cleanupJobs m c keep).
Proof. unfold cleanupJobs. progress_tac. Qed.
#[local] Hint Resolve yields_cleanupJobs : progress.
Lemma yields_configmaps p : ⊩ (reconcileConfigMaps m p).
Proof. unfold reconcileConfigMaps, setData. progress_tac. Qed.
Lemma yields_tenancy : ⊩ (reconcileTenancy m).
Proof.
  unfold reconcileTenancy, reconcileNetworkIsolation, reconcileEgressIsolation,
    reconcileResourceQuota, reconcileLimitRange. progress_tac.
Qed.
Lemma yields_pdb c : ⊩ (reconcilePDB m c).
Proof. unfold reconcilePDB. progress_tac. Qed.
#[local] Hint Resolve yields_configmaps yields_tenancy yields_pdb : progress.
Lemma yields_detector p : ⊩ (reconcileSensitiveDetector m p).
Proof. unfold reconcileSensitiveDetector, setData. progress_tac. Qed.
#[local] Hint Resolve yields_detector : progress.
Lemma yields_secrets :
  ⊩ (reconcileMeiliSecret m) ∧ ⊩ (reconcileSetupSecret m) ∧ ⊩ (reconcileSensitiveDetectorSecret m).
Proof.
  unfold reconcileMeiliSecret, reconcileSetupSecret, reconcileSensitiveDetectorSecret.
  split_and!; progress_tac.
Qed.
Lemma yields_prerequisites p : ⊩ (reconcilePrerequisites m p).
Proof.
  destruct yields_secrets as (? & ? & ?). unfold reconcilePrerequisites, when. progress_tac.
Qed.
Lemma yields_postgres : ⊩ (reconcilePostgres m).
Proof. unfold reconcilePostgres. progress_tac. Qed.
Lemma yields_poolers : ⊩ (reconcilePoolers m).
Proof. unfold reconcilePoolers, deletePooler. progress_tac. Qed.
Lemma yields_autoscaler c n a p : ⊩ (reconcileAutoscaler m c n a p).
Proof.
  unfold reconcileAutoscaler, reconcileScaledObject, deleteScaledObject, deleteHPA,
    deleteTriggerAuth. progress_tac.
Qed.
Lemma yields_monitoring p : ⊩ (reconcileMonitoring m p).
Proof.
  unfold reconcileMonitoring, cleanupRedisMonitors, deleteMonitor, redisMonitor,
    buildPrometheusRule. destruct (alertRules m); progress_tac.
Qed.
Lemma yields_proxy : ⊩ (reconcileProxy m).
Proof.
  unfold reconcileProxy, deleteLegacyMaintenanceWorkload, deleteProxyResources,
    deleteMaintenanceHTMLConfigMap. progress_tac.
Qed.
Lemma yields_ingress p : ⊩ (reconcileIngress m p).
Proof. unfold reconcileIngress. progress_tac. Qed.
Lemma yields_cleanupOS : ⊩ (cleanupObjectStorage m).
Proof. unfold cleanupObjectStorage, cleanupObjectStorageJobs. progress_tac. Qed.
Lemma yields_appService : ⊩ (reconcileAppService m).
Proof. unfold reconcileAppService. progress_tac. Qed.
Lemma yields_suspend p : ⊩ (suspendWorkloads m p).
Proof.
  unfold suspendWorkloads, suspendOne, deleteHPA, deleteScaledObject, deleteTriggerAuth.
  progress_tac.
Qed.
End Handlers.

(** *** The backends *)

Section Backends.
Context `{OwnerLaws} {AL : AdoptLaws} `{QuantityLib} (m : Misskey).
Local Notation "⊩ p" := (yields (settled m) succeeded p) (at level 70).
#[local] Hint Resolve yields_secretVersion yields_generated yields_postgres yields_poolers
  yields_cleanupOS yields_appService : progress.

(** A StatefulSet with the claims it is to have is not replaced. *)
Lemma yields_applySts sts f desired :
  (om_Name (sts_Meta sts), desired) ∈ wantedClaims m →
  (∀ live, yields (settled m) (okWith (fun b => sameOwner (sts_Meta live) (sts_Meta b)
     ∧ sts_VolumeClaimTemplates b = desired)) (f live)) →
  ⊩ applyStatefulSet m sts f.
Proof.
  intros Hin Hf. unfold applyStatefulSet. eapply yields_try; [apply Hf|].
  intros sts' [(Hn & Hns & _) Hd]. cbv zeta. apply yields_send. intros [s|e] Hx; [|done].
  cbn in Hx. apply andb_true_iff in Hx as [Hx Hc]. apply andb_true_iff in Hx as [_ Hdel].
  apply bool_decide_eq_true in Hdel. unfold claimsAsWanted in Hc. rewrite forallb_forall in Hc.
  apply list_elem_of_In, Hc in Hin. rewrite Hn, String.eqb_refl in Hin. cbn in Hin.
  apply negb_true_iff in Hin. rewrite Hdel, Hd, Hin. eapply (yields_try _ (fun _ => True)); [exact I|].
  intros _ _. apply yields_apply. intros live. eapply yields_mono, Hf.
  by intros [b|e] Hb; [apply Hb|].
Qed.
Lemma wanted_redis i : i ∈ managedRedisInstances m →
  (nameRedisInstance m (ri_suffix i), sts_VolumeClaimTemplates (redisStatefulSet m i ∅ (newStatefulSet "" "")))
  ∈ wantedClaims m.
Proof.
  intros Hi. apply elem_of_app. left.
  apply (list_elem_of_fmap_2 (fun i => (nameRedisInstance m (ri_suffix i), _)) _ _ Hi).
Qed.
Lemma yields_instance i : i ∈ managedRedisInstances m → ⊩ reconcileInstance m i.
Proof.
  intros Hi%wanted_redis. unfold reconcileInstance, deleteRedisStandalone, reconcileRedisHA,
    reconcileRedisHANetworkPolicy, deleteRedisHA, deleteRedisHANetworkPolicy,
    reconcileRedisStandalone.
  progress_tac. eapply yields_applySts; [exact Hi|]. intros live. progress_tac.
Qed.
#[local] Hint Resolve yields_instance : progress.
Lemma yields_redis : ⊩ reconcileRedis m.
Proof.
  unfold reconcileRedis, reconcileRedisAuthSecret, cleanupSuffix, deleteRedisStandalone,
    deleteRedisHA, deleteRedisHANetworkPolicy. progress_tac.
Qed.
Lemma yields_meili : ⊩ reconcileMeilisearch m (resolve m).
Proof.
  unfold reconcileMeilisearch. progress_tac. eapply yields_applySts.
  - apply elem_of_app. right. left.
  - intros live. progress_tac.
Qed.
#[local] Hint Resolve yields_redis yields_meili : progress.
Lemma yields_backends : ⊩ reconcileBackends m (resolve m).
Proof. unfold reconcileBackends, when. progress_tac. Qed.

(** The restore test changes the status only. *)
Definition sameSpec (x : Misskey * result error unit) : Prop :=
  (∃ s, x.1 = set_m_Status s m) ∧ succeeded x.2.
Lemma sameSpec_refl : sameSpec (m, Ok tt).
Proof. split; [exists (m_Status m); by destruct m|exact I]. Qed.
Lemma yields_verifyDone v a b c : yields (settled m) sameSpec (finishVerify m v a b c).
Proof.
  unfold finishVerify. eapply (yields_bind _ sameSpec).
  - unfold recordBackupVerification. eapply yields_bind.
    + apply (yields_retry _ (fun _ => True)). progress_tac.
    + intros [cur|e] Hr; [|done]. split; [by eexists|exact I].
  - intros [m' [u|e]] [Hs Hr]; [|done]. apply yields_send. intros _ _.
    eapply yields_bind; [apply yields_deleteIfExists|]. intros r Hd. by split.
Qed.
Lemma yields_verify : yields (settled m) sameSpec (reconcileBackupVerify m).
Proof.
  unfold reconcileBackupVerify.
  assert (yields (settled m) sameSpec (let! d := deleteVerifyCluster m in Ret (m, d))) as Hdel.
  { eapply yields_bind; [apply yields_deleteIfExists|]. intros d Hd.
    split; [apply sameSpec_refl|exact Hd]. }
  destruct (pg_Backup _) as [b|]; [|exact Hdel]. destruct (bk_Verify b) as [vs|]; [|exact Hdel].
  apply yields_send. intros [cluster|e] Hx.
  - apply yields_send. intros now _. cbv zeta. destruct (1 <=? _); [apply yields_verifyDone|].
    destruct (_ <? _); [apply yields_verifyDone|apply sameSpec_refl].
  - assert (isNotFound e = true) as ->.
    { revert Hx. cbn. by case_bool_decide; destruct (String.eqb _ _). }
    apply yields_send. intros now _. destruct (negb _); [apply sameSpec_refl|].
    eapply yields_bind; [by apply yields_applySSA|]. intros [u|e'] Ha; [|done].
    apply yields_send. intros _ _. apply sameSpec_refl.
Qed.
Lemma yields_database : yields (settled m) sameSpec (reconcileDatabase m (resolve m)).
Proof.
  unfold reconcileDatabase. destruct (p_dbManaged _); [|apply sameSpec_refl].
  eapply (yields_bind _ succeeded); [progress_tac|].
  intros [u|e] Hr; [apply yields_verify|done].
Qed.
End Backends.

(** *** The gates and the rollout *)

Section Rollout.
Context `{OwnerLaws} {AL : AdoptLaws} `{QuantityLib} (m : Misskey).
Local Notation "⊩ p" := (yields (settled m) succeeded p) (at level 70).

(** What the spec has to allow: a Cluster with instances, and object storage settings that
    become SQL. *)
Record feasible : Prop := mkFeasible {
  fs_instances : p_dbManaged (resolve m) = true → 0 < int32OrDefault (pg_Instances (spec_Postgres (m_Spec m))) 1;
  fs_storage : p_objAutoConfigure (resolve m) = true → succeeded (objectStorageAssignments (resolve m)) }.

#[local] Hint Resolve yields_secretVersion yields_versions yields_cleanupJobs yields_pdb
  yields_autoscaler : progress.

Lemma passes_database : feasible → yields (settled m) (.= true) (databaseReady m (resolve m)).
Proof.
  intros [Hi _]. unfold databaseReady, databaseCondition. destruct (p_dbManaged (resolve m)); [|done].
  apply yields_send. intros [c|e] Hx; cbn in Hx; rewrite String.eqb_refl, andb_true_r in Hx;
    rewrite bool_decide_eq_true_2 in Hx by done; [|done].
  specialize (Hi eq_refl). cbv zeta. cbn. by rewrite Hx, (proj2 (Z.ltb_lt _ _) Hi).
Qed.
Lemma passes_migrate : yields (settled m) (okWith (.= true)) (migrate m (resolve m)).
Proof.
  assert (yields (settled m) (okWith (.= true)) (reconcilePreMigrationBackup m (resolve m))) as Hb.
  { unfold reconcilePreMigrationBackup, cleanupOldPreMigrationBackups.
    destruct (_ || _); [done|]. eapply (yields_try _ (fun _ => True)); [progress_tac|].
    intros _ _. apply yields_send. by intros [j|e]. }
  unfold migrate. eapply yields_try; [exact Hb|]. intros b ->.
  unfold reconcileMigration, cleanupOldMigrationJobs, migrationChecksum.
  eapply (yields_try _ (fun _ => True)); [progress_tac|]. intros _ _.
  eapply (yields_try _ (fun _ => True)); [progress_tac|]. intros cs _.
  apply yields_send. intros [j|e] Hx; [|done]. cbn in Hx.
  assert ((job_Succeeded j =? 0) = false) as -> by (apply Z.leb_le in Hx; lia). done.
Qed.
Lemma passes_job job : yields (settled m) (okWith (.= true)) (
  let! r := send (Get KJob job (m_Namespace m)) in
  match r with Err e => fail e | Ok j => ok (1 <=? job_Succeeded j) end).
Proof. apply yields_send. by intros [j|e] Hx. Qed.
Lemma passes_storage : feasible → p_objAutoConfigure (resolve m) = true →
  yields (settled m) (okWith (.= true)) (reconcileObjectStorage m (resolve m)).
Proof.
  intros [_ Hs] Ha. specialize (Hs Ha). unfold reconcileObjectStorage, cleanupObjectStorageJobs.
  destruct (objectStorageAssignments (resolve m)) as [l|e]; [|done].
  eapply (yields_try _ (fun _ => True)); [exact I|]. intros l' _.
  eapply (yields_bind _ (fun _ => True)); [by apply yields_any|]. intros hash _. cbv zeta.
  eapply (yields_try _ (fun _ => True)); [progress_tac|]. intros _ _.
  eapply (yields_try _ (fun _ => True)); [progress_tac|]. intros _ _.
  apply yields_send. intros [j|e] Hx; [|done]. cbn in Hx.
  assert ((job_Succeeded j =? 0) = false) as -> by (apply Z.leb_le in Hx; lia). done.
Qed.
Lemma passes_read st :
  dc_err st = None →
  yields (settled m) (fun st => dc_err st = None) (readSensitiveDetectorConfigState m st).
Proof.
  intros He. unfold readSensitiveDetectorConfigState. destruct (dc_checked st); [done|].
  eapply (yields_bind _ succeeded).
  - unfold hasSensitiveDetectorConfigState. progress_tac.
  - by intros [b|e] Hr.
Qed.
Lemma yields_detectorHash sql : ⊩ sensitiveDetectorConfigHash m (resolve m) sql.
Proof. unfold sensitiveDetectorConfigHash. progress_tac. Qed.
#[local] Hint Resolve yields_detectorHash : progress.
Lemma passes_detector st : dc_err st = None →
  yields (settled m) (fun x => dc_err x.1 = None ∧ okWith (.= true) x.2)
    (reconcileSensitiveDetectorConfig m (resolve m) st).
Proof.
  intros He. unfold reconcileSensitiveDetectorConfig.
  eapply yields_bind; [by apply passes_read|]. clear st He. intros st He. rewrite He.
  destruct (_ && _); [done|]. cbv zeta. eapply (yields_bind _ succeeded).
  { unfold cleanupSensitiveDetectorConfigJobs, setData. progress_tac. }
  intros [job|e] Hr; [|done]. eapply (yields_bind _ (okWith (.= true))).
  - unfold runDetectorConfigJob. apply yields_send. intros [j|e] Hx; [|done].
    eapply (yields_bind _ (fun _ => True)); [by apply yields_any|]. intros _ _. exact Hx.
  - intros b Hb. split; [|exact Hb]. done.
Qed.
Lemma passes_configure st : feasible → dc_err st = None →
  yields (settled m) (fun x => dc_err x.1 = None ∧ okWith (fun r => r = (true, true)) x.2)
    (configureInstance m (resolve m) (negb (p_sensitiveDetectorEnabled (resolve m)) && negb (dc_exists st)) st).
Proof.
  intros Hf He. unfold configureInstance. eapply (yields_bind _ (okWith (.= true))).
  { destruct (p_objAutoConfigure (resolve m)) eqn:Ea; [by apply passes_storage|done]. }
  intros [o|e] Ho; [|done]. cbn in Ho. subst o.
  destruct (p_sensitiveDetectorEnabled (resolve m)), (dc_exists st); cbn [orb negb andb];
    try (eapply yields_bind; [by apply passes_detector|]; intros [st' [b|e]] [He' Hb]; [|done];
         cbn in Hb; by subst b).
  done.
Qed.
Lemma passes_instance i : i ∈ managedRedisInstances m →
  yields (settled m) (fun c => (c.2 <=? c.1) = true) (instanceReady m i).
Proof.
  intros Hi. unfold instanceReady, readyPodsByAppLabel. destruct (ri_ha i).
  - apply (yields_bind _ (fun n => (ri_replicas i <=? n) = true)); [|done].
    apply yields_send. intros [pods|e] Hx; [|done]. cbn in Hx. unfold podsReady in Hx.
    rewrite forallb_forall in Hx. apply list_elem_of_In, Hx in Hi.
    by rewrite bool_decide_eq_true_2 in Hi.
  - apply yields_send. intros [s|e] Hx; [|done]. cbn in Hx.
    by apply andb_true_iff in Hx as [[Hr _]%andb_true_iff _].
Qed.
Lemma passes_redis : yields (settled m) (.= true) (redisReady m).
Proof.
  unfold redisReady, redisCondition.
  apply (yields_bind _ (fun v => isTrue3 v = true)); [|done].
  destruct (managedRedisInstances m) as [|i0 l0] eqn:E; [done|]. rewrite <- E at 1.
  eapply yields_bind.
  { apply (yields_mapP _ (fun i c => c.1 = i ∧ (c.2.2 <=? c.2.1) = true)). intros i Hi.
    eapply yields_bind; [by apply passes_instance|]. by intros c Hc. }
  intros counts Hc. cbv beta zeta.
  assert (forallb (fun '(_, (ready, desired)) => desired <=? ready) counts = true) as ->; [|done].
  apply forallb_forall. intros [i [r d]] Hin%list_elem_of_In.
  apply list_elem_of_lookup in Hin as [k Hk].
  destruct (Forall2_lookup_r _ _ _ _ _ Hc Hk) as (i' & _ & _ & Hr). exact Hr.
Qed.

(** The write of the Deployment of a role, with the pods of the spec. *)
Definition rolledOut (role name : string) (comp : ComponentSpec) : event → Prop :=
  wrote KDeployment name (m_Namespace m)
    (fun dep => pt_Spec (dep_Template dep) = buildMisskeyPodSpec m (resolve m) role comp).
Definition rolledApp : event → Prop :=
  rolledOut roleApp (nameApp m) (app_ComponentSpec (spec_App (m_Spec m))).
Definition rolledWorker : event → Prop :=
  rolledOut roleWorker (nameWorker m) (worker_ComponentSpec (spec_Worker (m_Spec m))).

Lemma yields_checksum : ⊩ misskeyChecksum m (resolve m).
Proof.
  unfold misskeyChecksum. eapply (yields_try _ (fun _ => True)); [progress_tac|]. intros vs _.
  eapply (yields_bind _ (fun _ => True)); [by apply yields_any|]. intros obj _. progress_tac.
Qed.
#[local] Hint Resolve yields_checksum : progress.
Lemma yields_role role name comp sc : ⊩ applyRole m (resolve m) role name comp sc.
Proof. unfold applyRole. progress_tac. Qed.
#[local] Hint Resolve yields_role : progress.
Lemma hits_role role name comp sc :
  hits (settled m) (rolledOut role name comp) (applyRole m (resolve m) role name comp sc).
Proof.
  apply (hits_apply m KDeployment (newDeployment name (m_Namespace m))). intros live. progress_tac.
Qed.
Lemma yields_app : ⊩ reconcileApp m (resolve m).
Proof. unfold reconcileApp. progress_tac. Qed.
Lemma yields_worker : ⊩ reconcileWorker m (resolve m).
Proof. unfold reconcileWorker. progress_tac. Qed.

Lemma yields_rollout st : feasible → dc_err st = None →
  yields (settled m) (fun x => dc_err x.1 = None ∧ succeeded x.2) (reconcileRollout m (resolve m) st).
Proof.
  intros Hf He. unfold reconcileRollout. cbv zeta. destruct (spec_Suspend _).
  { eapply yields_bind; [apply yields_suspend|]. by intros [[]|e] Hr. }
  eapply yields_bind; [by apply passes_database|]. intros db ->. cbn [negb].
  eapply yields_bind; [apply passes_migrate|]. intros [b|e] Hb; [|done]. cbn in Hb. subst b.
  eapply yields_bind; [by apply passes_configure|].
  intros [st' [od|e]] [He' Ho]; [|done]. cbn in Ho. subst od. cbn [andb].
  eapply yields_bind; [apply passes_redis|]. intros r ->. cbn [when].
  eapply (yields_bind _ succeeded).
  { eapply (yields_try _ (fun _ => True)); [apply yields_app|]. intros _ _. apply yields_worker. }
  by intros [u|e] Hr.
Qed.
Lemma hits_rollout B st : feasible → dc_err st = None → spec_Suspend (m_Spec m) = false →
  hits (settled m) B (do reconcileApp m (resolve m); reconcileWorker m (resolve m)) →
  hits (settled m) B (reconcileRollout m (resolve m) st).
Proof.
  intros Hf He Hs HB. unfold reconcileRollout. cbv zeta. rewrite Hs.
  eapply hits_r; [by apply passes_database|]. intros db ->. cbn [negb].
  eapply hits_r; [apply passes_migrate|]. intros [b|e] Hb; [|done]. cbn in Hb. subst b.
  eapply hits_r; [by apply passes_configure|].
  intros [st' [od|e]] [He' Ho]; [|done]. cbn in Ho. subst od. cbn [andb].
  eapply hits_r; [apply passes_redis|]. intros r ->. cbn [when]. by apply hits_l.
Qed.
Lemma hits_app : hits (settled m) rolledApp (do reconcileApp m (resolve m); reconcileWorker m (resolve m)).
Proof. apply hits_try_l. unfold reconcileApp. apply hits_try_l, hits_role. Qed.
Lemma hits_worker :
  hits (settled m) rolledWorker (do reconcileApp m (resolve m); reconcileWorker m (resolve m)).
Proof.
  eapply hits_try_r; [apply yields_app|]. intros _ _. unfold reconcileWorker.
  apply hits_try_l, hits_role.
Qed.

Lemma yields_edge : ⊩ reconcileEdge m (resolve m).
Proof.
  unfold reconcileEdge. pose proof (yields_proxy m). pose proof (yields_ingress m).
  pose proof (yields_monitoring m). progress_tac.
Qed.
Lemma yields_finalize b st : dc_err st = None →
  yields (settled m) (fun x => dc_err x.1 = None ∧ succeeded x.2)
    (finalizeSensitiveDetectorCleanup m (resolve m) b st).
Proof.
  intros He. unfold finalizeSensitiveDetectorCleanup. destruct (negb b); [done|].
  eapply (yields_bind _ (fun _ => True)); [by apply yields_any|]. intros c _.
  destruct (negb c); [done|]. destruct (p_sensitiveDetectorManaged _).
  - eapply (yields_bind _ succeeded); [|by intros r Hr].
    unfold finalizeManaged, sensitiveDetectorConverged, cleanupGeneratedSensitiveDetectorSecret.
    progress_tac.
  - eapply (yields_bind _ succeeded).
    + unfold cleanupSensitiveDetector, cleanupGeneratedSensitiveDetectorSecret,
        cleanupSensitiveDetectorConfigState, cleanupSensitiveDetectorConfigJobs. progress_tac.
    + intros [u|e] Hr; [|done]. split; [by case_match|exact I].
Qed.
End Rollout.

(** ** A whole pass *)

Section Pass.
Context `{OwnerLaws} {AL : AdoptLaws} `{QuantityLib}.

(** The stages behind the database see the instance with another status; [I] is what is known
    of the detector state. *)
Lemma yields_all_with (G : event → bool) (I : dcState → Prop) m st :
  (∀ e, G e = true → settled m e = true) → (∀ st, I st → dc_err st = None) →
  (∀ st, I st → yields G I (readSensitiveDetectorConfigState m st)) →
  (∀ s st, I st → yields G (fun x => I x.1) (reconcileRollout (set_m_Status s m) (resolve m) st)) →
  (∀ b st, I st → yields G (fun x => I x.1) (finalizeSensitiveDetectorCleanup m (resolve m) b st)) →
  feasible m → I st → yields G (fun x => I x.1.2 ∧ succeeded x.2) (reconcileAll m st).
Proof.
  intros HG Herr Hread Hroll Hfin Hf Hi. unfold reconcileAll. cbv zeta.
  eapply yields_bind; [eapply yields_strict, yields_prerequisites; exact HG|].
  intros [u|e] Hr; [|done].
  eapply yields_bind; [eapply yields_strict, yields_database; exact HG|].
  intros [m' d] [[s Hs] Hd]. cbn in Hs, Hd. subst m'. destruct d as [u'|e]; [|done].
  assert (feasible (set_m_Status s m)) as Hf' by (destruct Hf; by constructor).
  eapply yields_bind; [eapply (yields_strict (settled m)), (yields_backends (set_m_Status s m)); exact HG|].
  intros [u2|e] Hr2; [|done].
  eapply yields_bind; [exact (Hread _ Hi)|]. clear st Hi. intros st Hi. rewrite (Herr _ Hi).
  eapply yields_bind.
  { apply yields_and; [exact (Hroll s _ Hi)|].
    exact (yields_strict (settled m) _ _ _ HG (yields_rollout (set_m_Status s m) st Hf' (Herr _ Hi))). }
  intros [st' [fin|e]] [Hi' [_ Hd']]; [|done].
  eapply yields_bind; [eapply (yields_strict (settled m)), (yields_edge (set_m_Status s m)); exact HG|].
  intros [u3|e] Hr3; [|done].
  eapply yields_bind.
  { apply yields_and; [exact (Hfin _ _ Hi')|].
    exact (yields_strict (settled m) _ _ _ HG (yields_finalize (set_m_Status s m) _ _ (Herr _ Hi'))). }
  by intros y (Hy & _ & Hy').
Qed.
Lemma yields_all m st : feasible m → dc_err st = None →
  yields (settled m) (fun x => dc_err x.1.2 = None ∧ succeeded x.2) (reconcileAll m st).
Proof.
  intros Hf. apply (yields_all_with _ (fun st => dc_err st = None)); [done|done|apply passes_read| | |done].
  - intros s st' He. eapply yields_mono; [|apply (yields_rollout (set_m_Status s m))];
      [by intros x [Hx _]|by destruct Hf|done].
  - intros b st' He. eapply yields_mono; [|apply (yields_finalize m b st' He)]. by intros x [Hx _].
Qed.
Lemma hits_all (B : event → Prop) m st :
  feasible m → dc_err st = None → spec_Suspend (m_Spec m) = false →
  (∀ s, hits (settled (set_m_Status s m)) B
     (do reconcileApp (set_m_Status s m) (resolve (set_m_Status s m));
      reconcileWorker (set_m_Status s m) (resolve (set_m_Status s m)))) →
  hits (settled m) B (reconcileAll m st).
Proof.
  intros Hf He Hs HB. unfold reconcileAll. cbv zeta.
  eapply hits_r; [apply yields_prerequisites|]. intros [u|e] Hr; [|done].
  eapply hits_r; [apply yields_database|]. intros [m' d] [[s Hm] Hd]. cbn in Hm, Hd. subst m'.
  destruct d as [u'|e]; [|done]. specialize (HB s). change (settled m) with (settled (set_m_Status s m)).
  change (resolve m) with (resolve (set_m_Status s m)).
  assert (feasible (set_m_Status s m)) as Hf' by (destruct Hf; by constructor).
  change (spec_Suspend (m_Spec (set_m_Status s m)) = false) in Hs.
  clear Hf Hr Hd. revert Hf' Hs HB. generalize (set_m_Status s m). clear m s u u'. intros m Hf Hs HB.
  eapply hits_r; [apply yields_backends|]. intros [u|e] Hr; [|done].
  eapply hits_r; [by apply passes_read|]. clear st He. intros st He. rewrite He.
  apply hits_l. by apply hits_rollout.
Qed.

(** C3. Progress.  A pass over a settled instance, whose spec is feasible, succeeds; and unless
    the instance is suspended it writes the Deployments of app and worker with the pods of the
    spec: the gates do not stay closed, whatever else the answers say. *)
Theorem settled_rolls_out m st h m' st' r :
  feasible m → dc_err st = None → runs (reconcileAll m st) h (m', st', r) →
  forallb (settled m) h = true →
  r = Ok tt
  ∧ (spec_Suspend (m_Spec m) = false →
     (∃ e, e ∈ h ∧ rolledApp m e) ∧ (∃ e, e ∈ h ∧ rolledWorker m e)).
Proof.
  intros Hf He Hr Hh. split.
  - pose proof (yields_runs _ _ _ (yields_all m st Hf He) _ _ Hr Hh) as Hs.
    by destruct Hs as [_ Hs], r as [[]|e].
  - intros Hs. split; eapply hits_runs; [|exact Hr|exact Hh| |exact Hr|exact Hh].
    + apply hits_all; [done..|]. intros s. apply (hits_app (set_m_Status s m)).
    + apply hits_all; [done..|]. intros s. apply (hits_worker (set_m_Status s m)).
Qed.
End Pass.

(** ** Ready *)

Section Converged.
Context `{OwnerLaws} {AL : AdoptLaws} `{QuantityLib}.

(** A settled server that also has the workloads up and the Ingress there, and of the detector
    exactly what the spec asks for. *)
Definition converged (m : Misskey) (e : event) : bool :=
  settled m e &&
  let 'existT r x := e in
  match r return resp r → bool with
  | Get KDeployment _ _ => fun x => shows x (fun dep =>
      negb (wantedReplicas dep =? 0) && (wantedReplicas dep <=? dep_AvailableReplicas dep))
  | Get KIngress _ _ => fun x => accepted x
  | Get KConfigMap name _ => fun x =>
      negb (String.eqb name (nameSensitiveDetectorConfig m)) ||
      match spec_SensitiveDetector (m_Spec m) with
      | Some _ => shows x (fun cm =>
          10 <=? Z.of_nat (String.length (deref "" (cm_Data cm !! "desired-hash"))))
      | None => negb (accepted x)
      end
  | _ => fun _ => true
  end x.

Context (m : Misskey).
Lemma converged_settled e : converged m e = true → settled m e = true.
Proof. unfold converged. by intros [? _]%andb_true_iff. Qed.
Lemma yields_converged {A} (Q : A → Prop) (p : prog A) :
  yields (settled m) Q p → yields (converged m) Q p.
Proof. apply yields_strict, converged_settled. Qed.

(** *** The conditions *)

Definition ready (v : verdict3) : Prop := isTrue3 v = true.

Lemma ready_deployment n : yields (converged m) ready (deploymentReady m n).
Proof.
  apply yields_send. intros [dep|e] Hx; apply andb_true_iff in Hx as [_ Hx]; [|done].
  apply andb_true_iff in Hx as [Hz Ha]. apply negb_true_iff in Hz. cbv zeta. by rewrite Hz, Ha.
Qed.
Lemma ready_database : feasible m → yields (converged m) ready (databaseCondition m (resolve m)).
Proof.
  intros Hf. pose proof (passes_database m Hf) as Hp. apply yields_converged.
  unfold databaseReady in Hp. revert Hp. generalize (databaseCondition m (resolve m)).
  induction p as [a|r k IH]; simpl; auto.
Qed.
Lemma ready_redis : yields (converged m) ready (redisCondition m).
Proof.
  pose proof (passes_redis m) as Hp. apply yields_converged. unfold redisReady in Hp.
  revert Hp. generalize (redisCondition m). induction p as [a|r k IH]; simpl; auto.
Qed.
Lemma ready_search : yields (converged m) ready (searchCondition m (resolve m)).
Proof.
  unfold searchCondition. destruct (p_meiliManaged _); [|done]. apply yields_send.
  intros [s|e] Hx%converged_settled; [|done]. cbn in Hx.
  apply andb_true_iff in Hx as [[Hr _]%andb_true_iff _]. by rewrite Hr.
Qed.
Lemma ready_migration : yields (converged m) ready (migrationCondition m).
Proof.
  apply yields_send. intros [j|e] Hx%converged_settled; [|done]. cbn in Hx. by rewrite Hx.
Qed.
Lemma ready_storage : feasible m → yields (converged m) ready (objectStorageCondition m (resolve m)).
Proof.
  intros [_ Hs]. unfold objectStorageCondition. destruct (p_objAutoConfigure _); [|done].
  specialize (Hs eq_refl). destruct (objectStorageAssignments _) as [l|e]; [|done].
  eapply (yields_bind _ (fun _ => True)); [by apply yields_any|]. intros hash _.
  apply yields_send. intros [j|e] Hx%converged_settled; [|done]. cbn in Hx. by rewrite Hx.
Qed.
Lemma ready_ingress : yields (converged m) ready (ingressCondition m).
Proof. apply yields_send. by intros [i|e] Hx; apply andb_true_iff in Hx as [_ Hx]. Qed.
Lemma detector_on : p_sensitiveDetectorEnabled (resolve m) = true →
  is_Some (spec_SensitiveDetector (m_Spec m)).
Proof.
  unfold resolve, resolveDetector. cbv zeta. repeat case_match; simplify_eq/=; by eauto.
Qed.
Lemma ready_detector : p_sensitiveDetectorEnabled (resolve m) = true →
  yields (converged m) ready (sensitiveDetectorCondition m (resolve m)).
Proof.
  intros He. unfold sensitiveDetectorCondition. rewrite He. cbn [negb].
  apply detector_on in He as [d Hd].
  eapply (yields_bind _ (.= true)).
  - unfold sensitiveDetectorConfigComplete. apply yields_send.
    intros [cm|e] Hx; apply andb_true_iff in Hx as [_ Hx];
      cbn in Hx; rewrite Hd, String.eqb_refl in Hx; [|done]. cbn in Hx. apply Z.leb_le in Hx. cbv zeta.
    destruct (Nat.ltb_spec (String.length (deref "" (cm_Data cm !! "desired-hash"))) 10); [lia|].
    apply yields_send. by intros [j|e] Hj%converged_settled.
  - intros b ->. cbn [negb]. destruct (negb _); [done|apply ready_deployment].
Qed.

(** What is known of the detector state: it was read, and is gone when there is no detector. *)
Definition knownState (st : dcState) : Prop :=
  dc_err st = None ∧ (p_sensitiveDetectorEnabled (resolve m) = false → dc_exists st = false).

Lemma ready_cond b typ (p : prog verdict3) :
  (b = true → yields (converged m) ready p) →
  yields (converged m) (fun c => cndReady c = true) (condIf b typ p).
Proof.
  intros Hp. unfold condIf. destruct b; [|done]. eapply yields_bind; [by apply Hp|].
  by intros v Hv.
Qed.
Lemma ready_conditions st : feasible m → knownState st →
  yields (converged m) (fun cs => forallb cndReady cs = true) (conditions m (resolve m) st).
Proof.
  intros Hf [He Hg]. unfold conditions.
  eapply yields_bind; [by apply ready_database|]. intros db Hdb.
  eapply yields_bind; [apply ready_redis|]. intros redis Hredis.
  eapply yields_bind; [apply ready_cond; intros _; apply ready_search|]. intros search Hsearch.
  eapply yields_bind; [apply ready_migration|]. intros mig Hmig.
  eapply yields_bind; [apply ready_cond; intros _; by apply ready_storage|]. intros obj Hobj.
  eapply (yields_bind _ (fun c => cndReady c = true)).
  { unfold detectorCnd. rewrite He. apply ready_cond. intros Hd. apply ready_detector.
    destruct (p_sensitiveDetectorEnabled _); [done|]. by rewrite (Hg eq_refl) in Hd. }
  intros det Hdet.
  eapply yields_bind; [apply ready_deployment|]. intros app Happ.
  eapply yields_bind; [apply ready_deployment|]. intros worker Hworker.
  eapply yields_bind; [apply ready_cond; intros _; apply ready_deployment|]. intros proxy Hproxy.
  eapply yields_bind; [apply ready_cond; intros _; apply ready_ingress|]. intros ing Hing.
  cbn. cbn in *. by rewrite Hdb, Hredis, Hsearch, Hmig, Hobj, Hdet, Happ, Hworker, Hproxy, Hing.
Qed.

(** *** The status and the detector state *)

(** The status is written with the phase of a ready instance. *)
Definition wroteRunning (e : event) : Prop :=
  ∃ o x, e = ev (StatusUpdate KMisskey o) (Ok x) ∧ st_Phase (m_Status o) = "Running".

Lemma ready_status st : feasible m → knownState st → spec_Suspend (m_Spec m) = false →
  yields (converged m) (fun x => x.1 = true) (updateStatus m None st)
  ∧ hits (converged m) wroteRunning (updateStatus m None st).
Proof.
  intros Hf Hk Hs. unfold updateStatus. cbv zeta. split.
  - eapply yields_bind; [by apply ready_conditions|]. intros cs Hcs. unfold aggregate.
    rewrite Hs, Hcs. eapply (yields_bind _ (fun _ => True)); [by apply yields_any|]. done.
  - eapply hits_r; [by apply ready_conditions|]. intros cs Hcs. unfold aggregate.
    rewrite Hs, Hcs. apply hits_l, hits_retry. intros [cur|e] Hx%converged_settled; [|done]. right.
    cbn [bind]. eapply (hits_r _ (fun _ => True)); [by apply yields_any|]. intros now _.
    eapply (hits_r _ (fun _ => True)); [by apply yields_any|]. intros backup _.
    apply hits_try_l. intros [o|e] Hu%converged_settled; [|done]. left. by eexists _, o.
Qed.

Lemma known_read st :
  knownState st → yields (converged m) knownState (readSensitiveDetectorConfigState m st).
Proof.
  intros Hk. unfold readSensitiveDetectorConfigState. destruct (dc_checked st); [done|].
  apply yields_send. intros [cm|e] Hx; apply andb_true_iff in Hx as [Hst Hx]; cbn in Hx, Hst;
    rewrite String.eqb_refl in Hx; cbn in Hx.
  - split; [done|]. intros Hoff%detector_off. by rewrite Hoff in Hx.
  - rewrite Hst. by split.
Qed.
(** Without a detector and its configuration the rollout leaves the detector state alone. *)
Lemma gone_rollout s st :
  p_sensitiveDetectorEnabled (resolve m) = false → dc_exists st = false →
  yields (converged m) (fun x => dc_exists x.1 = false)
    (reconcileRollout (set_m_Status s m) (resolve m) st).
Proof.
  intros Eo Hg. unfold reconcileRollout, configureInstance. rewrite Eo, Hg. cbv zeta.
  destruct (spec_Suspend _).
  { eapply (yields_bind _ (fun _ => True)); [by apply yields_any|]. intros r _. exact Hg. }
  eapply (yields_bind _ (fun _ => True)); [by apply yields_any|]. intros db _.
  destruct (negb db); [exact Hg|].
  eapply (yields_bind _ (fun _ => True)); [by apply yields_any|].
  intros [[]|e] _; [|exact Hg..].
  cbn [orb]. eapply (yields_bind _ (fun x => dc_exists x.1 = false)).
  { eapply (yields_bind _ (fun _ => True)); [by apply yields_any|]. by intros [o|e] _. }
  intros [st' [[o d]|e]] Hst; [|exact Hst].
  eapply (yields_bind _ (fun _ => True)); [by apply yields_any|]. intros redis _.
  eapply (yields_bind _ (fun _ => True)); [by apply yields_any|]. intros r _. exact Hst.
Qed.
Lemma known_rollout s st : knownState st → feasible m →
  yields (converged m) (fun x => knownState x.1) (reconcileRollout (set_m_Status s m) (resolve m) st).
Proof.
  intros [He Hg] Hf.
  pose proof (yields_converged _ _ (yields_rollout (set_m_Status s m) st
    ltac:(by destruct Hf) He)) as Hy.
  destruct (p_sensitiveDetectorEnabled (resolve m)) eqn:Eo.
  - eapply yields_mono, Hy. intros x [Hx _]. split; [done|]. by rewrite Eo.
  - eapply yields_mono; [|apply yields_and; [exact Hy|exact (gone_rollout s st Eo (Hg eq_refl))]].
    by intros x [[Hx _] Hx'].
Qed.
Lemma known_finalize b st : knownState st →
  yields (converged m) (fun x => knownState x.1) (finalizeSensitiveDetectorCleanup m (resolve m) b st).
Proof.
  intros [He Hg]. unfold finalizeSensitiveDetectorCleanup. destruct (negb b); [done|].
  eapply (yields_bind _ (fun _ => True)); [by apply yields_any|]. intros c _.
  destruct (negb c); [done|]. destruct (p_sensitiveDetectorManaged _).
  - eapply (yields_bind _ (fun _ => True)); [by apply yields_any|done].
  - eapply (yields_bind _ (fun _ => True)); [by apply yields_any|]. intros [u|e] _; [|done].
    split; cbn; [by case_match|]. intros Eo. by rewrite Eo.
Qed.
Lemma known_all : feasible m →
  yields (converged m) (fun x => (knownState x.1.2 ∧ succeeded x.2) ∧ ∃ s, x.1.1 = set_m_Status s m)
    (reconcileAll m dcStart).
Proof.
  intros Hf. apply yields_and; [|eapply (yields_wp _ _ _ []), all_status].
  apply yields_all_with; [apply converged_settled|by intros st []|apply known_read| | |done|done].
  - intros s st Hk. by apply known_rollout.
  - intros b st. apply known_finalize.
Qed.
End Converged.

Section Live.
Context `{OwnerLaws} {AL : AdoptLaws} `{QuantityLib}.

Lemma feasible_status m s : feasible m → feasible (set_m_Status s m).
Proof. by intros []. Qed.
Lemma feasible_image m i : feasible m → feasible (set_spec_Image i m).
Proof. by intros []. Qed.

(** The part of [reconcileLive] behind the image, for a pass without an error. *)
Lemma live_runs drift m h r :
  runs (reconcileLive drift m) h r →
  ∃ h1 h2 i x, h = h1 ++ h2 ∧ runs (resolveImage m) h1 (set_spec_Image i m, x)
    ∧ match x with
      | Err _ => True
      | Ok _ => runs (
          let! y := reconcileAll (set_spec_Image i m) dcStart in concludePass drift y) h2 r
      end.
Proof.
  intros (h1 & h2 & [m' x] & -> & H1' & H2')%runs_bind.
  pose proof (resolveImage_image m []) as Hi. rewrite wp_runs in Hi.
  destruct (Hi _ _ H1') as [i Him]. cbn in Him. subst m'.
  exists h1, h2, i, x. split_and!; [done..|]. by destruct x.
Qed.

(** C18. A pass over a converged instance that is awake ends Ready: it reports Running in the
    status and comes back only for the next drift check.  Only an image that cannot be resolved
    can prevent that.  Together with the soundness of Ready: what the conditions look at is
    also enough. *)
Theorem converged_becomes_ready drift m h r :
  feasible m → spec_Suspend (m_Spec m) = false →
  runs (reconcileLive drift m) h r → forallb (converged m) h = true →
  (∃ h1 m' e, h1 `prefix_of` h ∧ runs (resolveImage m) h1 (m', Err e))
  ∨ (r = Ok (mkResult (driftInterval drift)) ∧ ∃ e, e ∈ h ∧ wroteRunning e).
Proof.
  intros Hf Hs (h1 & h2 & i & [u|e] & -> & Hi & Hr)%live_runs Hh.
  2:{ left. eexists h1, _, e. split; [by exists h2|exact Hi]. }
  right. rewrite forallb_app in Hh. apply andb_true_iff in Hh as [_ Hh].
  apply (feasible_image _ i) in Hf. change (converged m) with (converged (set_spec_Image i m)) in Hh.
  change (spec_Suspend (m_Spec (set_spec_Image i m)) = false) in Hs.
  revert Hf Hs Hr Hh. generalize (set_spec_Image i m). clear Hi m. intros m Hf Hs Hr Hh. split.
  - refine (yields_runs (converged m) (.= Ok (mkResult (driftInterval drift))) _ _ _ _ Hr Hh).
    eapply yields_bind; [by apply known_all|]. intros [[m' st] rr] [[Hk Hok] [s Hm]].
    cbn in Hk, Hok, Hm. subst m'. destruct rr as [[]|e]; [|done].
    eapply yields_bind; [apply (known_read (set_m_Status s m) _ Hk)|]. clear st Hk. intros st Hk.
    cbn [bind]. eapply yields_bind.
    { apply (ready_status (set_m_Status s m) st (feasible_status _ _ Hf) Hk Hs). }
    intros [u' ru] Hu. cbn in Hu. subst u'. reflexivity.
  - enough (∃ e, e ∈ h2 ∧ wroteRunning e) as (e & He & Hw).
    { exists e. split; [apply elem_of_app; by right|done]. }
    refine (hits_runs (converged m) _ _ _ _ _ Hr Hh).
    eapply hits_r; [by apply known_all|]. intros [[m' st] rr] [[Hk Hok] [s Hm]].
    cbn in Hk, Hok, Hm. subst m'. destruct rr as [[]|e]; [|done].
    eapply hits_r; [apply (known_read (set_m_Status s m) _ Hk)|]. clear st Hk. intros st Hk.
    cbn [bind]. apply hits_l.
    apply (ready_status (set_m_Status s m) st (feasible_status _ _ Hf) Hk Hs).
Qed.
End Live.

