(* ===== verification/Errors.v ===== *)
(** * No write of a pass fails silently

    A handler stops at the first request that is refused and hands the error up, except where
    a refusal is not a failure: an object to delete that is not there, a conflict that is
    tried again.  [reports] walks over all runs and shows that a program that ends well has had
    every write carried out; the last section adds what [Reconcile] does with an error. *)
From S2P Require Export Progress.
Local Open Scope string_scope.
Local Open Scope Z_scope.
Local Open Scope list_scope.

(** ** Answers *)

(** The server did what it was asked to do, or there was nothing to do; reads whose failure
    decides nothing count as answered in any case.  A claim that cannot grow is announced by
    an event of its own. *)
Definition carriedOut (e : event) : bool :=
  let 'existT r x := e in
  match r return resp r → bool with
  | Create _ _ | UpsertBegin _ _ | UpsertCommit _ _ | Apply _ | RandRead _ => accepted
  | Update k _ => match k with KPVC => fun _ => true | _ => accepted end
  | StatusUpdate _ _ => fun x => match x with Ok _ => true | Err e => isConflict e end
  | DeleteObj _ _ _ _ => fun x => match x with Ok _ => true | Err e => isNotFound e || isNoMatch e end
  | ListIn k _ _ => match k with KPod => fun _ => true | _ => accepted end
  | _ => fun _ => true
  end x.
(** The status at the end of a pass is best effort. *)
Definition onStatus (e : event) : bool :=
  match projT1 e with StatusUpdate KMisskey _ => true | _ => false end.
Definition carriedOutOrStatus (e : event) : bool := carriedOut e || onStatus e.

(** ** Programs that report *)

(** No run ends with a result in [G]. *)
Definition never {A} (G : A → Prop) (p : prog A) : Prop := yields (fun _ => true) (fun a => ¬ G a) p.
(** What follows a bad answer: no result in [G] is left, and only requests of [rest] come. *)
Definition over (rest : req → Prop) {A} (G : A → Prop) (p : prog A) : Prop :=
  never G p ∧ emits rest p.
(** Every run with a result in [G] has good answers only, and the first bad one is the end. *)
Fixpoint reports (ans : event → bool) (rest : req → Prop) {A} (G : A → Prop) (p : prog A) : Prop :=
  match p with
  | Ret _ => True
  | Do r k => ∀ x, (ans (ev r x) = true ∧ reports ans rest G (k x)) ∨ over rest G (k x)
  end.

Section Walk.
Context (ans : event → bool) (rest : req → Prop).

Lemma never_runs {A} (G : A → Prop) (p : prog A) h a : never G p → runs p h a → ¬ G a.
Proof.
  intros Hp Hr. refine (yields_runs _ _ _ Hp h a Hr _). clear. by induction h.
Qed.
Lemma reports_runs {A} (G : A → Prop) (p : prog A) h a :
  reports ans rest G p → runs p h a →
  (G a → forallb ans h = true)
  ∧ ∀ h1 e h2, h = h1 ++ e :: h2 → ans e = false → Forall rest (reqs h2).
Proof.
  revert h. induction p as [b|r k IH]; intros h Hp; cbn [runs].
  - intros [-> _]. split; [done|]. intros h1 e h2 Hh. by destruct h1.
  - intros (x & h' & -> & Hr). destruct (Hp x) as [[Hx Hk]|[Hn Hs]].
    + destruct (IH x h' Hk Hr) as [Hg Hl]. split; [cbn; rewrite Hx; exact Hg|].
      intros [|e1 h1] e h2 [= <- ->] He; [congruence|by eapply Hl].
    + split; [by intros Ha; destruct (never_runs _ _ _ _ Hn Hr)|].
      apply (emits_runs _ _ _ _ Hs) in Hr. intros [|e1 h1] e h2 [= <- ->] _; [done|].
      rewrite reqs_app, Forall_app in Hr. destruct Hr as [_ Hr]. by inversion Hr.
Qed.
Lemma over_reports {A} (G : A → Prop) (p : prog A) : over rest G p → reports ans rest G p.
Proof.
  intros [Hn Hs]. destruct p as [a|r k]; [done|]. intros x. right. split; [by apply Hn|apply Hs].
Qed.
Lemma reports_bind {A B} (G : A → Prop) (G' : B → Prop) (p : prog A) (f : A → prog B) :
  reports ans rest G p → (∀ a, reports ans rest G' (f a)) → (∀ a, ¬ G a → over rest G' (f a)) →
  reports ans rest G' (bind p f).
Proof.
  intros Hp Hf Hn. induction p as [a|r k IH]; simpl in *; [apply Hf|]. intros x.
  destruct (Hp x) as [[Hx Hk]|[Hk Hs]]; [left; auto|right]. split.
  - eapply yields_bind; [exact Hk|]. intros a Ha. by apply Hn.
  - apply emits_bind_runs; [done|]. intros h a Hr. by apply Hn, (never_runs _ _ _ _ Hk Hr).
Qed.
(** Requests whose answer cannot be bad, in front of another program. *)
Definition harmless (r : req) : Prop := ∀ x, ans (ev r x) = true.
Lemma reports_after {A B} (G : B → Prop) (p : prog A) (f : A → prog B) :
  emits harmless p → (∀ a, reports ans rest G (f a)) → reports ans rest G (bind p f).
Proof.
  intros Hp Hf. induction p as [a|r k IH]; simpl in *; [apply Hf|]. destruct Hp as [Hr Hk].
  intros x. left. split; [apply Hr|auto].
Qed.
Lemma reports_harmless {A} (G : A → Prop) (p : prog A) : emits harmless p → reports ans rest G p.
Proof.
  intros Hp. induction p as [a|r k IH]; simpl in *; [done|]. destruct Hp as [Hr Hk].
  intros x. left. split; [apply Hr|auto].
Qed.
Lemma reports_try {A B} (p : rprog A) (f : A → rprog B) :
  reports ans rest succeeded p → (∀ a, reports ans rest succeeded (f a)) →
  reports ans rest succeeded (tryBind p f).
Proof.
  intros Hp Hf. apply (reports_bind succeeded); [done| |].
  - intros [a|e]; [apply Hf|exact I].
  - intros [a|e] Hn; [by destruct Hn|]. by split; [intros []|].
Qed.
Lemma reports_forEach {A} (l : list A) (f : A → rprog unit) :
  (∀ a, a ∈ l → reports ans rest succeeded (f a)) → reports ans rest succeeded (forEach l f).
Proof.
  induction l as [|x l IH]; intros Hf; simpl; [exact I|]. apply reports_try; [apply Hf; left|].
  intros _. apply IH. intros a Ha. apply Hf. by right.
Qed.
(** With other good answers, and more behind a bad one. *)
Lemma reports_lax (ans' : event → bool) (rest' : req → Prop) {A} (G : A → Prop) (p : prog A) :
  (∀ e, ans e = true → ans' e = true) → (∀ r, rest r → rest' r) →
  reports ans rest G p → reports ans' rest' G p.
Proof.
  intros Ha Hr. induction p as [a|r k IH]; simpl; [done|]. intros Hp x.
  destruct (Hp x) as [[Hx Hk]|[Hn Hs]]; [left; auto|right]. split; [done|by eapply emits_mono].
Qed.
End Walk.

(** The result of a handler that passes a value on beside its error. *)
Definition went {A B} (x : A * result error B) : Prop := succeeded x.2.
(** Success, or a conflict that [RetryOnConflict] tries again. *)
Definition settledOrConflict {A} (r : result error A) : Prop :=
  match r with Ok _ => True | Err e => isConflict e = true end.

(** Nothing is sent any more. *)
Definition nothing (r : req) : Prop := False.

Section Operations.
Context `{KubeLib}.

Lemma reports_retry {A} (f : rprog A) :
  reports carriedOut nothing settledOrConflict f → reports carriedOut nothing succeeded (retryOnConflict f).
Proof.
  intros Hf. unfold retryOnConflict. induction (pred retrySteps) as [|n IH]; cbn [retryLoop].
  - clear - Hf. induction f as [r|q k IH]; [done|]. intros x. destruct (Hf x) as [[Hx Hk]|Hn]; [left; auto|].
    right. split; [|apply Hn]. eapply yields_mono, Hn. intros [a|e] Hr Hs; [by apply Hr|done].
  - eapply reports_bind; [exact Hf|intros [a|e]|intros [a|e] Hn].
    + exact I.
    + by destruct (isConflict e).
    + by destruct Hn.
    + cbn in Hn. destruct (isConflict e); [by destruct Hn|]. by split; [intros []|].
Qed.
Lemma reports_apply m k o f :
  (∀ live, reports carriedOut nothing succeeded (f live)) → reports carriedOut nothing succeeded (applyOwned m k o f).
Proof.
  intros Hf. unfold applyOwned. apply reports_try.
  { intros [live|e]; [by left|right; by split; [intros []|]]. }
  intros live. apply reports_try; [apply Hf|]. intros o'. apply reports_try; [exact I|]. intros om.
  apply reports_try; [|done]. intros [x|e]; [by left|right; by split; [intros []|]].
Qed.
Lemma reports_applySSA m u : reports carriedOut nothing succeeded (applySSA m u).
Proof.
  unfold applySSA. apply reports_try; [exact I|]. intros om [x|e]; [by left|right; by split; [intros []|]].
Qed.
Lemma reports_delete k n ns : reports carriedOut nothing succeeded (deleteIfExists k n ns).
Proof.
  intros [x|e]; cbn; [by left|]. destruct (isNotFound e || isNoMatch e); [by left|right; by split; [intros []|]].
Qed.
Lemma reports_create m k o : reports carriedOut nothing succeeded (createControlled m k o).
Proof.
  unfold createControlled. apply reports_try; [exact I|].
  intros om [x|e]; [by left|right; by split; [intros []|]].
Qed.
End Operations.

(** ** The walk *)

Create HintDb reports.
(** Reads. *)
Ltac harmless := emits_tac; try (intros ?; reflexivity).
(** A request that is refused: there was nothing to do, or no success is left. *)
Ltac refused :=
  let x := fresh "x" in
  intros x; destruct x as [?|?];
  [left; split; [reflexivity|]; cbn [bind ignoreNotFound]
  |cbn [bind ignoreNotFound];
   try match goal with |- context [isNotFound ?e] => destruct (isNotFound e) eqn:? end;
   first [left; split; [cbn; match goal with E : isNotFound _ = true |- _ => by rewrite E end|]|right; by split; [intros []|]]].
Ltac reports_step :=
  lazymatch goal with
  | |- reports _ _ _ (Ret _) => exact I
  | |- reports _ _ _ (ok _) => exact I
  | |- reports _ _ _ (fail _) => exact I
  | |- reports _ _ _ (lift _) => exact I
  | |- reports _ _ _ (send (ListIn _ _ _)) => refused
  | |- reports _ _ _ (send (Update _ _)) => refused
  | |- reports _ _ _ (send (RandRead _)) => refused
  | |- reports _ _ _ (deleteIfExists _ _ _) => apply reports_delete
  | |- reports _ _ _ (applyOwned _ _ _ _) => apply reports_apply; intros ?
  | |- reports _ _ _ (applySSA _ _) => apply reports_applySSA
  | |- reports _ _ _ (createControlled _ _ _) => apply reports_create
  | |- reports _ _ _ (bind (send (DeleteObj _ _ _ _)) _) => refused
  | |- reports _ _ _ (bind _ _) => apply reports_after; [solve [harmless]|intros ?]
  | |- reports _ _ _ (tryBind _ _) => apply reports_try; [|intros ?]
  | |- reports _ _ _ (forEach _ _) => apply reports_forEach; intros ? ?
  | |- reports _ _ _ (match ?x with _ => _ end) => destruct x
  | |- reports _ _ _ _ => apply reports_harmless; solve [harmless]
  end.
Ltac reports_tac := repeat (solve [auto with reports emits nocore] || reports_step).

Section Handlers.
Context `{KubeLib} `{QuantityLib} (m : Misskey).
Local Notation "'reporting' p" := (reports carriedOut nothing succeeded p) (at level 10, p at level 9).

Lemma reports_random n : reporting (randomHex n).
Proof. unfold randomHex. reports_tac. Qed.
Lemma harmless_secretVersion ns name : emits (harmless carriedOut) (secretVersion ns name).
Proof. unfold secretVersion. harmless. Qed.
#[local] Hint Resolve reports_random : reports.
#[local] Hint Resolve harmless_secretVersion : emits.
Lemma harmless_versions p : emits (harmless carriedOut) (referencedSecretVersions m p).
Proof. unfold referencedSecretVersions. harmless. Qed.
#[local] Hint Resolve harmless_versions : emits.
Lemma harmless_objHash p sql l : emits (harmless carriedOut) (objectStorageHash m p sql l).
Proof. unfold objectStorageHash, credentialSecretVersions. harmless. Qed.
Lemma harmless_detectorHash p sql : emits (harmless carriedOut) (sensitiveDetectorConfigHash m p sql).
Proof. unfold sensitiveDetectorConfigHash. harmless. Qed.
#[local] Hint Resolve harmless_objHash harmless_detectorHash : emits.
Lemma harmless_checksum p : emits (harmless carriedOut) (misskeyChecksum m p).
Proof. unfold misskeyChecksum. harmless. Qed.
Lemma harmless_read st : emits (harmless carriedOut) (readSensitiveDetectorConfigState m st).
Proof. unfold readSensitiveDetectorConfigState, hasSensitiveDetectorConfigState. harmless. Qed.
Lemma harmless_converged p : emits (harmless carriedOut) (misskeyWorkloadsConverged m p).
Proof. pose proof (harmless_checksum p). unfold misskeyWorkloadsConverged, workloadConverged. harmless. Qed.
Lemma harmless_ready p :
  emits (harmless carriedOut) (databaseReady m p) ∧ emits (harmless carriedOut) (redisReady m).
Proof.
  unfold databaseReady, databaseCondition, redisReady, redisCondition, instanceReady,
    readyPodsByAppLabel. split; harmless.
Qed.
Lemma harmless_waitGone name ns : emits (harmless carriedOut) (waitGone pollTicks name ns).
Proof. by apply emits_waitGone. Qed.
Lemma harmless_expand sts l : emits (harmless carriedOut) (expandStatefulSetPVCs sts l).
Proof. by apply emits_expand. Qed.
#[local] Hint Resolve harmless_checksum harmless_read harmless_converged harmless_waitGone
  harmless_expand : emits.

Lemma reports_cleanupJobs c keep : reporting (cleanupJobs m c keep).
Proof. unfold cleanupJobs. reports_tac. Qed.
Lemma reports_generated name c k n : reporting (generatedSecret m name c k n).
Proof. unfold generatedSecret, secretMutate. reports_tac. Qed.
Lemma reports_pdb c : reporting (reconcilePDB m c).
Proof. unfold reconcilePDB. reports_tac. Qed.
Lemma reports_setData c data live : reporting (setData m c data live).
Proof. exact I. Qed.
#[local] Hint Resolve reports_cleanupJobs reports_generated reports_pdb reports_setData : reports.
Lemma reports_prerequisites p : reporting (reconcilePrerequisites m p).
Proof.
  unfold reconcilePrerequisites, when, reconcileMeiliSecret, reconcileSetupSecret,
    reconcileSensitiveDetectorSecret, reconcileConfigMaps, setData, reconcileTenancy,
    reconcileNetworkIsolation, reconcileEgressIsolation, reconcileResourceQuota,
    reconcileLimitRange, reconcileSensitiveDetector. reports_tac.
Qed.
Lemma reports_sts sts f :
  (∀ live, emits (harmless carriedOut) (f live)) → reporting (applyStatefulSet m sts f).
Proof.
  intros Hf. unfold applyStatefulSet, recreate. reports_tac.
Qed.

Ltac reports_all := reports_tac; try (apply reports_sts; intros ?; harmless).
Lemma reports_redis : reporting (reconcileRedis m).
Proof.
  unfold reconcileRedis, reconcileRedisAuthSecret, reconcileInstance, cleanupSuffix,
    deleteRedisStandalone, deleteRedisHA, deleteRedisHANetworkPolicy, reconcileRedisHA,
    reconcileRedisHANetworkPolicy, reconcileRedisStandalone. reports_all.
Qed.
Lemma reports_postgres : reporting (reconcilePostgres m) ∧ reporting (reconcilePoolers m).
Proof. unfold reconcilePostgres, reconcilePoolers, deletePooler. split; reports_all. Qed.
Lemma reports_backends p : reporting (reconcileBackends m p).
Proof.
  pose proof reports_redis.
  unfold reconcileBackends, when, reconcileMeilisearch, reconcileAppService, cleanupObjectStorage,
    cleanupObjectStorageJobs. reports_all.
Qed.
Lemma reports_autoscaler c n a p : reporting (reconcileAutoscaler m c n a p).
Proof.
  unfold reconcileAutoscaler, reconcileScaledObject, deleteScaledObject, deleteHPA,
    deleteTriggerAuth. reports_all.
Qed.
Lemma reports_migrate p : reporting (migrate m p).
Proof.
  unfold migrate, reconcilePreMigrationBackup, cleanupOldPreMigrationBackups, reconcileMigration,
    cleanupOldMigrationJobs, migrationChecksum. reports_all.
Qed.
Lemma reports_storage p : reporting (reconcileObjectStorage m p).
Proof. unfold reconcileObjectStorage, cleanupObjectStorageJobs. reports_all. Qed.
Lemma reports_suspend p : reporting (suspendWorkloads m p).
Proof.
  unfold suspendWorkloads, suspendOne, deleteHPA, deleteScaledObject, deleteTriggerAuth. reports_all.
Qed.
#[local] Hint Resolve reports_redis reports_autoscaler reports_migrate reports_storage reports_suspend : reports.
Lemma reports_roles p : reporting (do reconcileApp m p; reconcileWorker m p).
Proof. unfold reconcileApp, reconcileWorker, applyRole. reports_all. Qed.
Lemma reports_edge p : reporting (reconcileEdge m p).
Proof.
  unfold reconcileEdge, reconcileProxy, deleteLegacyMaintenanceWorkload, deleteProxyResources,
    deleteMaintenanceHTMLConfigMap, reconcileIngress, reconcileMonitoring, cleanupRedisMonitors,
    deleteMonitor. reports_all.
Qed.
Lemma reports_cleanup :
  reporting (finalizeManaged m) ∧ reporting (cleanupSensitiveDetector m)
  ∧ reporting (cleanupGeneratedSensitiveDetectorSecret m)
  ∧ reporting (cleanupSensitiveDetectorConfigState m).
Proof.
  assert (reporting (cleanupGeneratedSensitiveDetectorSecret m)) as Hc.
  { unfold cleanupGeneratedSensitiveDetectorSecret. reports_all. }
  unfold finalizeManaged, sensitiveDetectorConverged, cleanupSensitiveDetector,
    cleanupSensitiveDetectorConfigState, cleanupSensitiveDetectorConfigJobs. split_and!; reports_all.
Qed.

(** Handlers with a value beside their error. *)
Local Notation "'passing' p" := (reports carriedOut nothing went p) (at level 10, p at level 9).

Lemma reports_went {A B C} (p : rprog A) (f : result error A → prog (B * result error C)) :
  reporting p → (∀ a, passing (f (Ok a))) → (∀ e, over nothing went (f (Err e))) → passing (bind p f).
Proof.
  intros Hp Hf He. apply (reports_bind _ _ succeeded); [done| |].
  - intros [a|e]; [apply Hf|by apply over_reports].
  - intros [a|e] Hn; [by destruct Hn|done].
Qed.
Lemma went_bind {A B C} (p : prog (A * result error B)) (f : A * result error B → prog C) (G : C → Prop) :
  passing p → (∀ a b, reports carriedOut nothing G (f (a, Ok b))) → (∀ a e, over nothing G (f (a, Err e))) →
  reports carriedOut nothing G (bind p f).
Proof.
  intros Hp Hf He. apply (reports_bind _ _ went); [done| |].
  - intros [a [b|e]]; [apply Hf|by apply over_reports].
  - intros [a [b|e]] Hn; [by destruct Hn|done].
Qed.
(** The status of the restore test is written again on a conflict, and only then. *)
Lemma reports_record v : passing (recordBackupVerification m v).
Proof.
  unfold recordBackupVerification. apply reports_went; [|done|by intros e; split; [intros []|]].
  apply reports_retry. intros [cur|e]; (left; split; [done|]); [|done].
  intros [o|e]; cbn; [by left|]. destruct (isConflict e) eqn:E; [by left|right].
  split; [cbn; congruence|done].
Qed.
Lemma reports_verify : passing (reconcileBackupVerify m).
Proof.
  assert (∀ m', reporting (deleteVerifyCluster m')) as Hd by (intros; apply reports_delete).
  unfold reconcileBackupVerify, finishVerify.
  repeat first [apply went_bind; [apply reports_record|intros ? ?|by intros ? ?; split; [intros []|]]
               |apply reports_went; [first [apply Hd|apply reports_applySSA]|intros ?|by intros ?; split; [intros []|]]
               |reports_step].
Qed.
Lemma reports_database p : passing (reconcileDatabase m p).
Proof.
  destruct reports_postgres as [H1 H2]. pose proof reports_verify.
  unfold reconcileDatabase. destruct (p_dbManaged p); [|done].
  apply reports_went; [by apply reports_try|done|by intros e; split; [intros []|]].
Qed.
Lemma reports_configure p b st : passing (configureInstance m p b st).
Proof.
  unfold configureInstance, reconcileSensitiveDetectorConfig, cleanupSensitiveDetectorConfigJobs,
    runDetectorConfigJob.
  apply reports_went; [reports_tac| |by intros e; split; [intros []|]]. intros o. case_match; [|done].
  apply went_bind; [|done|by intros a e; split; [intros []|]]. apply reports_after; [apply harmless_read|]. intros st1.
  destruct (dc_err st1); [done|]. case_match; [done|].
  apply reports_went; [reports_tac| |by intros e; split; [intros []|]]. intros n.
  apply reports_went; [reports_tac|done|by intros e; split; [intros []|]].
Qed.
Lemma reports_rollout p st : passing (reconcileRollout m p st).
Proof.
  destruct (harmless_ready p) as [Hd Hr]. unfold reconcileRollout. case_match.
  { apply reports_went; [apply reports_suspend|done|by intros e; split; [intros []|]]. }
  apply reports_after; [done|]. intros db. destruct (negb db); [done|].
  apply reports_went; [apply reports_migrate| |by intros e; split; [intros []|]]. intros [|]; [|done].
  apply went_bind; [apply reports_configure| |by intros a e; split; [intros []|]]. intros st1 [o d].
  apply reports_after; [by destruct (o && d)|]. intros redis.
  apply reports_went; [|done|by intros e; split; [intros []|]]. destruct redis; [apply reports_roles|done].
Qed.
Lemma reports_finalize p b st : passing (finalizeSensitiveDetectorCleanup m p b st).
Proof.
  destruct reports_cleanup as (Hm & Hc & Hs & Hx). unfold finalizeSensitiveDetectorCleanup.
  destruct (negb b); [done|]. apply reports_after; [apply harmless_converged|]. intros c.
  destruct (negb c); [done|]. destruct (p_sensitiveDetectorManaged p).
  { apply reports_went; [done|done|by intros e; split; [intros []|]]. }
  apply reports_went; [|done|by intros e; split; [intros []|]]. apply reports_try; [done|]. intros _.
  apply reports_try; [done|]. intros _. by destruct (negb _).
Qed.
End Handlers.

(** ** The whole pass *)

(** Opens the writer of the status. *)
Ltac status_tac :=
  unfold updateStatus, conditions, detectorCnd, condIf, databaseCondition, redisCondition,
    searchCondition, migrationCondition, objectStorageCondition, sensitiveDetectorCondition,
    sensitiveDetectorConfigComplete, deploymentReady, ingressCondition, instanceReady,
    readyPodsByAppLabel, readBackupStatus, objectStorageHash, credentialSecretVersions.

Section Pass.
Context `{KubeLib} `{QuantityLib}.

Lemma reports_reconcileAll m st : reports carriedOut nothing went (reconcileAll m st).
Proof.
  unfold reconcileAll. cbv zeta.
  apply reports_went; [apply reports_prerequisites| |by intros e; split; [intros []|]]. intros u.
  apply went_bind; [apply reports_database| |by intros a e; split; [intros []|]]. intros m' u1.
  apply reports_went; [apply reports_backends| |by intros e; split; [intros []|]]. intros u2.
  apply reports_after; [apply harmless_read|]. intros st1. destruct (dc_err st1); [done|].
  apply went_bind; [apply reports_rollout| |by intros a e; split; [intros []|]]. intros st2 fin.
  apply reports_went; [apply reports_edge| |by intros e; split; [intros []|]]. intros u3.
  apply went_bind; [apply reports_finalize|done|by intros a e; split; [intros []|]].
Qed.

(** What is left to do about an error: [Reconcile] announces it and shows it in the status. *)
Definition showsError (r : req) : Prop :=
  match r with StatusUpdate KMisskey o => st_Phase (m_Status o) = "Error" | _ => True end.
Definition announced (e : error) (h : history) : Prop :=
  ∃ h1 h2, h = h1 ++ ev (Event "Warning" "ReconcileError" "Reconcile" (truncateMsg (err_Text e))) tt :: h2
    ∧ Forall showsError (reqs h2).
(** There was no instance to reconcile: it could not be read, it is being deleted, or it did
    not take the finalizer. *)
Definition notStarted (name ns : string) (e : error) (h : history) : Prop :=
  ev (Get KMisskey name ns) (Err e) ∈ h
  ∨ (∃ m, ev (Get KMisskey name ns) (Ok m) ∈ h ∧ deleting m = true)
  ∨ (∃ m, ev (Update KMisskey m) (Err e) ∈ h).

(** What still comes behind a refusal: reads, events and the status. *)
Definition aftermath (r : req) : Prop :=
  match r with
  | Get _ _ _ | ListIn _ _ _ | Now | Poll | Event _ _ _ _ | StatusUpdate KMisskey _ => True
  | _ => False
  end.

Lemma harmless_status m e st : emits (harmless carriedOutOrStatus) (updateStatus m e st).
Proof.
  status_tac. emits_tac; intros ?; first [reflexivity|apply orb_true_r].
Qed.
Lemma status_shows m e st : emits showsError (updateStatus m (Some e) st).
Proof. status_tac. cbn [aggregate]. emits_tac; reflexivity. Qed.

Lemma carriedOut_lax e : carriedOut e = true → carriedOutOrStatus e = true.
Proof. unfold carriedOutOrStatus. by intros ->. Qed.
Lemma harmless_lax {A} (p : prog A) :
  emits (harmless carriedOut) p → emits (harmless carriedOutOrStatus) p.
Proof. apply emits_mono. intros r Hr x. apply carriedOut_lax, Hr. Qed.
Lemma harmless_image m : emits (harmless carriedOut) (resolveImage m).
Proof.
  unfold resolveImage, pinImage, pullSecretKeychain, Pinned, registryHead, since. harmless.
Qed.
Lemma carriedOut_rest {A} (G : A → Prop) (p : prog A) :
  reports carriedOut nothing G p → reports carriedOutOrStatus aftermath G p.
Proof. apply reports_lax; [apply carriedOut_lax|by intros r []]. Qed.

(** The pass ends with the error it is given. *)
Lemma aftermath_conclude drift m st r : emits aftermath (concludePass drift (m, st, r)).
Proof.
  apply emits_bind.
  { unfold readSensitiveDetectorConfigState, hasSensitiveDetectorConfigState. by emits_tac. }
  intros st'. apply emits_bind; [destruct r; [done|by split]|]. intros _.
  apply emits_bind; [|intros u; by destruct r]. status_tac. by emits_tac.
Qed.
Lemma reports_conclude drift m st r :
  reports carriedOutOrStatus aftermath succeeded (concludePass drift (m, st, r)).
Proof.
  apply reports_harmless, emits_bind; [apply harmless_lax, harmless_read|]. intros st'.
  apply emits_bind; [destruct r; [done|by split]|]. intros _.
  apply emits_bind; [apply harmless_status|]. intros u. by destruct r.
Qed.
Lemma conclude_over drift m st e : over aftermath succeeded (concludePass drift (m, st, Err e)).
Proof.
  split; [|apply aftermath_conclude].
  do 3 (apply (yields_bind _ (fun _ => True)); [by apply yields_any|intros ? _]). by intros [].
Qed.
Lemma reports_live drift m : reports carriedOutOrStatus aftermath succeeded (reconcileLive drift m).
Proof.
  unfold reconcileLive. apply reports_after; [apply harmless_lax, harmless_image|].
  intros [m' [u|e]]; [|apply reports_conclude].
  apply (reports_bind _ _ went); [by apply carriedOut_rest, reports_reconcileAll| |].
  - intros [[m2 st] r]. apply reports_conclude.
  - intros [[m2 st] [u'|e]] Hn; [by destruct Hn|]. apply conclude_over.
Qed.
Lemma reports_deletion m : reports carriedOut nothing succeeded (reconcileDelete m).
Proof. unfold reconcileDelete, retainData, orphan. reports_tac. Qed.
Lemma reports_Reconcile drift name ns :
  reports carriedOutOrStatus aftermath succeeded (Reconcile drift name ns).
Proof.
  apply reports_after; [by split|]. intros [m|e]; [|by destruct (isNotFound e)].
  destruct (deleting m); [apply carriedOut_rest, reports_deletion|].
  destruct (addFinalizer _ _) as [om []]; [|apply reports_live].
  apply reports_try; [|intros m'; apply reports_live]. apply carriedOut_rest. by refused.
Qed.

Lemma announced_after e h1 h2 : announced e h2 → announced e (h1 ++ h2).
Proof. intros (h & h' & -> & Hs). exists (h1 ++ h), h'. by rewrite <- app_assoc. Qed.
Lemma conclude_announces drift m st r h e :
  runs (concludePass drift (m, st, r)) h (Err e) → announced e h.
Proof.
  intros (h1 & h2 & st' & -> & _ & Hr)%runs_bind. apply announced_after.
  apply runs_bind in Hr as (h3 & h4 & t & -> & He & (h5 & h6 & u & -> & Hu & Hr)%runs_bind).
  destruct r as [v|e']; destruct Hr as [-> Hr]; [done|]. injection Hr as <-.
  destruct He as (x & h' & -> & -> & _). exists [], h5. destruct x. rewrite app_nil_r. split; [done|].
  eapply emits_runs, Hu. apply status_shows.
Qed.
Lemma live_announces drift m h e : runs (reconcileLive drift m) h (Err e) → announced e h.
Proof.
  intros (h1 & h2 & i & -> & _ & (h3 & h4 & [[m' st] r] & -> & _ & Hr)%runs_bind)%runs_bind.
  apply announced_after, announced_after. by eapply conclude_announces.
Qed.

Lemma Reconcile_announces drift name ns h e :
  runs (Reconcile drift name ns) h (Err e) → notStarted name ns e h ∨ announced e h.
Proof.
  intros (x & h' & -> & Hr). cbn [bind] in Hr. destruct x as [m|e'].
  2:{ left; left. destruct (isNotFound e'); destruct Hr as [-> Hr]; [done|]. injection Hr as <-. left. }
  destruct (deleting m) eqn:Ed.
  { left; right; left. exists m. split; [left|done]. }
  destruct (addFinalizer (m_Meta m) misskeyFinalizer) as [om []].
  - destruct Hr as (x & h2 & -> & Hr). destruct x as [m'|e2].
    + right. apply (announced_after _ [_; _]). by eapply live_announces.
    + destruct Hr as [-> Hr]. injection Hr as <-. left; right; right. eexists. right. left.
  - right. apply (announced_after _ [_]). by eapply live_announces.
Qed.

(** C4. No failure is lost.  A pass ends its writes at the first one that is refused: behind it
    only reads, events and the status follow.  When [Reconcile] ends well, every write of the
    pass was carried out: what was created, updated or applied was accepted, what was deleted
    is gone or was not there, and the random source and the listings behind clean-ups
    answered; only the status at the end is best effort, and a claim that cannot grow is
    announced by its own event.  When it ends with an error, either the pass has not started,
    or that error was announced by a warning event and every status written afterwards shows
    the phase Error. *)
Theorem failures_surface drift name ns h r :
  runs (Reconcile drift name ns) h r →
  (∀ h1 e h2, h = h1 ++ e :: h2 → carriedOutOrStatus e = false → Forall aftermath (reqs h2))
  ∧ match r with
    | Ok _ => forallb carriedOutOrStatus h = true
    | Err e => notStarted name ns e h ∨ announced e h
    end.
Proof.
  intros Hr. destruct (reports_runs _ _ _ _ _ _ (reports_Reconcile drift name ns) Hr) as [Hg Hl].
  split; [exact Hl|]. destruct r as [res|e]; [by apply Hg|]. clear Hg Hl.
  by apply (Reconcile_announces drift).
Qed.
End Pass.
