(* ===== verification/Waits.v ===== *)
(** * A pass ends soon

    A pass waits only while it replaces a StatefulSet, and tries again only the writes of the
    status.  [costs] walks over all runs and adds up both. *)
From S2P Require Export Errors.
Local Open Scope string_scope.
Local Open Scope Z_scope.
Local Open Scope list_scope.

(** ** Costs *)

Definition isPoll (r : req) : bool := match r with Poll => true | _ => false end.
Definition isStatusWrite (r : req) : bool := match r with StatusUpdate _ _ => true | _ => false end.
Definition countOf (f : req → bool) (h : history) : nat := length (List.filter f (reqs h)).
Lemma countOf_cons f e h : countOf f (e :: h) = (Nat.b2n (f (projT1 e)) + countOf f h)%nat.
Proof. unfold countOf. cbn. by destruct (f (projT1 e)). Qed.

Section Costs.
Context (f : req → bool).

(** No run of [p] has more than [n] requests of [f]. *)
Fixpoint costs {A} (n : nat) (p : prog A) : Prop :=
  match p with
  | Ret _ => True
  | Do r k => if f r then ∃ n', n = S n' ∧ ∀ x, costs n' (k x) else ∀ x, costs n (k x)
  end.

Lemma costs_runs {A} n (p : prog A) h a : costs n p → runs p h a → (countOf f h ≤ n)%nat.
Proof.
  revert n h. induction p as [b|r k IH]; intros n h Hp; cbn [runs].
  - intros [-> _]. apply Nat.le_0_l.
  - intros (x & h' & -> & Hr). rewrite countOf_cons. cbn in *. destruct (f r); cbn.
    + destruct Hp as (n' & -> & Hk). apply le_n_S. by apply (IH x).
    + by apply (IH x).
Qed.
Lemma costs_mono {A} n n' (p : prog A) : (n ≤ n')%nat → costs n p → costs n' p.
Proof.
  revert n n'. induction p as [a|r k IH]; intros n n' Hn; cbn; [done|]. destruct (f r).
  - intros (l & -> & Hk). exists (pred n'). split; [lia|]. intros x. eapply IH, Hk. lia.
  - intros Hk x. by eapply IH.
Qed.
Lemma costs_bind {A B} n n' (p : prog A) (g : A → prog B) :
  costs n p → (∀ a, costs n' (g a)) → costs (n + n') (bind p g).
Proof.
  intros Hp Hg. revert n Hp. induction p as [a|r k IH]; intros n Hp; cbn in *.
  - apply (costs_mono n'); [lia|done].
  - destruct (f r); [|intros x; by apply IH]. destruct Hp as (l & -> & Hk).
    exists (l + n')%nat. split; [lia|]. intros x. by apply IH.
Qed.
Lemma costs_free {A} (p : prog A) : emits (fun r => f r = false) p → costs 0 p.
Proof. induction p as [a|r k IH]; cbn; [done|]. intros [-> Hk] x. exact (IH x (Hk x)). Qed.
Lemma costs_then {A B} n (p : prog A) (g : A → prog B) :
  emits (fun r => f r = false) p → (∀ a, costs n (g a)) → costs n (bind p g).
Proof. intros Hp. by apply (costs_bind 0), costs_free. Qed.
Lemma costs_before {A B} n (p : prog A) (g : A → prog B) :
  costs n p → (∀ a, emits (fun r => f r = false) (g a)) → costs n (bind p g).
Proof.
  intros Hp Hg. rewrite <- (Nat.add_0_r n). apply costs_bind; [done|]. intros a. by apply costs_free.
Qed.
Lemma costs_try {A B} n n' (p : rprog A) (g : A → rprog B) :
  costs n p → (∀ a, costs n' (g a)) → costs (n + n') (tryBind p g).
Proof. intros Hp Hg. apply costs_bind; [done|]. by intros [a|e]. Qed.
Lemma costs_forEach {A} n (l : list A) (g : A → rprog unit) :
  (∀ a, costs n (g a)) → costs (length l * n) (forEach l g).
Proof.
  intros Hg. induction l as [|x l IH]; [done|]. cbn [length forEach]. rewrite Nat.mul_succ_l, Nat.add_comm.
  by apply costs_try.
Qed.
(** The attempts of [RetryOnConflict]. *)
Definition attempts `{KubeLib} : nat := S (pred retrySteps).
Lemma costs_retry `{KubeLib} {A} n (p : rprog A) : costs n p → costs (attempts * n) (retryOnConflict p).
Proof.
  intros Hp. unfold retryOnConflict, attempts. induction (pred retrySteps) as [|k IH]; cbn [retryLoop].
  - apply (costs_mono n); [lia|done].
  - rewrite Nat.mul_succ_l, Nat.add_comm. apply costs_bind; [done|]. intros [a|e]; [done|].
    by destruct (isConflict e).
Qed.
End Costs.

(** ** The walk *)

(** The requests that are counted: polls, or status writes. *)
Definition counted (polls : bool) (r : req) : bool := if polls then isPoll r else isStatusWrite r.

Create HintDb free.
Ltac free_tac := emits_tac; try (match goal with |- counted ?b _ = false => by destruct b end).

Section Handlers.
Context `{KubeLib} `{QuantityLib} (b : bool) (m : Misskey).
Local Notation "'gratis' p" := (emits (fun r => counted b r = false) p) (at level 10, p at level 9).

Lemma free_secretVersion ns name : gratis (secretVersion ns name).
Proof. unfold secretVersion. free_tac. Qed.
#[local] Hint Resolve free_secretVersion : emits.
Lemma free_versions p : gratis (referencedSecretVersions m p).
Proof. unfold referencedSecretVersions. free_tac. Qed.
Lemma free_setData c data live : gratis (setData m c data live).
Proof. exact I. Qed.
Lemma free_jobCleanup c keep : gratis (cleanupJobs m c keep).
Proof. unfold cleanupJobs. free_tac. Qed.
Lemma free_create k o : gratis (createControlled m k o).
Proof. unfold createControlled. free_tac. Qed.
Lemma free_pdb c : gratis (reconcilePDB m c).
Proof. unfold reconcilePDB. free_tac. Qed.
Lemma free_generated name c k n : gratis (generatedSecret m name c k n).
Proof. unfold generatedSecret, secretMutate, randomHex. free_tac. Qed.
#[local] Hint Resolve free_versions free_setData free_jobCleanup free_create free_pdb free_generated
  : emits.
Lemma free_prerequisites p : gratis (reconcilePrerequisites m p).
Proof.
  unfold reconcilePrerequisites, when, reconcileMeiliSecret, reconcileSetupSecret,
    reconcileSensitiveDetectorSecret, reconcileConfigMaps, reconcileTenancy,
    reconcileNetworkIsolation, reconcileEgressIsolation, reconcileResourceQuota,
    reconcileLimitRange, reconcileSensitiveDetector. free_tac.
Qed.
Lemma free_postgres : gratis (do reconcilePostgres m; reconcilePoolers m).
Proof. unfold reconcilePostgres, reconcilePoolers, deletePooler. free_tac. Qed.
Lemma free_read st : gratis (readSensitiveDetectorConfigState m st).
Proof. unfold readSensitiveDetectorConfigState, hasSensitiveDetectorConfigState. free_tac. Qed.
Lemma free_objHash p sql l : gratis (objectStorageHash m p sql l).
Proof. unfold objectStorageHash, credentialSecretVersions. free_tac. Qed.
Lemma free_detectorHash p sql : gratis (sensitiveDetectorConfigHash m p sql).
Proof. unfold sensitiveDetectorConfigHash. free_tac. Qed.
#[local] Hint Resolve free_read free_objHash free_detectorHash : emits.
Lemma free_checksum p : gratis (misskeyChecksum m p).
Proof. unfold misskeyChecksum. free_tac. Qed.
Lemma free_autoscaler c n a p : gratis (reconcileAutoscaler m c n a p).
Proof.
  unfold reconcileAutoscaler, reconcileScaledObject, deleteScaledObject, deleteHPA,
    deleteTriggerAuth. free_tac.
Qed.
#[local] Hint Resolve free_checksum free_autoscaler : emits.
Lemma free_migrate p : gratis (migrate m p).
Proof.
  unfold migrate, reconcilePreMigrationBackup, cleanupOldPreMigrationBackups, reconcileMigration,
    cleanupOldMigrationJobs, migrationChecksum. free_tac.
Qed.
Lemma free_configure p d st : gratis (configureInstance m p d st).
Proof.
  unfold configureInstance, reconcileObjectStorage, cleanupObjectStorageJobs,
    reconcileSensitiveDetectorConfig, cleanupSensitiveDetectorConfigJobs, runDetectorConfigJob.
  free_tac.
Qed.
#[local] Hint Resolve free_migrate free_configure : emits.
Lemma free_rollout p st : gratis (reconcileRollout m p st).
Proof.
  unfold reconcileRollout, when, suspendWorkloads, suspendOne, deleteHPA, deleteScaledObject,
    deleteTriggerAuth, databaseReady, databaseCondition, redisReady, redisCondition, instanceReady,
    readyPodsByAppLabel, reconcileApp, reconcileWorker, applyRole. free_tac.
Qed.
Lemma free_edge p : gratis (reconcileEdge m p).
Proof.
  unfold reconcileEdge, reconcileProxy, deleteLegacyMaintenanceWorkload, deleteProxyResources,
    deleteMaintenanceHTMLConfigMap, reconcileIngress, reconcileMonitoring, cleanupRedisMonitors,
    deleteMonitor. free_tac.
Qed.
Lemma free_finalize p d st : gratis (finalizeSensitiveDetectorCleanup m p d st).
Proof.
  unfold finalizeSensitiveDetectorCleanup, misskeyWorkloadsConverged, workloadConverged,
    finalizeManaged, sensitiveDetectorConverged, cleanupSensitiveDetector,
    cleanupGeneratedSensitiveDetectorSecret, cleanupSensitiveDetectorConfigState,
    cleanupSensitiveDetectorConfigJobs. free_tac.
Qed.
Lemma free_image : gratis (resolveImage m).
Proof.
  unfold resolveImage, pinImage, pullSecretKeychain, Pinned, registryHead, since. free_tac.
Qed.
Lemma free_deletion : gratis (reconcileDelete m).
Proof. unfold reconcileDelete, retainData, orphan. free_tac. Qed.

(** *** What is counted *)

(** One tick, one attempt. *)
Definition ticks : nat := if b then pollTicks else 0.
Definition tries : nat := if b then 0 else attempts.

Lemma costs_waitGone n name ns : costs (counted b) (if b then n else 0) (waitGone n name ns).
Proof.
  induction n as [|n IH]; cbn [waitGone costs bind send counted].
  - destruct b; cbn; intros [x|e]; try done; by destruct (isNotFound e).
  - assert (costs (counted b) (if b then S n else 0) (let! more := send Poll in
      if more then waitGone n name ns else fail (errorf "context deadline exceeded"))) as Hp.
    { destruct b; cbn; [exists n; split; [done|]|]; by intros []. }
    destruct b; cbn [isPoll isStatusWrite]; intros [x|e]; try exact Hp; by destruct (isNotFound e).
Qed.
Lemma costs_sts sts f :
  (∀ live, gratis (f live)) → costs (counted b) ticks (applyStatefulSet m sts f).
Proof.
  intros Hf. unfold applyStatefulSet, recreate. apply costs_then; [done|]. intros [s|e]; [|done]. cbv zeta.
  apply costs_then; [free_tac|]. intros r. apply costs_before.
  2:{ intros [u|e]; free_tac. }
  destruct r as [ex|e]; [|by destruct (isNotFound e)]. case_match; [done|]. case_match; [|done].
  apply costs_then; [apply emits_expand; intros; by destruct b|]. intros _.
  apply costs_then; [free_tac|]. intros d. apply costs_then; [done|]. intros [u|e]; [|done].
  apply costs_then; [free_tac|]. intros _. apply costs_before; [apply costs_waitGone|].
  by intros [u'|e].
Qed.

Lemma costs_instance i : costs (counted b) ticks (reconcileInstance m i).
Proof.
  unfold reconcileInstance. destruct (ri_ha i).
  { apply (costs_mono _ 0); [apply Nat.le_0_l|]. apply costs_free.
    unfold deleteRedisStandalone, reconcileRedisHA, reconcileRedisHANetworkPolicy. free_tac. }
  unfold deleteRedisHA, deleteRedisHANetworkPolicy, reconcileRedisStandalone.
  do 2 (apply costs_then; [free_tac|]; intros [?|?]; [|done]).
  apply costs_then; [free_tac|]. intros [u|e]; [|done]. apply costs_before.
  { apply costs_sts. intros live. free_tac. }
  intros [u'|e]; free_tac.
Qed.
(** The five redis instances and the search engine. *)
Definition replaced : nat := 6.
Lemma costs_backends p : costs (counted b) (replaced * ticks) (reconcileBackends m p).
Proof.
  change (replaced * ticks)%nat with (ticks + 5 * ticks)%nat. rewrite Nat.add_comm.
  unfold reconcileBackends, when. apply costs_try.
  - unfold reconcileRedis. apply costs_then.
    { unfold reconcileRedisAuthSecret. free_tac. }
    intros [u|e]; [|done]. apply costs_before.
    + apply (costs_mono _ (length (managedRedisInstances m) * ticks)).
      { apply Nat.mul_le_mono_r. rewrite <- (length_map ri_suffix).
        exact (sublist_length _ _ (suffixes_sublist m)). }
      apply costs_forEach, costs_instance.
    + intros [u'|e]; [|done]. unfold cleanupSuffix, deleteRedisStandalone, deleteRedisHA,
        deleteRedisHANetworkPolicy. free_tac.
  - intros _. apply costs_before.
    + destruct (p_meiliManaged p); [|done]. unfold reconcileMeilisearch.
      apply costs_then; [free_tac|]. intros [u|e]; [|done]. apply costs_sts. intros live. free_tac.
    + intros [u|e]; [|done]. unfold reconcileAppService, cleanupObjectStorage, cleanupObjectStorageJobs.
      free_tac.
Qed.
Lemma costs_statusWrite {A} (p : rprog A) :
  (if b then costs (counted b) 0 p else costs (counted b) 1 p) →
  costs (counted b) tries (retryOnConflict p).
Proof.
  unfold tries. destruct b; intros Hp.
  - rewrite <- (Nat.mul_0_r attempts). by apply costs_retry.
  - rewrite <- (Nat.mul_1_r attempts). by apply costs_retry.
Qed.
Lemma costs_database p : costs (counted b) tries (reconcileDatabase m p).
Proof.
  assert (∀ {A} (q : prog A), gratis q → costs (counted b) tries q) as Hz.
  { intros A q Hq. by apply (costs_mono _ 0); [apply Nat.le_0_l|apply costs_free]. }
  assert (∀ v, costs (counted b) tries (recordBackupVerification m v)) as Hr.
  { intros v. unfold recordBackupVerification. apply costs_before; [|by intros []].
    apply costs_statusWrite. destruct b; cbn; intros [cur|e]; cbn; try done. exists 0%nat. done. }
  assert (∀ v a c d, costs (counted b) tries (finishVerify m v a c d)) as Hf.
  { intros v a c d. unfold finishVerify, deleteVerifyCluster. apply costs_before; [apply Hr|].
    intros [m' [u|e]]; free_tac. }
  unfold reconcileDatabase. destruct (p_dbManaged p); [|by apply Hz].
  apply costs_then; [apply free_postgres|]. intros [u|e]; [|done].
  unfold reconcileBackupVerify. repeat case_match; try solve [apply Hz; unfold deleteVerifyCluster; free_tac].
  apply costs_then; [free_tac|]. intros [cl|e].
  - apply costs_then; [free_tac|]. intros now. cbv zeta. repeat case_match; [apply Hf..|done].
  - apply Hz. free_tac.
Qed.
Lemma costs_status e st : costs (counted b) tries (updateStatus m e st).
Proof.
  status_tac. apply costs_then; [free_tac|]. intros cs. destruct (aggregate m e cs) as [[rd v] ph].
  apply costs_before; [|by intros [u|x]]. apply costs_statusWrite.
  assert (∀ cur, costs (counted b) (if b then 0 else 1) (
    let! now := send Now in let! backup := readBackupStatus m (resolve m) in
    do send (StatusUpdate KMisskey (set_m_Status (newStatus m (resolve m) cs v ph now backup cur) cur));
    ok tt)) as Hb.
  { intros cur. apply costs_then; [free_tac|]. intros now. unfold readBackupStatus.
    apply costs_then; [free_tac|]. intros bk. destruct b; cbn; [by intros [x|x]|].
    exists 0%nat. split; [done|]. by intros [x|x]. }
  destruct b; apply costs_then; try free_tac; intros [cur|x]; try done; apply Hb.
Qed.
End Handlers.

(** ** The whole pass *)

Section Pass.
Context `{KubeLib} `{QuantityLib} (b : bool).

Lemma costs_all m st : costs (counted b) (tries b + replaced * ticks b) (reconcileAll m st).
Proof.
  unfold reconcileAll. cbv zeta. apply costs_then; [apply free_prerequisites|]. intros [u|e]; [|done].
  apply costs_bind; [apply costs_database|]. intros [m' [u1|e]]; [|done].
  apply costs_before; [apply costs_backends|]. intros [u2|e]; [|done].
  apply emits_bind; [apply free_read|]. intros st1. destruct (dc_err st1); [done|].
  apply emits_bind; [apply free_rollout|]. intros [st2 [fin|e]]; [|done].
  apply emits_bind; [apply free_edge|]. intros [u3|e]; [|done].
  apply emits_bind; [apply free_finalize|]. done.
Qed.
Lemma costs_live drift m :
  costs (counted b) (tries b + replaced * ticks b + tries b) (reconcileLive drift m).
Proof.
  unfold reconcileLive. apply costs_then; [apply free_image|]. intros i. apply costs_bind.
  - destruct i as [m' [u|e]]; [apply costs_all|done].
  - intros [[m' st] r]. unfold concludePass. apply costs_then; [apply free_read|]. intros st'.
    apply costs_then; [destruct r; free_tac|]. intros _. apply costs_before; [apply costs_status|].
    intros u. by destruct r.
Qed.
Lemma costs_Reconcile drift name ns :
  costs (counted b) (tries b + replaced * ticks b + tries b) (Reconcile drift name ns).
Proof.
  apply costs_then; [free_tac|]. intros [m|e]; [|by destruct (isNotFound e)].
  destruct (deleting m).
  { apply (costs_mono _ 0); [apply Nat.le_0_l|]. apply costs_free, free_deletion. }
  destruct (addFinalizer _ _) as [om []]; [|apply costs_live].
  apply costs_then; [free_tac|]. intros [m'|e]; [apply costs_live|done].
Qed.
End Pass.

(** C21. A pass ends soon.  Whatever the server answers, a reconcile waits at most [pollTicks] ticks
    of 200 ms for each of the six StatefulSets it may replace, thirty seconds in all, and sends
    the status of the instance at most twice as often as [retry.DefaultRetry] tries: once for
    the restore test and once at the end. *)
Theorem pass_ends `{KubeLib} `{QuantityLib} drift name ns h r :
  runs (Reconcile drift name ns) h r →
  (countOf isPoll h ≤ replaced * pollTicks)%nat ∧ (countOf isStatusWrite h ≤ 2 * attempts)%nat.
Proof.
  intros Hr. split.
  - exact (costs_runs _ _ _ _ _ (costs_Reconcile true drift name ns) Hr).
  - pose proof (costs_runs _ _ _ _ _ (costs_Reconcile false drift name ns) Hr) as Hc.
    cbn in Hc. rewrite Nat.add_0_r in Hc. cbn [Nat.mul]. rewrite Nat.add_0_r. exact Hc.
Qed.
