(* ===== verification/Manager.v ===== *)
(** * The process: cmd/main.go and the watches of the controllers

    The flags, what the manager makes of them, and which changes of which objects start a
    reconcile.  The walk at the end shows that the watches match what a pass writes. *)
From S2P Require Export Progress Webhook.
Local Open Scope string_scope.
Local Open Scope Z_scope.
Local Open Scope list_scope.

(** ** Flags and wiring (cmd/main.go) *)

Record flags := mkFlags {
  metricsAddr : string;
  enableLeaderElection : bool;
  probeAddr : string;
  secureMetrics : bool;
  driftResyncInterval : Z;
  watchNamespaces : string;
  allowedImageRegistries : string;
  allowedClusterIssuers : string }.
Definition defaultFlags : flags := mkFlags ":8443" false ":8081" true (3 * Minute) "" "" "".

(** The keys of [DefaultNamespaces]; [None] when the flag is empty and the map is not set. *)
Definition cacheNamespaces (watchNamespaces : string) : option (gset string) :=
  if String.eqb watchNamespaces "" then None
  else Some (list_to_set (List.filter (fun ns => negb (String.eqb ns ""))
                            (map trimSpace (split watchNamespaces ","%char)))).

(** The manager with its two reconcilers and, unless ENABLE_WEBHOOKS is "false", the
    validators.  The digest resolver is one for both reconcilers. *)
Record manager := mkManager {
  mgr_Metrics : string * bool;
  mgr_HealthProbeBindAddress : string;
  mgr_Namespaces : option (gset string);
  mgr_DisableFor : list kind;
  mgr_LeaderElection : bool;
  mgr_LeaderElectionID : string;
  mgr_DriftResyncInterval : Z;
  mgr_Webhooks : option (MisskeyCustomValidator * MisskeyChannelCustomValidator) }.
Definition main (f : flags) (ENABLE_WEBHOOKS : string) : manager :=
  mkManager (metricsAddr f, secureMetrics f) (probeAddr f) (cacheNamespaces (watchNamespaces f))
    [KSecret] (enableLeaderElection f) "cloudnative-misskey.dev" (driftResyncInterval f)
    (if negb (String.eqb ENABLE_WEBHOOKS "false") then
       let imageAllow := splitCSV (allowedImageRegistries f) in
       let issuerAllow := splitCSV (allowedClusterIssuers f) in
       Some (mkValidator imageAllow issuerAllow, mkChannelValidator imageAllow)
     else None).

(** ** Watches ([SetupWithManager] of both controllers) *)

#[global] Instance kind_eq_dec : EqDecision kind.
Proof. solve_decision. Defined.

(** The kinds under [Owns]. *)
Definition ownedKinds : list kind :=
  [KDeployment; KStatefulSet; KJob; KService; KConfigMap; KResourceQuota; KLimitRange; KIngress;
   KNetworkPolicy; KPDB; KHPA].
Definition isOwned (k : kind) : bool := bool_decide (k ∈ ownedKinds).

(** The handler that [Owns] installs: the owners, by namespace and name, that a change of an
    object with this metadata enqueues. *)
Class WatchLib := { enqueueOwner : ObjectMeta → list (string * string) }.

(** The instances, by namespace and name, that a change of an object enqueues, and the
    channels. *)
Definition misskeyRequests `{WatchLib} (k : kind) : objT k → prog (list (string * string)) :=
  match k with
  | KMisskey => fun m => Ret [(m_Namespace m, m_Name m)]
  | KChannel => fun ch => misskeysForChannel (ch_Name ch)
  | k => fun o => Ret (if isOwned k then enqueueOwner (metaOf k o) else [])
  end.
Definition channelRequests (k : kind) : objT k → list string :=
  match k with
  | KChannel => fun ch => [ch_Name ch]
  | KMisskey => fun m => channelOfMisskey m
  | _ => fun _ => []
  end.

(** ** What a pass writes is watched *)

(** The reference of an object that is marked as its controller. *)
Definition controllerOf (om : ObjectMeta) : option OwnerReference :=
  List.find own_Controller (om_OwnerReferences om).
Definition controlledBy (m : Misskey) (om : ObjectMeta) : Prop :=
  ∃ r, controllerOf om = Some r ∧ refersTo m r = true.
(** [SetControllerReference] leaves the instance as the controller. *)
Class ControlLaws `{KubeLib} :=
  scr_controls : ∀ m om om', setControllerReference m om = Ok om' → controlledBy m om'.
(** [Owns] enqueues the controller of an object. *)
Class WatchLaws `{WatchLib} :=
  enqueue_controller : ∀ m om, controlledBy m om → enqueueOwner om = [(om_Namespace om, m_Name m)].

(** Kinds without a watch: Secrets, which are not cached either, and the kinds of other
    operators. *)
Definition unwatched (k : kind) : bool := match k with KSecret | KU _ => true | _ => false end.

(** A write of a pass: an object the instance controls, of a kind that is watched or known to
    be not; a claim that grows or a Deployment put to sleep; the status of an instance. *)
Definition linked (m : Misskey) (r : req) : Prop :=
  match r with
  | UpsertCommit k o | Create k o =>
      isOwned k || unwatched k = true ∧ controlledBy m (metaOf k o)
  | Apply u => controlledBy m (u_Meta u)
  | Update k _ => k = KPVC ∨ k = KDeployment
  | StatusUpdate k _ => k = KMisskey
  | _ => True
  end.

Create HintDb linked.
Section Linked.
Context `{KubeLib} {CL : ControlLaws} `{QuantityLib} (m : Misskey).

Lemma linked_apply k o f :
  isOwned k || unwatched k = true → (∀ live, emits (linked m) (f live)) →
  emits (linked m) (applyOwned m k o f).
Proof.
  intros Hk Hf. unfold applyOwned. apply emits_tryBind; [by split|]. intros live.
  apply emits_tryBind; [apply Hf|]. intros o'.
  destruct (setControllerReference m (metaOf k o')) as [om|e] eqn:E; [|done].
  split; [|intros [o2|e]; done]. cbn. rewrite metaOf_setMeta. split; [done|].
  by eapply scr_controls.
Qed.
Lemma linked_applySSA u : emits (linked m) (applySSA m u).
Proof. apply emits_applySSA_owned. intros om E. cbn. by eapply scr_controls. Qed.
Lemma linked_create k o :
  isOwned k || unwatched k = true → emits (linked m) (createControlled m k o).
Proof.
  intros Hk. unfold createControlled.
  destruct (setControllerReference m (metaOf k o)) as [om|e] eqn:E; [|done].
  split; [|done]. cbn. rewrite metaOf_setMeta. split; [done|]. by eapply scr_controls.
Qed.
End Linked.
Ltac linked_step :=
  lazymatch goal with
  | |- emits _ (applyOwned _ _ _ _) => apply linked_apply; [reflexivity|intros ?]
  | |- emits _ (createControlled _ _ _) => apply linked_create; reflexivity
  | |- emits _ (applySSA _ _) => apply linked_applySSA
  | |- emits _ (waitGone _ _ _) => by apply emits_waitGone
  | |- emits _ _ => emits_step
  end.
Ltac linked_tac := repeat (solve [auto with linked nocore] || linked_step);
  try solve [exact I|reflexivity|by left|by right].

Section Handlers.
Context `{KubeLib} {CL : ControlLaws} `{QuantityLib} (m : Misskey).

Lemma linked_secretVersion ns name : emits (linked m) (secretVersion ns name).
Proof. unfold secretVersion. linked_tac. Qed.
#[local] Hint Resolve linked_secretVersion : linked.
Lemma linked_versions p : emits (linked m) (referencedSecretVersions m p).
Proof. unfold referencedSecretVersions. linked_tac. Qed.
#[local] Hint Resolve linked_versions : linked.
Lemma linked_generated name c k n : emits (linked m) (generatedSecret m name c k n).
Proof. unfold generatedSecret, secretMutate, randomHex. linked_tac. Qed.
Lemma linked_cleanupJobs c keep : emits (linked m) (cleanupJobs m c keep).
Proof. unfold cleanupJobs. linked_tac. Qed.
Lemma linked_pdb c : emits (linked m) (reconcilePDB m c).
Proof. unfold reconcilePDB. linked_tac. Qed.
#[local] Hint Resolve linked_generated linked_cleanupJobs linked_pdb : linked.
Lemma linked_prerequisites p : emits (linked m) (reconcilePrerequisites m p).
Proof.
  unfold reconcilePrerequisites, when, reconcileMeiliSecret, reconcileSetupSecret,
    reconcileSensitiveDetectorSecret, reconcileConfigMaps, setData, reconcileTenancy,
    reconcileNetworkIsolation, reconcileEgressIsolation, reconcileResourceQuota,
    reconcileLimitRange, reconcileSensitiveDetector. linked_tac.
Qed.
Lemma linked_sts sts f :
  (∀ live, emits (linked m) (f live)) → emits (linked m) (applyStatefulSet m sts f).
Proof.
  intros Hf. unfold applyStatefulSet, recreate, expandStatefulSetPVCs, expandPVC.
  linked_tac.
Qed.
Lemma linked_redis : emits (linked m) (reconcileRedis m).
Proof.
  unfold reconcileRedis, reconcileRedisAuthSecret, reconcileInstance, cleanupSuffix,
    deleteRedisStandalone, deleteRedisHA, deleteRedisHANetworkPolicy, reconcileRedisHA,
    reconcileRedisHANetworkPolicy, reconcileRedisStandalone. linked_tac; apply linked_sts; intros ?; linked_tac.
Qed.
Lemma linked_database p : emits (linked m) (reconcileDatabase m p).
Proof.
  unfold reconcileDatabase, reconcilePostgres, reconcilePoolers, deletePooler,
    reconcileBackupVerify, finishVerify, recordBackupVerification, deleteVerifyCluster. linked_tac.
Qed.
Lemma linked_backends p : emits (linked m) (reconcileBackends m p).
Proof.
  pose proof linked_redis.
  unfold reconcileBackends, when, reconcileMeilisearch, reconcileAppService, cleanupObjectStorage,
    cleanupObjectStorageJobs. linked_tac; apply linked_sts; intros ?; linked_tac.
Qed.
Lemma linked_read st : emits (linked m) (readSensitiveDetectorConfigState m st).
Proof. unfold readSensitiveDetectorConfigState, hasSensitiveDetectorConfigState. linked_tac. Qed.
Lemma linked_objHash p sql l : emits (linked m) (objectStorageHash m p sql l).
Proof. unfold objectStorageHash, credentialSecretVersions. linked_tac. Qed.
Lemma linked_detectorHash p sql : emits (linked m) (sensitiveDetectorConfigHash m p sql).
Proof. unfold sensitiveDetectorConfigHash. linked_tac. Qed.
#[local] Hint Resolve linked_redis linked_read linked_objHash linked_detectorHash : linked.
Lemma linked_checksum p : emits (linked m) (misskeyChecksum m p).
Proof. unfold misskeyChecksum. linked_tac. Qed.
Lemma linked_autoscaler c n a p : emits (linked m) (reconcileAutoscaler m c n a p).
Proof.
  unfold reconcileAutoscaler, reconcileScaledObject, deleteScaledObject, deleteHPA,
    deleteTriggerAuth. linked_tac.
Qed.
#[local] Hint Resolve linked_checksum linked_autoscaler : linked.
Lemma linked_migrate p : emits (linked m) (migrate m p).
Proof.
  unfold migrate, reconcilePreMigrationBackup, cleanupOldPreMigrationBackups, reconcileMigration,
    cleanupOldMigrationJobs, migrationChecksum. linked_tac.
Qed.
Lemma linked_configure p b st : emits (linked m) (configureInstance m p b st).
Proof.
  unfold configureInstance, reconcileObjectStorage, cleanupObjectStorageJobs,
    reconcileSensitiveDetectorConfig, cleanupSensitiveDetectorConfigJobs, setData,
    runDetectorConfigJob. linked_tac.
Qed.
Lemma linked_ready p : emits (linked m) (databaseReady m p) ∧ emits (linked m) (redisReady m).
Proof.
  unfold databaseReady, databaseCondition, redisReady, redisCondition, instanceReady,
    readyPodsByAppLabel. split; linked_tac.
Qed.
Lemma linked_suspend p : emits (linked m) (suspendWorkloads m p).
Proof.
  unfold suspendWorkloads, suspendOne, deleteHPA, deleteScaledObject, deleteTriggerAuth. linked_tac.
Qed.
#[local] Hint Resolve linked_migrate linked_configure linked_suspend : linked.
Lemma linked_rollout p st : emits (linked m) (reconcileRollout m p st).
Proof.
  destruct (linked_ready p). unfold reconcileRollout, when, reconcileApp, reconcileWorker, applyRole.
  linked_tac.
Qed.
Lemma linked_edge p : emits (linked m) (reconcileEdge m p).
Proof.
  unfold reconcileEdge, reconcileProxy, deleteLegacyMaintenanceWorkload, deleteProxyResources,
    deleteMaintenanceHTMLConfigMap, reconcileIngress, reconcileMonitoring, cleanupRedisMonitors,
    deleteMonitor. linked_tac.
Qed.
Lemma linked_finalize p b st : emits (linked m) (finalizeSensitiveDetectorCleanup m p b st).
Proof.
  unfold finalizeSensitiveDetectorCleanup, misskeyWorkloadsConverged, workloadConverged,
    finalizeManaged, sensitiveDetectorConverged, cleanupSensitiveDetector,
    cleanupGeneratedSensitiveDetectorSecret, cleanupSensitiveDetectorConfigState,
    cleanupSensitiveDetectorConfigJobs. linked_tac.
Qed.
End Handlers.

Section Wake.
Context `{KubeLib} {CL : ControlLaws} `{QuantityLib} `{WatchLaws}.

Lemma linked_all m st : emits (linked m) (reconcileAll m st).
Proof.
  unfold reconcileAll. cbv zeta. apply emits_bind; [apply linked_prerequisites|].
  intros [u|e]; [|done]. apply emits_bind_runs; [apply linked_database|].
  intros h d Hd. pose proof (database_status m (resolve m) []) as Hs. rewrite wp_runs in Hs.
  specialize (Hs _ _ Hd). destruct d as [m' [u'|e]]; [|done]. destruct Hs as [s Hs]. cbn in Hs.
  subst m'. change (linked m) with (linked (set_m_Status s m)).
  apply emits_bind; [apply linked_backends|]. intros [u2|e]; [|done].
  apply emits_bind; [apply linked_read|]. intros st1. destruct (dc_err st1); [done|].
  apply emits_bind; [apply linked_rollout|]. intros [st2 [fin|e]]; [|done].
  apply emits_bind; [apply linked_edge|]. intros [u3|e]; [|done].
  apply emits_bind; [apply linked_finalize|done].
Qed.

Lemma owned_wakes m k o :
  isOwned k = true → controlledBy m (metaOf k o) →
  misskeyRequests k o = Ret [(om_Namespace (metaOf k o), m_Name m)].
Proof.
  intros Hk Hc%enqueue_controller. destruct k; try discriminate Hk;
    unfold misskeyRequests; rewrite Hk, Hc; reflexivity.
Qed.

(** C22. Whatever a pass writes belongs to the instance, and a later change of it is noticed: an
    object that is created or updated has the instance as its controller, so that it goes when
    the instance goes, and unless it is a Secret or an object of another operator, which only
    the drift check covers, its kind is watched and a change of it starts a reconcile of this
    instance.  The only other writes are to claims, to Deployments put to sleep, and to the
    status. *)
Theorem writes_watched m st h x :
  runs (reconcileAll m st) h x →
  Forall (linked m) (reqs h)
  ∧ ∀ k o, UpsertCommit k o ∈ reqs h ∨ Create k o ∈ reqs h → unwatched k = false →
      misskeyRequests k o = Ret [(om_Namespace (metaOf k o), m_Name m)].
Proof.
  intros Hr. pose proof (emits_runs _ _ _ _ (linked_all m st) Hr) as Hl. split; [done|].
  rewrite Forall_forall in Hl. intros k o Hin Hu.
  assert (isOwned k || unwatched k = true ∧ controlledBy m (metaOf k o)) as [Hk Hc].
  { by destruct Hin as [Hin|Hin]; specialize (Hl _ Hin). }
  rewrite Hu, orb_false_r in Hk. by apply owned_wakes.
Qed.
End Wake.

(** The namespaces of the cache are the trimmed, non-empty names of the flag. *)
Lemma cacheNamespaces_spec s :
  match cacheNamespaces s with
  | None => s = ""
  | Some X => s ≠ "" ∧ ∀ ns, ns ∈ X ↔ ns ≠ "" ∧ ∃ part, part ∈ split s ","%char ∧ ns = trimSpace part
  end.
Proof.
  unfold cacheNamespaces. destruct (String.eqb_spec s "") as [|Hs]; [done|]. split; [done|].
  intros ns. rewrite elem_of_list_to_set, list_elem_of_In, filter_In, in_map_iff.
  destruct (String.eqb_spec ns "") as [->|Hn]; cbn; [naive_solver|].
  split.
  - intros [(p & <- & Hp) _]. split; [done|]. exists p. by rewrite list_elem_of_In.
  - intros (_ & p & Hp & ->). split; [|done]. exists p. by rewrite <- list_elem_of_In.
Qed.
