(* ===== verification/Steady.v ===== *)
(** * A pass does not fight itself

    [CreateOrUpdate] reads an object, lets a mutation change it and writes the result.  Here it
    is shown that every mutation of a pass is a fixed point: read back what was written, and
    the same is written again. *)
From S2P Require Export Manager Errors.
Local Open Scope string_scope.
Local Open Scope Z_scope.
Local Open Scope list_scope.

(** ** What a program sends next *)

(** With the events [h] behind it, [p] sends [r]. *)
Fixpoint sends {A} (p : prog A) (h : history) (r : req) : Prop :=
  match p with
  | Ret _ => False
  | Do q k =>
      match h with
      | [] => r = q
      | e :: h => ∃ x, e = ev q x ∧ sends (k x) h r
      end
  end.

Definition upsert (r : req) : bool :=
  match r with UpsertBegin _ _ | UpsertCommit _ _ => true | _ => false end.
Definition isGet (r : req) : bool := match r with Get _ _ _ => true | _ => false end.
Definition upsertFree (h : history) : Prop := Forall (fun r => upsert r = false) (reqs h).
Lemma Forall_reqs_app P h1 h2 : Forall P (reqs (h1 ++ h2)) ↔ Forall P (reqs h1) ∧ Forall P (reqs h2).
Proof. by rewrite reqs_app, Forall_app. Qed.

Lemma runs_sends_at {A} (p : prog A) h r x h' a : runs p (h ++ ev r x :: h') a → sends p h r.
Proof.
  revert h. induction p as [b|q K IH]; intros h.
  - intros [Hh _]. by destruct h.
  - intros (y & h2 & Heq & Hr). destruct h as [|e h].
    + by injection Heq as He _ _.
    + injection Heq as -> <-. exists y. split; [done|]. by apply IH.
Qed.
Lemma runs_then {A B} (p : prog A) (f : A → prog B) h1 h2 a b :
  runs p h1 a → runs (f a) h2 b → runs (bind p f) (h1 ++ h2) b.
Proof.
  revert h1. induction p as [c|q K IH]; intros h1; simpl; [by intros [-> ->]|].
  intros (x & h & -> & Hr) Hf. exists x, (h ++ h2). split; [done|]. by apply IH.
Qed.

(** ** Steady programs *)

(** Between reading an object and writing it there are only reads and draws. *)
Definition draws (r : req) : bool :=
  match r with Get _ _ _ | RandRead _ => true | _ => false end.
(** A program that has read the object [live] and writes [b] would write [b] after reading [b]
    as well, and then go on in the same way. *)
Definition steadyAt {A} (k : kind) (K : result error (objT k) → prog A) : Prop :=
  ∀ live h b x h2 a, runs (K (Ok live)) (h ++ ev (UpsertCommit k b) x :: h2) a → upsertFree h →
    Forall draws (reqs h)
    ∧ ∃ h', h' `sublist_of` h ∧ Forall isGet (reqs h')
            ∧ runs (K (Ok b)) (h' ++ ev (UpsertCommit k b) x :: h2) a.
Fixpoint steady {A} (p : prog A) : Prop :=
  match p with
  | Ret _ => True
  | Do r K =>
      (match r return (resp r → prog A) → Prop with
       | UpsertBegin k _ => fun K => steadyAt k K
       | _ => fun _ => True
       end) K ∧ ∀ x, steady (K x)
  end.
(** Nothing is committed before something was begun. *)
Fixpoint begun {A} (p : prog A) : Prop :=
  match p with
  | Ret _ => True
  | Do (UpsertBegin _ _) _ => True
  | Do (UpsertCommit _ _) _ => False
  | Do _ K => ∀ x, begun (K x)
  end.
Definition calm {A} (p : prog A) : Prop := steady p ∧ begun p.

Lemma begun_sends {A} (p : prog A) h k b :
  begun p → upsertFree h → ¬ sends p h (UpsertCommit k b).
Proof.
  revert h. induction p as [a|q K IH]; intros h Hb Hh; simpl; [by intros []|].
  destruct h as [|e h].
  - intros Hq. subst q. done.
  - intros (x & -> & Hs). apply Forall_cons in Hh as [Hq Hh]. cbn in Hq.
    destruct q; try discriminate Hq; by apply (IH x h (Hb x)).
Qed.
Lemma begun_runs {A} (p : prog A) h k b x h2 a :
  begun p → upsertFree h → ¬ runs p (h ++ ev (UpsertCommit k b) x :: h2) a.
Proof. intros Hb Hh Hr%runs_sends_at. by eapply begun_sends. Qed.
Lemma begun_bind {A B} (p : prog A) (f : A → prog B) :
  begun p → (∀ a, begun (f a)) → begun (bind p f).
Proof.
  intros Hp Hf. induction p as [a|q K IH]; simpl in *; [apply Hf|]. destruct q; auto.
Qed.
Lemma steady_bind {A B} (p : prog A) (f : A → prog B) :
  steady p → (∀ a, calm (f a)) → steady (bind p f).
Proof.
  intros Hp Hf. induction p as [a|q K IH]; simpl in *; [apply Hf|].
  destruct Hp as [Hq HK]. split; [|auto]. destruct q; try exact I.
  intros live h b x h2 b' (ha & hb & a & Heq & Hr & Hs)%runs_bind Hh.
  apply app_eq_app in Heq as (l & [[-> ->]|[-> Heq]]).
  { exfalso. apply Forall_reqs_app in Hh as [_ Hh]. by eapply begun_runs, Hs; [apply Hf|]. }
  destruct l as [|c l].
  { exfalso. cbn in Heq. subst hb. eapply (begun_runs _ []), Hs; [apply Hf|constructor]. }
  injection Heq as <- ->. destruct (Hq live h b x l a Hr Hh) as (Hd & h' & Hl & Hg & Hr').
  split; [done|]. exists h'. split_and!; [done|done|].
  rewrite app_comm_cons, app_assoc. by eapply runs_then.
Qed.
Lemma calm_bind {A B} (p : prog A) (f : A → prog B) :
  calm p → (∀ a, calm (f a)) → calm (bind p f).
Proof.
  intros [Hs Hb] Hf. split; [by apply steady_bind|apply begun_bind; [done|apply Hf]].
Qed.
Lemma calm_tryBind {A B} (p : rprog A) (f : A → rprog B) :
  calm p → (∀ a, calm (f a)) → calm (tryBind p f).
Proof. intros Hp Hf. apply calm_bind; [done|]. by intros [a|e]. Qed.
Lemma calm_free {A} (p : prog A) : emits (fun r => upsert r = false) p → calm p.
Proof.
  induction p as [a|q K IH]; [done|]. intros [Hq HK].
  assert (∀ x, calm (K x)) as Hc by auto.
  destruct q; try discriminate Hq; split; cbn; try (split; [exact I|]); intros x; apply Hc.
Qed.
(** In front of a mutation nothing has to be begun. *)
Lemma steady_free {A B} (p : prog A) (f : A → prog B) :
  emits (fun r => upsert r = false) p → (∀ a, steady (f a)) → steady (bind p f).
Proof.
  intros Hp Hf. induction p as [a|q K IH]; simpl in *; [apply Hf|]. destruct Hp as [Hq HK].
  split; [|auto]. by destruct q.
Qed.
Lemma calm_forEach {A} (l : list A) (f : A → rprog unit) :
  (∀ a, a ∈ l → calm (f a)) → calm (forEach l f).
Proof.
  induction l as [|x l IH]; intros Hf; [done|]. apply calm_tryBind; [apply Hf; left|].
  intros _. apply IH. intros a Ha. apply Hf. by right.
Qed.

(** ** Mutations *)

Definition withRefs (k : kind) (refs : list OwnerReference) (o : objT k) : objT k :=
  setMeta k (set_OwnerReferences refs (metaOf k o)) o.
(** The result of a mutation, with any owners, is left as it is, for the same answers to reads. *)
Definition fixes (k : kind) (f : objT k → rprog (objT k)) : Prop :=
  ∀ live h b refs, runs (f live) h (Ok b) →
    ∃ h', h' `sublist_of` h ∧ Forall isGet (reqs h')
          ∧ runs (f (withRefs k refs b)) h' (Ok (withRefs k refs b)).

Lemma fixes_pure k (g : objT k → objT k) :
  (∀ o refs, g (withRefs k refs (g o)) = withRefs k refs (g o)) → fixes k (fun o => ok (g o)).
Proof.
  intros Hg live h b refs [-> [= ->]]. exists []. split_and!; [done|constructor|]. split; [done|].
  by rewrite Hg.
Qed.
Lemma fixes_read {A} k (c : rprog A) (g : A → objT k → objT k) :
  emits isGet c → (∀ a o refs, g a (withRefs k refs (g a o)) = withRefs k refs (g a o)) →
  fixes k (fun o => try a := c in ok (g a o)).
Proof.
  intros He Hg live h b refs (h1 & h2 & [a|e] & -> & Hc & Hr)%runs_bind; [|by destruct Hr].
  destruct Hr as [-> [= ->]]. exists h1. split; [by rewrite app_nil_r|].
  split; [by eapply emits_runs|].
  rewrite <- (app_nil_r h1). clear - Hc Hg. revert h1 Hc.
  induction c as [r|q K IH]; intros h1; cbn [runs].
  - intros [-> <-]. cbn. split; [done|]. by rewrite Hg.
  - intros (x & h & -> & Hr). exists x, (h ++ []). split; [done|]. by apply IH.
Qed.

(** [SetControllerReference] touches the owners only, and is done when it is done. *)
Class RefLaws `{KubeLib} := {
  scr_refs : ∀ m om om', setControllerReference m om = Ok om' →
    om' = set_OwnerReferences (om_OwnerReferences om') om;
  scr_again : ∀ m om om', setControllerReference m om = Ok om' →
    setControllerReference m om' = Ok om' }.

Lemma setMeta_twice k om o : setMeta k om (setMeta k om o) = setMeta k om o.
Proof. by destruct k. Qed.

Lemma commit_inj k a b : UpsertCommit k a = UpsertCommit k b → a = b.
Proof.
  intros [= E]. apply (Eqdep_dec.inj_pair2_eq_dec kind kind_eq_dec objT) in E. exact E.
Qed.

Lemma cons_inv {A} (x y : A) l l' : x :: l = y :: l' → x = y ∧ l = l'.
Proof. by intros [= -> ->]. Qed.

Section Calm.
Context `{KubeLib} {RL : RefLaws}.

Lemma calm_apply m k o f :
  fixes k f → (∀ live, emits draws (f live)) → calm (applyOwned m k o f).
Proof.
  intros Hf Hu. split; [|exact I]. unfold applyOwned. split.
  - intros live h b x h2 a Hs Hh. cbn [bind] in Hs.
    apply runs_bind in Hs as (h1 & h3 & [o'|e] & Heq & Hr & Hs).
    2:{ destruct Hs as [-> _]. rewrite app_nil_r in Heq. subst h1. exfalso.
        apply (emits_runs _ _ _ _ (Hu live)), Forall_reqs_app in Hr as [_ Hr].
        by apply Forall_inv in Hr. }
    destruct (setControllerReference m (metaOf k o')) as [om|e] eqn:E.
    2:{ destruct Hs as [-> _]. rewrite app_nil_r in Heq. subst h1. exfalso.
        apply (emits_runs _ _ _ _ (Hu live)), Forall_reqs_app in Hr as [_ Hr].
        by apply Forall_inv in Hr. }
    pose proof (emits_runs _ _ _ _ (Hu live) Hr) as Hd.
    destruct Hs as (y & h4 & -> & Hs).
    assert (h = h1 ∧ ev (UpsertCommit k b) x = ev (UpsertCommit k (setMeta k om o')) y ∧ h2 = h4)
      as (-> & He & ->).
    { apply app_eq_app in Heq as ([|c l] & [[-> Heq]|[-> Heq]]); rewrite ?app_nil_r.
      - by apply cons_inv in Heq as [-> ->].
      - by apply cons_inv in Heq as [-> ->].
      - exfalso. apply cons_inv in Heq as [<- _]. apply Forall_reqs_app in Hh as [_ Hh].
        by apply Forall_inv in Hh.
      - exfalso. apply cons_inv in Heq as [<- _]. apply Forall_reqs_app in Hd as [_ Hd].
        by apply Forall_inv in Hd. }
    split; [done|]. pose proof (f_equal (@projT1 _ _) He) as Hb. apply commit_inj in Hb. subst b.
    destruct (Hf live h1 o' (om_OwnerReferences om) Hr) as (h' & Hl & Hg & Hr').
    unfold withRefs in Hr'. rewrite <- (scr_refs _ _ _ E) in Hr'.
    exists h'. split; [done|]. split; [done|]. cbn [bind]. eapply runs_then; [exact Hr'|].
    cbv beta iota. rewrite metaOf_setMeta, (scr_again _ _ _ E). cbn. rewrite setMeta_twice.
    exists y, h4. split; [f_equal; exact He|exact Hs].
  - intros [live|e]; [|exact I]. cbn [bind]. apply steady_free; [by eapply emits_mono, Hu; intros []|].
    intros [o'|e]; [|exact I]. unfold lift.
    destruct (setControllerReference m (metaOf k o')) as [om|e]; [|exact I].
    split; [exact I|]. by intros [x|e].
Qed.
End Calm.

(** ** The walk *)

Section Walk.
Context `{KubeLib} {RL : RefLaws} `{QuantityLib} (m : Misskey).

Lemma gets_secretVersion ns name : emits isGet (secretVersion ns name).
Proof. unfold secretVersion. by emits_tac. Qed.
#[local] Hint Resolve gets_secretVersion : emits.
Lemma gets_versions p : emits isGet (referencedSecretVersions m p).
Proof. unfold referencedSecretVersions. emits_tac. Qed.
#[local] Hint Resolve gets_versions : emits.
Lemma gets_detectorHash p sql : emits isGet (sensitiveDetectorConfigHash m p sql).
Proof. unfold sensitiveDetectorConfigHash. emits_tac. Qed.
Lemma gets_objHash p sql l : emits isGet (objectStorageHash m p sql l).
Proof. unfold objectStorageHash, credentialSecretVersions. by emits_tac. Qed.
#[local] Hint Resolve gets_detectorHash gets_objHash : emits.
Lemma gets_checksum p : emits isGet (misskeyChecksum m p).
Proof. unfold misskeyChecksum. emits_tac. Qed.
Lemma gets_free {A} (p : prog A) : emits isGet p → emits (fun r => upsert r = false) p.
Proof. apply emits_mono. by intros []. Qed.
Lemma gets_draws {A} (p : prog A) : emits isGet p → emits draws p.
Proof. apply emits_mono. by intros []. Qed.
Lemma draws_free {A} (p : prog A) : emits draws p → emits (fun r => upsert r = false) p.
Proof. apply emits_mono. by intros []. Qed.
Lemma free_cleanupJobs c keep : emits (fun r => upsert r = false) (cleanupJobs m c keep).
Proof. unfold cleanupJobs. by emits_tac. Qed.

(** A generated Secret: the random value is drawn once. *)
Lemma secretMutate_form c key n live h b :
  runs (secretMutate m c key n live) h (Ok b) →
  ∃ s, b = markRotation m s ∧ om_Labels (sec_Meta s) = labelsFor m c ∧ is_Some (sec_Data s !! key).
Proof.
  unfold secretMutate. set (base := mkSecret _ _). destruct (negb _ || _) eqn:E.
  - intros (x & h1 & -> & Hr). destruct x as [buf|e]; destruct Hr as [_ Hr]; [|done].
    injection Hr as ->. eexists. split; [done|]. cbn. rewrite lookup_insert_eq. eauto.
  - intros [_ [= ->]]. exists base. split_and!; [done|done|].
    apply orb_false_iff in E as [E _]. by apply negb_false_iff, bool_decide_eq_true_1 in E.
Qed.
Lemma fixes_secret c key n : fixes KSecret (secretMutate m c key n).
Proof.
  intros live h b refs (s & -> & Hl & Hk)%secretMutate_form. exists [].
  split; [apply sublist_nil_l|]. split; [constructor|].
  assert (withRefs KSecret refs (markRotation m s) = markRotation m (withRefs KSecret refs s)) as ->.
  { unfold withRefs, markRotation. by destruct (String.eqb _ _). }
  by rewrite secretMutate_fixed.
Qed.

(** A Deployment keeps what it has of the annotations and, under an autoscaler, of the
    replicas. *)
Lemma setDeployment_fixed o refs c r pod ann :
  setDeployment (withRefs KDeployment refs (setDeployment o m c r pod ann)) m c r pod ann
  = withRefs KDeployment refs (setDeployment o m c r pod ann).
Proof.
  unfold setDeployment, withRefs. cbn. f_equal; [by destruct r|]. f_equal.
  by rewrite map_union_assoc, map_union_idemp.
Qed.
Lemma resume_fixed o refs comp sc c pod ann :
  let d := withRefs KDeployment refs (setDeployment o m c (resumeReplicas comp sc o) pod ann) in
  setDeployment d m c (resumeReplicas comp sc d) pod ann = d.
Proof.
  cbv zeta. unfold resumeReplicas at 1. destruct (staticReplicas comp sc) as [r|] eqn:Es.
  { unfold resumeReplicas. rewrite Es. apply setDeployment_fixed. }
  unfold setDeployment, withRefs. cbn. f_equal.
  2:{ f_equal. by rewrite map_union_assoc, map_union_idemp. }
  unfold resumeReplicas. rewrite Es. destruct (dep_Replicas o) as [[|r|r]|], sc as [a|]; try done.
  destruct (String.eqb _ _) eqn:Er; cbn; [done|].
  by destruct (replicasOr _ 1) as [[|z|z]|].
Qed.
End Walk.

Ltac mutation := first [reflexivity | apply setDeployment_fixed | apply resume_fixed].
Ltac fixed :=
  first [apply fixes_secret
        |apply fixes_pure; intros ? ?; mutation
        |apply fixes_read; [by auto with emits|intros ? ? ?; mutation]].
Ltac unsent := apply calm_free; emits_tac; reflexivity.
Create HintDb calm.
Ltac calm_step :=
  lazymatch goal with
  | |- calm (Ret _) => by split
  | |- calm (ok _) => by split
  | |- calm (fail _) => by split
  | |- calm (lift _) => by split
  | |- calm (send _) => unsent
  | |- calm (event_ _ _ _ _) => unsent
  | |- calm (deleteIfExists _ _ _) => unsent
  | |- calm (applySSA _ _) => unsent
  | |- calm (applyOwned _ _ _ _) => apply calm_apply; [try fixed|intros ?]
  | |- calm (retryOnConflict _) => apply calm_free, emits_retry
  | |- calm (bind _ _) => apply calm_bind; [|intros ?]
  | |- calm (tryBind _ _) => apply calm_tryBind; [|intros ?]
  | |- calm (forEach _ _) => apply calm_forEach; intros ? ?
  | |- calm (mapP _ _) => apply calm_free
  | |- calm (match ?x with _ => _ end) => destruct x
  | |- emits _ _ => emits_step
  end.
Ltac calm_tac := repeat (solve [auto with calm emits nocore] || calm_step); try solve [reflexivity|exact I].

Section Handlers.
Context `{KubeLib} {RL : RefLaws} `{QuantityLib} (m : Misskey).
#[local] Hint Resolve gets_secretVersion gets_versions gets_detectorHash gets_objHash gets_checksum
  gets_free gets_draws free_cleanupJobs : emits.
#[local] Hint Resolve calm_free : calm.

Lemma calm_generated name c k n : calm (generatedSecret m name c k n).
Proof. unfold generatedSecret. calm_tac. unfold secretMutate, randomHex. by emits_tac. Qed.
Lemma calm_pdb c : calm (reconcilePDB m c).
Proof. unfold reconcilePDB. calm_tac. Qed.
#[local] Hint Resolve calm_generated calm_pdb : calm.
Lemma calm_prerequisites p : calm (reconcilePrerequisites m p).
Proof.
  unfold reconcilePrerequisites, when, reconcileMeiliSecret, reconcileSetupSecret,
    reconcileSensitiveDetectorSecret, reconcileConfigMaps, setData, reconcileTenancy,
    reconcileNetworkIsolation, reconcileEgressIsolation, reconcileResourceQuota,
    reconcileLimitRange, reconcileSensitiveDetector. calm_tac.
Qed.
Lemma calm_sts sts f :
  fixes KStatefulSet f → (∀ live, emits draws (f live)) → calm (applyStatefulSet m sts f).
Proof.
  intros Hf Hu. unfold applyStatefulSet, recreate, expandStatefulSetPVCs, expandPVC.
  apply calm_tryBind; [by apply calm_free, draws_free|]. intros s. cbv zeta.
  apply calm_bind; [unsent|]. intros r.
  apply calm_tryBind; [|intros _; by apply calm_apply].
  calm_tac. by apply calm_free, emits_waitGone.
Qed.

Ltac calm_all := calm_tac; try (apply calm_sts; [fixed|intros ?; by emits_tac; auto with emits]).
Lemma calm_redis : calm (reconcileRedis m).
Proof.
  unfold reconcileRedis, reconcileRedisAuthSecret, reconcileInstance, cleanupSuffix,
    deleteRedisStandalone, deleteRedisHA, deleteRedisHANetworkPolicy, reconcileRedisHA,
    reconcileRedisHANetworkPolicy, reconcileRedisStandalone. calm_all.
Qed.
Lemma calm_database p : calm (reconcileDatabase m p).
Proof.
  unfold reconcileDatabase, reconcilePostgres, reconcilePoolers, deletePooler,
    reconcileBackupVerify, finishVerify, recordBackupVerification, deleteVerifyCluster. calm_all.
Qed.
Lemma calm_backends p : calm (reconcileBackends m p).
Proof.
  pose proof calm_redis.
  unfold reconcileBackends, when, reconcileMeilisearch, reconcileAppService, cleanupObjectStorage,
    cleanupObjectStorageJobs. calm_all.
Qed.
Lemma calm_read st : calm (readSensitiveDetectorConfigState m st).
Proof. unfold readSensitiveDetectorConfigState, hasSensitiveDetectorConfigState. calm_all. Qed.
Lemma calm_autoscaler c n a p : calm (reconcileAutoscaler m c n a p).
Proof.
  unfold reconcileAutoscaler, reconcileScaledObject, deleteScaledObject, deleteHPA,
    deleteTriggerAuth. calm_all.
Qed.
#[local] Hint Resolve calm_redis calm_read calm_autoscaler : calm.
Lemma calm_migrate p : calm (migrate m p).
Proof.
  unfold migrate, reconcilePreMigrationBackup, cleanupOldPreMigrationBackups, reconcileMigration,
    cleanupOldMigrationJobs, migrationChecksum, createControlled. calm_all.
Qed.
Lemma calm_configure p b st : calm (configureInstance m p b st).
Proof.
  unfold configureInstance, reconcileObjectStorage, cleanupObjectStorageJobs,
    reconcileSensitiveDetectorConfig, cleanupSensitiveDetectorConfigJobs, setData,
    runDetectorConfigJob, createControlled. calm_all.
Qed.
Lemma calm_ready p : calm (databaseReady m p) ∧ calm (redisReady m).
Proof.
  unfold databaseReady, databaseCondition, redisReady, redisCondition, instanceReady,
    readyPodsByAppLabel. split; calm_all.
Qed.
Lemma calm_suspend p : calm (suspendWorkloads m p).
Proof.
  unfold suspendWorkloads, suspendOne, deleteHPA, deleteScaledObject, deleteTriggerAuth. calm_all.
Qed.
#[local] Hint Resolve calm_migrate calm_configure calm_suspend : calm.
Lemma calm_rollout p st : calm (reconcileRollout m p st).
Proof.
  destruct (calm_ready p). unfold reconcileRollout, when, reconcileApp, reconcileWorker, applyRole.
  calm_all.
Qed.
Lemma calm_edge p : calm (reconcileEdge m p).
Proof.
  unfold reconcileEdge, reconcileProxy, deleteLegacyMaintenanceWorkload, deleteProxyResources,
    deleteMaintenanceHTMLConfigMap, reconcileIngress, reconcileMonitoring, cleanupRedisMonitors,
    deleteMonitor. calm_all.
Qed.
Lemma calm_finalize p b st : calm (finalizeSensitiveDetectorCleanup m p b st).
Proof.
  unfold finalizeSensitiveDetectorCleanup, misskeyWorkloadsConverged, workloadConverged,
    finalizeManaged, sensitiveDetectorConverged, cleanupSensitiveDetector,
    cleanupGeneratedSensitiveDetectorSecret, cleanupSensitiveDetectorConfigState,
    cleanupSensitiveDetectorConfigJobs. calm_all.
Qed.
End Handlers.

(** ** The whole pass *)

Lemma calm_all `{KubeLib} {RL : RefLaws} `{QuantityLib} m st : calm (reconcileAll m st).
Proof.
  unfold reconcileAll. cbv zeta. apply calm_bind; [apply calm_prerequisites|]. intros [u|e]; [|done].
  apply calm_bind; [apply calm_database|]. intros [m' [u'|e]]; [|done].
  apply calm_bind; [apply calm_backends|]. intros [u2|e]; [|done].
  apply calm_bind; [apply calm_read|]. intros st1. destruct (dc_err st1); [done|].
  apply calm_bind; [apply calm_rollout|]. intros [st2 [fin|e]]; [|done].
  apply calm_bind; [apply calm_edge|]. intros [u3|e]; [|done].
  apply calm_bind; [apply calm_finalize|done].
Qed.

(** One object of a run, at any place. *)
Lemma steady_at {A} (p : prog A) h1 k o live h2 b x h3 r :
  steady p →
  runs p (h1 ++ ev (UpsertBegin k o) (Ok live) :: h2 ++ ev (UpsertCommit k b) x :: h3) r →
  upsertFree h2 →
  Forall draws (reqs h2)
  ∧ ∃ h2', h2' `sublist_of` h2 ∧ Forall isGet (reqs h2')
      ∧ runs p (h1 ++ ev (UpsertBegin k o) (Ok b) :: h2' ++ ev (UpsertCommit k b) x :: h3) r.
Proof.
  intros Hp Hr Hh. revert h1 Hp Hr. induction p as [a|q K IH]; intros h1 Hp Hr.
  { destruct Hr as [Hr _]. by destruct h1. }
  destruct Hr as (y & t & Heq & Hr). destruct h1 as [|e h1]; apply cons_inv in Heq as [He <-].
  - set (P := fun e : event => let 'existT q y := e in ∀ K : resp q → prog A,
      steady (Do q K) → runs (K y) (h2 ++ ev (UpsertCommit k b) x :: h3) r →
      Forall draws (reqs h2)
      ∧ ∃ h2', h2' `sublist_of` h2 ∧ Forall isGet (reqs h2')
          ∧ runs (Do q K) (ev (UpsertBegin k o) (Ok b) :: h2' ++ ev (UpsertCommit k b) x :: h3) r).
    enough (P (ev (UpsertBegin k o) (Ok live))) as HP by (rewrite He in HP; exact (HP K Hp Hr)).
    intros K' [Hat _] Hr'. destruct (Hat live h2 b x h3 r Hr' Hh) as (Hd & h2' & Hl & Hg & Hb).
    split; [done|]. exists h2'. split_and!; [done|done|]. by exists (Ok b), (h2' ++ ev (UpsertCommit k b) x :: h3).
  - subst e. destruct Hp as [_ HK]. destruct (IH y h1 (HK y) Hr) as (Hd & h2' & Hl & Hg & Hb).
    split; [done|]. exists h2'. split_and!; [done|done|]. eexists y, _. by split.
Qed.

(** ** A pass over its own results *)

(** What was begun with [e] is committed later in [h]. *)
Definition committed (e : event) (h : history) : bool :=
  match e with
  | existT (UpsertBegin k _) (Ok _) =>
      match List.find upsert (reqs h) with
      | Some (UpsertCommit k' _) => bool_decide (k = k')
      | _ => false
      end
  | _ => false
  end.
(** The second history is the first one after the first: every object that was written reads
    as it was written, nothing is drawn for it, and everything else is answered as before. *)
Inductive echoes : history → history → Prop :=
  | echo_nil : echoes [] []
  | echo_keep e h h' : committed e h = false → echoes h h' → echoes (e :: h) (e :: h')
  | echo_upsert k o live b x h1 h1' h2 h2' :
      Forall draws (reqs h1) → h1' `sublist_of` h1 → Forall isGet (reqs h1') → echoes h2 h2' →
      echoes (ev (UpsertBegin k o) (Ok live) :: h1 ++ ev (UpsertCommit k b) x :: h2)
             (ev (UpsertBegin k o) (Ok b) :: h1' ++ ev (UpsertCommit k b) x :: h2').

(** The requests that change something. *)
Definition changes (r : req) : bool :=
  match r with
  | Create _ _ | Update _ _ | StatusUpdate _ _ | DeleteObj _ _ _ _ | Apply _ | UpsertCommit _ _ => true
  | _ => false
  end.
Definition changesOf (h : history) : list req := List.filter changes (reqs h).

Lemma changesOf_app h1 h2 : changesOf (h1 ++ h2) = changesOf h1 ++ changesOf h2.
Proof. unfold changesOf. by rewrite reqs_app, List.filter_app. Qed.
Lemma changesOf_draws h : Forall draws (reqs h) → changesOf h = [].
Proof.
  unfold changesOf. induction (reqs h) as [|r l IH]; [done|]. intros Hl. inversion Hl; subst.
  destruct r; try done; by apply IH.
Qed.
Lemma changesOf_gets h : Forall isGet (reqs h) → changesOf h = [].
Proof. intros Hg. apply changesOf_draws. eapply Forall_impl; [exact Hg|]. by intros []. Qed.
Lemma echoes_changes h h' : echoes h h' → changesOf h' = changesOf h.
Proof.
  induction 1 as [|e h h' _ _ IH|k o live b x h1 h1' h2 h2' Hd _ Hg _ IH]; [done| |].
  - change (changesOf ([e] ++ h') = changesOf ([e] ++ h)). by rewrite !changesOf_app, IH.
  - change (changesOf (([ev (UpsertBegin k o) (Ok b)] ++ h1') ++ [ev (UpsertCommit k b) x] ++ h2')
            = changesOf (([ev (UpsertBegin k o) (Ok live)] ++ h1) ++ [ev (UpsertCommit k b) x] ++ h2)).
    by rewrite !changesOf_app, IH, (changesOf_gets h1'), (changesOf_draws h1).
Qed.

Lemma committed_split e h :
  committed e h = true →
  ∃ k o live b x h1 h2, e = ev (UpsertBegin k o) (Ok live)
    ∧ h = h1 ++ ev (UpsertCommit k b) x :: h2 ∧ upsertFree h1.
Proof.
  destruct e as [r y]. destruct r; try done. destruct y as [live|e]; [|done]. cbn.
  destruct (List.find upsert (reqs h)) as [r|] eqn:E; [|done]. destruct r; try done.
  intros ->%bool_decide_eq_true_1.
  assert (∃ h1 x h2, h = h1 ++ ev (UpsertCommit k0 o0) x :: h2 ∧ upsertFree h1) as (h1 & x & h2 & -> & Hh).
  { induction h as [|[r y] h IH]; [done|]. cbn in E. destruct (upsert r) eqn:Eu.
    - injection E as ->. exists [], y, h. split; [done|constructor].
    - destruct (IH E) as (h1 & x & h2 & -> & Hh). exists (ev r y :: h1), x, h2.
      split; [done|]. by constructor. }
  by exists k0, o, live, o0, x, h1, h2.
Qed.
Lemma steady_echo {A} (p : prog A) r :
  steady p → ∀ n h0 h, (length h ≤ n)%nat → runs p (h0 ++ h) r →
  ∃ h', echoes h h' ∧ runs p (h0 ++ h') r.
Proof.
  intros Hp. induction n as [|n IH]; intros h0 h Hn Hr.
  { destruct h; [|cbn in Hn; lia]. exists []. split; [constructor|done]. }
  destruct h as [|e h]; [exists []; split; [constructor|done]|]. cbn in Hn.
  destruct (committed e h) eqn:E.
  - apply committed_split in E as (k & o & live & b & x & h1 & h2 & -> & -> & Hh).
    destruct (steady_at _ _ _ _ _ _ _ _ _ _ Hp Hr Hh) as (Hd & h1' & Hl & Hg & Hr').
    destruct (IH (h0 ++ ev (UpsertBegin k o) (Ok b) :: h1' ++ [ev (UpsertCommit k b) x]) h2)
      as (h2' & He & Hr2).
    + rewrite length_app in Hn. cbn in Hn. lia.
    + rewrite <- app_assoc. cbn. rewrite <- app_assoc. exact Hr'.
    + eexists. split; [by apply (echo_upsert k o live b x h1 h1' h2 h2')|].
      rewrite <- app_assoc in Hr2. cbn in Hr2. rewrite <- app_assoc in Hr2. exact Hr2.
  - destruct (IH (h0 ++ [e]) h) as (h' & He & Hr'); [lia|by rewrite <- app_assoc|].
    rewrite <- app_assoc in Hr'. exists (e :: h'). split; [by constructor|done].
Qed.

(** A pass is idempotent object by object.  Whenever it has read an object and written [b],
    it would write exactly [b] again had the server returned [b] in the first place, and
    it would only read on the way there, no more than before. *)
Theorem upserts_settle `{KubeLib} {RL : RefLaws} `{QuantityLib} m st h1 k o live h2 b x h3 r :
  runs (reconcileAll m st)
    (h1 ++ ev (UpsertBegin k o) (Ok live) :: h2 ++ ev (UpsertCommit k b) x :: h3) r →
  upsertFree h2 →
  ∃ h2', h2' `sublist_of` h2 ∧ Forall isGet (reqs h2')
    ∧ sends (reconcileAll m st) (h1 ++ ev (UpsertBegin k o) (Ok b) :: h2') (UpsertCommit k b).
Proof.
  intros Hr Hh. destruct (steady_at _ _ _ _ _ _ _ _ _ _ (proj1 (calm_all m st)) Hr Hh)
    as (_ & h2' & Hl & Hg & Hr'). exists h2'. split_and!; [done|done|].
  rewrite app_comm_cons, app_assoc in Hr'. by apply runs_sends_at in Hr'.
Qed.

Section Pass.
Context `{KubeLib} {RL : RefLaws} `{QuantityLib}.

Lemma calm_conclude drift x : calm (concludePass drift x).
Proof.
  destruct x as [[m st] r]. apply calm_free. eapply emits_mono, aftermath_conclude. by intros [].
Qed.
Lemma calm_live drift m : calm (reconcileLive drift m).
Proof.
  unfold reconcileLive. apply calm_bind.
  { apply calm_free. unfold resolveImage, pinImage, pullSecretKeychain, Pinned, registryHead, since.
    by emits_tac. }
  intros [m' [u|e]]; [|apply calm_conclude]. apply calm_bind; [apply calm_all|apply calm_conclude].
Qed.
Lemma calm_Reconcile drift name ns : calm (Reconcile drift name ns).
Proof.
  apply calm_bind; [by apply calm_free|]. intros [m|e]; [|by destruct (isNotFound e)].
  destruct (deleting m).
  { apply calm_free. unfold reconcileDelete, retainData, orphan. by emits_tac. }
  destruct (addFinalizer _ _) as [om []]; [|apply calm_live].
  apply calm_tryBind; [by apply calm_free|apply calm_live].
Qed.

(** C23. A pass does not fight itself.  For every pass there is the pass over its own results: the
    same run with every object it wrote read back as it was written.  It makes the same
    changes in the same order and ends the same way, so what it writes over those objects is
    what they are already; between reading and writing an object it only reads, no more than
    before, and draws no new secret.  So passes over an unchanged instance do not keep
    changing objects, rotate nothing and leave to autoscalers what is theirs. *)
Theorem pass_replays drift name ns h r :
  runs (Reconcile drift name ns) h r →
  ∃ h', echoes h h' ∧ runs (Reconcile drift name ns) h' r ∧ changesOf h' = changesOf h.
Proof.
  intros Hr. destruct (steady_echo _ r (proj1 (calm_Reconcile drift name ns)) (length h) [] h)
    as (h' & He & Hr'); [done|done|]. exists h'. split_and!; [done|done|by apply echoes_changes].
Qed.
End Pass.
