(* ===== verification/Witnesses.v ===== *)
(** * Witnesses: the hypotheses of the properties hold on concrete instances *)
From S2P Require Import KubeSamples Plan Config Pod Secrets ObjectStorage Migration Deletion.
From S2P Require Import Digest Channel Webhook Autoscaling Workloads.
Local Open Scope string_scope.
Local Open Scope Z_scope.
Local Open Scope list_scope.

#[local] Existing Instance kubeSample.
#[local] Existing Instance quantitySample.

(** ** Deletion *)

Definition deletingSample : Misskey :=
  mkMisskey (set_Finalizers [misskeyFinalizer] metaSample) specSample statusSample.

Lemma retain_before_finalizer_witness :
  detached deletingSample (mkTarget cnpgClusterGVK (nameDB deletingSample))
    (historyOf noObjects (reconcileDelete deletingSample)).
Proof.
  apply (retain_before_finalizer deletingSample _
    (resultOf noObjects (reconcileDelete deletingSample)));
    [done|by apply sample_runs| |apply list_elem_of_here].
  apply Exists_exists. exists (Update KMisskey (set_m_Meta (set_Finalizers [] metaSample) deletingSample)).
  split; [|exact I]. apply list_elem_of_In. vm_compute. intuition.
Defined.

(** The part of a history in front of the first request [f] selects. *)
Fixpoint before (f : req → bool) (h : history) : history :=
  match h with
  | [] => []
  | e :: h => if f (projT1 e) then [] else e :: before f h
  end.
Lemma before_split f h :
  existsb f (reqs h) = true →
  ∃ r x h2, h = before f h ++ ev r x :: h2 ∧ f r = true.
Proof.
  induction h as [|[r x] h IH]; [done|]. cbn. destruct (f r) eqn:E.
  - intros _. exists r, x, h. done.
  - cbn. intros (r' & x' & h2 & Hh & Hf)%IH. exists r', x', h2. split; [|done]. cbn. by f_equal.
Qed.
(** ** Migration *)

Lemma migration_gate_witness :
  let h := historyOf (jobStore jobDone) (reconcileMigration misskeySample (resolve misskeySample)) in
  jobSucceeded misskeySample (nameMigrate misskeySample) h.
Proof.
  apply (migration_gate misskeySample (resolve misskeySample)), sample_runs.
  vm_compute. reflexivity.
Defined.

Definition deletesAJob (r : req) : bool := match r with DeleteObj KJob _ _ _ => true | _ => false end.
(** A Job with a failed pod is deleted after a configuration change although a pod of it runs. *)
Lemma migration_replaced_witness :
  let m := misskeySample in
  let h := historyOf (jobStore jobRetrying) (reconcileMigration m (resolve m)) in
  job_Active (jobRetrying (nameMigrate m)) = 1
  ∧ ∃ n ns pol, migrationWrite m (resolve m) (DeleteObj KJob n ns pol) (before deletesAJob h).
Proof.
  cbv zeta. split; [reflexivity|].
  edestruct (before_split deletesAJob
    (historyOf (jobStore jobRetrying) (reconcileMigration misskeySample (resolve misskeySample))))
    as (r & x & h2 & Hh & Hf); [vm_compute; reflexivity|].
  destruct r as [| | | | |k n ns pol| | | | | | | | | |]; try discriminate Hf.
  destruct k; try discriminate Hf. exists n, ns, pol.
  eapply (migration_replaced misskeySample (resolve misskeySample)); [by apply sample_runs|exact Hh].
Defined.

Definition backupSample : PostgresBackup :=
  mkPostgresBackup "s3://backups/" "" None "30d" "0 0 3 * * *" "" None.
Definition withPostgres (pg : PostgresSpec) (mig : MigrationSpec) (m : Misskey) : Misskey :=
  let s := m_Spec m in
  withSpec m (mkMisskeySpec (spec_URL s) (spec_Image s) (spec_ImageFrom s) (spec_TrackImageDigest s)
    (spec_IDGenerationMethod s) (spec_DeletionPolicy s) (spec_Suspend s) (spec_Tenant s)
    (spec_ImagePullSecrets s) (spec_Runtime s) (spec_App s) (spec_Worker s) (spec_Proxy s)
    (spec_Ingress s) (spec_Redis s) (spec_Search s) pg mig (spec_SetupPassword s)
    (spec_ExtraConfig s) (spec_ObjectStorage s) (spec_SensitiveDetector s) (spec_Network s)
    (spec_Tenancy s) (spec_Monitoring s) (spec_Performance s) (spec_OutboundProxy s) (spec_Files s)).
(** An instance that wants a backup before every migration. *)
Definition preBackupSample : Misskey :=
  withPostgres (mkPostgres None 1 "" "" "" qty_zero None ∅ noResources (Some backupSample)
                  None None None None) (mkMigration None (Some true)) misskeySample.
Definition completedBackups : store := fun k =>
  match k as k return string → option (objT k) with
  | KU g => fun n => Some (mkUnstructured g (newMeta n "fedi")
                             (JObj [("status", JObj [("phase", JStr "completed")])]))
  | _ => fun _ => None
  end.

Lemma preBackup_gate_witness :
  let p := resolve preBackupSample in
  backupEvidence preBackupSample
    (historyOf completedBackups (reconcilePreMigrationBackup preBackupSample p)).
Proof.
  apply (preBackup_gate preBackupSample (resolve preBackupSample)); [by vm_compute|].
  apply sample_runs. reflexivity.
Defined.

(** ** Object storage *)

Definition withObjectStorage (os : ObjectStorageSpec) (m : Misskey) : Misskey :=
  let s := m_Spec m in
  withSpec m (mkMisskeySpec (spec_URL s) (spec_Image s) (spec_ImageFrom s) (spec_TrackImageDigest s)
    (spec_IDGenerationMethod s) (spec_DeletionPolicy s) (spec_Suspend s) (spec_Tenant s)
    (spec_ImagePullSecrets s) (spec_Runtime s) (spec_App s) (spec_Worker s) (spec_Proxy s)
    (spec_Ingress s) (spec_Redis s) (spec_Search s) (spec_Postgres s) (spec_Migration s)
    (spec_SetupPassword s) (spec_ExtraConfig s) (Some os) (spec_SensitiveDetector s)
    (spec_Network s) (spec_Tenancy s) (spec_Monitoring s) (spec_Performance s)
    (spec_OutboundProxy s) (spec_Files s)).
(** Object storage with an extra column, and the same with other texts. *)
Definition storageSample (bucket extra : string) : ObjectStorageSpec :=
  mkObjectStorage bucket "https://s3.example" "" "files" "" None None None None None
    (mkS3Credentials (mkSel "s3" "id") (mkSel "s3" "secret")) None None
    {["objectStorageExtra" := extra]} "".
Definition storageMisskey (bucket extra : string) : Misskey :=
  withObjectStorage (storageSample bucket extra) misskeySample.
Definition storagePlan (bucket extra : string) : plan := resolve (storageMisskey bucket extra).
Definition storageAssignments : list objAssign :=
  match objectStorageAssignments (storagePlan "media" "x") with Ok l => l | Err _ => [] end.

Lemma assignments_columns_witness :
  Forall (fun a => identRe (a_column a) = true) storageAssignments
  ∧ ∃ std ext, storageAssignments = std ++ ext
      ∧ map a_column ext = extraKeys (storagePlan "media" "x") ∧ NoDup (map a_column ext)
      ∧ Forall (fun a => a_column a ∉ map a_column std) ext.
Proof. apply (assignments_columns (storagePlan "media" "x")). vm_compute. reflexivity. Defined.

Lemma job_env_distinct_witness : NoDup (map env_Name (objectStorageJobEnv storageAssignments)).
Proof.
  apply (job_env_distinct (storagePlan "media" "x")); [vm_compute; reflexivity|].
  vm_compute. reflexivity.
Defined.

Lemma sql_value_free_witness :
  let p := storagePlan "media" "x" in
  let p' := storagePlan "'; DROP TABLE meta; --" "' || secret || '" in
  match objectStorageAssignments p, objectStorageAssignments p' with
  | Ok l, Ok l' =>
      renderObjectStorageSQL l = renderObjectStorageSQL l'
      ∧ map a_column l = map a_column l' ∧ Forall (fun a => identRe (a_column a) = true) l
  | Err e, Err e' => e = e'
  | _, _ => False
  end.
Proof.
  apply sql_value_free.
  constructor; try reflexivity; split; intros H; vm_compute in H; first [reflexivity|discriminate H].
Defined.

Lemma objectStorage_gate_witness :
  let p := storagePlan "media" "x" in
  let h := historyOf (jobStore jobDone) (reconcileObjectStorage (storageMisskey "media" "x") p) in
  ∃ hash, jobSucceeded (storageMisskey "media" "x")
            (nameObjectStorage (storageMisskey "media" "x") hash) h.
Proof.
  apply (objectStorage_gate (storageMisskey "media" "x") (storagePlan "media" "x")), sample_runs.
  vm_compute. reflexivity.
Defined.

(** ** Configuration *)

(** A string with a quote, a backslash, a line break, a control byte and text of two, three
    and four bytes per character. *)
Definition awkward : string :=
  String "034" (String "092" (String "010" (String "007" "é語😀: # x"))).

Lemma yq_roundtrip_witness :
  scan_scalar (yq awkward +:+ nl +:+ "rest") = Some (awkward, nl +:+ "rest").
Proof. apply (yq_roundtrip awkward). vm_compute. reflexivity. Defined.

Lemma default_yml_structure_witness :
  blank QOut (renderDefaultYML misskeySample (resolve misskeySample))
  = renderDefaultYML (squash_misskey misskeySample) (squash_plan (resolve misskeySample)).
Proof. apply (default_yml_structure misskeySample); vm_compute; reflexivity. Defined.

(** ** Secrets *)

Definition freshSecret : Secret := newSecret "social-meili" "fedi".
Definition generatedSample : result error Secret :=
  resultOf noObjects (secretMutate misskeySample "meilisearch" meiliMasterKeyID 32 freshSecret).
Definition generatedSecretSample : Secret :=
  match generatedSample with Ok s => s | Err _ => freshSecret end.

Lemma secretMutate_idempotent_witness :
  let again := secretMutate misskeySample "meilisearch" meiliMasterKeyID 32 generatedSecretSample in
  historyOf noObjects again = [] ∧ resultOf noObjects again = Ok generatedSecretSample.
Proof.
  apply (secretMutate_idempotent misskeySample "meilisearch" meiliMasterKeyID 32 freshSecret
    (historyOf noObjects (secretMutate misskeySample "meilisearch" meiliMasterKeyID 32 freshSecret)));
    apply sample_runs; [vm_compute; reflexivity|reflexivity].
Defined.

Lemma secretMutate_preserves_witness :
  sec_Data generatedSecretSample !! "other" = sec_Data freshSecret !! "other".
Proof.
  apply (secretMutate_preserves misskeySample "meilisearch" meiliMasterKeyID 32 freshSecret
    (historyOf noObjects (secretMutate misskeySample "meilisearch" meiliMasterKeyID 32 freshSecret))).
  - apply sample_runs. vm_compute. reflexivity.
  - left. discriminate.
Defined.

(** ** Digest cache *)

Definition callSample : call := mkCall "misskey/misskey:2025" None "".
Definition pinnedSample : string := "misskey/misskey:2025@sha256:1111".
Definition pinnedProg : rprog string := Pinned "misskey/misskey:2025" None "".
(** The rest of a call after an answer of the sample server. *)
Definition next (p : rprog string) : rprog string :=
  match p with Do r k => k (serverSample noObjects tt r).2 | Ret _ => p end.
(** One caller asks the registry, stores the digest and returns. *)
Definition called : resolver := mkResolver ∅ [mkThread callSample pinnedProg] [].
Definition loaded : resolver := mkResolver ∅ [mkThread callSample (next pinnedProg)] [].
Definition asked : resolver :=
  mkResolver ∅ [mkThread callSample (next (next pinnedProg))] [(callSample, "sha256:1111")].
Definition answered : resolver :=
  mkResolver (cacheStore (fun _ => 0) 0 (callKey callSample) "sha256:1111" ∅)
    [mkThread callSample (ok pinnedSample)] [(callSample, "sha256:1111")].

Lemma answered_reachable : reachable answered.
Proof.
  assert (reachable called) as R
    by exact (reach_step _ _ reach_start (step_call start callSample)).
  eassert (rs_threads called !! 0%nat
           = Some (mkThread callSample (Do (CacheLoad (callKey callSample)) _))) as E by reflexivity.
  assert (reachable loaded) as R2 by exact (reach_step _ _ R (step_load _ _ _ _ _ E)). clear E.
  eassert (rs_threads loaded !! 0%nat
           = Some (mkThread callSample (Do (RemoteHead "misskey/misskey:2025" None) _))) as E
    by reflexivity.
  assert (reachable asked) as R3
    by exact (reach_step _ _ R2 (step_other _ _ _ (RemoteHead "misskey/misskey:2025" None) _ (Ok "sha256:1111") E eq_refl)). clear E.
  eassert (rs_threads asked !! 0%nat
           = Some (mkThread callSample (Do (CacheStore (callKey callSample) "sha256:1111") _))) as E
    by reflexivity.
  exact (reach_step _ _ R3 (step_store _ _ _ _ _ _ (fun _ => 0) 0 E)).
Defined.

Lemma cache_bounded_and_sound_witness :
  (size (rs_cache answered) ≤ maxCacheEntries)%nat
  ∧ map_Forall (fun key e => vouched (rs_log answered) key (d_digest e)) (rs_cache answered)
  ∧ ∀ c x, mkThread c (ok x) ∈ rs_threads answered →
      contains (cl_image c) "@" = true ∧ x = cl_image c
      ∨ ∃ d, vouched (rs_log answered) (callKey c) d ∧ x = cl_image c +:+ "@" +:+ d.
Proof. apply (cache_bounded_and_sound answered), answered_reachable. Defined.

Lemma Pinned_sound_witness :
  contains (cl_image callSample) "@" = true ∧ pinnedSample = cl_image callSample
  ∨ ∃ d, vouched (rs_log answered) (callKey callSample) d
         ∧ pinnedSample = cl_image callSample +:+ "@" +:+ d.
Proof. apply (Pinned_sound answered), list_elem_of_here. apply answered_reachable. Defined.

Definition entrySample : digestEntry := mkDigest "sha256:0000" 0.
Definition cachedHistory : history :=
  [ev (CacheLoad (cacheKey "misskey/misskey:2025" "")) (Some entrySample); ev Now (3 * Minute)].

Lemma Pinned_cached_witness :
  ∃ now, omap nowAnswer cachedHistory = [now] ∧
    (time_Sub now (d_resolvedAt entrySample) < digestResolveTTL →
       omap headAnswer cachedHistory = []
       ∧ Ok "misskey/misskey:2025@sha256:0000"
         = Ok ("misskey/misskey:2025" +:+ "@" +:+ d_digest entrySample) :> result error string)
    ∧ (digestResolveTTL <= time_Sub now (d_resolvedAt entrySample) →
       Ok "misskey/misskey:2025@sha256:0000"
       = Ok ("misskey/misskey:2025" +:+ "@" +:+
               match omap headAnswer cachedHistory with [Ok d] => d | _ => d_digest entrySample end)
         :> result error string).
Proof.
  apply (Pinned_cached "misskey/misskey:2025" None "" entrySample cachedHistory);
    [vm_compute; reflexivity| |vm_compute; reflexivity].
  exists (Some entrySample), [ev Now (3 * Minute)]. split; [reflexivity|].
  exists (3 * Minute), []. split; [reflexivity|]. by vm_compute.
Defined.

(** ** Channels *)

(** A channel that moved from one image to another at time 0, 20% of the fleet per minute. *)
Definition rolloutSample : ChannelRollout := mkChannelRollout 20 Minute.
Definition channelSample : MisskeyChannel :=
  mkChannel (newMeta "stable" "") (mkChannelSpec "misskey:2" (Some rolloutSample) false)
    (mkChannelStatus "misskey:2" "misskey:1" 0 10 4 1).

Lemma rolling_sample : rollingOut channelSample rolloutSample.
Proof. by vm_compute. Defined.

Lemma rollout_monotone_witness :
  channelImageFor channelSample 10 (3 * Minute) = cht_Image (ch_Status channelSample).
Proof.
  apply (rollout_monotone channelSample rolloutSample 30 10 Minute (3 * Minute));
    [apply rolling_sample|lia|by vm_compute|vm_compute; reflexivity|discriminate|discriminate].
Defined.

Lemma rollout_completes_witness :
  channelImageFor channelSample (channelBucket "fedi" "social") (4 * Minute)
  = cht_Image (ch_Status channelSample).
Proof.
  apply (rollout_completes channelSample rolloutSample 4);
    [apply rolling_sample|discriminate|by vm_compute|lia|by vm_compute].
Defined.

Lemma rollout_starts_witness :
  channelImageFor (withStatus channelSample (channelStatus "misskey:3" 10 0 (5 * Minute) channelSample))
    7 (5 * Minute)
  = if 7 <? int32OrDefault (ro_BatchPercent rolloutSample) 20 then "misskey:3"
    else cht_Image (ch_Status channelSample).
Proof.
  apply (rollout_starts channelSample rolloutSample "misskey:3" 10 0 (5 * Minute) 7);
    first [reflexivity|discriminate|by vm_compute].
Defined.

Definition newChannel : MisskeyChannel :=
  mkChannel (newMeta "stable" "") (mkChannelSpec "misskey:1" (Some rolloutSample) false)
    (mkChannelStatus "" "" zeroTime 0 0 0).

Lemma first_image_immediate_witness :
  channelImageFor (withStatus newChannel (channelStatus "misskey:1" 10 0 Minute newChannel))
    99 Minute = "misskey:1".
Proof.
  apply (first_image_immediate newChannel "misskey:1" 10 0 Minute Minute 99);
    first [reflexivity|discriminate].
Defined.

Lemma cacheKey_isolates_witness :
  "misskey:1" = "misskey:1"
  ∧ (spec_ImagePullSecrets (m_Spec misskeySample) = []
     ∧ spec_ImagePullSecrets (m_Spec deletingSample) = []
     ∨ m_Namespace misskeySample = m_Namespace deletingSample
       ∧ map ref_Name (spec_ImagePullSecrets (m_Spec misskeySample))
         ≡ₚ map ref_Name (spec_ImagePullSecrets (m_Spec deletingSample))).
Proof.
  apply (cacheKey_isolates misskeySample deletingSample "misskey:1" "misskey:1");
    [by repeat split; constructor|by repeat split; constructor|reflexivity].
Defined.

Lemma resolveImage_readonly_witness :
  Forall readOnly (reqs (historyOf noObjects (resolveImage misskeySample))).
Proof.
  apply (resolveImage_readonly misskeySample _ (resultOf noObjects (resolveImage misskeySample))).
  by apply sample_runs.
Defined.

(** ** Workloads *)

Definition cpuSample : AutoscalingSpec := mkAutoscaling (Some 2) 6 (Some 70) None.
Definition scalingSample : scaleConfig := mkScale cpuSample [] None.

Lemma one_autoscaler_witness :
  let prg := reconcileAutoscaler misskeySample "app" (nameApp misskeySample) (Some scalingSample)
               (resolve misskeySample) in
  let h := historyOf noObjects prg in
  ¬ (existsb appliesHPA (reqs h) = true ∧ existsb appliesScaledObject (reqs h) = true)
  ∧ (existsb appliesHPA (reqs h) = true →
     ∃ t, reqs h = DeleteObj (KU scaledObjectGVK) (nameApp misskeySample) (m_Namespace misskeySample) None :: t)
  ∧ (existsb appliesScaledObject (reqs h) = true →
     ∃ t, reqs h = DeleteObj KHPA (nameApp misskeySample) (m_Namespace misskeySample) None :: t).
Proof.
  apply (one_autoscaler misskeySample "app" (nameApp misskeySample) (Some scalingSample)
    (resolve misskeySample) _ (resultOf noObjects (reconcileAutoscaler misskeySample "app"
      (nameApp misskeySample) (Some scalingSample) (resolve misskeySample)))).
  by apply sample_runs.
Defined.

Lemma suspend_complete_witness :
  ∀ name, name ∈ suspendNames misskeySample (resolve misskeySample) →
  suspended misskeySample name
    (historyOf noObjects (suspendWorkloads misskeySample (resolve misskeySample))).
Proof.
  apply (suspend_complete misskeySample (resolve misskeySample)), sample_runs.
  vm_compute. reflexivity.
Defined.
Lemma deletion_footprint_witness :
  Forall (fun r => match r with
                   | Get _ _ _ | Update _ _ | Event _ _ _ _ => True
                   | _ => False end)
    (reqs (historyOf noObjects (reconcileDelete deletingSample))).
Proof.
  apply (deletion_footprint deletingSample _ (resultOf noObjects (reconcileDelete deletingSample))).
  by apply sample_runs.
Defined.
