(* ===== verification/PassWitnesses.v ===== *)
(** * Witnesses for whole handlers and passes

    Runs of the handlers and of the reconciler against stores in which the hypotheses of the
    properties hold: an instance whose backends are up, one that is suspended, one that is
    being shrunk, grown or taken apart. *)
From S2P Require Import Witnesses KubeSamples Postgres Redis Tenancy Monitoring Detector Status Safety Cleanup Confinement Names Hardening Progress Errors Waits Manager Steady.
Local Open Scope string_scope.
Local Open Scope Z_scope.
Local Open Scope list_scope.

#[local] Existing Instance kubeSample.
#[local] Existing Instance quantitySample.

#[local] Instance ownerLawsSample : OwnerLaws.
Proof.
  intros m om om'. cbn. destruct (List.find _ _) as [r|]; [|by intros [= <-]].
  by destruct (refersTo m r); intros [= <-].
Qed.

#[local] Instance finalizerLawsSample : FinalizerLaws.
Proof.
  split; intros om f; cbn; [|by eexists]. destruct (existsb _ _); [|by eexists].
  exists (om_Finalizers om). by destruct om.
Qed.

Definition startsRollout (m : Misskey) (r : req) : bool :=
  match r with UpsertBegin KDeployment o => String.eqb (om_Name (dep_Meta o)) (nameApp m) | _ => false end.
Definition startsJob (r : req) : bool := match r with Create KJob _ => true | _ => false end.

(** ** Specs *)

Definition withSearch (se : SearchSpec) (suspend : bool) (m : Misskey) : Misskey :=
  let s := m_Spec m in
  withSpec m (mkMisskeySpec (spec_URL s) (spec_Image s) (spec_ImageFrom s) (spec_TrackImageDigest s)
    (spec_IDGenerationMethod s) (spec_DeletionPolicy s) suspend (spec_Tenant s)
    (spec_ImagePullSecrets s) (spec_Runtime s) (spec_App s) (spec_Worker s) (spec_Proxy s)
    (spec_Ingress s) (spec_Redis s) se (spec_Postgres s) (spec_Migration s) (spec_SetupPassword s)
    (spec_ExtraConfig s) (spec_ObjectStorage s) (spec_SensitiveDetector s) (spec_Network s)
    (spec_Tenancy s) (spec_Monitoring s) (spec_Performance s) (spec_OutboundProxy s) (spec_Files s)).
Definition withMonitoring (mo : MonitoringSpec) (m : Misskey) : Misskey :=
  let s := m_Spec m in
  withSpec m (mkMisskeySpec (spec_URL s) (spec_Image s) (spec_ImageFrom s) (spec_TrackImageDigest s)
    (spec_IDGenerationMethod s) (spec_DeletionPolicy s) (spec_Suspend s) (spec_Tenant s)
    (spec_ImagePullSecrets s) (spec_Runtime s) (spec_App s) (spec_Worker s) (spec_Proxy s)
    (spec_Ingress s) (spec_Redis s) (spec_Search s) (spec_Postgres s) (spec_Migration s)
    (spec_SetupPassword s) (spec_ExtraConfig s) (spec_ObjectStorage s) (spec_SensitiveDetector s)
    (spec_Network s) (spec_Tenancy s) mo (spec_Performance s) (spec_OutboundProxy s) (spec_Files s)).
(** Search in the database, and the same instance asleep. *)
Definition plainSample : Misskey := withSearch (mkSearch "sqlLike" meiliSample) false misskeySample.

(** ** A server that shows everything up and running *)

Definition clusterReady (g : GVK) (n : string) : Unstructured :=
  mkUnstructured g (newMeta n "fedi") (JObj [("status", JObj [("readyInstances", JInt 1)])]).
Definition claimSample (size : string) : PersistentVolumeClaim :=
  mkPVC (newMeta "data" "") ["ReadWriteOnce"] None {["storage" := mustParse size]}.
Definition stsSample (size n : string) : StatefulSet :=
  mkStatefulSet (newMeta n "fedi") n (Some 1) (matchLabels ∅) emptyTemplate [claimSample size] 1.
Definition deploymentUp (n : string) : Deployment :=
  mkDeployment (newMeta n "fedi") (Some 1) (mkStrategy "" None None) (matchLabels ∅) emptyTemplate 1 1 1.
Definition upAndRunning (m : Misskey) : store := fun k =>
  match k as k return string → option (objT k) with
  | KMisskey => fun _ => Some m
  | KJob => fun n => Some (jobDone n)
  | KU g => fun n => if String.eqb n (nameDB m) then Some (clusterReady g n) else None
  | KStatefulSet => fun n => Some (stsSample "2Gi" n)
  | KDeployment => fun n => Some (deploymentUp n)
  | KIngress => fun n => Some (newIngress n "fedi")
  | _ => fun _ => None
  end.

(** ** Whole passes *)

Lemma rollout_gated_witness :
  rolloutGate plainSample
    (before (startsRollout plainSample)
       (historyOf (upAndRunning plainSample) (reconcileAll plainSample dcStart))).
Proof.
  edestruct (before_split (startsRollout plainSample)
    (historyOf (upAndRunning plainSample) (reconcileAll plainSample dcStart)))
    as (r & x & h2 & Hh & Hf); [vm_compute; reflexivity|].
  destruct r as [| | | | | | |k o| | | | | | | |]; try discriminate Hf.
  destruct k; try discriminate Hf.
  apply (rollout_gated plainSample dcStart
    (historyOf (upAndRunning plainSample) (reconcileAll plainSample dcStart))
    (resultOf (upAndRunning plainSample) (reconcileAll plainSample dcStart))
    (sample_runs _ _ _ eq_refl) _ o x h2 Hh).
  apply String.eqb_eq in Hf. rewrite Hf. apply list_elem_of_here.
Defined.

Lemma retain_covers_witness :
  Forall (covered misskeySample)
    (reqs (historyOf (upAndRunning misskeySample) (reconcileAll misskeySample dcStart))).
Proof.
  apply (retain_covers misskeySample dcStart _
    (resultOf (upAndRunning misskeySample) (reconcileAll misskeySample dcStart))).
  by apply sample_runs.
Defined.

(** The backup is complete and the migration has not started. *)
Lemma backup_before_migration_witness :
  backupEvidence preBackupSample
    (before startsJob
       (historyOf completedBackups (migrate preBackupSample (resolve preBackupSample)))).
Proof.
  edestruct (before_split startsJob
    (historyOf completedBackups (migrate preBackupSample (resolve preBackupSample))))
    as (r & x & h2 & Hh & Hf); [vm_compute; reflexivity|].
  destruct r as [| |k o| | | | | | | | | | | | |]; try discriminate Hf.
  destruct k; try discriminate Hf.
  eapply (backup_before_migration preBackupSample (resolve preBackupSample));
    [clear; by vm_compute|apply sample_runs; reflexivity|exact Hh].
Defined.


Lemma ready_sound_witness :
  None = None :> option error ∧ spec_Suspend (m_Spec plainSample) = false
  ∧ healthy plainSample (resolve plainSample) dcStart
      (historyOf (upAndRunning plainSample) (updateStatus plainSample None dcStart)).
Proof.
  apply (ready_sound plainSample None dcStart _
    (resultOf (upAndRunning plainSample) (updateStatus plainSample None dcStart)).2).
  apply sample_runs. vm_compute. reflexivity.
Defined.

Lemma rbac_sufficient_witness :
  Forall (fun q => permitted "" q = true ∧ permitted "events.k8s.io" q = negb (isEvent q))
    (reqs (historyOf (upAndRunning plainSample) (Reconcile 0 "social" "fedi"))).
Proof.
  apply (rbac_sufficient 0 "social" "fedi" _
    (resultOf (upAndRunning plainSample) (Reconcile 0 "social" "fedi"))).
  by apply sample_runs.
Defined.

Lemma reconcile_comes_back_witness :
  let res := mkResult (3 * Minute) in
  (0 < RequeueAfter res ∧ (RequeueAfter res = 15 * Second ∨ RequeueAfter res = driftInterval 0))
  ∨ (RequeueAfter res = 0
     ∧ ∃ x, ev (Get KMisskey "social" "fedi") x
            ∈ historyOf (upAndRunning plainSample) (Reconcile 0 "social" "fedi")
            ∧ match x with Ok m => deleting m = true | Err e => isNotFound e = true end).
Proof.
  apply (reconcile_comes_back 0 "social" "fedi"). apply sample_runs. vm_compute. reflexivity.
Defined.

Lemma namespace_confined_witness :
  Forall (atHome "fedi")
    (reqs (historyOf (upAndRunning plainSample) (Reconcile 0 "social" "fedi"))).
Proof.
  apply (namespace_confined 0 "social" "fedi" _
    (resultOf (upAndRunning plainSample) (Reconcile 0 "social" "fedi"))).
  - by apply sample_runs.
  - vm_compute. reflexivity.
Defined.

(** The same run: every name is plain and short enough. *)
Lemma names_fit_witness :
  plainName "social" = true ∧ ∀ q g n, q ∈ reqs (historyOf (upAndRunning plainSample) (Reconcile 0 "social" "fedi")) →
    touches q = Some (g, n) →
    fits g n ∨ ∃ k, gvkOf k = g ∧ swept k
      ∧ listedUnder "social" k n (historyOf (upAndRunning plainSample) (Reconcile 0 "social" "fedi")).
Proof.
  split; [reflexivity|]. apply (names_fit 0 "social" "fedi" _
    (resultOf (upAndRunning plainSample) (Reconcile 0 "social" "fedi"))).
  - by apply sample_runs.
  - vm_compute. reflexivity.
  - reflexivity.
  - apply Nat.leb_le. reflexivity.
Defined.

Definition writesConfigMap (r : req) : bool :=
  match r with UpsertCommit KConfigMap _ => true | _ => false end.
Lemma objects_named_witness :
  ∃ o, owns "social" (UpsertCommit KConfigMap o)
         (before writesConfigMap (historyOf (upAndRunning plainSample) (Reconcile 0 "social" "fedi"))).
Proof.
  edestruct (before_split writesConfigMap
    (historyOf (upAndRunning plainSample) (Reconcile 0 "social" "fedi")))
    as (r & x & h2 & Hh & Hf); [vm_compute; reflexivity|].
  destruct r as [| | | | | | | |k o| | | | | | |]; try discriminate Hf.
  destruct k; try discriminate Hf. exists o.
  refine (objects_named 0 "social" "fedi" _
    (resultOf (upAndRunning plainSample) (Reconcile 0 "social" "fedi")) _ _ _ _ x h2 Hh).
  - by apply sample_runs.
  - vm_compute. reflexivity.
Defined.

(** A neighbour whose own configuration is the migration configuration of the first instance. *)
Definition neighbourSample : Misskey :=
  set_m_Meta (mkMeta "social-migrate" "fedi" "uid-2" "18" 1 (1700000000 * Second) None ∅ ∅ [] []) plainSample.
(** Requests on the ConfigMap that the two share. *)
Definition onSharedMap (q : req) : bool :=
  bool_decide (touches q = Some (configMapGVK, "social-migrate-config")).
Lemma touched_by_sample m name :
  existsb onSharedMap (reqs (historyOf (upAndRunning m) (Reconcile 0 name "fedi"))) = true →
  ∃ q, q ∈ reqs (historyOf (upAndRunning m) (Reconcile 0 name "fedi"))
       ∧ touches q = Some (configMapGVK, "social-migrate-config").
Proof.
  intros (q & Hq & Ht)%existsb_exists. exists q. split; [by apply list_elem_of_In|].
  by apply bool_decide_eq_true_1 in Ht.
Qed.

Lemma instances_apart_witness :
  let ha := historyOf (upAndRunning plainSample) (Reconcile 0 "social" "fedi") in
  let hb := historyOf (upAndRunning neighbourSample) (Reconcile 0 "social-migrate" "fedi") in
  sharing "social" "social-migrate" configMapGVK
  ∨ ∃ k, gvkOf k = configMapGVK ∧ swept k
         ∧ (listedUnder "social" k "social-migrate-config" ha
            ∨ listedUnder "social-migrate" k "social-migrate-config" hb).
Proof.
  destruct (touched_by_sample plainSample "social") as (qa & Hqa & Hta); [by vm_compute|].
  destruct (touched_by_sample neighbourSample "social-migrate") as (qb & Hqb & Htb); [by vm_compute|].
  apply (instances_apart 0 0 "social" "social-migrate" "fedi" "fedi" _ _
    (resultOf (upAndRunning plainSample) (Reconcile 0 "social" "fedi"))
    (resultOf (upAndRunning neighbourSample) (Reconcile 0 "social-migrate" "fedi"))) with (qa := qa) (qb := qb);
    [by apply sample_runs|by apply sample_runs|vm_compute; reflexivity|vm_compute; reflexivity
    |discriminate|exact Hqa|exact Hqb|exact Hta|exact Htb].
Defined.

(** The finalizer is new, so the instance itself is written. *)
Lemma instance_written_as_read_witness :
  ∃ o, writtenAsRead (Update KMisskey o)
         (before (fun r => match r with Update KMisskey _ => true | _ => false end)
            (historyOf (upAndRunning plainSample) (Reconcile 0 "social" "fedi"))).
Proof.
  edestruct (before_split (fun r => match r with Update KMisskey _ => true | _ => false end)
    (historyOf (upAndRunning plainSample) (Reconcile 0 "social" "fedi")))
    as (r & x & h2 & Hh & Hf); [vm_compute; reflexivity|].
  destruct r as [| | | |k o| | | | | | | | | | |]; try discriminate Hf.
  destruct k; try discriminate Hf. exists o.
  eapply (instance_written_as_read 0 "social" "fedi"); [by apply sample_runs|exact Hh].
Defined.

(** Redis is not separated by role, and what separate instances may have left goes. *)
Lemma data_spared_witness :
  ∃ n ns pol, sparing misskeySample (DeleteObj KStatefulSet n ns pol)
    (before (fun r => match r with DeleteObj KStatefulSet _ _ _ => true | _ => false end)
       (historyOf (upAndRunning misskeySample) (reconcileAll misskeySample dcStart))).
Proof.
  edestruct (before_split (fun r => match r with DeleteObj KStatefulSet _ _ _ => true | _ => false end)
    (historyOf (upAndRunning misskeySample) (reconcileAll misskeySample dcStart)))
    as (r & x & h2 & Hh & Hf); [vm_compute; reflexivity|].
  destruct r as [| | | | |k n ns pol| | | | | | | | | |]; try discriminate Hf.
  destruct k; try discriminate Hf. exists n, ns, pol.
  eapply (data_spared misskeySample dcStart); [by apply sample_runs|exact Hh].
Defined.

Lemma pods_restricted_witness :
  existsb (fun q => match podOf q with Some _ => true | None => false end)
    (reqs (historyOf (upAndRunning plainSample) (reconcileAll plainSample dcStart))) = true
  ∧ Forall (fun q => hardened q = true)
      (reqs (historyOf (upAndRunning plainSample) (reconcileAll plainSample dcStart))).
Proof.
  split; [vm_compute; reflexivity|].
  apply (pods_restricted plainSample dcStart _
    (resultOf (upAndRunning plainSample) (reconcileAll plainSample dcStart))).
  by apply sample_runs.
Defined.

(** Only images of one registry, and of the operator. *)
Definition strictValidator : MisskeyCustomValidator := mkValidator ["misskey/"] [].
Definition shownAdmittedb (v : MisskeyCustomValidator) (h : history) : bool :=
  forallb (fun e => match e with
                    | existT (Get KMisskey _ _) (Ok m) | existT (Update KMisskey _) (Ok m) =>
                        (length (validate v m) =? 0)%nat && negb (String.eqb (spec_Image (m_Spec m)) "")
                    | existT (Get KChannel _ _) (Ok ch) =>
                        negb (String.eqb (chs_Image (ch_Spec ch)) "")
                        && forallb (fun img => imageAllowed img (AllowedImageRegistries v))
                             [chs_Image (ch_Spec ch); cht_Image (ch_Status ch);
                              cht_PreviousImage (ch_Status ch)]
                    | _ => true
                    end) h.
Lemma shownAdmittedb_ok v h : shownAdmittedb v h = true → shownAdmitted v h.
Proof.
  unfold shownAdmittedb. rewrite forallb_forall. intros Hf.
  assert (∀ m, (length (validate v m) =? 0)%nat && negb (String.eqb (spec_Image (m_Spec m)) "") = true →
    admitted v m) as Ha.
  { intros m [Hl Hi]%andb_true_iff. split; [by apply length_zero_iff_nil, Nat.eqb_eq|].
    intros _ Hn. rewrite Hn in Hi. discriminate. }
  split_and!.
  - intros n ns m Hin%list_elem_of_In%Hf. exact (Ha m Hin).
  - intros o m Hin%list_elem_of_In%Hf. exact (Ha m Hin).
  - intros n ns ch Hin%list_elem_of_In%Hf. lazy beta iota in Hin. cbn [forallb ev] in Hin.
    rewrite !andb_true_iff in Hin. destruct Hin as (Hn & Hs & Hi & Hp & _).
    split_and!; [|done..]. intros E. rewrite E in Hn. discriminate.
Qed.
Lemma images_allowed_witness :
  Forall (imagesAllowed strictValidator)
    (reqs (historyOf (upAndRunning plainSample) (Reconcile 0 "social" "fedi"))).
Proof.
  apply (images_allowed strictValidator 0 "social" "fedi" _
    (resultOf (upAndRunning plainSample) (Reconcile 0 "social" "fedi"))).
  - by apply sample_runs.
  - apply shownAdmittedb_ok. vm_compute. reflexivity.
Defined.

Definition channelSample : MisskeyChannel :=
  mkChannel (newMeta "stable" "") (mkChannelSpec "misskey/misskey:2025.2.0" None false)
    (mkChannelStatus "misskey/misskey:2025.1.0" "" 0 0 0 1).
Definition channelStore : store := fun k =>
  match k as k return string → option (objT k) with
  | KChannel => fun _ => Some channelSample
  | _ => fun _ => None
  end.
Lemma channel_stays_admitted_witness :
  ∃ o x, ev (StatusUpdate KChannel o) x ∈ historyOf channelStore (reconcileChannel "stable")
         ∧ channelAdmitted strictValidator o.
Proof.
  assert (∃ o x, ev (StatusUpdate KChannel o) x ∈ historyOf channelStore (reconcileChannel "stable"))
    as (o & x & Hin).
  { eexists _, _. apply list_elem_of_In. vm_compute. do 4 right. left. reflexivity. }
  exists o, x. split; [done|].
  eapply (channel_stays_admitted strictValidator "stable"); [by apply sample_runs| |exact Hin].
  apply shownAdmittedb_ok. vm_compute. reflexivity.
Defined.

(** ** Handlers *)

(** The claims on the server are smaller than the template asks for. *)
Definition smallVolumes : store := fun k =>
  match k as k return string → option (objT k) with
  | KStatefulSet => fun n => Some (stsSample "1" n)
  | KPVC => fun n => Some (mkPVC (newMeta n "fedi") ["ReadWriteOnce"] None {["storage" := mustParse "1"]})
  | _ => fun _ => None
  end.
Definition growSample : rprog unit :=
  applyStatefulSet misskeySample (stsSample "20Gi" "social-redis") (fun s => ok s).

Lemma volumes_only_grow_witness :
  existsb (fun r => match r with Update KPVC _ => true | _ => false end)
    (reqs (historyOf smallVolumes growSample)) = true
  ∧ claimsGrow (historyOf smallVolumes growSample).
Proof.
  split; [vm_compute; reflexivity|].
  apply (volumes_only_grow misskeySample (stsSample "20Gi" "social-redis") (fun s => ok s) _
    (resultOf smallVolumes growSample)); [done|by apply sample_runs].
Defined.

Lemma redis_desired_kept_witness :
  Forall (fun r => ¬ deletesInstance misskeySample (buildManagedInstance misskeySample "" None None) r)
    (reqs (historyOf (upAndRunning misskeySample) (reconcileRedis misskeySample))).
Proof.
  apply (redis_desired_kept misskeySample _
    (resultOf (upAndRunning misskeySample) (reconcileRedis misskeySample)));
    [by apply sample_runs|apply list_elem_of_here].
Defined.

Lemma redis_undesired_removed_witness :
  cleaned misskeySample (managedRedisInstances misskeySample) "jobqueue"
    (historyOf noObjects (reconcileRedis misskeySample)).
Proof.
  apply (redis_undesired_removed misskeySample).
  - apply sample_runs. vm_compute. reflexivity.
  - do 1 right. apply list_elem_of_here.
Defined.

Definition generatedKey : Secret :=
  mkSecret (set_OwnerReferences [ownerSample misskeySample]
    (set_Labels (labelsFor misskeySample "sensitive-detector") (newMeta "social-sensitive-detector" "fedi"))) ∅.
Definition keyStore : store := fun k =>
  match k as k return string → option (objT k) with
  | KSecret => fun _ => Some generatedKey
  | _ => fun _ => None
  end.

Lemma generated_secret_only_witness :
  ∃ s, ev (Get KSecret (nameSensitiveDetector misskeySample) (m_Namespace misskeySample)) (Ok s)
       ∈ historyOf keyStore (cleanupGeneratedSensitiveDetectorSecret misskeySample)
       ∧ isControlledBy (sec_Meta s) (m_Meta misskeySample) = true
       ∧ om_Labels (sec_Meta s) !! "app.kubernetes.io/managed-by" = Some "cloudnative-misskey".
Proof.
  apply (generated_secret_only misskeySample _
    (resultOf keyStore (cleanupGeneratedSensitiveDetectorSecret misskeySample)));
    [by apply sample_runs|].
  apply Exists_exists. exists (DeleteObj KSecret "social-sensitive-detector" "fedi" None).
  split; [|exact I]. apply list_elem_of_In. vm_compute. intuition.
Defined.

(** A restore test that has come up. *)
Definition verifyingBackup : PostgresBackup :=
  mkPostgresBackup "s3://backups/" "" None "30d" "0 0 3 * * *" "" (Some (mkBackupVerify 0 0)).
Definition verifyingSample : Misskey :=
  withPostgres (mkPostgres None 1 "" "" "" qty_zero None ∅ noResources (Some verifyingBackup)
                  None None None None) (mkMigration None None) misskeySample.
Definition restored : store := fun k =>
  match k as k return string → option (objT k) with
  | KMisskey => fun _ => Some verifyingSample
  | KU g => fun n => Some (clusterReady g n)
  | _ => fun _ => None
  end.

Lemma verify_recorded_witness :
  ∃ v, recorded v (historyOf restored (reconcileBackupVerify verifyingSample))
       ∧ verdict verifyingSample (mkBackupVerify 0 0) v
           (historyOf restored (reconcileBackupVerify verifyingSample)).
Proof.
  apply (verify_recorded verifyingSample verifyingBackup (mkBackupVerify 0 0) _
    (resultOf restored (reconcileBackupVerify verifyingSample)));
    [reflexivity|reflexivity|by apply sample_runs|].
  apply Exists_exists.
  exists (DeleteObj (KU cnpgClusterGVK) (nameDBVerify verifyingSample) "fedi" None).
  split; [|exact I]. apply list_elem_of_In. vm_compute. intuition.
Defined.

Lemma verify_isolated_witness :
  Forall (verifyFootprint verifyingSample)
    (reqs (historyOf noObjects (reconcileBackupVerify verifyingSample))).
Proof.
  apply (verify_isolated verifyingSample _
    (resultOf noObjects (reconcileBackupVerify verifyingSample))).
  by apply sample_runs.
Defined.

(** Three instances behind poolers, with read offload. *)
Definition pooledSample : Misskey :=
  withPostgres (mkPostgres None 3 "" "" "" qty_zero None ∅ noResources None None None
                  None (Some (mkPostgresPooler 2 "" ∅ noResources))) (mkMigration None None) misskeySample.

Lemma poolers_match_plan_witness :
  poolersMatch pooledSample (planHosts (resolve pooledSample))
    (historyOf noObjects (reconcilePoolers pooledSample)).
Proof.
  apply (poolers_match_plan pooledSample); [reflexivity|].
  apply sample_runs. vm_compute. reflexivity.
Defined.

(** The cloud metadata service, 169.254.169.254. *)
Lemma egress_public_only_witness :
  addressAdmitted 2852039166 (np_Egress (frontendPolicy misskeySample (newNetworkPolicy "a" "fedi")))
  = negb (privateAddress 2852039166)
  ∧ addressAdmitted 2852039166 (np_Egress (backendPolicy misskeySample (newNetworkPolicy "a" "fedi"))) = false.
Proof. apply (egress_public_only misskeySample (newNetworkPolicy "a" "fedi")). lia. Defined.

Lemma waitGone_bounded_witness :
  (length (historyOf smallVolumes (waitGone pollTicks "social-redis" "fedi")) ≤ 2 * pollTicks + 1)%nat.
Proof.
  apply (waitGone_bounded pollTicks "social-redis" "fedi" _
    (resultOf smallVolumes (waitGone pollTicks "social-redis" "fedi"))).
  by apply sample_runs.
Defined.

Definition monitoredSample : Misskey :=
  withMonitoring (mkMonitoring (Some true) ∅ "" "" None) misskeySample.

Lemma redis_monitor_kept_witness :
  Forall (fun r => match r with
                   | DeleteObj _ n _ _ => n ≠ nameRedisMonitor monitoredSample ""
                   | _ => True end)
    (reqs (historyOf noObjects (reconcileMonitoring monitoredSample (resolve monitoredSample)))).
Proof.
  apply (redis_monitor_kept monitoredSample (resolve monitoredSample) _
    (resultOf noObjects (reconcileMonitoring monitoredSample (resolve monitoredSample)))
    (buildManagedInstance monitoredSample "" None None));
    [reflexivity|apply list_elem_of_here|by apply sample_runs].
Defined.

(** ** Settled and converged servers *)

#[local] Instance adoptLawsSample : AdoptLaws.
Proof.
  intros m om [_ Hc]%andb_true_iff. cbn. destruct (List.find _ _) as [r|] eqn:E; [|by eexists].
  apply List.find_some in E as [Hin Hr]. rewrite forallb_forall in Hc. specialize (Hc r Hin).
  rewrite Hr in Hc. cbn in Hc. rewrite Hc. by eexists.
Qed.

(** An instance with object storage and an external detector: every gate is there. *)
Definition withDetector (d : SensitiveDetectorSpec) (m : Misskey) : Misskey :=
  let s := m_Spec m in
  withSpec m (mkMisskeySpec (spec_URL s) (spec_Image s) (spec_ImageFrom s) (spec_TrackImageDigest s)
    (spec_IDGenerationMethod s) (spec_DeletionPolicy s) (spec_Suspend s) (spec_Tenant s)
    (spec_ImagePullSecrets s) (spec_Runtime s) (spec_App s) (spec_Worker s) (spec_Proxy s)
    (spec_Ingress s) (spec_Redis s) (spec_Search s) (spec_Postgres s) (spec_Migration s)
    (spec_SetupPassword s) (spec_ExtraConfig s) (spec_ObjectStorage s) (Some d) (spec_Network s)
    (spec_Tenancy s) (spec_Monitoring s) (spec_Performance s) (spec_OutboundProxy s) (spec_Files s)).
Definition externalDetector : SensitiveDetectorSpec :=
  mkDetector "all" "" false false 0 0 (Some (mkExternalDetector "https://detect.example" (mkSel "detect" "key")))
    "" None noResources ∅ [] None "".
Definition gatedSample : Misskey :=
  withDetector externalDetector (withObjectStorage (storageSample "media" "x") plainSample).

(** The same server after a rollout: app and worker carry the checksum of the configuration. *)
Definition checksumSample : gmap string string :=
  match resultOf (upAndRunning gatedSample) (misskeyChecksum gatedSample (resolve gatedSample)) with
  | Ok c => c | Err _ => ∅ end.
Definition rolloutDone : store := fun k =>
  match k as k return string → option (objT k) with
  | KDeployment => fun n =>
      Some (mkDeployment (newMeta n "fedi") (Some 1) (mkStrategy "" None None) (matchLabels ∅)
              (mkTemplate ∅ checksumSample emptyPodSpec) 1 1 1)
  | k => upAndRunning gatedSample k
  end.
Definition deletesDetector (r : req) : bool :=
  match r with
  | DeleteObj KDeployment n _ _ => String.eqb n (nameSensitiveDetector gatedSample)
  | _ => false
  end.
(** The workload of a detector that has moved elsewhere is deleted, and was waited for. *)
Lemma detector_cleanup_waits_witness :
  cleanupGate gatedSample
    (before deletesDetector (historyOf rolloutDone (reconcileAll gatedSample dcStart))).
Proof.
  edestruct (before_split deletesDetector (historyOf rolloutDone (reconcileAll gatedSample dcStart)))
    as (r & x & h2 & Hh & Hf); [vm_compute; reflexivity|].
  destruct r as [| | | | |k n ns pol| | | | | | | | | |]; try discriminate Hf.
  destruct k; try discriminate Hf.
  apply (detector_cleanup_waits gatedSample (historyOf rolloutDone (reconcileAll gatedSample dcStart))
    (resultOf rolloutDone (reconcileAll gatedSample dcStart))
    (sample_runs _ _ _ eq_refl) _ (DeleteObj KDeployment n ns pol) x h2 Hh).
  by apply String.eqb_eq in Hf.
Defined.
(** The server of [upAndRunning], with the detector configured. *)
Definition configuredServer (m : Misskey) : store := fun k =>
  match k as k return string → option (objT k) with
  | KConfigMap => fun n =>
      if String.eqb n (nameSensitiveDetectorConfig m)
      then Some (mkConfigMap (newMeta n "fedi") {["desired-hash" := "0123456789abcdef"]}) else None
  | k => upAndRunning m k
  end.

Lemma gatedSample_feasible : feasible gatedSample.
Proof. constructor; vm_compute; [done|]. intros _. exact I. Defined.

Lemma settled_rolls_out_witness :
  let h := historyOf (upAndRunning gatedSample) (reconcileAll gatedSample dcStart) in
  Ok tt = Ok tt :> result error unit
  ∧ (spec_Suspend (m_Spec gatedSample) = false →
     (∃ e, e ∈ h ∧ rolledApp gatedSample e) ∧ (∃ e, e ∈ h ∧ rolledWorker gatedSample e)).
Proof.
  cbv zeta. apply (settled_rolls_out gatedSample dcStart _
    (resultOf (upAndRunning gatedSample) (reconcileAll gatedSample dcStart)).1.1
    (resultOf (upAndRunning gatedSample) (reconcileAll gatedSample dcStart)).1.2).
  - exact gatedSample_feasible.
  - reflexivity.
  - apply sample_runs. vm_compute. reflexivity.
  - vm_compute. reflexivity.
Defined.

Lemma converged_becomes_ready_witness :
  let h := historyOf (configuredServer gatedSample) (reconcileLive 0 gatedSample) in
  resultOf (configuredServer gatedSample) (reconcileLive 0 gatedSample) = Ok (mkResult (3 * Minute))
  ∧ ∃ e, e ∈ h ∧ wroteRunning e.
Proof.
  cbv zeta. destruct (converged_becomes_ready 0 gatedSample
    (historyOf (configuredServer gatedSample) (reconcileLive 0 gatedSample))
    (resultOf (configuredServer gatedSample) (reconcileLive 0 gatedSample)))
    as [(h1 & m' & e & _ & Hr)|Hr].
  - exact gatedSample_feasible.
  - reflexivity.
  - by apply sample_runs.
  - vm_compute. reflexivity.
  - destruct Hr as [_ [=]].
  - exact Hr.
Defined.

(** ** Watches *)

(** The owner that was added is found as the controller. *)
Lemma controller_sample m om om' :
  setControllerReference m om = Ok om' →
  om' = set_OwnerReferences (om_OwnerReferences om') om
  ∧ ∃ r, List.find own_Controller (om_OwnerReferences om') = Some r ∧ refersTo m r = true.
Proof.
  cbn. destruct (List.find own_Controller (om_OwnerReferences om)) as [r|] eqn:E.
  - destruct (refersTo m r) eqn:Er; [|done]. intros [= <-]. split; [by destruct om|by exists r].
  - intros [= <-]. split; [done|]. exists (ownerSample m). cbn. split.
    + revert E. induction (om_OwnerReferences om) as [|r l IH]; cbn; [done|].
      by destruct (own_Controller r).
    + unfold refersTo. cbn. by rewrite !String.eqb_refl.
Qed.
#[local] Instance controlLawsSample : ControlLaws.
Proof. intros m om om' E. by destruct (controller_sample m om om' E). Qed.
#[local] Instance refLawsSample : RefLaws.
Proof.
  split; intros m om om' E; destruct (controller_sample m om om' E) as (Hr & r & Ef & Er); [done|].
  cbn. by rewrite Ef, Er.
Qed.
(** The handler as controller-runtime documents it. *)
#[local] Instance watchSample : WatchLib := {|
  enqueueOwner om :=
    match controllerOf om with
    | Some r =>
        if hasPrefix (own_APIVersion r) "cloudnative-misskey.dev/" && String.eqb (own_Kind r) "Misskey"
        then [(om_Namespace om, own_Name r)] else []
    | None => []
    end |}.
#[local] Instance watchLawsSample : WatchLaws.
Proof.
  intros m om (r & E & Hr). cbn. rewrite E. unfold refersTo in Hr.
  repeat rewrite andb_true_iff in Hr. rewrite !String.eqb_eq in Hr.
  destruct Hr as [[[-> ->] ->] _]. reflexivity.
Qed.

Lemma writes_watched_witness :
  let h := historyOf (upAndRunning plainSample) (reconcileAll plainSample dcStart) in
  Forall (linked plainSample) (reqs h)
  ∧ ∀ k o, UpsertCommit k o ∈ reqs h ∨ Create k o ∈ reqs h → unwatched k = false →
      misskeyRequests k o = Ret [(om_Namespace (metaOf k o), "social")].
Proof.
  cbv zeta. apply (writes_watched plainSample dcStart _
    (resultOf (upAndRunning plainSample) (reconcileAll plainSample dcStart))).
  by apply sample_runs.
Defined.

(** ** Passes that do not fight themselves *)

(** The first Secret a history writes: the key of the search engine. *)
Fixpoint firstSecret (h : history) : Secret :=
  match h with
  | [] => newSecret "" ""
  | existT (UpsertCommit KSecret o) _ :: _ => o
  | _ :: h => firstSecret h
  end.
(** A server that takes no write, so that a pass ends at its first one. *)
Definition refusing (s : unit) (r : req) : unit * resp r :=
  match r with
  | UpsertCommit _ _ => (tt, Err (errorf "refused"))
  | r => serverSample noObjects s r
  end.
Definition refusedPass := exec refusing tt (reconcileAll misskeySample dcStart).
Lemma upserts_settle_witness :
  let b := firstSecret refusedPass.1.2 in
  let o := newSecret (nameMeili misskeySample) "fedi" in
  let drawn := [ev (RandRead 32) (Ok (repeat 7%N 32))] in
  ∃ h2', h2' `sublist_of` drawn ∧ Forall isGet (reqs h2')
    ∧ sends (reconcileAll misskeySample dcStart) ([] ++ ev (UpsertBegin KSecret o) (Ok b) :: h2')
        (UpsertCommit KSecret b).
Proof.
  cbv zeta. eapply (upserts_settle misskeySample dcStart []
    KSecret _ (newSecret (nameMeili misskeySample) "fedi") _ _ (Err (errorf "refused")) []
    refusedPass.2).
  - pose proof (exec_runs refusing (reconcileAll misskeySample dcStart) tt) as Hr.
    assert ((exec refusing tt (reconcileAll misskeySample dcStart)).1.2
      = [] ++ ev (UpsertBegin KSecret (newSecret (nameMeili misskeySample) "fedi"))
                 (Ok (newSecret (nameMeili misskeySample) "fedi"))
        :: [ev (RandRead 32) (Ok (repeat 7%N 32))]
           ++ [ev (UpsertCommit KSecret (firstSecret refusedPass.1.2)) (Err (errorf "refused"))])
      as E by (vm_compute; reflexivity).
    rewrite E in Hr. exact Hr.
  - constructor; [reflexivity|constructor].
Defined.

(** The pass over the results of a whole pass. *)
Lemma pass_replays_witness :
  let h := historyOf (upAndRunning plainSample) (Reconcile 0 "social" "fedi") in
  ∃ h', echoes h h'
    ∧ runs (Reconcile 0 "social" "fedi") h'
        (resultOf (upAndRunning plainSample) (Reconcile 0 "social" "fedi"))
    ∧ changesOf h' = changesOf h.
Proof.
  cbv zeta. apply (pass_replays 0 "social" "fedi" _
    (resultOf (upAndRunning plainSample) (Reconcile 0 "social" "fedi"))).
  by apply sample_runs.
Defined.

(** ** A refusal comes to light *)

(** The same server, which knows the instance: the first write of the pass is refused. *)
Definition refusingWrites (s : unit) (r : req) : unit * resp r :=
  match r with
  | UpsertCommit _ _ => (tt, Err (errorf "refused"))
  | r => serverSample (upAndRunning plainSample) s r
  end.
Definition refusedReconcile := exec refusingWrites tt (Reconcile 0 "social" "fedi").
Lemma failures_surface_witness :
  let h := refusedReconcile.1.2 in
  (∀ h1 e h2, h = h1 ++ e :: h2 → carriedOutOrStatus e = false → Forall aftermath (reqs h2))
  ∧ (notStarted "social" "fedi" (errorf "refused") h ∨ announced (errorf "refused") h).
Proof.
  cbv zeta.
  refine (failures_surface 0 "social" "fedi" refusedReconcile.1.2 (Err (errorf "refused")) _).
  pose proof (exec_runs refusingWrites (Reconcile 0 "social" "fedi") tt) as Hr.
  assert ((exec refusingWrites tt (Reconcile 0 "social" "fedi")).2 = Err (errorf "refused")) as E
    by (vm_compute; reflexivity).
  rewrite E in Hr. exact Hr.
Defined.

Lemma pass_ends_witness :
  let h := historyOf (upAndRunning plainSample) (Reconcile 0 "social" "fedi") in
  (countOf isPoll h ≤ replaced * pollTicks)%nat ∧ (countOf isStatusWrite h ≤ 2 * attempts)%nat.
Proof.
  cbv zeta. apply (pass_ends 0 "social" "fedi" _
    (resultOf (upAndRunning plainSample) (Reconcile 0 "social" "fedi"))).
  by apply sample_runs.
Defined.
